(* ===== verification/_CoqProject ===== *)
-Q . S2P
Prelude.v
Floats.v
Hist.v
Clock.v
Calibrate.v
EventSlotPool.v
SendLane.v
UrmaEvents.v
Args.v
Affinity.v
Requests.v
Pipeline.v
ManagerWorld.v
PipelineInv.v
PipelineThms.v
PipelineProps.v
Mixed.v
MixedProps.v
Liburma.v
UrmaResource.v
UrmaResourceInv.v
UrmaResourceProps.v
Wire.v
UrmaManager.v
UrmaManagerProps.v
Stats.v
Dual.v
DualProps.v
Session.v
SessionProps.v
DualSession.v
DualSessionProps.v
Getopt.v
Pinning.v
ChipQuery.v
Server.v
ServerProps.v
Worker.v
Main.v
