(* ===== verification/Prelude.v ===== *)
(** * Verification of kv-bench

    kv-bench is a benchmark client and server for one-sided RDMA over URMA
    (UB).  A client process registers a buffer, connects to a server over TCP,
    exchanges segment descriptors and then runs worker threads that post
    batches of WRITE and READ work requests on a pool of jettys ("send lanes");
    one poll thread takes completions from the device and hands them to the
    workers; latencies go to HDR-style histograms.

    ** The parts and where they are modelled

    - [Prelude]: this file.  Machine integers as [Z] with the wrap-around
      written out ([u8], [u32], [u64], [i32] and the operators [+u64], ...),
      lemmas on bits, sums and lists, the state-passing monad [ST] with its
      triples and decreasing measures, reachability.
    - [Floats]: numbers in a binary floating-point format of any precision:
      when arithmetic on integers is exact, and how far a rounded result is off
      otherwise.
    - [Hist]: [src/hist.h].  The record [kv_hist] is the struct; one definition
      per function.  Loops over the counter array are folds; the doubling loop
      of [kv_hist_init] has 64 units of fuel, and [hist_init_terminates_iff]
      says exactly when it ends.
    - [Clock]: [src/clock.cpp].  [CalcMultShift] (both loops are structural on
      the number of bits left), [kv_clock_init], [kv_now_ns].
    - [Calibrate]: [kv_cycles] of [src/clock.h], [ReadCntfrq] and
      [CalibrateFreq] with its regression in [long double].
    - [EventSlotPool]: [src/urma/event_slot_pool.h].  The pool of completion
      events of one worker; every atomic access is a step of its own, so that
      worker and poll thread can be interleaved.
    - [SendLane]: [src/urma/urma_send_lane.h].  The pool of send lanes.
    - [UrmaEvents]: the worker and event calls of [src/urma/urma_manager.cpp]
      ([RegisterWorker], [PostEvent], [WaitEvent], [ProbeEvent], [AbortEvent])
      and the completion loop of the poll thread.
    - [Args]: option parsing, validation and buffer layout in
      [src/kv_bench.cpp].
    - [Affinity]: NUMA and chip lookup, CPU selection, chip choice per send and
      the weighted scheduler in [src/kv_bench.cpp].
    - [Requests]: addresses and lengths of the work requests.
    - [Pipeline]: the request pipelines of a worker ([post_one_req],
      [post_one_get], [drain_posted_wrs], [client_write_pipeline],
      [client_get_pipeline]) in state-passing style, against an interface
      ([Manager], with its laws [ManagerLaws]) of the calls they make.  Every
      state of the interface has a record of the calls made ([history], which
      the program does not read): which lanes were taken and given back, which
      posts and waits failed.  The theorems about accounts read it.
    - [ManagerWorld]: the interface implemented by [SendLane] and [UrmaEvents]
      in a scripted environment; the laws are discharged there.
    - [PipelineInv], [PipelineThms]: resource accounting, first for one
      request, then for the main loop, the drain and the whole pipeline.
    - [PipelineProps]: the theorems about pipelines and their witnesses.
    - [Mixed], [MixedProps]: the synchronous rounds of mixed mode
      ([client_do_write], [client_do_get] and the loop of
      [client_worker_main]) on the same interface, and what they guarantee.

    - [Liburma]: the library below the program as a type class: its answer to
      every call may depend on all calls before.  Also the audit of a history of
      calls (handles are used while they live, deleted once and children first)
      and the reference-counted objects behind [std::shared_ptr].
    - [UrmaResource]: [src/urma/urma_resource.h] and [.cpp].  Every wrapper with
      its creation and destructor and every method of [UrmaResource], as
      state-passing functions on the calls and objects.
    - [UrmaResourceInv], [UrmaResourceProps]: who owns which handle; the
      invariant for every primitive, every method and every history.
    - [Wire]: the message of the handshake as bytes, and [SockSyncData].
    - [UrmaManager], [UrmaManagerProps]: the rest of
      [src/urma/urma_manager.cpp]: start and stop, buffer, handshake, posts and
      the poll thread; what holds of every history of a manager.
    - [Stats]: summary, latency windows and sampler of [src/kv_bench.cpp], with
      IEEE doubles, on [Hist].
    - [Dual], [DualProps]: the workers of the two-device mode, on four
      managers.  [DualSession], [DualSessionProps]: [run_dual_client] and
      [run_dual_server] around them.
    - [Session], [SessionProps]: a process from its start to its end: buffer
      and NUMA binding, handshake parameters, creation of the workers,
      [run_client] with the clean-up of every exit, the server's connection
      table.
    - [Server], [ServerProps]: [server_listen], the accepting thread, the
      connection threads and the joins of [run_server] as a step relation.
    - [Worker]: [client_worker_main] around the pipelines and mixed rounds.
    - [Getopt]: the option table and [getopt_long], in front of [Args].
    - [Pinning]: [pin_thread_to_cpu] and [apply_cpu_list].
    - [ChipQuery]: [run_chip_query].
    - [Main]: [main], which puts the modes together.

    Workers call the manager ([Pipeline], [Mixed] and [Dual] on the interface
    [Manager]); the manager keeps lanes ([SendLane]) and events ([UrmaEvents] on
    [EventSlotPool]); chip numbers come from [Affinity], addresses from
    [Requests], limits from [Args], samples go to [Hist] and times come from
    [Clock].  Below that the manager ([UrmaManager]) owns the handles of the
    library ([UrmaResource] on [Liburma]) and talks to its peer ([Wire]);
    [Session] puts the parts together into a process and [Stats] reports what
    the workers have counted.

    ** What the theorems show

    - Events: every interleaving of a worker with the poll thread is a run of a
      simple set of events ([pool_linearizable]); tokens are not reused
      ([pool_tokens_unique]), late completions do no harm
      ([pool_late_completion]); a posted event is delivered to its owner
      ([post_complete_roundtrip]); a wait returns at the latest when the clock
      reaches its deadline and always frees its slot ([wait_event_total]).
    - Lanes: the pool is a FIFO queue of idle members ([lanes_refine_queue],
      [lanes_fifo]); no lane is handed out twice ([lanes_exclusive]).
    - Pipelines: a request is posted completely or rolled back
      ([post_one_all_or_nothing]), and the lanes kept after a failure are exactly
      those on which the record shows a failed wait; a pipeline ends
      ([pipeline_terminates]) and leaves no event, slot or lane behind
      ([pipeline_drains]) or gives up on exactly one fault with its accounts
      correct ([pipeline_gives_up]); the work requests of a request cover its bytes
      exactly and stay inside the buffers ([write_requests_tile],
      [get_requests_tile], [mixed_rounds_inside]); the rate limiter is safe
      against wrap-around ([pace_is_integer_pace]).
    - Mixed mode: the rounds counted are the complete rounds of the record, no
      event is left behind, and a lane is kept only when a wait on it failed
      ([mixed_worker_accounts]); the worker stops at its deadline
      ([mixed_worker_stops]).
    - Histogram: counts are those of the recorded samples ([hist_record_exact],
      [hist_merge_is_union], [hist_delta_is_interval],
      [hist_snapshot_concurrent]); the rank of a percentile is right although it
      is computed in [double], and the value reported brackets it
      ([hist_percentile_bracket], for fewer than 2^40 samples).
    - Handshake: [wire_roundtrip], [sock_sync_exact] and [handshake_agree]: each side
      learns what the other published, member by member and however the bytes
      arrive, or both refuse because of the send sizes; otherwise a side has no
      connection only if the library refused it an import or a binding.
    - Handles: whatever the library answers and whichever call fails, the
      resource layer and the manager use, share and delete their handles
      correctly, as long as they are started and stopped only while nobody holds
      a reference ([resource_history_safe], [resource_init_ready],
      [resource_clear_releases_all], [manager_history_safe]); a post is exactly
      one work request ([post_is_one_request]); the poll thread delivers every
      record once ([poll_thread_delivers]).
    - Process: whatever fails, a run of the program on one device ends with
      every handle deleted, but for the order of two deletions, unless the
      workers of a client left lanes in their slots ([main_ends_clean], with
      [client_early_failure_clean] and [client_end_releases]); the workers start in the state the pipelines
      assume ([create_workers_ready]) and a worker thread ends with a drained
      pipeline or a counted failure ([worker_main_outcome]); the NUMA binding
      covers the buffer ([mbind_covers]).
    - Server: in every interleaving of its threads sockets, table and handles
      stay consistent ([server_threads_safe], [server_conns_safe]); its end is
      reached unless a client stays connected and silent
      ([server_shutdown_ends]).
    - Dual mode: [dual_worker_accounts], [dual_worker_stops],
      [dual_round_tiles], [dual_ports_paired], [dual_summary_merges].
    - Reports: [interval_windows_exact], [interval_windows_partition] (also
      while the workers go on recording), [summary_merges_workers].
    - Parameters: every accepted parameter set can be given on the command line
      ([command_line_roundtrip]); accepted arguments are in range
      ([parse_arguments_valid]) and give buffers of the intended size
      ([layout_sizes]); the weighted scheduler is fair within every request
      for weights up to a bound ([weighted_chips_fair]); the chip query tells what a run does ([chip_query_predicts]).
    - Clock: the conversion is exact within a window ([clock_window_exact]), the
      calibration for counters of whole cycles per nanosecond whose samples are
      on a line ([calibration_exact]).
    - Places where the code does not do what it means to:
      [clock_wraps_and_deadline_unreachable], [get_drain_spurious],
      [weighted_chips_overflow], [hist_coarse_unit_drops],
      [hist_pairs_above_half], [stop_segment_outlives_context],
      [kept_lane_outlives_library], [dual_server_overrun],
      [dual_failure_abandons], [dual_library_left_early], [dual_interval_unit],
      [apply_cpu_list_reading], [anti_halves_differ].

    ** Bounds and fuel

    Fuel appears where a loop is not structural.  [Pipeline.collect],
    [Pipeline.send] and [Pipeline.drain_all] get the number of slots plus one,
    eleven (the concurrency limit plus one) and the number of slots plus one;
    they return [None] when it runs out, and [pipeline_terminates] shows that
    this never happens.  [Pipeline.main_loop] runs as long as the clock is
    before the deadline; its fuel is the number of such readings, and so is that
    of [Mixed.mixed_loop] and [Dual.dual_loop].  [Session.mbind_to_node] has one
    pass per gigabyte and one more, and [mbind_covers] shows that it returns.
    The threads of the server need no fuel: they are a step relation, and
    [server_shutdown_ends] bounds its runs.  A peer may fall silent at any time:
    [Server.silent] says which sockets a read would block on, and a blocked
    thread has no step.  The waiting loop of
    [Calibrate.take_sample] takes the clock's values from a list.
    The loop of [WaitEvent] takes its rounds from the
    environment and [wait_event_total] shows that rounds reaching the deadline
    are enough.

    ** What is not modelled

    The code of liburma: it is the class [Liburma], and theorems that need it
    assume only that a handle it returns is not one that is alive
    ([fresh_handles]); [demo_lib] satisfies this.  The text of reports and
    [usage].  What the operating system and the hardware answer is input: system
    calls on sockets, thread creation, memory, [sched_setaffinity], [mbind], the
    counter registers and [clock_gettime].  The CPU of the poll thread
    ([SetPollCpu]) is chosen ([auto_poll_cpu]) and not part of the manager's
    state.  The clean-up theorems take one manager per process; for the four
    managers of dual mode the order of the calls is proved, not an invariant of
    all their handles.  The worker threads of a client are an argument of
    [run_client] and [main]: what they do to the manager is assumed there to be
    [work_step]s (lanes taken and given back, posts on lanes held), while what
    the pipelines and rounds do is proved on the interface [Manager]. *)

From Stdlib Require Export ZArith Lia.
From stdpp Require Export base numbers gmap option.
From stdpp Require Export list.

(** ** Machine integers

    A [w]-bit integer is a [Z]; every arithmetic operation of the source that
    can leave the range is followed by the truncation written here. *)

Declare Scope kv_scope.
Delimit Scope kv_scope with kv.

#[global] Open Scope Z_scope.

Definition u8 (x : Z) : Z := x mod 2 ^ 8.
Definition u32 (x : Z) : Z := x mod 2 ^ 32.
Definition u64 (x : Z) : Z := x mod 2 ^ 64.
(** Conversion to [int] / [int32_t] (two's complement). *)
Definition i32 (x : Z) : Z := (x + 2 ^ 31) mod 2 ^ 32 - 2 ^ 31.

Definition UINT64_MAX : Z := 2 ^ 64 - 1.
Definition UINT32_MAX : Z := 2 ^ 32 - 1.

Notation "a <<u64 b" := (u64 (Z.shiftl a b)) (at level 42, left associativity) : kv_scope.
Notation "a +u64 b" := (u64 (a + b)) (at level 50, left associativity) : kv_scope.
Notation "a *u64 b" := (u64 (a * b)) (at level 40, left associativity) : kv_scope.
Notation "a -u64 b" := (u64 (a - b)) (at level 50, left associativity) : kv_scope.
#[global] Open Scope kv_scope.

(** Range predicates. *)
Definition is_u32 (x : Z) : Prop := 0 <= x < 2 ^ 32.
Definition is_u64 (x : Z) : Prop := 0 <= x < 2 ^ 64.

Create HintDb kv.
Create Rewrite HintDb kv_arith.

Lemma u64_small x : 0 <= x < 2 ^ 64 -> u64 x = x.
Proof. apply Z.mod_small. Qed.

Lemma u32_small x : 0 <= x < 2 ^ 32 -> u32 x = x.
Proof. apply Z.mod_small. Qed.

Lemma u8_small x : 0 <= x < 2 ^ 8 -> u8 x = x.
Proof. apply Z.mod_small. Qed.

Lemma i32_small x : - 2 ^ 31 <= x < 2 ^ 31 -> i32 x = x.
Proof. intros H. unfold i32. rewrite Z.mod_small; lia. Qed.

Lemma u64_range x : 0 <= u64 x < 2 ^ 64.
Proof. apply Z.mod_pos_bound. lia. Qed.

Lemma u32_range x : 0 <= u32 x < 2 ^ 32.
Proof. apply Z.mod_pos_bound. lia. Qed.

#[export] Hint Rewrite u64_small u32_small u8_small i32_small using lia : kv_arith.
#[export] Hint Resolve u64_range u32_range : kv.

(** [uN] in the goal or in the hypotheses collapses when [lia] can show that
    the value did not leave its range. *)
Ltac usimp := autorewrite with kv_arith.
Ltac usimp_in H := autorewrite with kv_arith in H.

(** [lia] with the Euclidean equations of every [/] and [mod] in sight. *)
Ltac dlia := Z.to_euclidean_division_equations; lia.

(** ** Bits *)

Lemma testbit_ge b k n : 0 <= k -> 0 <= b < 2 ^ k -> k <= n -> Z.testbit b n = false.
Proof.
  intros Hk Hb Hn. rewrite <- (Z.mod_small b (2 ^ k)) by lia.
  apply Z.mod_pow2_bits_high. lia.
Qed.

(** Disjoint [|] is [+]: [(a << k) | b] with [b] below bit [k]. *)
Lemma lor_shiftl_low a b k :
  0 <= k -> 0 <= b < 2 ^ k -> Z.lor (Z.shiftl a k) b = a * 2 ^ k + b.
Proof.
  intros Hk Hb.
  assert (Hd : Z.land (Z.shiftl a k) b = 0).
  { apply Z.bits_inj'. intros n Hn. rewrite Z.land_spec, Z.bits_0.
    destruct (Z.lt_ge_cases n k).
    - rewrite Z.shiftl_spec_low by lia. reflexivity.
    - rewrite (testbit_ge b k n) by lia. apply andb_false_r. }
  rewrite <- (Z.lxor_lor _ _ Hd), <- (Z.add_nocarry_lxor _ _ Hd).
  by rewrite Z.shiftl_mul_pow2.
Qed.

(** [x & (2^k - 1)] is [x mod 2^k]. *)
Lemma land_mask x k : 0 <= k -> Z.land x (2 ^ k - 1) = x mod 2 ^ k.
Proof.
  intros Hk. rewrite <- Z.land_ones by lia. f_equal.
  rewrite Z.ones_equiv. lia.
Qed.

Lemma shiftr_add_low a b k :
  0 <= k -> 0 <= b < 2 ^ k -> Z.shiftr (a * 2 ^ k + b) k = a.
Proof.
  intros Hk Hb. rewrite Z.shiftr_div_pow2 by lia.
  rewrite Z.div_add_l by lia. rewrite Z.div_small by lia. lia.
Qed.

Lemma mod_add_low a b k : 0 <= b < 2 ^ k -> (a * 2 ^ k + b) mod 2 ^ k = b.
Proof.
  intros Hb. rewrite Z.add_comm, Z.mod_add by lia. by apply Z.mod_small.
Qed.

Lemma pow2_pos k : 0 <= k -> 0 < 2 ^ k.
Proof. intros. apply Z.pow_pos_nonneg; lia. Qed.

#[export] Hint Resolve pow2_pos : kv.

(** [log2] pins a value between two powers of two. *)
Lemma log2_bounds v : 0 < v -> 2 ^ Z.log2 v <= v < 2 ^ (Z.log2 v + 1).
Proof. intros H. rewrite Z.add_1_r. by apply Z.log2_spec. Qed.

Lemma log2_lt_width v w : 0 < v < 2 ^ w -> Z.log2 v < w.
Proof. intros H. apply Z.log2_lt_pow2; lia. Qed.

(** ** Lists of integers *)

Definition sumZ (l : list Z) : Z := foldr Z.add 0 l.

Lemma sumZ_app l1 l2 : sumZ (l1 ++ l2) = sumZ l1 + sumZ l2.
Proof. induction l1 as [|x l1 IH]; simpl; lia. Qed.

Lemma sumZ_insert (l : list Z) i x y :
  l !! i = Some x -> sumZ (<[i:=y]> l) = sumZ l - x + y.
Proof.
  revert i. induction l as [|z l IH]; intros [|i] H; simplify_eq/=; [lia|].
  rewrite (IH _ H). lia.
Qed.

Lemma sumZ_replicate0 n : sumZ (replicate n 0) = 0.
Proof. induction n; simpl; lia. Qed.

Lemma sumZ_nonneg l : Forall (fun x => 0 <= x) l -> 0 <= sumZ l.
Proof. induction 1; simpl; lia. Qed.

Lemma sumZ_elem_le (l : list Z) i x :
  Forall (fun x => 0 <= x) l -> l !! i = Some x -> x <= sumZ l.
Proof.
  intros HF. revert i. induction HF as [|y l Hy HF IH]; intros [|i] H; simplify_eq/=.
  - pose proof (sumZ_nonneg _ HF). lia.
  - specialize (IH _ H). lia.
Qed.

Lemma sumZ_zip_with_add (l1 l2 : list Z) :
  length l1 = length l2 -> sumZ (zip_with Z.add l1 l2) = sumZ l1 + sumZ l2.
Proof.
  revert l2. induction l1 as [|x l1 IH]; intros [|y l2] H; simplify_eq/=; [lia|].
  rewrite (IH _ H). lia.
Qed.

(** Two lists of the same length with the same lookups. *)
Lemma list_eq_lookup {A} (l1 l2 : list A) :
  (forall i, l1 !! i = l2 !! i) -> l1 = l2.
Proof. apply list_eq. Qed.

(** ** State passing *)

Definition ST (S A : Type) : Type := S -> A * S.

#[global] Instance ST_ret S : MRet (ST S) := fun A a s => (a, s).
#[global] Instance ST_bind S : MBind (ST S) :=
  fun A B f m s => let '(a, s') := m s in f a s'.

Lemma ST_bind_eq {S A B} (m : ST S A) (f : A -> ST S B) s : (m ≫= f) s = f (fst (m s)) (snd (m s)).
Proof. unfold mbind, ST_bind. by destruct (m s). Qed.

(** Total-correctness triples for state passing: from a state with [P], the
    result and the new state satisfy [Q]. *)
Definition triple {S A} (P : S -> Prop) (m : ST S A) (Q : A -> S -> Prop) : Prop :=
  forall s, P s -> Q (fst (m s)) (snd (m s)).

Lemma triple_ret {S A} (a : A) (P : S -> Prop) (Q : A -> S -> Prop) :
  (forall s, P s -> Q a s) -> triple P (mret a) Q.
Proof. intros H s HP. exact (H s HP). Qed.

Lemma triple_bind {S A B} (m : ST S A) (f : A -> ST S B) P R Q :
  triple P m R -> (forall a, triple (R a) (f a) Q) -> triple P (m ≫= f) Q.
Proof.
  intros Hm Hf s HP. specialize (Hm s HP). unfold mbind, ST_bind. destruct (m s) as [a s'].
  exact (Hf a s' Hm).
Qed.

Lemma triple_weaken {S A} (m : ST S A) (P P' : S -> Prop) (Q Q' : A -> S -> Prop) :
  triple P' m Q' -> (forall s, P s -> P' s) -> (forall a s, Q' a s -> Q a s) -> triple P m Q.
Proof. intros H HP HQ s Hs. apply HQ, H, HP, Hs. Qed.

Lemma triple_ex {S A B} (m : ST S A) (P : B -> S -> Prop) (Q : A -> S -> Prop) :
  (forall b, triple (P b) m Q) -> triple (fun s => exists b, P b s) m Q.
Proof. intros H s [b Hb]. exact (H b s Hb). Qed.

Lemma triple_pure {S A} (phi : Prop) (m : ST S A) (P : S -> Prop) (Q : A -> S -> Prop) :
  (phi -> triple P m Q) -> triple (fun s => phi /\ P s) m Q.
Proof. intros H s [Hphi HP]. exact (H Hphi s HP). Qed.

(** A measure that no run increases. *)
Definition shrinks {S A} (f : S -> nat) (m : ST S A) : Prop := forall s, (f (snd (m s)) <= f s)%nat.

Lemma shrinks_ret {S A} (f : S -> nat) (a : A) : shrinks f (mret a).
Proof. intros s. apply Nat.le_refl. Qed.

Lemma shrinks_bind {S A B} (f : S -> nat) (m : ST S A) (g : A -> ST S B) :
  shrinks f m -> (forall a, shrinks f (g a)) -> shrinks f (m ≫= g).
Proof. intros Hm Hg s. rewrite ST_bind_eq. etrans; [apply Hg|apply Hm]. Qed.

(** ** Reachability *)

(** Steps from [R] taken zero or more times; the step relations of the
    components are closed with stdpp's [rtc]. *)
Lemma rtc_invariant {A} (R : relation A) (P : A -> Prop) x y :
  (forall a b, P a -> R a b -> P b) -> P x -> rtc R x y -> P y.
Proof. intros Hs Hx Hr. induction Hr; eauto. Qed.
