(* ===== verification/Floats.v ===== *)
(** * Floats: integers in a binary floating-point format

    The program computes with [double] and [long double].  Both are formats of
    [SpecFloat] with [prec] bits of precision; an integer below [2^prec] is
    represented exactly ([fl]), and as long as the results stay in that range,
    sums, differences, products and exact quotients of such integers are exact
    too.  Where a result is rounded, it is off by at most a unit in its last place
    ([rounds_to]).  The lemmas hold for every format, so they do not depend on
    what [long double] is on the machine. *)

From S2P Require Import Prelude.
From Stdlib Require Import SpecFloat Zpower.
From stdpp Require Import list.
#[local] Open Scope Z_scope.

Section format.
Context (prec emax : Z) (Hprec : 1 < prec) (Hemax : prec <= emax).

(** The integer [n] below [2^prec]: [prec] digits and the exponent. *)
Definition fl (n : Z) : spec_float :=
  if n =? 0 then S754_zero false
  else S754_finite false (Z.to_pos (n * 2 ^ (prec - 1 - Z.log2 n))) (Z.log2 n + 1 - prec).

Definition fits_prec (n : Z) : Prop := 0 <= n < 2 ^ prec.

Lemma digits_log2 n : 0 < n -> Zdigits2 n = Z.log2 n + 1.
Proof.
  destruct n as [|p|]; [lia| |lia]. intros _. unfold Zdigits2. induction p as [p IH|p IH|]; [| |done].
  - cbn [digits2_pos]. rewrite Pos2Z.inj_succ, IH. change (Z.pos p~1) with (2 * Z.pos p + 1). rewrite Z.log2_succ_double; lia.
  - cbn [digits2_pos]. rewrite Pos2Z.inj_succ, IH. change (Z.pos p~0) with (2 * Z.pos p). rewrite Z.log2_double; lia.
Qed.

Lemma log2_fits n : 0 < n -> fits_prec n -> 0 <= Z.log2 n < prec.
Proof. intros Hn [_ Hlt]. split; [apply Z.log2_nonneg|]. by apply Z.log2_lt_pow2. Qed.

(** ** Shifts *)

Lemma shr_1_double k : 0 < k -> shr_1 (Build_shr_record (2 * k) false false) = Build_shr_record k false false.
Proof. by destruct k. Qed.

Lemma iter_shr_exact p : forall m, 0 < m ->
  SpecFloat.iter_pos shr_1 p (Build_shr_record (m * 2 ^ Z.pos p) false false) = Build_shr_record m false false.
Proof.
  induction p as [p IH|p IH|]; intros m Hm; cbn [SpecFloat.iter_pos].
  - replace (m * 2 ^ Z.pos p~1) with (2 * (m * 2 ^ Z.pos p * 2 ^ Z.pos p)).
    + rewrite shr_1_double by nia. rewrite (IH (m * 2 ^ Z.pos p)) by nia. by apply IH.
    + replace (Z.pos p~1) with (1 + (Z.pos p + Z.pos p)) by lia. rewrite !Z.pow_add_r by lia. lia.
  - replace (m * 2 ^ Z.pos p~0) with (m * 2 ^ Z.pos p * 2 ^ Z.pos p).
    + rewrite (IH (m * 2 ^ Z.pos p)) by nia. by apply IH.
    + replace (Z.pos p~0) with (Z.pos p + Z.pos p) by lia. rewrite !Z.pow_add_r by lia. lia.
  - rewrite Z.pow_1_r, Z.mul_comm. by apply shr_1_double.
Qed.

Lemma shr_exact m e n : 0 < m -> 0 <= n ->
  shr (Build_shr_record (m * 2 ^ n) false false) e n = (Build_shr_record m false false, e + n).
Proof.
  intros Hm Hn. destruct n as [|p|]; [|by cbn; rewrite iter_shr_exact|lia]. cbn. by rewrite Z.mul_1_r, Z.add_0_r.
Qed.

Lemma shl_align_le mx ex ex' : ex' <= ex -> shl_align mx ex ex' = (Z.to_pos (Z.pos mx * 2 ^ (ex - ex')), ex').
Proof.
  intros Hle. unfold shl_align. destruct (ex' - ex) as [|d|d] eqn:E; [|lia|].
  - assert (ex' = ex) as -> by lia. by rewrite Z.sub_diag, Z.mul_1_r.
  - replace (ex - ex') with (Z.pos d) by lia. f_equal. apply Pos2Z.inj. rewrite Z2Pos.id by lia.
    pose proof (shift_pos_correct d mx) as Hs. unfold shift_pos in Hs. rewrite Hs. rewrite Z.mul_comm. f_equal.
Qed.

(** ** Rounding an exact value *)

Lemma round_exact n e : 0 < n -> fits_prec n -> e <= Z.log2 n + 1 - prec ->
  binary_round_aux prec emax false (n * 2 ^ (- e)) e loc_Exact = fl n.
Proof.
  intros Hn Hf He. pose proof (log2_fits n Hn Hf) as Hl.
  assert (Hfexp : fexp prec emax (Z.log2 n + 1) = Z.log2 n + 1 - prec) by (unfold fexp, emin; lia).
  assert (Hm : 0 < n * 2 ^ (prec - 1 - Z.log2 n)) by nia.
  unfold binary_round_aux, shr_fexp. rewrite digits_log2 by nia. rewrite Z.log2_mul_pow2 by lia.
  replace (- e + Z.log2 n + 1 + e) with (Z.log2 n + 1) by lia. rewrite Hfexp. cbn [shr_record_of_loc].
  replace (n * 2 ^ (- e)) with (n * 2 ^ (prec - 1 - Z.log2 n) * 2 ^ (Z.log2 n + 1 - prec - e)).
  2: { rewrite <- Z.mul_assoc, <- Z.pow_add_r by lia. do 2 f_equal. lia. }
  rewrite shr_exact by lia. cbn [shr_m loc_of_shr_record round_nearest_even]. rewrite digits_log2 by lia. rewrite Z.log2_mul_pow2 by lia.
  replace (prec - 1 - Z.log2 n + Z.log2 n + 1 + (e + (Z.log2 n + 1 - prec - e))) with (Z.log2 n + 1) by lia. rewrite Hfexp.
  replace (e + (Z.log2 n + 1 - prec - e)) with (Z.log2 n + 1 - prec) by lia. rewrite Z.sub_diag. cbn [shr].
  unfold fl. destruct (Z.eqb_spec n 0); [lia|]. destruct (n * 2 ^ (prec - 1 - Z.log2 n)) as [|m|]; [lia| |lia].
  cbn [shr_m Z.to_pos]. destruct (Z.leb_spec (Z.log2 n + 1 - prec) (emax - prec)); [done|lia].
Qed.

Lemma normalize_exact n e : fits_prec n -> e <= 0 -> binary_normalize prec emax (n * 2 ^ (- e)) e false = fl n.
Proof.
  intros Hf He. destruct (Z.eq_dec n 0) as [->|Hn]; [done|]. assert (H0 : 0 < n) by (unfold fits_prec in Hf; lia).
  pose proof (log2_fits n H0 Hf) as Hl. pose proof (round_exact n) as Hr. unfold binary_normalize.
  destruct (n * 2 ^ (- e)) as [|q|] eqn:Eq; [nia| |nia]. unfold binary_round.
  assert (Ed : Z.pos (digits2_pos q) + e = Z.log2 n + 1).
  { change (Z.pos (digits2_pos q)) with (Zdigits2 (Z.pos q)). rewrite digits_log2, <- Eq, Z.log2_mul_pow2 by lia. lia. }
  rewrite Ed. replace (fexp prec emax (Z.log2 n + 1)) with (Z.log2 n + 1 - prec) by (unfold fexp, emin; lia).
  destruct (Z.le_ge_cases (Z.log2 n + 1 - prec) e) as [Hle|Hge].
  - rewrite shl_align_le by done. rewrite Z2Pos.id by lia. rewrite <- Eq, <- Z.mul_assoc, <- Z.pow_add_r by lia.
    replace (- e + (e - (Z.log2 n + 1 - prec))) with (- (Z.log2 n + 1 - prec)) by lia. apply Hr; [done|done|lia].
  - unfold shl_align. destruct (Z.log2 n + 1 - prec - e) eqn:E; [| |lia]; rewrite <- Eq; by apply Hr.
Qed.

(** ** Arithmetic *)

Lemma of_Z_exact n : fits_prec n -> binary_normalize prec emax n 0 false = fl n.
Proof. intros Hf. pose proof (normalize_exact n 0 Hf) as H. rewrite Z.mul_1_r in H. by apply H. Qed.

Lemma fl_finite n : 0 < n -> fits_prec n -> exists m,
  fl n = S754_finite false m (Z.log2 n + 1 - prec) /\ Z.pos m = n * 2 ^ (- (Z.log2 n + 1 - prec)).
Proof.
  intros Hn Hf. pose proof (log2_fits n Hn Hf). unfold fl. destruct (Z.eqb_spec n 0); [lia|]. eexists. split; [done|].
  rewrite Z2Pos.id by nia. do 2 f_equal. lia.
Qed.

(** The operands of a sum at their smaller exponent. *)
Lemma aligned n m e ez : Z.pos m = n * 2 ^ (- e) -> ez <= e -> e <= 0 -> Z.pos (fst (shl_align m e ez)) = n * 2 ^ (- ez).
Proof.
  intros Em Hle He. rewrite shl_align_le by done. cbn [fst]. rewrite Z2Pos.id by lia. rewrite Em, <- Z.mul_assoc, <- Z.pow_add_r by lia.
  do 2 f_equal. lia.
Qed.

Lemma add_exact x y : fits_prec x -> fits_prec y -> fits_prec (x + y) -> SFadd prec emax (fl x) (fl y) = fl (x + y).
Proof.
  intros Hx Hy Hxy. destruct (Z.eq_dec x 0) as [->|Nx]; [rewrite Z.add_0_l; unfold fl; simpl; by destruct (y =? 0)|].
  destruct (Z.eq_dec y 0) as [->|Ny]; [rewrite Z.add_0_r; unfold fl; by destruct (x =? 0)|]. unfold fits_prec in Hx, Hy.
  destruct (fl_finite x ltac:(lia) Hx) as (mx & -> & Ex). destruct (fl_finite y ltac:(lia) Hy) as (my & -> & Ey).
  pose proof (log2_fits x ltac:(lia) Hx). pose proof (log2_fits y ltac:(lia) Hy). cbn [SFadd cond_Zopp].
  rewrite (aligned x mx _ _ Ex), (aligned y my _ _ Ey) by lia. rewrite <- Z.mul_add_distr_r. apply normalize_exact; [done|lia].
Qed.

Lemma sub_exact x y : fits_prec x -> fits_prec y -> y <= x -> SFsub prec emax (fl x) (fl y) = fl (x - y).
Proof.
  intros Hx Hy Hxy. destruct (Z.eq_dec y 0) as [->|Ny]; [rewrite Z.sub_0_r; unfold fl; by destruct (x =? 0)|].
  unfold fits_prec in Hx, Hy.
  destruct (fl_finite x ltac:(lia) Hx) as (mx & -> & Ex). destruct (fl_finite y ltac:(lia) Hy) as (my & -> & Ey).
  pose proof (log2_fits x ltac:(lia) Hx). pose proof (log2_fits y ltac:(lia) Hy). cbn [SFsub cond_Zopp].
  rewrite (aligned x mx _ _ Ex), (aligned y my _ _ Ey) by lia. rewrite <- Z.mul_sub_distr_r.
  apply normalize_exact; [unfold fits_prec; lia|lia].
Qed.

Lemma mul_exact x y : fits_prec x -> fits_prec y -> fits_prec (x * y) -> SFmul prec emax (fl x) (fl y) = fl (x * y).
Proof.
  intros Hx Hy Hxy. destruct (Z.eq_dec x 0) as [->|Nx]; [rewrite Z.mul_0_l; unfold fl; simpl; by destruct (y =? 0)|].
  destruct (Z.eq_dec y 0) as [->|Ny]; [rewrite Z.mul_0_r; unfold fl; by destruct (x =? 0)|]. unfold fits_prec in Hx, Hy.
  destruct (fl_finite x ltac:(lia) Hx) as (mx & -> & Ex). destruct (fl_finite y ltac:(lia) Hy) as (my & -> & Ey).
  pose proof (log2_fits x ltac:(lia) Hx). pose proof (log2_fits y ltac:(lia) Hy). cbn [SFmul xorb].
  rewrite Pos2Z.inj_mul, Ex, Ey. set (ex := Z.log2 x + 1 - prec) in *. set (ey := Z.log2 y + 1 - prec) in *.
  replace (x * 2 ^ (- ex) * (y * 2 ^ (- ey))) with (x * y * 2 ^ (- (ex + ey))).
  - pose proof (Z.log2_mul_below x y ltac:(lia) ltac:(lia)). apply round_exact; [nia|done|lia].
  - rewrite Z.opp_add_distr, Z.pow_add_r by lia. lia.
Qed.

(** A quotient that is an integer. *)
Lemma div_exact k y : 0 < y -> 0 < k -> fits_prec y -> fits_prec (k * y) -> SFdiv prec emax (fl (k * y)) (fl y) = fl k.
Proof.
  intros Hy Hk Fy Fx. assert (Fk : fits_prec k) by (unfold fits_prec in *; nia).
  destruct (fl_finite (k * y) ltac:(nia) Fx) as (mx & -> & Ex). destruct (fl_finite y Hy Fy) as (my & -> & Ey).
  pose proof (log2_fits (k * y) ltac:(nia) Fx). pose proof (log2_fits y Hy Fy). pose proof (log2_fits k Hk Fk).
  pose proof (Z.log2_mul_above k y ltac:(lia) ltac:(lia)). pose proof (Z.log2_mul_below k y ltac:(lia) ltac:(lia)).
  unfold SFdiv, SFdiv_core_binary. rewrite !digits_log2 by lia. rewrite Ex, Ey, !Z.log2_mul_pow2 by nia.
  set (ex := Z.log2 (k * y) + 1 - prec) in *. set (ey := Z.log2 y + 1 - prec) in *.
  replace (- ex + Z.log2 (k * y) + 1 + ex - (- ey + Z.log2 y + 1 + ey)) with (Z.log2 (k * y) - Z.log2 y) by lia.
  set (e' := Z.min _ _). assert (He' : e' <= Z.log2 k + 1 - prec /\ e' <= ex - ey /\ e' <= 0) by (unfold e', fexp, emin; lia).
  replace (match ex - ey - e' with 0 => _ | Z.pos _ => _ | Z.neg _ => _ end) with (k * 2 ^ (- e') * (y * 2 ^ (- ey))).
  - cbv zeta. assert (Hq : 0 < y * 2 ^ (- ey)) by nia.
    pose proof (Z.div_mul (k * 2 ^ (- e')) (y * 2 ^ (- ey)) ltac:(lia)) as Hd. unfold Z.div in Hd.
    pose proof (Z.mod_mul (k * 2 ^ (- e')) (y * 2 ^ (- ey)) ltac:(lia)) as Hr. unfold Z.modulo in Hr.
    destruct (Z.div_eucl _ _) as [q r]. subst q r. unfold new_location, new_location_even, new_location_odd. cbn [Z.eqb].
    destruct (Z.even _); apply round_exact; try done; lia.
  - replace (k * 2 ^ (- e') * (y * 2 ^ (- ey))) with (k * y * 2 ^ (- ex) * 2 ^ (ex - ey - e')).
    + destruct (ex - ey - e') as [|s|] eqn:Es; [by rewrite Z.mul_1_r| |lia]. by rewrite Z.shiftl_mul_pow2.
    + rewrite <- !Z.mul_assoc, <- Z.pow_add_r by lia. replace (- ex + (ex - ey - e')) with (- e' + - ey) by lia.
      rewrite Z.pow_add_r by lia. lia.
Qed.

Lemma leb_exact x y : fits_prec x -> fits_prec y -> SFleb (fl x) (fl y) = (x <=? y).
Proof.
  intros Hx Hy. destruct (Z.eq_dec x 0) as [->|Nx].
  { unfold fl at 1. simpl. unfold fl. destruct (Z.eqb_spec y 0) as [->|]; [done|]. unfold SFleb. simpl. unfold fits_prec in *.
    by destruct (Z.leb_spec 0 y); [|lia]. }
  unfold fits_prec in Hx, Hy. destruct (Z.eq_dec y 0) as [->|Ny].
  { unfold fl. destruct (Z.eqb_spec x 0); [done|]. unfold SFleb. simpl. by destruct (Z.leb_spec x 0); [lia|]. }
  destruct (fl_finite x ltac:(lia) Hx) as (mx & -> & Ex). destruct (fl_finite y ltac:(lia) Hy) as (my & -> & Ey).
  unfold SFleb. cbn [SFcompare]. pose proof (Z.log2_le_mono x y). pose proof (Z.log2_le_mono y x).
  destruct (Z.compare_spec (Z.log2 x + 1 - prec) (Z.log2 y + 1 - prec)) as [E|Hlt|Hgt].
  - rewrite <- E in Ey. change (Pos.compare_cont Eq mx my) with (Z.pos mx ?= Z.pos my). rewrite Ex, Ey.
    assert (0 < 2 ^ (- (Z.log2 x + 1 - prec))) by (apply Z.pow_pos_nonneg; [lia|]; pose proof (log2_fits x ltac:(lia) Hx); lia).
    rewrite <- Zmult_compare_compat_r by lia. unfold Z.leb. by destruct (x ?= y).
  - destruct (Z.leb_spec x y); [done|lia].
  - destruct (Z.leb_spec x y); [lia|done].
Qed.

(** The conversion to an integer. *)
Lemma trunc_exact n : fits_prec n ->
  match fl n with S754_finite false m e => Z.shiftl (Z.pos m) e | _ => 0 end = n.
Proof.
  intros Hf. destruct (Z.eq_dec n 0) as [->|Hn]; [done|]. assert (0 < n) by (unfold fits_prec in Hf; lia).
  destruct (fl_finite n ltac:(lia) Hf) as (m & -> & Em). pose proof (log2_fits n ltac:(lia) Hf). rewrite Em.
  set (e := Z.log2 n + 1 - prec) in *. rewrite <- (Z.opp_involutive e) at 2. rewrite Z.shiftl_opp_r, Z.shiftr_div_pow2 by lia.
  apply Z.div_mul. lia.
Qed.

(** ** Rounding in general

    A result that is not exact is off by at most one unit in its last place:
    relative to the exact value by [2^(1-prec)], or by the smallest positive
    number.  A double is compared with integers in units of [2^-K]
    ([scaled]), which are fine enough for every number there is. *)

Context (K : Z) (HK : 0 <= emin prec emax + K).

Definition scaled (d : spec_float) : Z :=
  match d with S754_finite false m e => Z.pos m * 2 ^ (e + K) | _ => 0 end.

(** A double from 0 on that is not infinite. *)
Definition nonneg_finite (d : spec_float) : Prop :=
  match d with S754_zero false => True | S754_finite false _ e => emin prec emax <= e | _ => False end.

(** [y] is [x] but for rounding. *)
Definition rounds_to (x y : Z) : Prop := 2 ^ (prec - 1) * Z.abs (y - x) <= x + 2 ^ (emin prec emax + K + prec - 1).

Lemma shr_1_floor r : 0 <= shr_m r -> shr_m (shr_1 r) = shr_m r / 2.
Proof. destruct r as [[|[p|p|]|p] b1 b2]; simpl; [done| | |done|lia]; intros _; by rewrite <- Z.div2_div. Qed.

Lemma iter_shr_floor p : forall r, 0 <= shr_m r ->
  shr_m (SpecFloat.iter_pos shr_1 p r) = shr_m r / 2 ^ Z.pos p /\ 0 <= shr_m (SpecFloat.iter_pos shr_1 p r).
Proof.
  induction p as [p IH|p IH|]; intros r Hr; cbn [SpecFloat.iter_pos].
  - assert (H1 : 0 <= shr_m (shr_1 r)) by (rewrite shr_1_floor by done; apply Z.div_pos; lia).
    destruct (IH _ H1) as [E2 H2]. destruct (IH _ H2) as [E3 H3]. split; [|done]. rewrite E3, E2, shr_1_floor by done.
    rewrite !Z.div_div by lia. f_equal. replace (Z.pos p~1) with (1 + (Z.pos p + Z.pos p)) by lia. rewrite !Z.pow_add_r by lia. lia.
  - destruct (IH _ Hr) as [E2 H2]. destruct (IH _ H2) as [E3 H3]. split; [|done]. rewrite E3, E2.
    rewrite !Z.div_div by lia. f_equal. replace (Z.pos p~0) with (Z.pos p + Z.pos p) by lia. by rewrite Z.pow_add_r by lia.
  - rewrite shr_1_floor by done. split; [done|apply Z.div_pos; lia].
Qed.

Lemma shr_floor r e n : 0 <= shr_m r ->
  shr_m (fst (shr r e n)) = shr_m r / 2 ^ Z.max 0 n /\ snd (shr r e n) = e + Z.max 0 n.
Proof.
  intros Hr. destruct n as [|p|p]; simpl; rewrite ?Z.div_1_r; try (split; [done|lia]).
  by destruct (iter_shr_floor p r Hr) as [-> _].
Qed.

(** The shift that brings [mx] to [prec] digits. *)
Definition norm_shift (mx ex : Z) : Z := Z.max 0 (fexp prec emax (Zdigits2 mx + ex) - ex).

Lemma digits_bound n : 0 < n -> 2 ^ (Zdigits2 n - 1) <= n < 2 ^ Zdigits2 n.
Proof. intros Hn. rewrite digits_log2 by done. replace (Z.log2 n + 1 - 1) with (Z.log2 n) by lia. by apply Z.log2_spec. Qed.

Lemma shift_floor mx ex : 0 < mx ->
  0 <= mx / 2 ^ norm_shift mx ex < 2 ^ prec /\ emin prec emax <= ex + norm_shift mx ex.
Proof.
  intros Hm. pose proof (digits_bound mx Hm) as [_ Hd]. split; [|unfold norm_shift, fexp; lia].
  assert (H1 : Zdigits2 mx - prec <= norm_shift mx ex) by (unfold norm_shift, fexp; lia).
  assert (H0 : 0 <= norm_shift mx ex) by (unfold norm_shift; lia). set (n := norm_shift mx ex) in *.
  split; [apply Z.div_pos; lia|]. apply Z.div_lt_upper_bound; [lia|]. eapply Z.lt_le_trans; [exact Hd|].
  rewrite <- Z.pow_add_r by lia. apply Z.pow_le_mono_r; lia.
Qed.

Lemma round_even_next m l : round_nearest_even m l = m \/ round_nearest_even m l = m + 1.
Proof. destruct l as [|[]]; simpl; [by left| |by left|by right]. destruct (Z.even m); [by left|by right]. Qed.

(** A mantissa that has become [2^prec] is shifted once more. *)
Lemma renormalise m e : 0 <= m <= 2 ^ prec -> emin prec emax <= e ->
  let n := Z.max 0 (fexp prec emax (Zdigits2 m + e) - e) in
  0 <= n <= 1 /\ m / 2 ^ n * 2 ^ n = m.
Proof.
  intros Hm He n. destruct (Z.eq_dec m (2 ^ prec)) as [->|Hne].
  - assert (Hd : Zdigits2 (2 ^ prec) = prec + 1) by (rewrite digits_log2, Z.log2_pow2; lia).
    assert (Hn : 0 <= n <= 1) by (unfold n, fexp; lia). split; [done|].
    replace (2 ^ prec) with (2 ^ (prec - n) * 2 ^ n) by (rewrite <- Z.pow_add_r by lia; f_equal; lia).
    by rewrite Z.div_mul by lia.
  - assert (Hd : Zdigits2 m <= prec).
    { destruct (Z.eq_dec m 0) as [->|]; [simpl; lia|]. rewrite digits_log2 by lia.
      assert (Z.log2 m < prec) by (apply Z.log2_lt_pow2; lia). lia. }
    assert (Hn : n = 0) by (unfold n, fexp; lia). rewrite Hn, Z.div_1_r. lia.
Qed.

(** The mantissa is cut off or the next one is taken. *)
Lemma round_aux_value mx ex l : 0 < mx -> ex + norm_shift mx ex < emax - prec ->
  let r := binary_round_aux prec emax false mx ex l in
  let f := mx / 2 ^ norm_shift mx ex in
  nonneg_finite r /\ exists k, (k = f \/ k = f + 1) /\ scaled r = k * 2 ^ (ex + norm_shift mx ex + K) /\
    (l = loc_Exact -> norm_shift mx ex = 0 -> k = mx).
Proof.
  intros Hm He r f. destruct (shift_floor mx ex Hm) as [Hf Hem]. fold f in Hf.
  subst r. unfold binary_round_aux, shr_fexp. set (r0 := shr_record_of_loc mx l).
  assert (E0 : shr_m r0 = mx) by (unfold r0; by destruct l as [|[]]).
  pose proof (shr_floor r0 ex (fexp prec emax (Zdigits2 mx + ex) - ex) ltac:(lia)) as [E1 E2].
  destruct (shr r0 ex _) as [r1 e1] eqn:Es. cbn [fst snd] in E1, E2. fold (norm_shift mx ex) in E1, E2. rewrite E0 in E1. fold f in E1.
  set (k := round_nearest_even (shr_m r1) (loc_of_shr_record r1)).
  assert (Hk : k = f \/ k = f + 1) by (unfold k; rewrite E1; apply round_even_next).
  pose proof (renormalise k e1 ltac:(lia) ltac:(lia)) as [Hn Hmul].
  pose proof (shr_floor (shr_record_of_loc k loc_Exact) e1 (fexp prec emax (Zdigits2 k + e1) - e1) ltac:(simpl; lia)) as [E3 E4].
  cbv zeta in Hn, Hmul. set (n := Z.max 0 _) in *. destruct (shr _ e1 _) as [r2 e2]. cbn [fst snd shr_m shr_record_of_loc] in E3, E4.
  assert (Hx : l = loc_Exact -> norm_shift mx ex = 0 -> k = mx).
  { intros -> Hz. unfold norm_shift in Hz. unfold k. unfold r0 in Es. cbn [shr_record_of_loc] in Es.
    assert (Hle : fexp prec emax (Zdigits2 mx + ex) - ex <= 0) by lia.
    destruct (fexp prec emax (Zdigits2 mx + ex) - ex); [|lia|]; simpl in Es; injection Es as <- <-; done. }
  destruct (shr_m r2) as [|q|q] eqn:Eq.
  - split; [done|]. exists k. split; [done|]. split; [|done]. simpl. rewrite <- E3 in Hmul. replace k with 0 by lia. done.
  - destruct (Z.leb_spec e2 (emax - prec)); [|lia]. split; [simpl; lia|]. exists k. split; [done|]. split; [|done].
    cbn [scaled]. rewrite E3, E4. set (a := ex + norm_shift mx ex + K).
    replace (k * 2 ^ a) with (k / 2 ^ n * 2 ^ n * 2 ^ a) by (by rewrite Hmul).
    rewrite <- Z.mul_assoc, <- Z.pow_add_r by lia. unfold a. do 2 f_equal. lia.
  - exfalso. assert (0 <= k / 2 ^ n) by (apply Z.div_pos; lia). lia.
Qed.

(** One unit in the last place. *)
Lemma ulp_small mx ex : 0 < mx -> 0 <= ex + K -> ex <= fexp prec emax (Zdigits2 mx + ex) ->
  2 ^ (prec - 1) * 2 ^ (ex + norm_shift mx ex + K) <= mx * 2 ^ (ex + K) + 2 ^ (emin prec emax + K + prec - 1).
Proof.
  intros Hm He Hx. rewrite <- Z.pow_add_r by (unfold norm_shift; lia). pose proof (digits_bound mx Hm) as [Hd _].
  assert (0 < mx * 2 ^ (ex + K)) by nia. assert (0 < 2 ^ (emin prec emax + K + prec - 1)) by (apply Z.pow_pos_nonneg; lia).
  assert (Hdig : 0 < Zdigits2 mx) by (rewrite digits_log2 by lia; pose proof (Z.log2_nonneg mx); lia).
  assert (Hcase : ex + norm_shift mx ex = Zdigits2 mx + ex - prec \/ ex + norm_shift mx ex = emin prec emax).
  { unfold norm_shift, fexp in *. lia. }
  destruct Hcase as [-> | ->].
  - replace (prec - 1 + (Zdigits2 mx + ex - prec + K)) with (Zdigits2 mx - 1 + (ex + K)) by lia. rewrite Z.pow_add_r by lia. nia.
  - replace (prec - 1 + (emin prec emax + K)) with (emin prec emax + K + prec - 1) by lia. lia.
Qed.

Lemma round_aux_close mx ex l : 0 < mx -> 0 <= ex + K -> ex + norm_shift mx ex < emax - prec ->
  l = loc_Exact \/ ex <= fexp prec emax (Zdigits2 mx + ex) ->
  nonneg_finite (binary_round_aux prec emax false mx ex l) /\
  rounds_to (mx * 2 ^ (ex + K)) (scaled (binary_round_aux prec emax false mx ex l)).
Proof.
  intros Hm He Hlt Hl. destruct (round_aux_value mx ex l Hm Hlt) as (Hfin & k & Hk & Es & Hx). split; [done|].
  unfold rounds_to. rewrite Es. assert (0 < 2 ^ (emin prec emax + K + prec - 1)) by (apply Z.pow_pos_nonneg; lia).
  assert (Hpos : 0 < mx * 2 ^ (ex + K)) by nia. destruct (Z.le_gt_cases ex (fexp prec emax (Zdigits2 mx + ex))) as [Hu|Hu].
  - pose proof (ulp_small mx ex Hm He Hu) as Hulp. assert (Hn : 0 <= norm_shift mx ex) by (unfold norm_shift; lia).
    set (n := norm_shift mx ex) in *. replace (ex + n + K) with (n + (ex + K)) in * by lia. rewrite Z.pow_add_r in * by lia.
    pose proof (Z.div_mod mx (2 ^ n) ltac:(lia)) as Hdm. pose proof (Z.mod_pos_bound mx (2 ^ n) ltac:(lia)) as Hmb.
    assert (Ha : Z.abs (k * (2 ^ n * 2 ^ (ex + K)) - mx * 2 ^ (ex + K)) <= 2 ^ n * 2 ^ (ex + K)).
    { rewrite Z.mul_assoc, <- Z.mul_sub_distr_r, Z.abs_mul, (Z.abs_eq (2 ^ (ex + K))) by lia.
      apply Z.mul_le_mono_nonneg_r; [lia|]. destruct Hk; nia. }
    assert (0 < 2 ^ (prec - 1)) by (apply Z.pow_pos_nonneg; lia). nia.
  - destruct Hl as [-> |]; [|lia]. assert (Hn : norm_shift mx ex = 0) by (unfold norm_shift; lia).
    rewrite (Hx eq_refl Hn), Hn, Z.add_0_r, Z.sub_diag. simpl. lia.
Qed.

(** ** The operations in general *)

Context (HK2 : 0 <= 2 * emin prec emax + K).

Lemma rounds_refl x : 0 <= x -> rounds_to x x.
Proof. intros Hx. unfold rounds_to. rewrite Z.sub_diag. simpl. assert (0 < 2 ^ (emin prec emax + K + prec - 1)) by (apply Z.pow_pos_nonneg; lia). lia. Qed.

(** No overflow below [2^b]. *)
Lemma no_overflow mx ex b : 0 < mx -> 0 <= ex + K -> mx * 2 ^ (ex + K) < 2 ^ (b + K) -> 0 <= b + K -> b <= emax - prec ->
  ex + norm_shift mx ex < emax - prec.
Proof.
  intros Hm He Hlt Hb Hmax. pose proof (digits_bound mx Hm) as [Hd _].
  assert (Hdig : 0 < Zdigits2 mx) by (rewrite digits_log2 by lia; pose proof (Z.log2_nonneg mx); lia).
  assert (H1 : Zdigits2 mx - 1 + (ex + K) < b + K).
  { apply (Z.pow_lt_mono_r_iff 2); [lia|lia|]. rewrite Z.pow_add_r by lia. nia. }
  unfold norm_shift, fexp, emin in *. lia.
Qed.

Lemma mul_close d1 d2 x b : nonneg_finite d1 -> nonneg_finite d2 -> scaled d1 * scaled d2 = x * 2 ^ K ->
  x < 2 ^ (b + K) -> 0 <= b + K -> b <= emax - prec ->
  nonneg_finite (SFmul prec emax d1 d2) /\ rounds_to x (scaled (SFmul prec emax d1 d2)).
Proof.
  intros F1 F2 Ex Hx Hb Hmax. assert (HKp : 0 <= K) by (unfold emin in *; lia).
  assert (HK0 : 0 < 2 ^ K) by (apply Z.pow_pos_nonneg; lia). destruct d1 as [[]|[]| |[] m1 e1], d2 as [[]|[]| |[] m2 e2]; try done; simpl in F1, F2, Ex;
    try (assert (x = 0) as -> by nia; split; [done|by apply rounds_refl]).
  assert (E : x = Z.pos (m1 * m2) * 2 ^ (e1 + e2 + K)).
  { apply (Z.mul_reg_r _ _ (2 ^ K)); [lia|]. rewrite <- Ex, Pos2Z.inj_mul.
    transitivity (Z.pos m1 * Z.pos m2 * (2 ^ (e1 + K) * 2 ^ (e2 + K))); [ring|].
    rewrite <- !Z.mul_assoc, <- !Z.pow_add_r by lia. do 3 f_equal. lia. }
  cbn [SFmul xorb]. rewrite E. apply round_aux_close; [lia|lia| |by left]. apply (no_overflow _ _ b); [lia|lia|by rewrite <- E|done..].
Qed.

Lemma normalize_close m e b : 0 < m -> 0 <= e + K -> m * 2 ^ (e + K) < 2 ^ (b + K) -> 0 <= b + K -> b <= emax - prec ->
  nonneg_finite (binary_normalize prec emax m e false) /\ rounds_to (m * 2 ^ (e + K)) (scaled (binary_normalize prec emax m e false)).
Proof.
  intros Hm He Hlt Hb Hmax. destruct m as [|q|]; [lia| |lia]. unfold binary_normalize, binary_round.
  set (e2 := fexp prec emax (Z.pos (digits2_pos q) + e)).
  assert (H2 : emin prec emax <= e2) by (unfold e2, fexp; lia).
  destruct (Z.le_ge_cases e2 e) as [Hle|Hge].
  - rewrite shl_align_le by done. rewrite Z2Pos.id by nia.
    assert (E : Z.pos q * 2 ^ (e - e2) * 2 ^ (e2 + K) = Z.pos q * 2 ^ (e + K)).
    { rewrite <- Z.mul_assoc, <- Z.pow_add_r by lia. do 2 f_equal. lia. }
    rewrite <- E in *. apply round_aux_close; [nia|lia| |by left]. apply (no_overflow _ _ b); [nia|lia|done..].
  - assert (Es : shl_align q e e2 = (q, e)) by (unfold shl_align; by destruct (e2 - e) eqn:?; [| |lia]).
    rewrite Es. apply round_aux_close; [lia|lia| |by left]. by apply (no_overflow _ _ b).
Qed.

Lemma scaled_nonneg d : nonneg_finite d -> 0 <= scaled d.
Proof. destruct d as [[]|[]| |[] m e]; try done. intros F. simpl in F. cbn [scaled]. assert (0 < 2 ^ (e + K)) by (apply Z.pow_pos_nonneg; lia). lia. Qed.

Lemma add_close d1 d2 b : nonneg_finite d1 -> nonneg_finite d2 -> scaled d1 + scaled d2 < 2 ^ (b + K) -> 0 <= b + K -> b <= emax - prec ->
  nonneg_finite (SFadd prec emax d1 d2) /\ rounds_to (scaled d1 + scaled d2) (scaled (SFadd prec emax d1 d2)).
Proof.
  intros F1 F2 Hx Hb Hmax. destruct d1 as [[]|[]| |[] m1 e1], d2 as [[]|[]| |[] m2 e2]; try done; simpl in F1, F2, Hx.
  - split; [done|by apply rounds_refl].
  - split; [done|]. rewrite Z.add_0_l. by apply rounds_refl, scaled_nonneg.
  - split; [done|]. rewrite Z.add_0_r. by apply rounds_refl, scaled_nonneg.
  - cbn [SFadd cond_Zopp scaled]. rewrite !shl_align_le by lia. cbn [fst]. set (ez := Z.min e1 e2) in *.
    assert (E1 : Z.pos m1 * 2 ^ (e1 - ez) * 2 ^ (ez + K) = Z.pos m1 * 2 ^ (e1 + K)).
    { rewrite <- Z.mul_assoc, <- Z.pow_add_r by lia. do 2 f_equal. lia. }
    assert (E2 : Z.pos m2 * 2 ^ (e2 - ez) * 2 ^ (ez + K) = Z.pos m2 * 2 ^ (e2 + K)).
    { rewrite <- Z.mul_assoc, <- Z.pow_add_r by lia. do 2 f_equal. lia. }
    rewrite <- E1, <- E2, <- Z.mul_add_distr_r in *.
    assert (0 < 2 ^ (e1 - ez)) by (apply Z.pow_pos_nonneg; lia). assert (0 < 2 ^ (e2 - ez)) by (apply Z.pow_pos_nonneg; lia).
    rewrite !Z2Pos.id by lia. apply (normalize_close _ _ b); [nia|lia|done..].
Qed.

(** The quotient of the mantissas, cut off: it has enough digits to be rounded. *)
Lemma div_quotient m1 e1 m2 e2 :
  emin prec emax <= e1 -> e2 <= 0 ->
  emin prec emax + prec < Zdigits2 (Z.pos m1) + e1 - (Zdigits2 (Z.pos m2) + e2) ->
  exists q r e', SFdiv_core_binary prec emax (Z.pos m1) e1 (Z.pos m2) e2 = (q, e', new_location (Z.pos m2) r) /\
    0 < q /\ emin prec emax <= e' <= e1 - e2 /\ e' <= fexp prec emax (Zdigits2 q + e') /\
    Z.pos m1 * 2 ^ (e1 - e2 - e') = Z.pos m2 * q + r /\ 0 <= r < Z.pos m2.
Proof.
  intros F He2 Hdl. unfold SFdiv_core_binary. set (dl := Zdigits2 (Z.pos m1) + e1 - (Zdigits2 (Z.pos m2) + e2)) in *.
  set (e' := Z.min (fexp prec emax dl) (e1 - e2)). set (s := e1 - e2 - e').
  pose proof (digits_bound (Z.pos m1) ltac:(lia)) as [Hd1 _]. pose proof (digits_bound (Z.pos m2) ltac:(lia)) as [_ Hd2].
  assert (Hp1 : 0 < Zdigits2 (Z.pos m1)) by (simpl; lia). assert (Hp2 : 0 < Zdigits2 (Z.pos m2)) by (simpl; lia).
  set (d1 := Zdigits2 (Z.pos m1)) in *. set (d2 := Zdigits2 (Z.pos m2)) in *.
  assert (Hf : fexp prec emax dl = dl - prec) by (unfold fexp; lia).
  assert (He' : emin prec emax <= e' <= e1 - e2) by (unfold e'; rewrite Hf; lia).
  assert (Hs : 0 <= s /\ 0 <= d1 - 1 + s - d2) by (unfold s, e', dl in *; lia).
  replace (match s with 0 => _ | Z.pos _ => _ | Z.neg _ => _ end) with (Z.pos m1 * 2 ^ s).
  2: { destruct s as [|s'|s']; [lia| |lia]. by rewrite Z.shiftl_mul_pow2 by lia. }
  pose proof (Z.div_mod (Z.pos m1 * 2 ^ s) (Z.pos m2) ltac:(lia)) as Hdm.
  pose proof (Z.mod_pos_bound (Z.pos m1 * 2 ^ s) (Z.pos m2) ltac:(lia)) as Hmb. unfold Z.div, Z.modulo in Hdm, Hmb.
  destruct (Z.div_eucl (Z.pos m1 * 2 ^ s) (Z.pos m2)) as [q r]. exists q, r, e'. split; [done|].
  assert (Hq : 2 ^ (d1 - 1 + s - d2) <= q).
  { set (w := 2 ^ (d1 - 1 + s - d2)). assert (Hw : w * 2 ^ d2 <= Z.pos m1 * 2 ^ s).
    { unfold w. rewrite <- Z.pow_add_r by lia. replace (d1 - 1 + s - d2 + d2) with (d1 - 1 + s) by lia. rewrite Z.pow_add_r by lia.
      apply Z.mul_le_mono_nonneg_r; [lia|done]. }
    assert (Hw0 : 0 < w) by (apply Z.pow_pos_nonneg; lia).
    assert (Hwm : w * Z.pos m2 <= w * 2 ^ d2) by (apply Z.mul_le_mono_nonneg_l; lia).
    apply Z.lt_succ_r, (Z.mul_lt_mono_pos_r (Z.pos m2)); [lia|]. rewrite Z.mul_succ_l, (Z.mul_comm q). lia. }
  assert (Hq0 : 0 < q) by (eapply Z.lt_le_trans; [|exact Hq]; apply Z.pow_pos_nonneg; lia).
  split; [done|]. split; [done|]. split; [|done].
  assert (Hqq : d1 - 1 + s - d2 < Zdigits2 q).
  { pose proof (digits_bound q Hq0) as [_ Hqd]. apply (Z.pow_lt_mono_r_iff 2); [lia| |lia].
    rewrite digits_log2 by lia. pose proof (Z.log2_nonneg q). lia. }
  transitivity (fexp prec emax dl); [unfold e'; lia|]. unfold fexp, dl, s in *. lia.
Qed.

(** The operand is large enough for this. *)
Lemma div_digits m1 e1 m2 e2 y : 0 < y -> Z.pos m2 = y * 2 ^ (- e2) -> 0 <= e1 + K -> e2 <= 0 -> 0 <= emin prec emax + prec + K ->
  y * 2 ^ (emin prec emax + prec + 1 + K) <= Z.pos m1 * 2 ^ (e1 + K) ->
  emin prec emax + prec < Zdigits2 (Z.pos m1) + e1 - (Zdigits2 (Z.pos m2) + e2).
Proof.
  intros Hy Em2 He1 He2 HKp Hlo. pose proof (digits_bound (Z.pos m1) ltac:(lia)) as [_ Hd1]. pose proof (digits_bound (Z.pos m2) ltac:(lia)) as [Hd2 _].
  assert (Hp1 : 0 < Zdigits2 (Z.pos m1)) by (simpl; lia). assert (Hp2 : 0 < Zdigits2 (Z.pos m2)) by (simpl; lia).
  set (d1 := Zdigits2 (Z.pos m1)) in *. set (d2 := Zdigits2 (Z.pos m2)) in *.
  assert (Hlt : d2 - 1 + (emin prec emax + prec + 1 + K) < d1 + (e1 + K - e2)); [|lia].
  apply (Z.pow_lt_mono_r_iff 2); [lia|lia|]. rewrite (Z.pow_add_r 2 (d2 - 1)), (Z.pow_add_r 2 d1) by lia.
  set (c := 2 ^ (emin prec emax + prec + 1 + K)) in *. set (w := 2 ^ (e1 + K - e2)).
  assert (Hw : w = 2 ^ (e1 + K) * 2 ^ (- e2)) by (unfold w; rewrite <- Z.pow_add_r by lia; f_equal; lia).
  assert (Hw0 : 0 < w) by (apply Z.pow_pos_nonneg; lia). assert (Hc0 : 0 < c) by (apply Z.pow_pos_nonneg; lia).
  assert (Hm2 : Z.pos m2 * c <= Z.pos m1 * w).
  { rewrite Em2, Hw. replace (y * 2 ^ (- e2) * c) with (y * c * 2 ^ (- e2)) by ring. rewrite Z.mul_assoc.
    apply Z.mul_le_mono_nonneg_r; [lia|done]. }
  apply Z.le_lt_trans with (Z.pos m2 * c); [apply Z.mul_le_mono_nonneg_r; lia|].
  apply Z.le_lt_trans with (Z.pos m1 * w); [done|]. apply Z.mul_lt_mono_pos_r; lia.
Qed.

(** The two errors of a quotient: that of cutting it off ([R]) and that of
    rounding it ([v] for [x]). *)
Lemma div_error B E y U u x R v : 0 < B -> 0 <= E -> 0 < y -> 0 <= R < y * U -> U <= u -> B * u <= x + E ->
  B * Z.abs (v - x) <= x + E -> B * Z.abs (y * v - (y * x + R)) <= 2 * (y * x + R) + 2 * y * E.
Proof.
  intros HB HE Hy HR Hu Hulp Hc.
  assert (HBR : B * R <= y * (x + E)).
  { transitivity (B * (y * u)).
    - apply Z.mul_le_mono_nonneg_l; [lia|]. transitivity (y * U); [lia|]. apply Z.mul_le_mono_nonneg_l; lia.
    - rewrite (Z.mul_comm y u), Z.mul_assoc, (Z.mul_comm y (x + E)). apply Z.mul_le_mono_nonneg_r; lia. }
  assert (Hab : Z.abs (y * v - (y * x + R)) <= y * Z.abs (v - x) + R).
  { replace (y * v - (y * x + R)) with (y * (v - x) - R) by ring. rewrite <- (Z.abs_eq y) at 2 by lia. rewrite <- Z.abs_mul. lia. }
  assert (Hyc : y * (B * Z.abs (v - x)) <= y * (x + E)) by (apply Z.mul_le_mono_nonneg_l; [lia|exact Hc]).
  transitivity (B * (y * Z.abs (v - x) + R)); [apply Z.mul_le_mono_nonneg_l; lia|].
  replace (B * (y * Z.abs (v - x) + R)) with (y * (B * Z.abs (v - x)) + B * R) by ring.
  replace (2 * (y * x + R) + 2 * y * E) with (2 * (y * (x + E)) + 2 * R) by ring. lia.
Qed.

(** The dividend is the divisor times the cut-off quotient, and a rest. *)
Lemma div_parts m1 e1 m2 e2 y q r e' : 0 < y -> Z.pos m2 = y * 2 ^ (- e2) -> e2 <= 0 -> 0 <= e' + K -> 0 <= e2 + e' + K -> e' <= e1 - e2 ->
  Z.pos m1 * 2 ^ (e1 - e2 - e') = Z.pos m2 * q + r -> 0 <= r < Z.pos m2 ->
  Z.pos m1 * 2 ^ (e1 + K) = y * (q * 2 ^ (e' + K)) + r * 2 ^ (e2 + e' + K) /\
  0 <= r * 2 ^ (e2 + e' + K) < y * 2 ^ (e' + K).
Proof.
  intros Hy Em2 He2 H1 H2 H3 Hdm Hr.
  assert (Hy2 : y * 2 ^ (e' + K) = Z.pos m2 * 2 ^ (e2 + e' + K)).
  { rewrite Em2, <- Z.mul_assoc, <- Z.pow_add_r by lia. do 2 f_equal. lia. }
  assert (HM : 0 < 2 ^ (e2 + e' + K)) by (apply Z.pow_pos_nonneg; lia). split.
  - replace (y * (q * 2 ^ (e' + K))) with (y * 2 ^ (e' + K) * q) by ring. rewrite Hy2.
    replace (Z.pos m2 * 2 ^ (e2 + e' + K) * q + r * 2 ^ (e2 + e' + K)) with ((Z.pos m2 * q + r) * 2 ^ (e2 + e' + K)) by ring.
    rewrite <- Hdm, <- Z.mul_assoc, <- Z.pow_add_r by lia. do 2 f_equal. lia.
  - rewrite Hy2. split; [apply Z.mul_nonneg_nonneg; lia|apply Z.mul_lt_mono_pos_r; lia].
Qed.

(** A quotient by an integer. *)
Lemma div_close d y b : nonneg_finite d -> 0 < y -> fits_prec y ->
  y * 2 ^ (emin prec emax + prec + 1 + K) <= scaled d -> scaled d < 2 ^ (b + K) -> 0 <= b + K -> b <= emax - prec ->
  let r := SFdiv prec emax d (fl y) in
  nonneg_finite r /\ 2 ^ (prec - 1) * Z.abs (y * scaled r - scaled d) <= 2 * scaled d + 2 * y * 2 ^ (emin prec emax + K + prec - 1).
Proof.
  intros F Hy Fy Hlo Hhi Hb Hmax. cbv zeta. destruct (fl_finite y Hy Fy) as (m2 & Efl & Em2). rewrite Efl.
  pose proof (log2_fits y Hy Fy) as Hl. set (e2 := Z.log2 y + 1 - prec) in *.
  assert (Hsmall : 0 < 2 ^ (emin prec emax + prec + 1 + K)) by (apply Z.pow_pos_nonneg; lia).
  destruct d as [[]|[]| |[] m1 e1]; try done; simpl in F, Hlo, Hhi; [exfalso; apply (Z.lt_irrefl 0); eapply Z.lt_le_trans; [|exact Hlo]; by apply Z.mul_pos_pos|].
  pose proof (div_digits m1 e1 m2 e2 y Hy Em2 ltac:(lia) ltac:(lia) ltac:(lia) Hlo) as Hdl.
  destruct (div_quotient m1 e1 m2 e2 F ltac:(lia) Hdl) as (q & r & e' & Eq & Hq & He' & Hqd & Hdm & Hr).
  unfold SFdiv. rewrite Eq. cbn [xorb]. change (scaled (S754_finite false m1 e1)) with (Z.pos m1 * 2 ^ (e1 + K)).
  assert (Hee : 0 <= e2 + e' + K) by (unfold emin in *; lia).
  destruct (div_parts m1 e1 m2 e2 y q r e' Hy Em2 ltac:(lia) ltac:(lia) Hee ltac:(lia) Hdm Hr) as [Ex HR].
  assert (Hx0 : 0 < q * 2 ^ (e' + K)) by (apply Z.mul_pos_pos; [done|apply Z.pow_pos_nonneg; lia]).
  assert (Hov : e' + norm_shift q e' < emax - prec).
  { apply (no_overflow q e' b); [done|lia| |done..]. eapply Z.le_lt_trans; [|exact Hhi]. rewrite Ex.
    transitivity (1 * (q * 2 ^ (e' + K))); [lia|]. transitivity (y * (q * 2 ^ (e' + K))); [apply Z.mul_le_mono_nonneg_r; lia|lia]. }
  destruct (round_aux_close q e' (new_location (Z.pos m2) r) Hq ltac:(lia) Hov (or_intror Hqd)) as [Hfin Hc].
  split; [done|]. rewrite Ex. pose proof (ulp_small q e' Hq ltac:(lia) Hqd) as Hu.
  assert (0 < 2 ^ (prec - 1)) by (apply Z.pow_pos_nonneg; lia).
  assert (0 < 2 ^ (emin prec emax + K + prec - 1)) by (apply Z.pow_pos_nonneg; lia).
  apply (div_error _ _ y (2 ^ (e' + K)) (2 ^ (e' + norm_shift q e' + K))); try done; [lia|].
  apply Z.pow_le_mono_r; [lia|]. pose proof (Z.le_max_l 0 (fexp prec emax (Zdigits2 q + e') - e')) as Hn. fold (norm_shift q e') in Hn. lia.
Qed.

(** The conversion of a number from 0 on to an integer. *)
Lemma trunc_scaled d : nonneg_finite d ->
  match d with S754_finite false m e => Z.shiftl (Z.pos m) e | _ => 0 end = scaled d / 2 ^ K.
Proof.
  intros F. assert (HK0 : 0 <= K) by (unfold emin in *; lia).
  destruct d as [[]|[]| |[] m e]; try done; simpl in F; cbn [scaled].
  destruct (Z.le_gt_cases 0 e) as [He|He].
  - rewrite Z.shiftl_mul_pow2, Z.pow_add_r, Z.mul_assoc, Z.div_mul by lia. done.
  - replace e with (- (- e)) at 1 by lia. rewrite Z.shiftl_opp_r, Z.shiftr_div_pow2 by lia.
    replace (2 ^ K) with (2 ^ (- e) * 2 ^ (e + K)) by (rewrite <- Z.pow_add_r by lia; f_equal; lia).
    by rewrite Z.div_mul_cancel_r by lia.
Qed.

Lemma scaled_fl n : fits_prec n -> nonneg_finite (fl n) /\ scaled (fl n) = n * 2 ^ K.
Proof.
  intros Hn. destruct (Z.eq_dec n 0) as [->|N]; [done|]. unfold fits_prec in Hn.
  destruct (fl_finite n ltac:(lia) Hn) as (m & -> & Em). pose proof (log2_fits n ltac:(lia) Hn) as Hl. cbn [scaled nonneg_finite].
  split; [unfold emin; lia|]. rewrite Em, <- Z.mul_assoc, <- Z.pow_add_r by (unfold emin in *; lia). do 2 f_equal. lia.
Qed.

End format.
