(* ===== verification/Hist.v ===== *)
(** * Hist: the latency histogram of [src/hist.h]

    [kv_hist] is the C struct; [counts] is [None] for a null pointer.  One
    definition per C function, then: the shape of a histogram ([wf]), what a
    histogram means ([represents]: the multiset of samples it holds), and the
    theorems that every operation keeps that meaning.  Doubles are IEEE
    binary64 values of the Standard Library's [SpecFloat]. *)

From Stdlib Require Import SpecFloat.
From S2P Require Import Prelude Floats.
From stdpp Require Import list.
#[local] Open Scope Z_scope.

(** ** The struct *)

Record kv_hist := mk_hist {
  unit_magnitude : Z;
  sub_bucket_count_magnitude : Z;
  sub_bucket_half_count_magnitude : Z;
  sub_bucket_count : Z;
  sub_bucket_half_count : Z;
  bucket_count : Z;
  counts_array_length : Z;
  sub_bucket_mask : Z;
  lowest_trackable : Z;
  highest_trackable : Z;
  total_count : Z;
  min_value : Z;
  max_value : Z;
  counts : option (list Z);
}.

(** [memset(h, 0, sizeof( *h))] *)
Definition zeroed_hist : kv_hist :=
  mk_hist 0 0 0 0 0 0 0 0 0 0 0 0 0 None.

(** Assignments to the fields that change after initialisation. *)
Definition set_length (h : kv_hist) (n : Z) : kv_hist :=
  mk_hist h.(unit_magnitude) h.(sub_bucket_count_magnitude)
    h.(sub_bucket_half_count_magnitude) h.(sub_bucket_count)
    h.(sub_bucket_half_count) h.(bucket_count) n h.(sub_bucket_mask)
    h.(lowest_trackable) h.(highest_trackable) h.(total_count) h.(min_value)
    h.(max_value) h.(counts).

Definition set_data (h : kv_hist) (total mn mx : Z) (cs : option (list Z)) : kv_hist :=
  mk_hist h.(unit_magnitude) h.(sub_bucket_count_magnitude)
    h.(sub_bucket_half_count_magnitude) h.(sub_bucket_count)
    h.(sub_bucket_half_count) h.(bucket_count) h.(counts_array_length)
    h.(sub_bucket_mask) h.(lowest_trackable) h.(highest_trackable)
    total mn mx cs.

(** [a[i]] for an index the code has checked against the array length. *)
Definition at_ (a : list Z) (i : nat) : Z := default 0 (a !! i).

(** ** Logarithms *)

(** [__builtin_clzll]: the number of leading zero bits of a nonzero 64-bit
    word. *)
Definition builtin_clzll (v : Z) : Z := 63 - Z.log2 v.

(** The portable branch of [kv_hist_leading_zeros64]: shift until zero. *)
Fixpoint clz_shift_loop (fuel : nat) (v n : Z) : Z :=
  match fuel with
  | O => n
  | S fuel => if v =? 0 then n else clz_shift_loop fuel (Z.shiftr v 1) (n + 1)
  end.
Definition clz_portable (v : Z) : Z := 64 - clz_shift_loop 65 v 0.

Definition kv_hist_leading_zeros64 (v : Z) : Z := builtin_clzll v.

Definition kv_hist_floor_log2 (v : Z) : Z := 64 - kv_hist_leading_zeros64 v - 1.

Definition kv_hist_ceil_log2 (v : Z) : Z :=
  if v <=? 1 then 0
  else
    let fl := kv_hist_floor_log2 v in
    if v =? 1 <<u64 fl then fl else fl + 1.

(** ** Initialisation *)

(** [while (trackable < highest) { trackable <<= 1; buckets++; }]; [None]
    when [fuel] iterations do not leave the loop. *)
Fixpoint bucket_loop (fuel : nat) (trackable highest buckets : Z) : option Z :=
  if trackable <? highest then
    match fuel with
    | O => None
    | S fuel => bucket_loop fuel (trackable <<u64 1) highest (buckets + 1)
    end
  else Some buckets.

(** After 64 shifts [trackable] is 0 and stays 0, so more fuel changes
    nothing ([bucket_loop_diverges]). *)
Definition bucket_fuel : nat := 64.

Definition single_unit_resolution (sigfigs : Z) : Z :=
  if sigfigs =? 2 then 2 * 100
  else if sigfigs =? 1 then 2 * 10
  else if sigfigs =? 4 then 2 * 10000
  else if sigfigs =? 5 then 2 * 100000
  else 2 * 1000.

(** [alloc_ok] is whether [calloc] returned memory.  The result is the return
    code with the written struct; [None] is the loop that does not end. *)
Definition kv_hist_init (lowest highest sigfigs : Z) (alloc_ok : bool)
  : option (Z * kv_hist) :=
  if (lowest =? 0) || (highest <=? lowest) then Some (-1, zeroed_hist)
  else
    let um := kv_hist_floor_log2 lowest in
    let scm := kv_hist_ceil_log2 (single_unit_resolution sigfigs) in
    let shcm := scm - 1 in
    let sc := Z.shiftl 1 scm in
    let shc := sc / 2 in
    let mask := sc - 1 in
    let trackable := (sc - 1) <<u64 um in
    match bucket_loop bucket_fuel trackable highest 1 with
    | None => None
    | Some buckets =>
        let len := (buckets + 1) * shc in
        let h cs mn := mk_hist um scm shcm sc shc buckets len mask lowest highest 0 mn 0 cs in
        if alloc_ok
        then Some (0, h (Some (replicate (Z.to_nat len) 0)) UINT64_MAX)
        else Some (-1, h None 0)
    end.

Definition kv_hist_destroy (h : kv_hist) : kv_hist :=
  set_length (set_data h h.(total_count) h.(min_value) h.(max_value) None) 0.

Definition kv_hist_reset (h : kv_hist) : kv_hist :=
  match h.(counts) with
  | None => h
  | Some l => set_data h 0 UINT64_MAX 0
                (Some (replicate (Z.to_nat h.(counts_array_length)) 0
                       ++ drop (Z.to_nat h.(counts_array_length)) l))
  end.

Definition kv_hist_copy (dst src : kv_hist) : kv_hist :=
  match dst.(counts), src.(counts) with
  | Some d, Some s =>
      let n := Z.to_nat (Z.min src.(counts_array_length) dst.(counts_array_length)) in
      let copied := take n s ++ drop n d in
      let zeroed :=
        if Z.of_nat n <? dst.(counts_array_length)
        then take n copied
             ++ replicate (Z.to_nat dst.(counts_array_length) - n) 0
             ++ drop (Z.to_nat dst.(counts_array_length)) copied
        else copied in
      set_data dst src.(total_count) src.(min_value) src.(max_value) (Some zeroed)
  | _, _ => dst
  end.

(** ** Index arithmetic *)

Definition kv_hist_get_bucket_index (h : kv_hist) (value : Z) : Z :=
  if value <? h.(sub_bucket_half_count) then 0
  else
    let pow2ceiling := u64 (64 - kv_hist_leading_zeros64 (Z.lor value h.(sub_bucket_mask))) in
    i32 pow2ceiling - h.(sub_bucket_half_count_magnitude).

Definition kv_hist_get_sub_bucket_index (h : kv_hist) (value bucket_index : Z) : Z :=
  i32 (Z.shiftr value (bucket_index + h.(unit_magnitude))).

Definition kv_hist_value_from_index (h : kv_hist) (bucket_index sub_bucket_index : Z) : Z :=
  (u64 sub_bucket_index +u64 1) <<u64 (bucket_index + h.(unit_magnitude)).

(** ** Recording *)

Definition clamp (h : kv_hist) (value : Z) : Z :=
  if value <? h.(lowest_trackable) then h.(lowest_trackable)
  else if h.(highest_trackable) <? value then h.(highest_trackable)
  else value.

Definition index_of (h : kv_hist) (value : Z) : Z :=
  let bucket_index := kv_hist_get_bucket_index h value in
  let sub_bucket_index := kv_hist_get_sub_bucket_index h value bucket_index in
  i32 (i32 (Z.shiftl bucket_index h.(sub_bucket_half_count_magnitude)) + sub_bucket_index).

Definition kv_hist_record (h : kv_hist) (value0 : Z) : kv_hist :=
  let value := clamp h value0 in
  let index := index_of h value in
  if (index <? 0) || (h.(counts_array_length) <=? index) then h
  else
    match h.(counts) with
    | None => h (* a null [counts] comes with length 0: not reached *)
    | Some l =>
        let i := Z.to_nat index in
        set_data h (h.(total_count) +u64 1)
          (if value <? h.(min_value) then value else h.(min_value))
          (if h.(max_value) <? value then value else h.(max_value))
          (Some (<[i := at_ l i +u64 1]> l))
    end.

(** ** Merging and differencing *)

(** Body of the loop of [kv_hist_merge]. *)
Definition merge_step (s : list Z) (d : list Z) (i : nat) : list Z :=
  let c := at_ s i in
  if c =? 0 then d else <[i := at_ d i +u64 c]> d.

Definition kv_hist_merge (dst src : kv_hist) : kv_hist :=
  match src.(counts), dst.(counts) with
  | Some s, Some d =>
      let n := Z.to_nat (Z.min src.(counts_array_length) dst.(counts_array_length)) in
      set_data dst (dst.(total_count) +u64 src.(total_count))
        (if src.(min_value) <? dst.(min_value) then src.(min_value) else dst.(min_value))
        (if dst.(max_value) <? src.(max_value) then src.(max_value) else dst.(max_value))
        (Some (foldl (merge_step s) d (seq 0 n)))
  | _, _ => dst
  end.

(** [i >> half_magnitude] and [i & (half_count - 1)]: an array index back to
    the upper edge of its bucket. *)
Definition value_at_index (h : kv_hist) (i : Z) : Z :=
  kv_hist_value_from_index h
    (Z.shiftr i h.(sub_bucket_half_count_magnitude))
    (Z.land i (h.(sub_bucket_half_count) - 1)).

(** Add [c] samples of bucket [i] to a snapshot: count, total, min and max. *)
Definition bump (upd : Z -> Z -> Z) (h : kv_hist) (i : nat) (c : Z) : kv_hist :=
  let value := value_at_index h (Z.of_nat i) in
  set_data h (h.(total_count) +u64 c)
    (if value <? h.(min_value) then value else h.(min_value))
    (if h.(max_value) <? value then value else h.(max_value))
    ((fun l => <[i := upd (at_ l i) c]> l) <$> h.(counts)).

(** [kv_hist_merge_snapshot] with the values its atomic loads return made
    explicit: [loads i] is what the load of [src->counts[i]] yields, so a
    recording thread may run between two loads. *)
Definition merge_snapshot_loads (dst : kv_hist) (loads : nat -> Z) (n : nat) : kv_hist :=
  foldl (fun h i => if loads i =? 0 then h else bump (fun x c => x +u64 c) h i (loads i))
    dst (seq 0 n).

Definition kv_hist_merge_snapshot (dst src : kv_hist) : kv_hist :=
  match src.(counts), dst.(counts) with
  | Some s, Some _ =>
      merge_snapshot_loads dst (at_ s)
        (Z.to_nat (Z.min src.(counts_array_length) dst.(counts_array_length)))
  | _, _ => dst
  end.

Definition added_since (c p : Z) : Z := if p <=? c then c - p else c.

Definition kv_hist_delta (dst current previous : kv_hist) : kv_hist :=
  match dst.(counts), current.(counts), previous.(counts) with
  | Some _, Some c, Some p =>
      let n := Z.to_nat (Z.min (Z.min current.(counts_array_length)
                                      previous.(counts_array_length))
                               dst.(counts_array_length)) in
      foldl (fun h i =>
               let added := added_since (at_ c i) (at_ p i) in
               if added =? 0 then h else bump (fun _ a => a) h i added)
        (kv_hist_reset dst) (seq 0 n)
  | _, _, _ => dst
  end.

(** ** Reading *)

Definition double : Type := spec_float.
Definition dprec : Z := 53.
Definition demax : Z := 1024.
Definition double_of_Z (x : Z) : double := binary_normalize dprec demax x 0 false.
(** The literal 0.5. *)
Definition double_half : double := binary_normalize dprec demax 1 (-1) false.

(** Conversion of a double to [uint64_t]: truncation towards zero (the C
    conversion is defined for values in range only). *)
Definition u64_of_double (d : double) : Z :=
  match d with
  | S754_finite false m e => u64 (Z.shiftl (Zpos m) e)
  | _ => 0
  end.

Definition count_at_percentile (total : Z) (percentile : double) : Z :=
  let requested := if SFltb (double_of_Z 100) percentile then double_of_Z 100 else percentile in
  let c := u64_of_double
             (SFadd dprec demax
                (SFmul dprec demax (SFdiv dprec demax requested (double_of_Z 100))
                   (double_of_Z total))
                double_half) in
  if c =? 0 then 1 else c.

(** The scan of [kv_hist_value_at_percentile]: the first index at which the
    running total reaches [target]. *)
Fixpoint scan (l : list Z) (i : nat) (acc target : Z) : option nat :=
  match l with
  | [] => None
  | c :: l => let acc := acc +u64 c in
              if target <=? acc then Some i else scan l (S i) acc target
  end.

Definition value_at_count (h : kv_hist) (target : Z) : Z :=
  match h.(counts) with
  | Some l => match scan (take (Z.to_nat h.(counts_array_length)) l) 0 0 target with
              | Some i => value_at_index h (Z.of_nat i)
              | None => h.(max_value)
              end
  | None => h.(max_value)
  end.

Definition kv_hist_value_at_percentile (h : kv_hist) (percentile : double) : Z :=
  if h.(total_count) =? 0 then 0
  else value_at_count h (count_at_percentile h.(total_count) percentile).

Definition kv_hist_mean (h : kv_hist) : double :=
  if h.(total_count) =? 0 then S754_zero false
  else
    let l := take (Z.to_nat h.(counts_array_length)) (default [] h.(counts)) in
    let sum :=
      foldl (fun s i =>
               let c := at_ l i in
               if c =? 0 then s
               else SFadd dprec demax s
                      (SFmul dprec demax (double_of_Z (value_at_index h (Z.of_nat i)))
                         (double_of_Z c)))
        (S754_zero false) (seq 0 (length l)) in
    SFdiv dprec demax sum (double_of_Z h.(total_count)).

Definition kv_hist_min (h : kv_hist) : Z :=
  if h.(total_count) =? 0 then 0 else h.(min_value).

Definition kv_hist_max (h : kv_hist) : Z :=
  if h.(total_count) =? 0 then 0 else h.(max_value).

(** ** Facts on the logarithms *)

Lemma clz_shift_loop_spec fuel v n :
  0 <= v < 2 ^ Z.of_nat fuel ->
  clz_shift_loop (S fuel) v n = n + (if v =? 0 then 0 else Z.log2 v + 1).
Proof.
  revert v n. induction fuel as [|fuel IH]; intros v n Hv.
  - replace v with 0 by lia. simpl. lia.
  - change (clz_shift_loop (S (S fuel)) v n)
      with (if v =? 0 then n else clz_shift_loop (S fuel) (Z.shiftr v 1) (n + 1)).
    destruct (Z.eqb_spec v 0) as [->|Hv0]; [lia|].
    rewrite Z.shiftr_div_pow2 by lia. change (2 ^ 1) with 2.
    rewrite IH by (rewrite Nat2Z.inj_succ, Z.pow_succ_r in Hv by lia; dlia).
    destruct (Z.eqb_spec (v / 2) 0) as [Hz|Hnz].
    + replace v with 1 by dlia. change (Z.log2 1) with 0. lia.
    + pose proof (Z.log2_shiftr v 1) as Hs.
      rewrite Z.shiftr_div_pow2 in Hs by lia. change (2 ^ 1) with 2 in Hs.
      assert (1 <= Z.log2 v) by (apply Z.log2_le_pow2; dlia).
      rewrite Hs by lia. lia.
Qed.

Lemma floor_log2_eq v : kv_hist_floor_log2 v = Z.log2 v.
Proof. unfold kv_hist_floor_log2, kv_hist_leading_zeros64, builtin_clzll. lia. Qed.

Lemma single_unit_cases sf :
  In (kv_hist_ceil_log2 (single_unit_resolution sf)) [5; 8; 11; 15; 18].
Proof.
  unfold single_unit_resolution.
  repeat case_match; vm_compute; tauto.
Qed.

(** ** Shape of an initialised histogram *)

(** [k] is [sub_bucket_count_magnitude]; [lowest] is 1 in every call the
    program makes, so that [unit_magnitude] is 0. *)
Record wf (k : Z) (h : kv_hist) (l : list Z) : Prop := {
  wf_k : 3 <= k <= 18;
  wf_scm : h.(sub_bucket_count_magnitude) = k;
  wf_shcm : h.(sub_bucket_half_count_magnitude) = k - 1;
  wf_sc : h.(sub_bucket_count) = 2 ^ k;
  wf_shc : h.(sub_bucket_half_count) = 2 ^ (k - 1);
  wf_mask : h.(sub_bucket_mask) = 2 ^ k - 1;
  wf_um : h.(unit_magnitude) = 0;
  wf_lo : h.(lowest_trackable) = 1;
  wf_hi : 1 < h.(highest_trackable) < 2 ^ 63;
  wf_bc : 1 <= h.(bucket_count) <= 65;
  wf_cover : h.(highest_trackable) <= (2 ^ k - 1) * 2 ^ (h.(bucket_count) - 1);
  wf_len : h.(counts_array_length) = (h.(bucket_count) + 1) * 2 ^ (k - 1);
  wf_counts : h.(counts) = Some l;
  wf_length : length l = Z.to_nat h.(counts_array_length);
  wf_u64 : Forall is_u64 l;
}.

(** The loop of [kv_hist_init] ends within [fuel] doublings, at the first
    power that covers [hi]. *)
Lemma bucket_loop_ok fuel t hi b :
  0 < t -> hi < 2 ^ 63 -> hi <= t * 2 ^ Z.of_nat fuel ->
  exists j, bucket_loop fuel t hi b = Some (b + Z.of_nat j) /\ (j <= fuel)%nat /\
    hi <= t * 2 ^ Z.of_nat j.
Proof.
  revert t b. induction fuel as [|fuel IH]; intros t b Ht Hhi Hf; simpl bucket_loop.
  - exists 0%nat. destruct (Z.ltb_spec t hi); [simpl in Hf; lia|].
    rewrite Z.add_0_r. auto.
  - destruct (Z.ltb_spec t hi).
    + rewrite Z.shiftl_mul_pow2 by lia. rewrite u64_small by lia.
      rewrite Nat2Z.inj_succ, Z.pow_succ_r in Hf by lia.
      destruct (IH (t * 2 ^ 1) (b + 1)) as (j & -> & Hj & Hc); [lia..|].
      exists (S j). rewrite Nat2Z.inj_succ, Z.pow_succ_r by lia.
      split; [f_equal; lia|]. split; lia.
    + exists 0%nat. rewrite Z.add_0_r, Z.mul_1_r. split; [done|]. lia.
Qed.

(** Once [trackable] has been shifted out it stays 0. *)
Lemma bucket_loop_zero fuel hi b : 0 < hi -> bucket_loop fuel 0 hi b = None.
Proof.
  intros Hhi. revert b. induction fuel as [|fuel IH]; intros b; simpl.
  - destruct (Z.ltb_spec 0 hi); [done|lia].
  - destruct (Z.ltb_spec 0 hi); [apply IH|lia].
Qed.

Lemma init_unfold k hi sf (Hk : kv_hist_ceil_log2 (single_unit_resolution sf) = k) :
  1 < hi < 2 ^ 63 -> 3 <= k <= 18 ->
  exists b, 1 <= b <= 65 /\ hi <= (2 ^ k - 1) * 2 ^ (b - 1) /\
  forall ok, kv_hist_init 1 hi sf ok =
    let len := (b + 1) * 2 ^ (k - 1) in
    let h cs mn := mk_hist 0 k (k - 1) (2 ^ k) (2 ^ (k - 1)) b len (2 ^ k - 1) 1 hi 0 mn 0 cs in
    if ok then Some (0, h (Some (replicate (Z.to_nat len) 0)) UINT64_MAX)
    else Some (-1, h None 0).
Proof.
  intros Hhi Hkr.
  assert (Hkp : 2 ^ 3 <= 2 ^ k <= 2 ^ 18) by (split; apply Z.pow_le_mono_r; lia).
  destruct (bucket_loop_ok bucket_fuel (2 ^ k - 1) hi 1) as (j & Hj & Hj1 & Hj2); [lia|lia|unfold bucket_fuel; lia|]. unfold bucket_fuel in Hj1.
  exists (1 + Z.of_nat j). split; [lia|]. split.
  { by replace (1 + Z.of_nat j - 1) with (Z.of_nat j) by lia. }
  intros ok. unfold kv_hist_init. rewrite Hk, floor_log2_eq.
  destruct (Z.leb_spec hi 1); [lia|]. simpl orb. cbv zeta.
  rewrite Z.shiftl_1_l. change (Z.log2 1) with 0. rewrite Z.shiftl_0_r.
  rewrite (u64_small (2 ^ k - 1)) by lia. rewrite Hj.
  replace (2 ^ k / 2) with (2 ^ (k - 1)); [by destruct ok|].
  replace k with (Z.succ (k - 1)) at 2 by lia.
  rewrite Z.pow_succ_r by lia. rewrite Z.mul_comm, Z.div_mul by lia. done.
Qed.

Lemma init_wf hi sf :
  1 < hi < 2 ^ 63 ->
  exists k h l, kv_hist_init 1 hi sf true = Some (0, h) /\ wf k h l /\
    k = kv_hist_ceil_log2 (single_unit_resolution sf) /\ h.(highest_trackable) = hi /\
    l = replicate (length l) 0 /\ h.(total_count) = 0 /\
    h.(min_value) = UINT64_MAX /\ h.(max_value) = 0.
Proof.
  intros Hhi. set (k := kv_hist_ceil_log2 (single_unit_resolution sf)).
  assert (Hk : 3 <= k <= 18).
  { pose proof (single_unit_cases sf) as H. fold k in H. simpl in H. lia. }
  destruct (init_unfold k hi sf eq_refl Hhi Hk) as (b & Hb & Hc & Hi).
  rewrite Hi. cbv zeta. do 3 eexists. split; [done|].
  split; [|by rewrite length_replicate].
  assert (0 < 2 ^ (k - 1)) by (apply pow2_pos; lia).
  constructor; simpl; auto; try lia.
  - by rewrite length_replicate.
  - apply Forall_replicate. unfold is_u64. lia.
Qed.

(** ** The bucket of a value *)

Section geometry.
Context (k : Z) (h : kv_hist) (l : list Z) (W : wf k h l).

(** Closed form of [kv_hist_get_bucket_index] and of the index. *)
Definition bucket_of (v : Z) : Z :=
  if v <? 2 ^ (k - 1) then 0 else Z.log2 v - k + 2.

Lemma k_pows : 2 ^ k = 4 * 2 ^ (k - 2) /\ 2 ^ (k - 1) = 2 * 2 ^ (k - 2) /\ 2 <= 2 ^ (k - 2) <= 2 ^ 16.
Proof.
  destruct W.
  replace k with (Z.succ (Z.succ (k - 2))) at 1 by lia.
  replace (k - 1) with (Z.succ (k - 2)) by lia.
  rewrite !Z.pow_succ_r by lia. split; [lia|]. split; [lia|].
  change 2 with (2 ^ 1) at 1. split; apply Z.pow_le_mono_r; lia.
Qed.

Lemma bucket_index_eq v :
  0 <= v < 2 ^ 63 -> kv_hist_get_bucket_index h v = bucket_of v.
Proof.
  intros Hv. destruct k_pows as (Hp1 & Hp2 & Hp3). destruct W.
  unfold kv_hist_get_bucket_index, bucket_of. rewrite wf_shc0, wf_mask0, wf_shcm0.
  destruct (Z.ltb_spec v (2 ^ (k - 1))) as [|Hge]; [done|].
  unfold kv_hist_leading_zeros64, builtin_clzll.
  rewrite Z.log2_lor by lia.
  assert (Hl1 : Z.log2 (2 ^ k - 1) = k - 1).
  { apply Z.log2_unique; [lia|]. rewrite <- Z.add_1_r. replace (k - 1 + 1) with k by lia. lia. }
  assert (k - 1 <= Z.log2 v) by (apply Z.log2_le_pow2; lia).
  assert (Z.log2 v < 63) by (apply log2_lt_width; lia).
  rewrite Hl1, Z.max_l by lia. usimp. lia.
Qed.

Lemma bucket_of_range v : 0 <= v < 2 ^ 63 -> 0 <= bucket_of v < 64.
Proof.
  intros Hv. destruct k_pows as (Hp1 & Hp2 & Hp3). destruct W. unfold bucket_of.
  destruct (Z.ltb_spec v (2 ^ (k - 1))); [lia|].
  assert (k - 1 <= Z.log2 v) by (apply Z.log2_le_pow2; lia).
  assert (Z.log2 v < 63) by (apply log2_lt_width; lia). lia.
Qed.

(** The sub-bucket fits below [2^(k-1)], and above bucket 0 it is at least
    half of that. *)
Lemma sub_bucket_range v :
  0 <= v < 2 ^ 63 ->
  0 <= v / 2 ^ bucket_of v < 2 ^ (k - 1) /\
  (bucket_of v <> 0 -> 2 ^ (k - 2) <= v / 2 ^ bucket_of v).
Proof.
  intros Hv. destruct k_pows as (Hp1 & Hp2 & Hp3). destruct W. unfold bucket_of.
  destruct (Z.ltb_spec v (2 ^ (k - 1))) as [|Hge].
  { rewrite Z.pow_0_r, Z.div_1_r. lia. }
  assert (k - 1 <= Z.log2 v) by (apply Z.log2_le_pow2; lia).
  destruct (log2_bounds v) as [Hlo Hup]; [lia|].
  set (b := Z.log2 v - k + 2). assert (0 < 2 ^ b) by (apply pow2_pos; lia).
  replace (Z.log2 v) with (b + (k - 2)) in Hlo by lia.
  replace (Z.log2 v + 1) with (b + (k - 1)) in Hup by lia.
  rewrite Z.pow_add_r in Hlo, Hup by lia.
  split; [split|].
  - apply Z.div_pos; lia.
  - apply Z.div_lt_upper_bound; lia.
  - intros _. apply Z.div_le_lower_bound; lia.
Qed.

Definition idx (v : Z) : Z := bucket_of v * 2 ^ (k - 1) + v / 2 ^ bucket_of v.

Lemma index_of_eq v : 0 <= v < 2 ^ 63 -> index_of h v = idx v.
Proof.
  intros Hv. destruct k_pows as (Hp1 & Hp2 & Hp3).
  pose proof (bucket_of_range v Hv). pose proof (sub_bucket_range v Hv) as [Hs _].
  unfold index_of, kv_hist_get_sub_bucket_index. rewrite bucket_index_eq by done.
  destruct W. rewrite wf_um0, wf_shcm0, Z.add_0_r.
  rewrite Z.shiftr_div_pow2, Z.shiftl_mul_pow2 by lia.
  rewrite (i32_small (v / _)) by lia.
  rewrite (i32_small (_ * _)) by nia. rewrite i32_small by nia. done.
Qed.

(** Every clamped value has an index inside the array. *)
Lemma idx_range v :
  0 <= v <= h.(highest_trackable) -> 0 <= idx v < h.(counts_array_length).
Proof.
  intros Hv. destruct k_pows as (Hp1 & Hp2 & Hp3). destruct W.
  assert (Hv' : 0 <= v < 2 ^ 63) by lia.
  pose proof (bucket_of_range v Hv'). pose proof (sub_bucket_range v Hv') as [Hs _].
  unfold idx. split; [nia|]. rewrite wf_len0.
  assert (bucket_of v <= h.(bucket_count)); [|nia].
  unfold bucket_of. destruct (Z.ltb_spec v (2 ^ (k - 1))); [lia|].
  assert (Z.log2 v < k + (h.(bucket_count) - 1)); [|lia].
  apply Z.log2_lt_pow2; [lia|]. rewrite Z.pow_add_r by lia.
  assert (0 < 2 ^ (h.(bucket_count) - 1)) by (apply pow2_pos; lia). nia.
Qed.

(** Decoding the index of a value gives the upper edge of its bucket. *)
Definition edge (v : Z) : Z := (v / 2 ^ bucket_of v + 1) * 2 ^ bucket_of v.

Lemma edge_gt v : 0 <= v < 2 ^ 63 -> v < edge v <= v + 2 ^ bucket_of v.
Proof.
  intros Hv. pose proof (bucket_of_range v Hv). unfold edge.
  assert (0 < 2 ^ bucket_of v) by (apply pow2_pos; lia). dlia.
Qed.

Lemma value_at_idx v : 0 <= v < 2 ^ 63 -> value_at_index h (idx v) = edge v.
Proof.
  intros Hv. destruct k_pows as (Hp1 & Hp2 & Hp3).
  pose proof (bucket_of_range v Hv). pose proof (sub_bucket_range v Hv) as [Hs Hs'].
  pose proof (edge_gt v Hv) as He.
  unfold value_at_index, kv_hist_value_from_index. destruct W.
  rewrite wf_shcm0, wf_shc0, wf_um0. unfold idx.
  rewrite shiftr_add_low, land_mask, mod_add_low by lia.
  rewrite Z.add_0_r, Z.shiftl_mul_pow2 by lia.
  rewrite (u64_small (v / _)) by lia. rewrite (u64_small (_ + 1)) by lia.
  fold (edge v). apply u64_small.
  assert (2 ^ bucket_of v <= 2 ^ 63) by (apply Z.pow_le_mono_r; lia). lia.
Qed.

(** Indices are ordered like values. *)
Lemma idx_mono v w : 0 <= v -> v <= w -> w < 2 ^ 63 -> idx v <= idx w.
Proof.
  intros Hv Hvw Hw. destruct k_pows as (Hp1 & Hp2 & Hp3).
  pose proof (bucket_of_range v) as B1. pose proof (bucket_of_range w) as B2.
  pose proof (sub_bucket_range v) as S1. pose proof (sub_bucket_range w) as S2.
  assert (Hb : bucket_of v <= bucket_of w).
  { unfold bucket_of. destruct W.
    destruct (Z.ltb_spec v (2 ^ (k - 1))), (Z.ltb_spec w (2 ^ (k - 1))); try lia.
    - assert (k - 1 <= Z.log2 w) by (apply Z.log2_le_pow2; lia). lia.
    - pose proof (Z.log2_le_mono v w Hvw). lia. }
  unfold idx. destruct (Z.eq_dec (bucket_of v) (bucket_of w)) as [E|].
  - rewrite E. assert (0 < 2 ^ bucket_of w) by (apply pow2_pos; lia).
    pose proof (Z.div_le_mono v w (2 ^ bucket_of w)). lia.
  - destruct S1, S2; [lia..|]. nia.
Qed.

(** The lower edge of the bucket of [v]. *)
Definition lower (v : Z) : Z := v / 2 ^ bucket_of v * 2 ^ bucket_of v.

Lemma bucket_of_mono v w : 0 <= v <= w -> bucket_of v <= bucket_of w.
Proof.
  intros Hvw. destruct k_pows as (Hp1 & Hp2 & Hp3). destruct W. unfold bucket_of.
  destruct (Z.ltb_spec v (2 ^ (k - 1))), (Z.ltb_spec w (2 ^ (k - 1))); try lia.
  - assert (k - 1 <= Z.log2 w) by (apply Z.log2_le_pow2; lia). lia.
  - pose proof (Z.log2_le_mono v w). lia.
Qed.

(** A smaller bucket means a smaller index, whatever the sub-buckets. *)
Lemma idx_bucket_lt v w :
  0 <= v < 2 ^ 63 -> 0 <= w < 2 ^ 63 -> bucket_of v < bucket_of w -> idx v < idx w.
Proof.
  intros Hv Hw Hb. pose proof (sub_bucket_range v Hv) as [? _].
  pose proof (sub_bucket_range w Hw) as [? _]. pose proof (bucket_of_range v Hv).
  unfold idx. nia.
Qed.

(** Where a value lies relative to the power of two of its bucket. *)
Lemma bucket_span v :
  0 <= v < 2 ^ 63 ->
  v < 2 ^ (k - 1) * 2 ^ bucket_of v /\ edge v <= 2 ^ (k - 1) * 2 ^ bucket_of v /\
  lower v <= v < lower v + 2 ^ bucket_of v /\
  (bucket_of v <> 0 -> 2 ^ (k - 2) * 2 ^ bucket_of v <= lower v).
Proof.
  intros Hv. pose proof (bucket_of_range v Hv).
  pose proof (sub_bucket_range v Hv) as [Hs Hs'].
  assert (Hp : 0 < 2 ^ bucket_of v) by (apply pow2_pos; lia).
  unfold edge, lower. set (s := v / 2 ^ bucket_of v) in *.
  assert (s * 2 ^ bucket_of v <= v < (s + 1) * 2 ^ bucket_of v) by (subst s; dlia).
  repeat split; nia.
Qed.

Lemma bucket_pow_lt v w :
  0 <= v < 2 ^ 63 -> bucket_of v < bucket_of w ->
  2 ^ (k - 1) * 2 ^ bucket_of v <= 2 ^ (k - 2) * 2 ^ bucket_of w.
Proof.
  intros Hv Hb. destruct W. pose proof (bucket_of_range v Hv).
  rewrite <- !Z.pow_add_r by lia. apply Z.pow_le_mono_r; lia.
Qed.

Lemma below_edge v w :
  0 <= v < 2 ^ 63 -> 0 <= w < 2 ^ 63 -> (w < edge v <-> idx w <= idx v).
Proof.
  intros Hv Hw. pose proof (bucket_of_range v Hv). pose proof (bucket_of_range w Hw).
  pose proof (bucket_span v Hv) as (_ & ? & _). pose proof (bucket_span w Hw) as (? & _ & ? & Hw').
  assert (Hp : 0 < 2 ^ bucket_of v) by (apply pow2_pos; lia).
  pose proof (edge_gt v Hv).
  destruct (Z.lt_trichotomy (bucket_of w) (bucket_of v)) as [Hb|[Hb|Hb]].
  - pose proof (idx_bucket_lt w v Hw Hv Hb).
    assert (w < v) by (destruct (Z.lt_ge_cases w v); [done|];
      pose proof (bucket_of_mono v w); lia). lia.
  - unfold idx, edge. rewrite Hb.
    set (s := v / 2 ^ bucket_of v). set (t := w / 2 ^ bucket_of v).
    assert (t * 2 ^ bucket_of v <= w < (t + 1) * 2 ^ bucket_of v) by (subst t; dlia).
    split; intros Hx; nia.
  - pose proof (idx_bucket_lt v w Hv Hw Hb). pose proof (bucket_pow_lt v w Hv Hb).
    specialize (Hw' ltac:(lia)). lia.
Qed.

Lemma below_lower v w :
  0 <= v < 2 ^ 63 -> 0 <= w < 2 ^ 63 -> (w < lower v <-> idx w < idx v).
Proof.
  intros Hv Hw. pose proof (bucket_of_range v Hv). pose proof (bucket_of_range w Hw).
  pose proof (bucket_span v Hv) as (_ & _ & ? & Hv'). pose proof (bucket_span w Hw) as (? & _).
  assert (Hp : 0 < 2 ^ bucket_of v) by (apply pow2_pos; lia).
  destruct (Z.lt_trichotomy (bucket_of w) (bucket_of v)) as [Hb|[Hb|Hb]].
  - pose proof (idx_bucket_lt w v Hw Hv Hb). pose proof (bucket_pow_lt w v Hw Hb).
    specialize (Hv' ltac:(lia)). lia.
  - unfold idx, lower. rewrite Hb.
    set (s := v / 2 ^ bucket_of v). set (t := w / 2 ^ bucket_of v).
    assert (t * 2 ^ bucket_of v <= w < (t + 1) * 2 ^ bucket_of v) by (subst t; dlia).
    split; intros Hx; nia.
  - pose proof (idx_bucket_lt v w Hv Hw Hb).
    assert (v < w) by (destruct (Z.lt_ge_cases v w); [done|];
      pose proof (bucket_of_mono w v); lia). lia.
Qed.

(** Width of a bucket: one unit below [2^(k-1)], else at most the fraction
    [1 / 2^(k-2)] of its lower edge. *)
Lemma bucket_width v :
  0 <= v < 2 ^ 63 -> edge v - lower v <= Z.max 1 (lower v / 2 ^ (k - 2)).
Proof.
  intros Hv. destruct k_pows as (_ & _ & ?). pose proof (bucket_span v Hv) as (_ & _ & _ & Hl).
  replace (edge v - lower v) with (2 ^ bucket_of v) by (unfold edge, lower; ring).
  destruct (Z.eq_dec (bucket_of v) 0) as [->|Hb]; [simpl; lia|].
  specialize (Hl Hb). pose proof (Z.div_le_lower_bound (lower v) (2 ^ (k - 2)) (2 ^ bucket_of v)).
  lia.
Qed.

End geometry.

(** ** What a histogram holds *)

(** The parameters an initialised histogram never changes. *)
Record geom := { gk : Z; ghi : Z; gb : Z }.

Definition glen (g : geom) : nat := Z.to_nat ((g.(gb) + 1) * 2 ^ (g.(gk) - 1)).

Definition clampZ (hi v : Z) : Z := if v <? 1 then 1 else if hi <? v then hi else v.

(** The array index a sample is counted at. *)
Definition key (g : geom) (v : Z) : Z := idx g.(gk) (clampZ g.(ghi) v).

(** How many samples of [vs] have index [i]. *)
Definition tally (g : geom) (vs : list Z) (i : Z) : Z :=
  Z.of_nat (length (filter (fun v => key g v = i) vs)).

Definition tallies (g : geom) (vs : list Z) : list Z :=
  (fun i => tally g vs (Z.of_nat i)) <$> seq 0 (glen g).

(** [h] holds exactly the samples [vs] (in any order): bucket by bucket, and
    in total.  The bound is what keeps the 64-bit counters from wrapping. *)
Record holds (g : geom) (h : kv_hist) (vs : list Z) : Prop := {
  holds_wf : wf g.(gk) h (tallies g vs);
  holds_hi : h.(highest_trackable) = g.(ghi);
  holds_b : h.(bucket_count) = g.(gb);
  holds_total : h.(total_count) = Z.of_nat (length vs);
  holds_fit : Z.of_nat (length vs) < 2 ^ 64;
}.

(** Moreover [min_value] and [max_value] are those of the samples. *)
Record exact (g : geom) (h : kv_hist) (vs : list Z) : Prop := {
  exact_holds : holds g h vs;
  exact_min : h.(min_value) = foldr Z.min UINT64_MAX (clampZ g.(ghi) <$> vs);
  exact_max : h.(max_value) = foldr Z.max 0 (clampZ g.(ghi) <$> vs);
}.

Lemma tally_cons g v vs i :
  tally g (v :: vs) i = (if decide (key g v = i) then 1 else 0) + tally g vs i.
Proof. unfold tally. rewrite filter_cons. case_decide; simpl; lia. Qed.

Lemma tally_app g vs ws i : tally g (vs ++ ws) i = tally g vs i + tally g ws i.
Proof. unfold tally. rewrite filter_app, length_app. lia. Qed.

Lemma tally_le g vs i : 0 <= tally g vs i <= Z.of_nat (length vs).
Proof. unfold tally. pose proof (length_filter (fun v => key g v = i) vs). lia. Qed.

Lemma lookup_tallies g vs i :
  (i < glen g)%nat -> tallies g vs !! i = Some (tally g vs (Z.of_nat i)).
Proof. intros H. unfold tallies. by rewrite list_lookup_fmap, lookup_seq_lt. Qed.

Lemma at_tallies g vs i :
  (i < glen g)%nat -> at_ (tallies g vs) i = tally g vs (Z.of_nat i).
Proof. intros H. unfold at_. by rewrite lookup_tallies. Qed.

Lemma length_tallies g vs : length (tallies g vs) = glen g.
Proof. unfold tallies. by rewrite length_fmap, length_seq. Qed.

(** Two count arrays of the right length are equal when their entries are. *)
Lemma tallies_ext g vs (l : list Z) :
  length l = glen g ->
  (forall i, (i < glen g)%nat -> l !! i = Some (tally g vs (Z.of_nat i))) ->
  l = tallies g vs.
Proof.
  intros Hl H. apply list_eq. intros i.
  destruct (decide (i < glen g)%nat) as [Hi|Hi].
  - by rewrite H, lookup_tallies.
  - rewrite !lookup_ge_None_2; [done|rewrite length_tallies|]; lia.
Qed.

Lemma tallies_nil g : tallies g [] = replicate (glen g) 0.
Proof.
  symmetry. apply tallies_ext; [by rewrite length_replicate|].
  intros i Hi. by rewrite lookup_replicate_2.
Qed.

Lemma tallies_u64 g vs : Z.of_nat (length vs) < 2 ^ 64 -> Forall is_u64 (tallies g vs).
Proof.
  intros H. apply Forall_fmap, Forall_forall. intros i _. simpl.
  pose proof (tally_le g vs (Z.of_nat i)). unfold is_u64. lia.
Qed.

(** [holds] survives any change of the data fields that writes the tallies
    of the new samples. *)
Lemma holds_set_data g h vs ws t mn mx cs :
  holds g h vs -> cs = Some (tallies g ws) -> t = Z.of_nat (length ws) ->
  Z.of_nat (length ws) < 2 ^ 64 -> holds g (set_data h t mn mx cs) ws.
Proof.
  intros [[] ? ? ? ?] -> -> Hf. constructor; simpl; auto.
  constructor; simpl; auto.
  - by rewrite length_tallies in *.
  - by apply tallies_u64.
Qed.

Lemma holds_clamp g h vs v : holds g h vs -> clamp h v = clampZ g.(ghi) v.
Proof. intros [[] Hhi ? ? ?]. unfold clamp, clampZ. by rewrite wf_lo0, Hhi. Qed.

Lemma holds_glen g h vs : holds g h vs -> Z.to_nat h.(counts_array_length) = glen g.
Proof. intros [[] Hhi Hb ? ?]. unfold glen. by rewrite wf_len0, Hb. Qed.

Lemma clampZ_range hi v : 1 < hi -> 1 <= clampZ hi v <= hi.
Proof. unfold clampZ. intros. repeat case_match; lia. Qed.

Lemma holds_key g h vs v :
  holds g h vs -> index_of h (clampZ g.(ghi) v) = key g v /\
                  0 <= key g v < h.(counts_array_length).
Proof.
  intros H. destruct H as [W Hhi ? ? ?]. pose proof (wf_hi _ _ _ W).
  pose proof (clampZ_range g.(ghi) v). unfold key. split.
  - eapply index_of_eq; [done|lia].
  - eapply idx_range; [done|lia].
Qed.

(** ** Recording *)

(** [kv_hist_record] counts the sample, exactly once, in its bucket, and
    keeps minimum and maximum: the histogram of [vs] becomes that of
    [v :: vs]. *)
Lemma record_holds g h vs v :
  holds g h vs -> Z.of_nat (length vs) + 1 < 2 ^ 64 -> holds g (kv_hist_record h v) (v :: vs).
Proof.
  intros H Hf. unfold kv_hist_record. rewrite (holds_clamp _ _ _ _ H).
  destruct (holds_key _ _ _ v H) as [-> Hr].
  destruct (Z.ltb_spec (key g v) 0), (Z.leb_spec h.(counts_array_length) (key g v)); try lia.
  simpl. rewrite (wf_counts _ _ _ (holds_wf _ _ _ H)).
  assert (Hi : (Z.to_nat (key g v) < glen g)%nat)
    by (rewrite <- (holds_glen _ _ _ H); lia).
  eapply holds_set_data; [done| |rewrite (holds_total _ _ _ H); usimp; simpl; lia|simpl; lia].
  f_equal. rewrite at_tallies by done. pose proof (tally_le g vs (key g v)).
  rewrite Z2Nat.id, u64_small by lia.
  apply tallies_ext; [by rewrite length_insert, length_tallies|].
  intros i Hi'. rewrite tally_cons. destruct (decide (key g v = Z.of_nat i)) as [E|E].
  - rewrite E, Nat2Z.id, list_lookup_insert_eq by (by rewrite length_tallies).
    f_equal. lia.
  - rewrite list_lookup_insert_ne by lia. by rewrite lookup_tallies.
Qed.

Lemma record_exact g h vs v :
  exact g h vs -> Z.of_nat (length vs) + 1 < 2 ^ 64 -> exact g (kv_hist_record h v) (v :: vs).
Proof.
  intros [H Hmin Hmax] Hf. pose proof (record_holds g h vs v H Hf) as H'.
  constructor; [done| |];
    unfold kv_hist_record; rewrite (holds_clamp _ _ _ _ H);
    destruct (holds_key _ _ _ v H) as [-> Hr];
    destruct (Z.ltb_spec (key g v) 0), (Z.leb_spec h.(counts_array_length) (key g v)); try lia;
    simpl; rewrite (wf_counts _ _ _ (holds_wf _ _ _ H)); csimpl.
  - rewrite <- Hmin. case_match eqn:E; rewrite ?Z.ltb_lt, ?Z.ltb_ge in E; lia.
  - rewrite <- Hmax. case_match eqn:E; rewrite ?Z.ltb_lt, ?Z.ltb_ge in E; lia.
Qed.

Definition record_all (h : kv_hist) (vs : list Z) : kv_hist := foldl kv_hist_record h vs.

Lemma record_all_exact g h vs ws :
  exact g h vs -> Z.of_nat (length vs + length ws) < 2 ^ 64 ->
  exact g (record_all h ws) (rev ws ++ vs).
Proof.
  revert h vs. induction ws as [|w ws IH]; intros h vs H Hf; [done|].
  simpl in *. rewrite <- app_assoc. apply IH; [|simpl; lia].
  apply record_exact; [done|lia].
Qed.

(** ** Loops over the array *)

(** A loop [for i < n] that writes only [d[i]] at step [i]. *)
Lemma foldl_update_lookup (step : list Z -> nat -> list Z) (f : nat -> Z -> Z) n (d : list Z) j :
  (forall d i, (i < length d)%nat -> step d i = <[i := f i (at_ d i)]> d) ->
  (n <= length d)%nat ->
  length (foldl step d (seq 0 n)) = length d /\
  foldl step d (seq 0 n) !! j = if decide (j < n)%nat then f j <$> d !! j else d !! j.
Proof.
  intros Hstep. induction n as [|n IH]; intros Hn; [done|].
  destruct IH as [IHl IHj]; [lia|].
  rewrite seq_S, foldl_app. simpl. rewrite Hstep by lia.
  rewrite length_insert. split; [done|].
  destruct (decide (j = n)) as [->|Hne].
  - rewrite list_lookup_insert_eq by lia. rewrite decide_True by lia.
    rewrite decide_False in IHj by lia. unfold at_. rewrite IHj.
    destruct (lookup_lt_is_Some_2 d n) as [x ->]; [lia|done].
  - rewrite list_lookup_insert_ne, IHj by done. repeat case_decide; lia || done.
Qed.

Lemma merge_step_eq s d i :
  (i < length d)%nat ->
  merge_step s d i = <[i := if at_ s i =? 0 then at_ d i else at_ d i +u64 at_ s i]> d.
Proof.
  intros Hi. unfold merge_step. destruct (Z.eqb_spec (at_ s i) 0); [|done].
  symmetry. apply list_insert_id. unfold at_.
  by destruct (lookup_lt_is_Some_2 d i Hi) as [x ->].
Qed.

(** The loops of [kv_hist_merge_snapshot] and [kv_hist_delta]: [c i] samples
    of bucket [i] go into [h], with [upd] the assignment to the counter. *)
Definition bump_loop (upd : Z -> Z -> Z) (c : nat -> Z) (h : kv_hist) (n : nat) : kv_hist :=
  foldl (fun h i => if c i =? 0 then h else bump upd h i (c i)) h (seq 0 n).

Definition bump_step (upd : Z -> Z -> Z) (c : nat -> Z) (d : list Z) (i : nat) : list Z :=
  <[i := if c i =? 0 then at_ d i else upd (at_ d i) (c i)]> d.

Lemma bump_loop_eq upd c h l n :
  h.(counts) = Some l -> (n <= length l)%nat -> is_u64 h.(total_count) ->
  exists mn mx,
    bump_loop upd c h n =
      set_data h (u64 (h.(total_count) + sumZ (c <$> seq 0 n))) mn mx
        (Some (foldl (bump_step upd c) l (seq 0 n))).
Proof.
  intros Hl Hn Ht. induction n as [|n IH].
  { exists h.(min_value), h.(max_value). simpl. rewrite Z.add_0_r, u64_small by done.
    unfold bump_loop. simpl. rewrite <- Hl. by destruct h. }
  destruct IH as (mn & mx & IH); [lia|]. unfold bump_loop in *.
  rewrite seq_S, !foldl_app, fmap_app, sumZ_app. simpl foldl at 1. rewrite IH.
  pose proof (foldl_update_lookup (bump_step upd c)
    (fun i x => if c i =? 0 then x else upd x (c i)) n l n (fun _ _ _ => eq_refl)) as [Hfl _]; [lia|].
  csimpl. destruct (Z.eqb_spec (c n) 0) as [Hz|Hz].
  - exists mn, mx. rewrite Hz. simpl. rewrite Z.add_0_r. f_equal.
    f_equal. symmetry. unfold bump_step at 1. rewrite Hz. simpl.
    apply list_insert_id. unfold at_.
    by destruct (lookup_lt_is_Some_2 (foldl (bump_step upd c) l (seq 0 n)) n) as [x ->]; [lia|].
  - do 2 eexists. unfold bump. simpl. unfold set_data. simpl. f_equal.
    + unfold u64. rewrite Zplus_mod_idemp_l. f_equal. lia.
    + apply Z.eqb_neq in Hz. symmetry. unfold bump_step at 1. by rewrite Hz.
Qed.

(** ** Summing the buckets *)

Lemma sum_indicator f (x : Z) n :
  0 <= x < Z.of_nat n ->
  sumZ ((fun i => (if decide (x = Z.of_nat i) then 1 else 0) + f i) <$> seq 0 n)
  = 1 + sumZ (f <$> seq 0 n).
Proof.
  intros Hx.
  assert (Hg : forall m, sumZ ((fun i => (if decide (x = Z.of_nat i) then 1 else 0) + f i) <$> seq 0 m)
    = (if decide (x < Z.of_nat m) then 1 else 0) + sumZ (f <$> seq 0 m)).
  { intros m. induction m as [|m IH]; [case_decide; simpl in *; lia|].
    rewrite seq_S, !fmap_app, !sumZ_app, IH. simpl. repeat case_decide; lia. }
  rewrite Hg, decide_True by lia. done.
Qed.

Lemma sum_tallies g vs :
  (forall v, 0 <= key g v < Z.of_nat (glen g)) ->
  sumZ (tallies g vs) = Z.of_nat (length vs).
Proof.
  intros Hk. induction vs as [|v vs IH].
  - by rewrite tallies_nil, sumZ_replicate0.
  - assert (E : tallies g (v :: vs) =
      (fun i => (if decide (key g v = Z.of_nat i) then 1 else 0) + tally g vs (Z.of_nat i))
        <$> seq 0 (glen g)).
    { apply list_fmap_ext. intros. apply tally_cons. }
    rewrite E, sum_indicator by done. fold (tallies g vs). rewrite IH. simpl. lia.
Qed.

Lemma holds_key_glen g h vs v : holds g h vs -> 0 <= key g v < Z.of_nat (glen g).
Proof.
  intros H. pose proof (holds_key g h vs v H) as [_ ?].
  rewrite <- (holds_glen g h vs H). lia.
Qed.

(** ** Reset, copy, merge *)

Lemma reset_exact g h vs : holds g h vs -> exact g (kv_hist_reset h) [].
Proof.
  intros H. unfold kv_hist_reset. rewrite (wf_counts _ _ _ (holds_wf _ _ _ H)).
  constructor; [|done..]. eapply holds_set_data; [done| |done|done].
  rewrite (holds_glen _ _ _ H), drop_ge by (by rewrite length_tallies).
  by rewrite app_nil_r, tallies_nil.
Qed.

Lemma copy_holds g dst src vs ws :
  holds g dst vs -> holds g src ws -> holds g (kv_hist_copy dst src) ws.
Proof.
  intros Hd Hs. unfold kv_hist_copy.
  rewrite (wf_counts _ _ _ (holds_wf _ _ _ Hd)), (wf_counts _ _ _ (holds_wf _ _ _ Hs)).
  pose proof (holds_glen _ _ _ Hd) as Ld. pose proof (holds_glen _ _ _ Hs) as Ls.
  assert (E : src.(counts_array_length) = dst.(counts_array_length)).
  { destruct Hd as [[] ? Hb1 ? ?], Hs as [[] ? Hb2 ? ?]. congruence. }
  rewrite E, Z.min_id. rewrite Ld.
  destruct (Z.ltb_spec (Z.of_nat (glen g)) dst.(counts_array_length)); [lia|].
  eapply holds_set_data; [done| |by destruct Hs|by destruct Hs].
  f_equal. rewrite take_ge, drop_ge by (rewrite length_tallies; lia). apply app_nil_r.
Qed.

Lemma same_length g h1 h2 vs ws :
  holds g h1 vs -> holds g h2 ws -> h1.(counts_array_length) = h2.(counts_array_length).
Proof. intros [[] ? Hb1 ? ?] [[] ? Hb2 ? ?]. congruence. Qed.

(** Adding the loads of a histogram that holds [ws] to the counts of [vs]
    gives the counts of [vs ++ ws]. *)
Lemma add_loads_tallies g vs ws (step : list Z -> nat -> list Z) :
  (forall d i, (i < length d)%nat ->
     step d i = <[i := if at_ (tallies g ws) i =? 0 then at_ d i
                       else at_ d i +u64 at_ (tallies g ws) i]> d) ->
  Z.of_nat (length vs + length ws) < 2 ^ 64 ->
  foldl step (tallies g vs) (seq 0 (glen g)) = tallies g (vs ++ ws).
Proof.
  intros Hstep Hf.
  pose (f i x := if at_ (tallies g ws) i =? 0 then x else x +u64 at_ (tallies g ws) i).
  assert (HL : forall i, _) by
    (intros i; apply (foldl_update_lookup step f (glen g) (tallies g vs) i Hstep);
     by rewrite length_tallies).
  apply tallies_ext; [by rewrite (proj1 (HL 0%nat)), length_tallies|].
  intros i Hi. rewrite (proj2 (HL i)). unfold f.
  rewrite decide_True by done. rewrite lookup_tallies, tally_app by done.
  rewrite at_tallies by done. simpl. f_equal.
  pose proof (tally_le g vs (Z.of_nat i)). pose proof (tally_le g ws (Z.of_nat i)).
  destruct (Z.eqb_spec (tally g ws (Z.of_nat i)) 0); [lia|]. apply u64_small. lia.
Qed.

Lemma foldr_min_app (l1 l2 : list Z) b :
  foldr Z.min b (l1 ++ l2) = Z.min (foldr Z.min b l1) (foldr Z.min b l2).
Proof.
  assert (foldr Z.min b l2 <= b) by (induction l2; simpl; lia).
  induction l1; simpl; lia.
Qed.

Lemma foldr_max_app (l1 l2 : list Z) b :
  foldr Z.max b (l1 ++ l2) = Z.max (foldr Z.max b l1) (foldr Z.max b l2).
Proof.
  assert (b <= foldr Z.max b l2) by (induction l2; simpl; lia).
  induction l1; simpl; lia.
Qed.

Lemma merge_exact g dst src vs ws :
  exact g dst vs -> exact g src ws -> Z.of_nat (length vs + length ws) < 2 ^ 64 ->
  exact g (kv_hist_merge dst src) (vs ++ ws).
Proof.
  intros [Hd Dmin Dmax] [Hs Smin Smax] Hf. unfold kv_hist_merge.
  rewrite (wf_counts _ _ _ (holds_wf _ _ _ Hd)), (wf_counts _ _ _ (holds_wf _ _ _ Hs)).
  rewrite (same_length _ _ _ _ _ Hs Hd), Z.min_id, (holds_glen _ _ _ Hd).
  constructor.
  - eapply holds_set_data; [done| | |rewrite length_app; lia].
    + f_equal. apply add_loads_tallies; [|lia]. intros. by apply merge_step_eq.
    + rewrite (holds_total _ _ _ Hd), (holds_total _ _ _ Hs), length_app. usimp. lia.
  - simpl. rewrite Dmin, Smin, fmap_app, foldr_min_app.
    case_match eqn:E; rewrite ?Z.ltb_lt, ?Z.ltb_ge in E; lia.
  - simpl. rewrite Dmax, Smax, fmap_app, foldr_max_app.
    case_match eqn:E; rewrite ?Z.ltb_lt, ?Z.ltb_ge in E; lia.
Qed.

(** ** Snapshots and intervals *)

Lemma sum_loads_tallies g h vs ws :
  holds g h vs ->
  sumZ (at_ (tallies g ws) <$> seq 0 (glen g)) = Z.of_nat (length ws).
Proof.
  intros H. rewrite <- (sum_tallies g ws) by (intros v; eapply holds_key_glen; done).
  f_equal. apply list_eq. intros i.
  destruct (decide (i < glen g)%nat).
  - rewrite list_lookup_fmap, lookup_seq_lt by done. simpl.
    by rewrite at_tallies, lookup_tallies.
  - rewrite !lookup_ge_None_2; [done|rewrite length_tallies|rewrite length_fmap, length_seq]; lia.
Qed.

Lemma merge_snapshot_holds g dst src vs ws :
  holds g dst vs -> holds g src ws -> Z.of_nat (length vs + length ws) < 2 ^ 64 ->
  holds g (kv_hist_merge_snapshot dst src) (vs ++ ws).
Proof.
  intros Hd Hs Hf. unfold kv_hist_merge_snapshot, merge_snapshot_loads.
  pose proof (wf_counts _ _ _ (holds_wf _ _ _ Hd)) as Cd.
  rewrite Cd, (wf_counts _ _ _ (holds_wf _ _ _ Hs)).
  rewrite (same_length _ _ _ _ _ Hs Hd), Z.min_id, (holds_glen _ _ _ Hd).
  destruct (bump_loop_eq (fun x c => x +u64 c) (at_ (tallies g ws)) dst (tallies g vs) (glen g))
    as (mn & mx & E); [done|by rewrite length_tallies| |].
  { rewrite (holds_total _ _ _ Hd). unfold is_u64. lia. }
  unfold bump_loop in E. rewrite E.
  eapply holds_set_data; [done| | |rewrite length_app; lia].
  - f_equal. apply add_loads_tallies; [done|lia].
  - rewrite (sum_loads_tallies _ _ _ _ Hd), (holds_total _ _ _ Hd), length_app. usimp. lia.
Qed.

Lemma bump_fold_zero (f : nat -> Z) g :
  foldl (bump_step (fun _ a => a) f) (tallies g []) (seq 0 (glen g)) = f <$> seq 0 (glen g).
Proof.
  pose (F i x := if f i =? 0 then x else f i).
  assert (HL : forall i, _) by
    (intros i; apply (foldl_update_lookup (bump_step (fun _ a => a) f) F (glen g) (tallies g []) i);
     [done|by rewrite length_tallies]).
  apply list_eq. intros i. rewrite (proj2 (HL i)). unfold F.
  rewrite list_lookup_fmap. case_decide.
  - rewrite lookup_tallies, lookup_seq_lt by done. simpl. f_equal.
    destruct (Z.eqb_spec (f i) 0); [|done]. unfold tally. simpl. lia.
  - rewrite !lookup_ge_None_2; [done|rewrite length_seq|rewrite length_tallies]; lia.
Qed.

(** The interval histogram holds exactly the samples recorded between the two
    cumulative snapshots. *)
Lemma delta_holds g dst cur prev vs olds news :
  holds g dst vs -> holds g prev olds -> holds g cur (news ++ olds) ->
  holds g (kv_hist_delta dst cur prev) news.
Proof.
  intros Hd Hp Hc. unfold kv_hist_delta.
  rewrite (wf_counts _ _ _ (holds_wf _ _ _ Hd)), (wf_counts _ _ _ (holds_wf _ _ _ Hp)),
    (wf_counts _ _ _ (holds_wf _ _ _ Hc)).
  rewrite (same_length _ _ _ _ _ Hc Hd), (same_length _ _ _ _ _ Hp Hd), !Z.min_id,
    (holds_glen _ _ _ Hd).
  pose proof (reset_exact _ _ _ Hd) as [Hr _ _].
  set (f i := added_since (at_ (tallies g (news ++ olds)) i) (at_ (tallies g olds) i)).
  assert (Hlen : Z.of_nat (length news) < 2 ^ 64).
  { pose proof (holds_fit _ _ _ Hc) as Hb. rewrite length_app in Hb. lia. }
  assert (Ef : f <$> seq 0 (glen g) = tallies g news).
  { apply tallies_ext; [by rewrite length_fmap, length_seq|]. intros i Hi.
    rewrite list_lookup_fmap, lookup_seq_lt by done. simpl. f_equal.
    unfold f, added_since. rewrite !at_tallies, tally_app by done.
    pose proof (tally_le g news (Z.of_nat i)).
    destruct (Z.leb_spec (tally g olds (Z.of_nat i))
      (tally g news (Z.of_nat i) + tally g olds (Z.of_nat i))); lia. }
  destruct (bump_loop_eq (fun _ a => a) f (kv_hist_reset dst) (tallies g []) (glen g))
    as (mn & mx & E); [apply (wf_counts _ _ _ (holds_wf _ _ _ Hr))|by rewrite length_tallies| |].
  { rewrite (holds_total _ _ _ Hr). unfold is_u64. simpl. lia. }
  change (holds g (bump_loop (fun _ a => a) f (kv_hist_reset dst) (glen g)) news). rewrite E.
  eapply holds_set_data; [done| | |done].
  - by rewrite bump_fold_zero, Ef.
  - rewrite Ef, (holds_total _ _ _ Hr), (sum_tallies g news) by
      (intros v; eapply holds_key_glen; done). simpl. usimp. lia.
Qed.

(** ** Percentiles *)

(** How many samples have an index below [n]. *)
Definition rank (g : geom) (vs : list Z) (n : nat) : Z :=
  Z.of_nat (length (filter (fun v => key g v < Z.of_nat n) vs)).

Lemma rank_S g vs n : rank g vs (S n) = rank g vs n + tally g vs (Z.of_nat n).
Proof.
  unfold rank, tally. induction vs as [|v vs IH]; [done|].
  rewrite !filter_cons. repeat case_decide; simpl length in *; lia.
Qed.

Lemma rank_0 g vs : (forall v, 0 <= key g v) -> rank g vs 0 = 0.
Proof.
  intros Hk. unfold rank. induction vs as [|v vs IH]; [done|].
  rewrite filter_cons, decide_False; [done|]. specialize (Hk v). simpl. lia.
Qed.

Lemma rank_le g vs n : 0 <= rank g vs n <= Z.of_nat (length vs).
Proof. unfold rank. pose proof (length_filter (fun v => key g v < Z.of_nat n) vs). lia. Qed.

Lemma rank_full g vs n :
  (forall v, key g v < Z.of_nat n) -> rank g vs n = Z.of_nat (length vs).
Proof.
  intros Hk. unfold rank. induction vs as [|v vs IH]; [done|].
  rewrite filter_cons, decide_True by done. simpl. lia.
Qed.

(** The scan stops at the bucket in which the running count reaches the
    target. *)
Lemma scan_spec g vs target m i :
  Z.of_nat (length vs) < 2 ^ 64 -> rank g vs i < target ->
  target <= rank g vs (i + m) ->
  exists j, scan ((fun i => tally g vs (Z.of_nat i)) <$> seq i m) i (rank g vs i) target = Some j
    /\ (i <= j < i + m)%nat /\ rank g vs j < target <= rank g vs (S j).
Proof.
  intros Hf. revert i. induction m as [|m IH]; intros i Hlo Hhi.
  { rewrite Nat.add_0_r in Hhi. lia. }
  csimpl. pose proof (rank_le g vs (S i)) as Hr. rewrite rank_S in Hr.
  pose proof (rank_le g vs i). pose proof (tally_le g vs (Z.of_nat i)).
  rewrite u64_small by lia.
  destruct (Z.leb_spec target (rank g vs i + tally g vs (Z.of_nat i))).
  - exists i. split; [done|]. rewrite rank_S. lia.
  - rewrite <- rank_S in *. destruct (IH (S i)) as (j & -> & Hj & Hb); [lia| |].
    { by rewrite Nat.add_succ_comm. }
    exists j. split; [done|]. lia.
Qed.

Lemma value_at_count_spec g h vs target :
  holds g h vs -> 1 <= target <= Z.of_nat (length vs) ->
  exists j, value_at_count h target = value_at_index h (Z.of_nat j) /\
    rank g vs j < target <= rank g vs (S j).
Proof.
  intros H Ht. unfold value_at_count.
  rewrite (wf_counts _ _ _ (holds_wf _ _ _ H)), (holds_glen _ _ _ H).
  rewrite take_ge by (by rewrite length_tallies).
  assert (Hk : forall v, 0 <= key g v < Z.of_nat (glen g))
    by (intros; eapply holds_key_glen; done).
  assert (R0 : rank g vs 0 = 0) by (apply rank_0; intros v; apply Hk).
  destruct (scan_spec g vs target (glen g) 0) as (j & E & Hj & Hb).
  - apply H.
  - lia.
  - simpl. rewrite rank_full; [lia|]. intros v. apply Hk.
  - unfold tallies. rewrite R0 in E. rewrite E. eauto.
Qed.

(** A sample of [vs] is counted in every occupied bucket the scan can stop
    at. *)
Lemma tally_pos g vs j :
  0 < tally g vs (Z.of_nat j) -> exists v, v ∈ vs /\ key g v = Z.of_nat j.
Proof.
  unfold tally. intros Hp.
  destruct (filter (fun v => key g v = Z.of_nat j) vs) as [|v l] eqn:E; [simpl in Hp; lia|].
  exists v. assert (Hv : v ∈ filter (fun v => key g v = Z.of_nat j) vs)
    by (rewrite E; left). apply list_elem_of_filter in Hv. tauto.
Qed.


(** ** Properties *)

(** The samples below [x], after clamping to the trackable range. *)
Definition count_below (hi : Z) (vs : list Z) (x : Z) : Z :=
  Z.of_nat (length (filter (fun v => clampZ hi v < x) vs)).

Lemma count_below_rev hi vs x : count_below hi (rev vs) x = count_below hi vs x.
Proof. unfold count_below. f_equal. apply Permutation_length. by rewrite <- Permutation_rev. Qed.

Lemma clamped g h vs v : holds g h vs -> 0 <= clampZ g.(ghi) v < 2 ^ 63.
Proof.
  intros [[] Hhi ? ? ?]. pose proof (clampZ_range g.(ghi) v). lia.
Qed.

Lemma rank_below g h vs v j :
  holds g h vs -> key g v = Z.of_nat j ->
  rank g vs j = count_below g.(ghi) vs (lower g.(gk) (clampZ g.(ghi) v)) /\
  rank g vs (S j) = count_below g.(ghi) vs (edge g.(gk) (clampZ g.(ghi) v)).
Proof.
  intros H Hj. pose proof (holds_wf _ _ _ H) as W. unfold rank, count_below.
  split; do 2 f_equal; apply list_filter_iff; intros w.
  - rewrite (below_lower _ _ _ W) by (eapply clamped; done).
    fold (key g w) (key g v). lia.
  - rewrite (below_edge _ _ _ W) by (eapply clamped; done).
    fold (key g w) (key g v). lia.
Qed.

Lemma percentile_bracket g h vs target :
  holds g h vs -> 1 <= target <= Z.of_nat (length vs) ->
  exists lo, let r := value_at_count h target in
    lo < r <= lo + Z.max 1 (lo / 2 ^ (g.(gk) - 2)) /\
    count_below g.(ghi) vs lo < target <= count_below g.(ghi) vs r.
Proof.
  intros H Ht. destruct (value_at_count_spec g h vs target H Ht) as (j & -> & Hb).
  pose proof (holds_wf _ _ _ H) as W.
  destruct (tally_pos g vs j) as (v & _ & Hv); [rewrite rank_S in Hb; lia|].
  pose proof (clamped g h vs v H) as Hc.
  exists (lower g.(gk) (clampZ g.(ghi) v)). rewrite <- Hv. unfold key.
  rewrite (value_at_idx _ _ _ W) by done.
  destruct (rank_below g h vs v j H Hv) as [<- <-].
  pose proof (bucket_width _ _ _ W _ Hc). pose proof (bucket_span _ _ _ W _ Hc).
  pose proof (edge_gt _ _ _ W _ Hc). split; [lia|done].
Qed.

(** *** Termination of [kv_hist_init] *)

Lemma shifted_le k j :
  1 <= k <= 64 -> 0 <= j -> u64 ((2 ^ k - 1) * 2 ^ j) <= 2 ^ 64 - 2 ^ (64 - k).
Proof.
  intros Hk Hj.
  assert (H64 : 2 ^ 64 = 2 ^ k * 2 ^ (64 - k)) by (rewrite <- Z.pow_add_r by lia; f_equal; lia).
  assert (0 < 2 ^ (64 - k) <= 2 ^ 63)
    by (split; [apply pow2_pos|apply Z.pow_le_mono_r]; lia).
  assert (0 < 2 ^ j) by (apply pow2_pos; lia).
  assert (2 ^ 1 <= 2 ^ k) by (apply Z.pow_le_mono_r; lia).
  destruct (Z.le_gt_cases j (64 - k)) as [Hs|Hs].
  { assert (2 ^ j <= 2 ^ (64 - k)) by (apply Z.pow_le_mono_r; lia). rewrite u64_small; nia. }
  assert (2 ^ (64 - k) <= 2 ^ j) by (apply Z.pow_le_mono_r; lia).
  destruct (Z.le_gt_cases 64 j) as [Hl|Hl].
  - replace j with (j - 64 + 64) by lia. rewrite Z.pow_add_r, Z.mul_assoc by lia.
    unfold u64. rewrite Z.mod_mul by lia. lia.
  - assert (Hkj : 2 ^ k * 2 ^ j = 2 ^ (k + j - 64) * 2 ^ 64)
      by (rewrite <- !Z.pow_add_r by lia; f_equal; lia).
    assert (2 ^ j < 2 ^ 64) by (apply Z.pow_lt_mono_r; lia).
    replace ((2 ^ k - 1) * 2 ^ j) with (2 ^ 64 - 2 ^ j + (2 ^ (k + j - 64) - 1) * 2 ^ 64) by lia.
    unfold u64. rewrite Z.mod_add, Z.mod_small by lia. lia.
Qed.

Lemma bucket_loop_shifted fuel k j hi b :
  1 <= k <= 64 -> 0 <= j -> 2 ^ 64 - 2 ^ (64 - k) < hi ->
  bucket_loop fuel (u64 ((2 ^ k - 1) * 2 ^ j)) hi b = None.
Proof.
  intros Hk Hj Hhi. revert j b Hj.
  induction fuel as [|fuel IH]; intros j b Hj; simpl;
    pose proof (shifted_le k j Hk Hj) as Hle;
    destruct (Z.ltb_spec (u64 ((2 ^ k - 1) * 2 ^ j)) hi); try lia; [done|].
  replace (u64 ((2 ^ k - 1) * 2 ^ j) <<u64 1) with (u64 ((2 ^ k - 1) * 2 ^ (j + 1))).
  { apply IH. lia. }
  rewrite Z.shiftl_mul_pow2 by lia. unfold u64. rewrite Z.mul_mod_idemp_l by lia.
  f_equal. rewrite Z.pow_add_r by lia. ring.
Qed.

Lemma bucket_loop_ends fuel k j hi b :
  1 <= k <= 64 -> 0 <= j <= 64 - k -> Z.of_nat fuel = 64 - k - j ->
  hi <= 2 ^ 64 - 2 ^ (64 - k) ->
  exists b', bucket_loop fuel ((2 ^ k - 1) * 2 ^ j) hi b = Some b'.
Proof.
  intros Hk. revert j b. induction fuel as [|fuel IH]; intros j b Hj Hf Hhi; simpl.
  all: assert (2 ^ 64 = 2 ^ k * 2 ^ (64 - k)) by (rewrite <- Z.pow_add_r by lia; f_equal; lia).
  - replace j with (64 - k) by lia.
    destruct (Z.ltb_spec ((2 ^ k - 1) * 2 ^ (64 - k)) hi); [lia|eauto].
  - destruct (Z.ltb_spec ((2 ^ k - 1) * 2 ^ j) hi); [|eauto].
    assert (2 ^ (j + 1) <= 2 ^ (64 - k)) by (apply Z.pow_le_mono_r; lia).
    assert (0 < 2 ^ (j + 1)) by (apply pow2_pos; lia).
    assert (2 ^ 1 <= 2 ^ k) by (apply Z.pow_le_mono_r; lia).
    rewrite Z.shiftl_mul_pow2, <- Z.mul_assoc, <- Z.pow_add_r by lia.
    rewrite u64_small by nia. apply IH; lia.
Qed.

(** the bucket-sizing loop of [kv_hist_init] (with [lowest = 1] and
    [2^k] sub-buckets) ends exactly for the ranges up to [2^64 - 2^(64-k)];
    for a larger [highest] the 64-bit [trackable] is shifted out to 0 and the
    loop runs forever, whatever the number of iterations. *)
Theorem hist_init_terminates_iff k hi :
  1 <= k <= 64 ->
  (exists fuel b, bucket_loop fuel ((2 ^ k - 1) <<u64 0) hi 1 = Some b)
  <-> hi <= 2 ^ 64 - 2 ^ (64 - k).
Proof.
  intros Hk. assert (2 ^ 1 <= 2 ^ k <= 2 ^ 64) by (split; apply Z.pow_le_mono_r; lia).
  rewrite Z.shiftl_0_r. split.
  - intros (fuel & b & E). destruct (Z.le_gt_cases hi (2 ^ 64 - 2 ^ (64 - k))); [done|].
    pose proof (bucket_loop_shifted fuel k 0 hi 1 Hk) as N.
    rewrite Z.mul_1_r in N. rewrite N in E by lia. done.
  - intros Hhi. exists (Z.to_nat (64 - k)). rewrite u64_small by lia.
    rewrite <- (Z.mul_1_r (2 ^ k - 1)). apply (bucket_loop_ends _ k 0 hi 1); lia.
Qed.

Lemma hist_init_terminates_iff_witness :
  (exists fuel b, bucket_loop fuel ((2 ^ 11 - 1) <<u64 0) (60 * 10 ^ 9) 1 = Some b)
  <-> 60 * 10 ^ 9 <= 2 ^ 64 - 2 ^ (64 - 11).
Proof. apply (hist_init_terminates_iff 11 (60 * 10 ^ 9)). lia. Defined.

(** The two branches of [kv_hist_leading_zeros64] agree: the portable
    shift loop computes what the compiler builtin does, on every nonzero
    64-bit word. *)
Theorem clz_portable_builtin v :
  0 < v < 2 ^ 64 -> clz_portable v = builtin_clzll v.
Proof.
  intros Hv. unfold clz_portable, builtin_clzll.
  rewrite (clz_shift_loop_spec 64) by (simpl; lia).
  destruct (Z.eqb_spec v 0); lia.
Qed.

Lemma clz_portable_builtin_witness : clz_portable (2 ^ 40 + 5) = builtin_clzll (2 ^ 40 + 5).
Proof. apply clz_portable_builtin. lia. Defined.

(** *** The histogram of a sequence of samples *)

Definition geom_of (h : kv_hist) : geom :=
  {| gk := h.(sub_bucket_count_magnitude); ghi := h.(highest_trackable); gb := h.(bucket_count) |}.

Lemma init_exact hi sf :
  1 < hi < 2 ^ 63 ->
  exists h, kv_hist_init 1 hi sf true = Some (0, h) /\ exact (geom_of h) h [] /\
    ghi (geom_of h) = hi /\ gk (geom_of h) = kv_hist_ceil_log2 (single_unit_resolution sf).
Proof.
  intros Hhi. destruct (init_wf hi sf Hhi) as (k & h & l & E & W & Hk & Hh & Hl & Ht & Hmn & Hmx).
  exists h. split; [done|]. pose proof (wf_scm _ _ _ W) as Hg.
  split; [|simpl; rewrite Hg, <- Hk; tauto].
  constructor; [|done|done]. constructor; simpl; [|done|done|done|done].
  rewrite Hg. replace (tallies (geom_of h) []) with l; [done|].
  rewrite tallies_nil, Hl. f_equal. rewrite (wf_length _ _ _ W), (wf_len _ _ _ W).
  unfold glen. simpl. by rewrite Hg.
Qed.

(** C35: after [kv_hist_init 1 hi sf] and any sequence of [kv_hist_record]
    calls, no sample has been dropped or counted twice: every bucket holds
    exactly the samples that belong to it, the total is the number of calls,
    and minimum and maximum are those of the samples (clamped to the
    trackable range). *)
Theorem hist_record_exact hi sf vs :
  1 < hi < 2 ^ 63 -> Z.of_nat (length vs) < 2 ^ 64 ->
  exists h, kv_hist_init 1 hi sf true = Some (0, h) /\
    exact (geom_of h) (record_all h vs) (rev vs).
Proof.
  intros Hhi Hf. destruct (init_exact hi sf Hhi) as (h & E & Hx & _).
  exists h. split; [done|]. rewrite <- (app_nil_r (rev vs)).
  apply record_all_exact; [done|simpl; lia].
Qed.

Lemma hist_record_exact_witness :
  exists h, kv_hist_init 1 3000 3 true = Some (0, h) /\
    exact (geom_of h) (record_all h [100; 2500; 7]) (rev [100; 2500; 7]).
Proof. apply (hist_record_exact 3000 3 [100; 2500; 7]); simpl; lia. Defined.

(** *** The rank of a percentile *)

(** Doubles are compared in units of [2^-2200]: [unit_one] is 1.0. *)
Definition unit_exp : Z := 2200.
Definition unit_one : Z := 2 ^ unit_exp.
Definition in_units (d : double) : Z := scaled unit_exp d.

(** A percentile above 0 (and not within [2^-1000] of it). *)
Definition percentile_ok (p : double) : Prop :=
  nonneg_finite dprec demax p /\ valid_binary dprec demax p = true /\ 2 ^ (unit_exp - 1000) <= in_units p.

Lemma unit_one_pos : 0 < unit_one.
Proof. apply Z.pow_pos_nonneg; unfold unit_exp; lia. Qed.

(** What three roundings can do to [p / 100 * total + 0.5]. *)
Lemma rank_error S E P q m s half T :
  0 < E -> E * 2 ^ 60 <= S -> 2 * half = S -> 0 < T < 2 ^ 40 -> 0 <= P <= 100 * S -> 0 <= s ->
  2 ^ 52 * Z.abs (100 * q - P) <= 2 * P + 2 * 100 * E ->
  2 ^ 52 * Z.abs (m - q * T) <= q * T + E ->
  2 ^ 52 * Z.abs (s - (m + half)) <= m + half + E ->
  Z.abs (100 * S * (s / S) - P * T) <= 51 * S /\ 0 <= s / S <= T.
Proof.
  intros HE HS Hh HT HP Hs H1 H2 H3. pose proof (Z.div_mod s S ltac:(lia)) as Hd. pose proof (Z.mod_pos_bound s S ltac:(lia)) as Hm.
  assert (Hc : 0 <= s / S) by (apply Z.div_pos; lia). set (c := s / S) in *. set (w := S * c) in *.
  assert (H1' : 2 ^ 52 * Z.abs (100 * (q * T) - P * T) <= 2 * (P * T) + 200 * (E * T)).
  { replace (100 * (q * T) - P * T) with ((100 * q - P) * T) by ring. rewrite Z.abs_mul, (Z.abs_eq T) by lia.
    rewrite Z.mul_assoc. transitivity ((2 * P + 2 * 100 * E) * T); [apply Z.mul_le_mono_nonneg_r; lia|]. apply Z.eq_le_incl. ring. }
  assert (Hbt : P * T <= 100 * (S * T)) by (rewrite Z.mul_assoc; apply Z.mul_le_mono_nonneg_r; lia).
  assert (HST : S * T <= S * 2 ^ 40) by (apply Z.mul_le_mono_nonneg_l; lia).
  assert (Hb0 : 0 <= P * T) by (apply Z.mul_nonneg_nonneg; lia).
  assert (HET : 0 <= E * T <= E * 2 ^ 40) by (split; [apply Z.mul_nonneg_nonneg|apply Z.mul_le_mono_nonneg_l]; lia). set (a := q * T) in *. set (b := P * T) in *. set (e := E * T) in *.
  assert (Habs : Z.abs (100 * w - b) <= 51 * S) by lia. split; [replace (100 * S * c) with (100 * w) by (unfold w; ring); exact Habs|].
  split; [done|]. assert (Hw : S * c < S * (T + 1)) by (fold w; lia). apply Z.mul_lt_mono_pos_l in Hw; lia.
Qed.

Lemma double_of_total n : 0 <= n < 2 ^ dprec -> double_of_Z n = fl dprec n.
Proof. intros Hn. apply of_Z_exact; [done|done|exact Hn]. Qed.

(** The clamp at 100. *)
Lemma clamp_100 p : percentile_ok p -> SFltb (double_of_Z 100) p = (100 * unit_one <? in_units p).
Proof.
  intros (F & V & _). assert (E : double_of_Z 100 = S754_finite false 7036874417766400 (-46)) by by vm_compute. rewrite E. clear E.
  destruct p as [[]|[]| |[] m e]; try done. simpl in F.
  assert (Ev : fexp dprec demax (Zdigits2 (Z.pos m) + e) = e).
  { cbn in V. apply andb_prop in V as [V _]. unfold canonical_mantissa in V. by apply Z.eqb_eq in V. }
  pose proof (digits_bound (Z.pos m) ltac:(lia)) as Hd. set (d := Zdigits2 (Z.pos m)) in *.
  assert (Eone : unit_one = 2 ^ 46 * 2 ^ (-46 + unit_exp)) by by vm_compute. unfold in_units, scaled, SFltb. cbn [SFcompare].
  pose proof unit_one_pos as Hone. unfold fexp, emin, dprec, demax, unit_exp in *.
  destruct (Z.compare_spec (-46) e) as [<-|Hlt|Hgt].
  - change (Pos.compare_cont Eq 7036874417766400 m) with (7036874417766400 ?= Z.pos m). rewrite Eone.
    destruct (Z.compare_spec 7036874417766400 (Z.pos m)); symmetry; first [apply Z.ltb_ge|apply Z.ltb_lt]; nia.
  - symmetry. apply Z.ltb_lt. assert (Hd53 : d = 53) by lia. rewrite Hd53 in Hd. rewrite Eone.
    assert (2 ^ (-45 + 2200) <= 2 ^ (e + 2200)) by (apply Z.pow_le_mono_r; lia).
    assert (E2 : 2 ^ (-45 + 2200) = 2 * 2 ^ (-46 + 2200)) by by vm_compute. rewrite E2 in *. nia.
  - symmetry. apply Z.ltb_ge. assert (Hd53 : d <= 53) by lia. rewrite Eone.
    assert (2 ^ d <= 2 ^ 53) by (apply Z.pow_le_mono_r; lia).
    assert (2 ^ (e + 2200) <= 2 ^ (-47 + 2200)) by (apply Z.pow_le_mono_r; lia).
    assert (E2 : 2 ^ (-46 + 2200) = 2 * 2 ^ (-47 + 2200)) by by vm_compute. rewrite E2 in *.
    assert (0 < 2 ^ (e + 2200)) by (apply Z.pow_pos_nonneg; lia). nia.
Qed.

(** The doubles of [count_at_percentile], one operation after the other. *)
Lemma percentile_ops r total :
  nonneg_finite dprec demax r -> 0 < total < 2 ^ 40 -> 2 ^ (unit_exp - 1000) <= in_units r <= 100 * unit_one ->
  let q := SFdiv dprec demax r (double_of_Z 100) in
  let m := SFmul dprec demax q (double_of_Z total) in
  let s := SFadd dprec demax m double_half in
  nonneg_finite dprec demax s /\
  Z.abs (100 * unit_one * (in_units s / unit_one) - in_units r * total) <= 51 * unit_one /\ 0 <= in_units s / unit_one <= total.
Proof.
  intros F Ht Hr q m s. unfold in_units in *. set (E := 2 ^ (emin dprec demax + unit_exp + dprec - 1)).
  assert (HE : 0 < E /\ E * 2 ^ 60 <= unit_one) by (split; [by vm_compute|apply Z.leb_le; by vm_compute]).
  assert (H100 : double_of_Z 100 = fl dprec 100) by (apply of_Z_exact; done).
  assert (Htot : double_of_Z total = fl dprec total) by (apply double_of_total; unfold dprec; lia).
  assert (K1 : 0 <= emin dprec demax + unit_exp) by (apply Z.leb_le; by vm_compute).
  assert (K2 : 0 <= 2 * emin dprec demax + unit_exp) by (apply Z.leb_le; by vm_compute).
  assert (Hb : 0 <= 64 + unit_exp) by (apply Z.leb_le; by vm_compute). assert (Hmax : 64 <= demax - dprec) by (apply Z.leb_le; by vm_compute).
  assert (Eb : 2 ^ (64 + unit_exp) = 2 ^ 64 * unit_one) by by vm_compute. pose proof unit_one_pos as H1.
  assert (Hlow : 100 * 2 ^ (emin dprec demax + dprec + 1 + unit_exp) <= 2 ^ (unit_exp - 1000)) by (apply Z.leb_le; by vm_compute).
  destruct (div_close dprec demax ltac:(done) ltac:(done) unit_exp K1 K2 r 100 64 F ltac:(done) ltac:(done) ltac:(lia)
    ltac:(rewrite Eb; lia) Hb Hmax) as [Fq Hq].
  fold E in Hq. rewrite <- H100 in Fq, Hq. fold q in Fq, Hq. change (2 ^ (dprec - 1)) with (2 ^ 52) in Hq.
  pose proof (scaled_nonneg dprec demax unit_exp K1 q Fq) as Hq0.
  destruct (scaled_fl dprec demax ltac:(done) ltac:(done) unit_exp K2 total) as [Ft Et]; [unfold fits_prec, dprec; lia|].
  rewrite <- Htot in Ft, Et. fold unit_one in Et.
  destruct (mul_close dprec demax ltac:(done) ltac:(done) unit_exp K1 K2 q (double_of_Z total) (scaled unit_exp q * total) 64
    Fq Ft) as [Fm Hm]; [rewrite Et; fold unit_one; ring| |done|done|].
  { rewrite Eb. assert (scaled unit_exp q <= 2 * unit_one) by lia. nia. }
  fold m in Fm, Hm. unfold rounds_to in Hm. fold E in Hm. change (2 ^ (dprec - 1)) with (2 ^ 52) in Hm.
  assert (Hhalf : nonneg_finite dprec demax double_half /\ 2 * scaled unit_exp double_half = unit_one) by (split; by vm_compute).
  destruct Hhalf as [Fh Eh].
  destruct (add_close dprec demax ltac:(done) ltac:(done) unit_exp K1 m double_half 64 Fm Fh) as [Fs Hs]; [|done|done|].
  { rewrite Eb. assert (scaled unit_exp q <= 2 * unit_one) by lia. assert (scaled unit_exp q * total <= 2 * unit_one * 2 ^ 40) by nia. lia. }
  fold s in Fs, Hs. unfold rounds_to in Hs. fold E in Hs. change (2 ^ (dprec - 1)) with (2 ^ 52) in Hs. split; [done|].
  apply (rank_error unit_one E (scaled unit_exp r) (scaled unit_exp q) (scaled unit_exp m) _ (scaled unit_exp double_half)); try done; lia.
Qed.

(** The rank that [kv_hist_value_at_percentile] looks for is the percentage of
    the total, rounded to the nearest with an error of at most a hundredth more,
    and at least 1. *)
Lemma count_at_percentile_near total p :
  0 < total < 2 ^ 40 -> percentile_ok p ->
  let c := count_at_percentile total p in
  let P := Z.min (in_units p) (100 * unit_one) in
  1 <= c <= total /\ (Z.abs (100 * unit_one * c - P * total) <= 51 * unit_one \/ c = 1 /\ P * total <= 51 * unit_one).
Proof.
  intros Ht Hp. cbv zeta. pose proof unit_one_pos as H1. unfold count_at_percentile. rewrite (clamp_100 p Hp).
  set (r := if 100 * unit_one <? in_units p then double_of_Z 100 else p).
  assert (H100 : nonneg_finite dprec demax (double_of_Z 100) /\ in_units (double_of_Z 100) = 100 * unit_one) by (split; by vm_compute).
  assert (Hr : nonneg_finite dprec demax r /\ in_units r = Z.min (in_units p) (100 * unit_one)).
  { destruct Hp as (F & _). unfold r. destruct (Z.ltb_spec (100 * unit_one) (in_units p)); (split; [done || tauto|]); [rewrite (proj2 H100)|]; lia. }
  destruct Hr as [Fr Er]. assert (Hlo : 2 ^ (unit_exp - 1000) <= in_units r).
  { rewrite Er. destruct Hp as (_ & _ & Hlo). apply Z.min_glb; [done|apply Z.leb_le; by vm_compute]. }
  destruct (percentile_ops r total Fr Ht ltac:(lia)) as (Fs & Hc & Hle). rewrite Er in Hc. cbv zeta in *. set (s := SFadd _ _ _ _) in *.
  assert (Eu : u64_of_double s = in_units s / unit_one).
  { pose proof (trunc_scaled dprec demax ltac:(done) ltac:(done) unit_exp ltac:(apply Z.leb_le; by vm_compute) s Fs) as Et.
    fold unit_one in Et. fold (in_units s) in Et. unfold u64_of_double. destruct s as [[]|[]| |[] m e]; try done. rewrite Et. apply u64_small. lia. }
  rewrite Eu. set (c := in_units s / unit_one) in *. destruct (Z.eqb_spec c 0) as [E0|N0]; [|split; [lia|by left]].
  split; [lia|]. right. split; [done|]. rewrite E0 in Hc. lia.
Qed.

(** C36: [kv_hist_value_at_percentile] of a histogram with [n] samples (fewer
    than [2^40]), for a percentile [p] as a double: it looks for the sample of
    rank [p * n / 100] (percentiles above 100 count as 100), computed in
    [double] within 0.51 of it, never 0 and at most [n]; and the value it
    reports is the upper edge of the bucket of the sample of this rank: fewer
    samples than the rank lie below that bucket, at least as many below the
    reported value, and the bucket is no wider than one unit or [1/2^(k-2)] of
    its lower edge ([1/512] for the three digits the program asks for). *)
Theorem hist_percentile_bracket hi sf vs p :
  1 < hi < 2 ^ 63 -> 0 < Z.of_nat (length vs) < 2 ^ 40 -> percentile_ok p ->
  let n := Z.of_nat (length vs) in
  let P := Z.min (in_units p) (100 * unit_one) in
  exists h lo rank, kv_hist_init 1 hi sf true = Some (0, h) /\
    let r := kv_hist_value_at_percentile (record_all h vs) p in
    1 <= rank <= n /\
    (Z.abs (100 * unit_one * rank - P * n) <= 51 * unit_one \/ rank = 1 /\ P * n <= 51 * unit_one) /\
    lo < r <= lo + Z.max 1 (lo / 2 ^ (kv_hist_ceil_log2 (single_unit_resolution sf) - 2)) /\
    count_below hi vs lo < rank <= count_below hi vs r.
Proof.
  intros Hhi Hn Hp n P. destruct (init_exact hi sf Hhi) as (h & E & Hx & Hgh & Hgk).
  pose proof (record_all_exact _ _ _ vs Hx) as Hall. destruct Hall as [H _ _]; [simpl; lia|].
  rewrite app_nil_r in H.
  assert (Etot : total_count (record_all h vs) = n) by (rewrite (holds_total _ _ _ H), length_rev; done).
  destruct (count_at_percentile_near n p Hn Hp) as [Hc1 Hc2].
  destruct (percentile_bracket _ _ _ (count_at_percentile n p) H) as (lo & Hr & Hc); [by rewrite length_rev|].
  exists h, lo, (count_at_percentile n p). split; [done|]. unfold kv_hist_value_at_percentile. rewrite Etot.
  destruct (Z.eqb_spec n 0) as [|_]; [lia|]. cbv zeta. split; [done|]. split; [done|]. rewrite Hgk in Hr. split; [done|].
  rewrite Hgh in Hc. by rewrite !count_below_rev in Hc.
Qed.

(** The 99.9th percentile, as the program asks for it. *)
Definition p999 : double := S754_finite false 7029837543348634 (-46).

Lemma hist_percentile_bracket_witness :
  kv_hist_value_at_percentile (match kv_hist_init 1 3000 3 true with Some (_, h) => record_all h [100; 2500; 7] | None => zeroed_hist end)
    p999 = 2504 /\
  exists lo rank, 1 <= rank <= 3 /\ count_below 3000 [100; 2500; 7] lo < rank <= count_below 3000 [100; 2500; 7] 2504.
Proof.
  assert (E : kv_hist_value_at_percentile (match kv_hist_init 1 3000 3 true with Some (_, h) => record_all h [100; 2500; 7] | None => zeroed_hist end)
    p999 = 2504) by (vm_compute; reflexivity).
  split; [exact E|].
  destruct (hist_percentile_bracket 3000 3 [100; 2500; 7] p999) as (h & lo & rank & Ei & Hr & _ & _ & Hc);
    [lia|simpl; lia|split; [vm_compute; discriminate|split; [vm_compute; reflexivity|vm_compute; discriminate]]|].
  rewrite Ei in E. exists lo, rank. split; [exact Hr|]. rewrite E in Hc. exact Hc.
Defined.

Definition demo_hist : kv_hist :=
  match kv_hist_init 1 3000 3 true with Some (_, h) => h | None => zeroed_hist end.

Lemma demo_exact : exact (geom_of demo_hist) demo_hist [].
Proof.
  destruct (init_exact 3000 3) as (h & E & Hx & _); [lia|].
  unfold demo_hist. rewrite E. done.
Qed.

(** merging the histograms of two threads ([kv_hist_merge]) gives the
    histogram of all their samples together: counts, total, minimum and
    maximum. *)
Theorem hist_merge_is_union g dst src vs ws :
  exact g dst vs -> exact g src ws -> Z.of_nat (length vs + length ws) < 2 ^ 64 ->
  exact g (kv_hist_merge dst src) (vs ++ ws).
Proof. apply merge_exact. Qed.

Lemma hist_merge_is_union_witness :
  exact (geom_of demo_hist)
    (kv_hist_merge (kv_hist_record demo_hist 10) (kv_hist_record demo_hist 2000)) ([10] ++ [2000]).
Proof.
  apply hist_merge_is_union.
  - apply record_exact; [apply demo_exact|simpl; lia].
  - apply record_exact; [apply demo_exact|simpl; lia].
  - simpl. lia.
Defined.

(** [kv_hist_delta] of two cumulative snapshots holds exactly the samples
    recorded in between, whatever [dst] held before. *)
Theorem hist_delta_is_interval g dst cur prev vs olds news :
  holds g dst vs -> holds g prev olds -> holds g cur (news ++ olds) ->
  holds g (kv_hist_delta dst cur prev) news.
Proof. apply delta_holds. Qed.

Lemma hist_delta_is_interval_witness :
  holds (geom_of demo_hist)
    (kv_hist_delta demo_hist (record_all demo_hist [10; 20]) (kv_hist_record demo_hist 10)) [20].
Proof.
  apply (hist_delta_is_interval _ _ _ _ [] [10] [20]).
  - apply demo_exact.
  - apply record_holds; [apply demo_exact|simpl; lia].
  - apply record_holds; [|simpl; lia]. apply record_holds; [apply demo_exact|simpl; lia].
Defined.

(** *** Snapshots taken while another thread records *)

(** The load of [counts[i]] sees everything recorded before it: [sched j] are
    the samples recorded between the loads of [j - 1] and [j]. *)
Definition recorded_before (sched : nat -> list Z) (n : nat) : list Z :=
  concat (sched <$> seq 0 n).

Definition interleaved_loads (src : kv_hist) (sched : nat -> list Z) (i : nat) : Z :=
  at_ (default [] (record_all src (recorded_before sched (S i))).(counts)) i.

Lemma record_all_holds g h vs ws :
  holds g h vs -> Z.of_nat (length vs + length ws) < 2 ^ 64 ->
  holds g (record_all h ws) (rev ws ++ vs).
Proof.
  revert h vs. induction ws as [|w ws IH]; intros h vs H Hf; [done|].
  simpl in *. rewrite <- app_assoc. apply IH; [|simpl; lia].
  apply record_holds; [done|lia].
Qed.

Lemma recorded_prefix sched i n :
  (i <= n)%nat -> exists rest, recorded_before sched n = recorded_before sched i ++ rest.
Proof.
  intros Hi. exists (concat (sched <$> seq i (n - i))). unfold recorded_before.
  rewrite <- concat_app, <- fmap_app, <- seq_app. do 3 f_equal. lia.
Qed.

Lemma sumZ_le {A} (f f' : A -> Z) (l : list A) :
  (forall x, x ∈ l -> f x <= f' x) -> sumZ (f <$> l) <= sumZ (f' <$> l).
Proof.
  intros H. induction l as [|x l IH]; [done|]. csimpl.
  pose proof (H x ltac:(left)). specialize (IH ltac:(intros; apply H; by right)). lia.
Qed.

(** The loads lie between the counts before and after the scan. *)
Lemma interleaved_between g src olds sched i :
  holds g src olds -> (i < glen g)%nat ->
  Z.of_nat (length olds + length (recorded_before sched (glen g))) < 2 ^ 64 ->
  tally g olds (Z.of_nat i) <= interleaved_loads src sched i
  <= tally g (rev (recorded_before sched (glen g)) ++ olds) (Z.of_nat i).
Proof.
  intros H Hi Hf. destruct (recorded_prefix sched (S i) (glen g)) as [rest Hr]; [lia|].
  rewrite Hr, length_app in Hf. unfold interleaved_loads.
  pose proof (record_all_holds g src olds (recorded_before sched (S i)) H) as Hh.
  rewrite (wf_counts _ _ _ (holds_wf _ _ _ (Hh ltac:(lia)))). simpl.
  rewrite at_tallies by done. rewrite Hr, rev_app_distr, !tally_app.
  pose proof (tally_le g (rev rest) (Z.of_nat i)).
  pose proof (tally_le g (rev (recorded_before sched (S i))) (Z.of_nat i)). lia.
Qed.

(** a snapshot ([kv_hist_reset] then [kv_hist_merge_snapshot]) taken while
    another thread keeps recording counts at least every sample recorded
    before it started and at most those recorded by the time it ends. *)
Theorem hist_snapshot_concurrent g dst src vs olds sched :
  holds g dst vs -> holds g src olds ->
  Z.of_nat (length olds + length (recorded_before sched (glen g))) < 2 ^ 64 ->
  let s := merge_snapshot_loads (kv_hist_reset dst) (interleaved_loads src sched) (glen g) in
  Z.of_nat (length olds) <= s.(total_count)
  <= Z.of_nat (length olds + length (recorded_before sched (glen g))).
Proof.
  intros Hd Hs Hf s. pose proof (reset_exact _ _ _ Hd) as [Hr _ _].
  set (ld := interleaved_loads src sched).
  set (all := rev (recorded_before sched (glen g)) ++ olds).
  assert (Hsum : Z.of_nat (length olds) <= sumZ (ld <$> seq 0 (glen g)) <= Z.of_nat (length all)).
  { rewrite <- (sum_tallies g olds), <- (sum_tallies g all)
      by (intros v; eapply holds_key_glen; done). unfold tallies.
    split; apply sumZ_le; intros i [_ Hi]%elem_of_seq;
      pose proof (interleaved_between g src olds sched i Hs Hi Hf); subst ld all; lia. }
  unfold all in Hsum. rewrite length_app, length_rev in Hsum.
  destruct (bump_loop_eq (fun x c => x +u64 c) ld (kv_hist_reset dst) (tallies g []) (glen g))
    as (mn & mx & E); [apply (wf_counts _ _ _ (holds_wf _ _ _ Hr))|by rewrite length_tallies| |].
  { rewrite (holds_total _ _ _ Hr). unfold is_u64. simpl. lia. }
  unfold s, merge_snapshot_loads. unfold bump_loop in E. fold ld. rewrite E. simpl.
  rewrite (holds_total _ _ _ Hr). simpl. rewrite u64_small by lia. lia.
Qed.

Lemma hist_snapshot_concurrent_witness :
  let sched i := if Nat.eqb i 3 then [10; 20] else [] in
  let s := merge_snapshot_loads (kv_hist_reset demo_hist)
             (interleaved_loads (kv_hist_record demo_hist 10) sched) (glen (geom_of demo_hist)) in
  Z.of_nat (length [10]) <= s.(total_count)
  <= Z.of_nat (length [10] + length (recorded_before sched (glen (geom_of demo_hist)))).
Proof.
  apply (hist_snapshot_concurrent (geom_of demo_hist) demo_hist _ [] [10]).
  - apply demo_exact.
  - apply record_holds; [apply demo_exact|simpl; lia].
  - vm_compute. done.
Defined.

(** *** Resolution *)

(** Although [kv_hist_init] asks for single-unit resolution up to 2000
    (three digits), two neighbouring values share a bucket from [2^(k-1)] on:
    every even [v >= 1024] is counted together with [v + 1]. *)
Theorem hist_pairs_above_half k h l v :
  wf k h l -> 2 ^ (k - 1) <= v -> v + 1 <= h.(highest_trackable) -> Z.even v = true ->
  index_of h v = index_of h (v + 1).
Proof.
  intros W Hv Hhi He. pose proof W as W'. destruct W'.
  destruct (k_pows _ _ _ W) as (Hp1 & Hp2 & Hp3).
  rewrite !(index_of_eq _ _ _ W) by lia.
  assert (Hb : bucket_of k (v + 1) = bucket_of k v /\ 1 <= bucket_of k v).
  { unfold bucket_of. destruct (Z.ltb_spec v (2 ^ (k - 1))), (Z.ltb_spec (v + 1) (2 ^ (k - 1))); try lia.
    assert (k - 1 <= Z.log2 v) by (apply Z.log2_le_pow2; lia).
    apply Z.even_spec in He as [x ->].
    split; [|lia]. rewrite Z.log2_succ_double, Z.log2_double by lia. lia. }
  destruct Hb as [Hb1 Hb2]. unfold idx. rewrite Hb1. f_equal.
  replace (bucket_of k v) with (1 + (bucket_of k v - 1)) by lia.
  rewrite Z.pow_add_r by lia. rewrite <- !Z.div_div by (lia || apply pow2_pos; lia).
  f_equal. apply Z.even_spec in He as [x ->]. change (2 ^ 1) with 2. dlia.
Qed.

Lemma hist_pairs_above_half_witness :
  exists h l, kv_hist_init 1 3000 3 true = Some (0, h) /\ wf 11 h l /\
    index_of h 1024 = index_of h (1024 + 1).
Proof.
  destruct (init_wf 3000 3) as (k & h & l & E & W & Hk & Hh & _); [lia|].
  assert (k = 11) as -> by (by rewrite Hk).
  exists h, l. split; [done|]. split; [done|].
  apply (hist_pairs_above_half 11 h l 1024); [done|lia|lia|done].
Defined.

(** with [lowest >= 2] the bucket index ignores [unit_magnitude] although
    the array is sized with it: after [kv_hist_init 1024 1000000 3] a sample
    inside the trackable range is silently dropped. *)
Theorem hist_coarse_unit_drops :
  exists h, kv_hist_init 1024 1000000 3 true = Some (0, h) /\
    (kv_hist_record h 500000).(total_count) = 0 /\ kv_hist_record h 500000 = h.
Proof. eexists. split; [vm_compute; reflexivity|]. by vm_compute. Qed.
