(* ===== verification/Clock.v ===== *)
(** * Clock: the cycle-counter clock of [src/clock.cpp]

    The static variables [g_mult], [g_shift], [g_freq_hz] are a record; the
    cycle counter, the frequency register and the result of the calibration
    (modelled in Calibrate) are arguments.  The theorems give the window in which the fixed-point
    conversion is exact, and what happens outside it. *)

From S2P Require Import Prelude.
From stdpp Require Import list.
#[local] Open Scope Z_scope.

Definition kNsPerSec : Z := 1000000000.
Definition kMaxSec : Z := 600.
Definition kMultBits : Z := 32.

Record clock_state := mk_clock { g_mult : Z; g_shift : Z; g_freq_hz : Z }.

Definition clock0 : clock_state := mk_clock 0 0 0.

(** [while (tmp > 0) { tmp >>= 1; sftacc--; }]; 64 iterations empty any
    64-bit [tmp]. *)
Fixpoint sftacc_loop (fuel : nat) (tmp sftacc : Z) : Z :=
  match fuel with
  | O => sftacc
  | S fuel => if 0 <? tmp then sftacc_loop fuel (Z.shiftr tmp 1) (u32 (sftacc - 1)) else sftacc
  end.

(** [((kNsPerSec << sft) + freq / 2) / freq] *)
Definition mult_for (freq sft : Z) : Z := ((kNsPerSec <<u64 sft) +u64 freq / 2) / freq.

(** [for (sft = kMultBits; sft > 0; sft--) { tmp = ...; if ((tmp >> sftacc) == 0) break; }]:
    the final values of [tmp] and [sft]; [tmp] is the previous value when the
    loop runs to the end. *)
Fixpoint mult_loop (sft : nat) (freq sftacc tmp : Z) : Z * Z :=
  match sft with
  | O => (tmp, 0)
  | S sft' =>
      let tmp := mult_for freq (Z.of_nat sft) in
      if Z.shiftr tmp sftacc =? 0 then (tmp, Z.of_nat sft)
      else mult_loop sft' freq sftacc tmp
  end.

Definition sftacc_for (freq : Z) : Z :=
  sftacc_loop 64 (Z.shiftr (kMaxSec *u64 freq) kMultBits) kMultBits.

Definition CalcMultShift (freq : Z) (s : clock_state) : clock_state :=
  if freq =? 0 then mk_clock 0 0 s.(g_freq_hz)
  else
    let tmp := 0 in
    let '(tmp, sft) := mult_loop (Z.to_nat kMultBits) freq (sftacc_for freq) tmp in
    mk_clock tmp sft s.(g_freq_hz).

Definition set_freq (f : Z) (s : clock_state) : clock_state := mk_clock s.(g_mult) s.(g_shift) f.

(** [cntfrq] is what [ReadCntfrq] returns, [calibrated] what [CalibrateFreq]
    would return. *)
Definition kv_clock_init (cntfrq calibrated : Z) (s : clock_state) : clock_state :=
  if negb (s.(g_mult) =? 0) then s
  else
    let s := set_freq cntfrq s in
    let s := if negb (s.(g_freq_hz) =? 0) then CalcMultShift s.(g_freq_hz) s else s in
    if s.(g_mult) =? 0 then
      let s := set_freq calibrated s in
      if negb (s.(g_freq_hz) =? 0) then CalcMultShift s.(g_freq_hz) s else s
    else s.

(** [tv_sec] and [tv_nsec] are what [clock_gettime(CLOCK_MONOTONIC)] fills in. *)
Definition kv_now_ns (s : clock_state) (kv_cycles tv_sec tv_nsec : Z) : Z :=
  if s.(g_mult) =? 0 then (tv_sec *u64 kNsPerSec) +u64 tv_nsec
  else Z.shiftr (kv_cycles *u64 s.(g_mult)) s.(g_shift).

(** ** The largest safe multiplier *)

Lemma sftacc_loop_spec fuel tmp a :
  0 <= tmp < 2 ^ Z.of_nat fuel -> Z.of_nat fuel <= a < 2 ^ 32 ->
  exists b, sftacc_loop fuel tmp a = a - b /\ 0 <= b <= Z.of_nat fuel /\
    tmp < 2 ^ b /\ (b = 0 \/ 2 ^ (b - 1) <= tmp).
Proof.
  revert tmp a. induction fuel as [|fuel IH]; intros tmp a Ht Ha; simpl sftacc_loop.
  { exists 0. simpl in *. lia. }
  destruct (Z.ltb_spec 0 tmp) as [Hp|Hp].
  - rewrite Nat2Z.inj_succ, Z.pow_succ_r in Ht by lia.
    rewrite Z.shiftr_div_pow2 by lia. change (2 ^ 1) with 2.
    rewrite u32_small by lia.
    destruct (IH (tmp / 2) (a - 1)) as (b & -> & Hb & Hlt & Hge); [dlia|lia|].
    exists (b + 1). split; [lia|]. split; [lia|].
    rewrite Z.pow_add_r by lia. split; [dlia|]. right.
    replace (b + 1 - 1) with b by lia. destruct Hge as [->|Hge].
    + simpl. lia.
    + replace b with (b - 1 + 1) by lia. destruct (Z.eq_dec b 0) as [->|]; [simpl; lia|].
      rewrite Z.pow_add_r by lia. dlia.
  - exists 0. simpl. lia.
Qed.

(** [sftacc]: the window of 600 s of cycles fits [2^(64 - sftacc)], and unless
    [sftacc] is 32 it fills more than half of it. *)
Lemma sftacc_for_spec freq :
  0 < freq -> kMaxSec * freq < 2 ^ 64 ->
  0 <= sftacc_for freq <= 32 /\
  kMaxSec * freq < 2 ^ (64 - sftacc_for freq) /\
  (sftacc_for freq = 32 \/ 2 ^ (63 - sftacc_for freq) <= kMaxSec * freq).
Proof.
  intros Hf Hw. unfold sftacc_for, kMaxSec, kMultBits in *. rewrite u64_small by lia.
  rewrite Z.shiftr_div_pow2 by lia. set (t := 600 * freq / 2 ^ 32).
  assert (Ht : 0 <= t < 2 ^ 32) by (subst t; dlia).
  assert (El : sftacc_loop 64 t 32 = sftacc_loop 32 t 32).
  { enough (E : forall f t a m, 0 <= t < 2 ^ Z.of_nat f -> sftacc_loop (f + m) t a = sftacc_loop f t a)
      by (apply (E 32%nat t 32 32%nat); done).
    intros f. induction f as [|f IH]; intros x a m Hx.
    - replace x with 0 by (simpl in Hx; lia). by destruct m.
    - simpl. destruct (Z.ltb_spec 0 x); [|done]. apply IH.
      rewrite Nat2Z.inj_succ, Z.pow_succ_r in Hx by lia.
      rewrite Z.shiftr_div_pow2 by lia. change (2 ^ 1) with 2. dlia. }
  rewrite El. destruct (sftacc_loop_spec 32 t 32) as (b & -> & Hb & Hlt & Hge); [done|lia|].
  split; [lia|]. replace (64 - (32 - b)) with (32 + b) by lia.
  replace (63 - (32 - b)) with (32 + (b - 1)) by lia.
  split.
  - rewrite Z.pow_add_r by lia. subst t. dlia.
  - destruct Hge as [->|Hge]; [left; lia|]. destruct (Z.eq_dec b 0) as [->|]; [left; lia|].
    right. rewrite Z.pow_add_r by lia. subst t. dlia.
Qed.

Lemma mult_for_eq freq sft :
  0 < freq -> kMaxSec * freq < 2 ^ 64 -> 0 <= sft <= 32 ->
  mult_for freq sft = (kNsPerSec * 2 ^ sft + freq / 2) / freq.
Proof.
  intros Hf Hw Hs. unfold mult_for, kNsPerSec, kMaxSec in *.
  assert (1 <= 2 ^ sft <= 2 ^ 32)
    by (split; [change 1 with (2 ^ 0)|]; apply Z.pow_le_mono_r; lia).
  assert (0 <= freq / 2 < 2 ^ 54) by dlia.
  rewrite Z.shiftl_mul_pow2 by lia.
  rewrite (u64_small (1000000000 * 2 ^ sft)) by lia. by rewrite u64_small by lia.
Qed.

(** Rounding to nearest. *)
Lemma mult_for_nearest freq sft :
  0 < freq -> kMaxSec * freq < 2 ^ 64 -> 0 <= sft <= 32 ->
  2 * Z.abs (mult_for freq sft * freq - kNsPerSec * 2 ^ sft) <= freq.
Proof.
  intros Hf Hw Hs. rewrite mult_for_eq by done. set (n := kNsPerSec * 2 ^ sft). dlia.
Qed.

(** At [sft = 1] the test of the loop always succeeds. *)
Lemma mult_for_1_small freq :
  0 < freq -> kMaxSec * freq < 2 ^ 64 -> mult_for freq 1 < 2 ^ sftacc_for freq.
Proof.
  intros Hf Hw. destruct (sftacc_for_spec freq Hf Hw) as (Ha & Hlt & Hge).
  rewrite mult_for_eq by lia. unfold kNsPerSec, kMaxSec in *.
  destruct Hge as [->|Hge].
  - apply Z.div_lt_upper_bound; [lia|]. dlia.
  - set (a := sftacc_for freq) in *.
    assert (Hp : 2 ^ 63 = 2 ^ a * 2 ^ (63 - a)) by (rewrite <- Z.pow_add_r by lia; f_equal; lia).
    assert (0 < 2 ^ a) by (apply pow2_pos; lia).
    assert (0 < 2 ^ (63 - a)) by (apply pow2_pos; lia).
    apply Z.div_lt_upper_bound; [lia|].
    assert (2 * 1000000000 < freq * 2 ^ a - freq / 2); [|lia].
    assert (freq / 2 * 2 <= freq) by dlia. nia.
Qed.

Lemma mult_loop_spec freq n tmp :
  0 < freq -> kMaxSec * freq < 2 ^ 64 -> (1 <= n <= 32)%nat ->
  exists s, mult_loop n freq (sftacc_for freq) tmp = (mult_for freq s, s) /\
    1 <= s <= 32 /\ mult_for freq s < 2 ^ sftacc_for freq /\
    (s = Z.of_nat n \/ 2 ^ sftacc_for freq <= mult_for freq (s + 1)).
Proof.
  intros Hf Hw. destruct (sftacc_for_spec freq Hf Hw) as (Ha & _ & _).
  assert (Hnn : forall s, 0 <= s <= 32 -> 0 <= mult_for freq s).
  { intros s Hs. rewrite mult_for_eq by done. unfold kNsPerSec.
    assert (0 < 2 ^ s) by (apply pow2_pos; lia). apply Z.div_pos; dlia. }
  revert tmp. induction n as [|n IH]; intros tmp Hn; [lia|]. cbn [mult_loop].
  specialize (Hnn (Z.of_nat (S n)) ltac:(lia)).
  rewrite Z.shiftr_div_pow2 by lia. assert (0 < 2 ^ sftacc_for freq) by (apply pow2_pos; lia).
  destruct (Z.eqb_spec (mult_for freq (Z.of_nat (S n)) / 2 ^ sftacc_for freq) 0) as [E|E].
  - exists (Z.of_nat (S n)). split; [done|]. split; [lia|].
    apply Z.div_small_iff in E; lia.
  - destruct (decide (n = 0)%nat) as [->|].
    + exfalso. apply E. apply Z.div_small. split; [done|]. by apply mult_for_1_small.
    + destruct (IH (mult_for freq (Z.of_nat (S n)))) as (s & Es & Hs & Hlt & Hor); [lia|].
      exists s. split; [done|]. split; [done|]. split; [done|]. right.
      destruct Hor as [->|]; [|done].
      replace (Z.of_nat n + 1) with (Z.of_nat (S n)) by lia.
      destruct (Z.le_gt_cases (2 ^ sftacc_for freq) (mult_for freq (Z.of_nat (S n)))); [done|].
      exfalso. apply E, Z.div_small. lia.
Qed.

(** What [CalcMultShift] stores. *)
Lemma calc_spec freq s :
  0 < freq -> kMaxSec * freq < 2 ^ 64 ->
  exists sh, CalcMultShift freq s = mk_clock (mult_for freq sh) sh s.(g_freq_hz) /\
    1 <= sh <= 32 /\ 0 <= mult_for freq sh < 2 ^ sftacc_for freq /\
    (kMaxSec * freq < 2 ^ 63 -> 0 < mult_for freq sh).
Proof.
  intros Hf Hw. unfold CalcMultShift. destruct (Z.eqb_spec freq 0); [lia|].
  destruct (mult_loop_spec freq (Z.to_nat kMultBits) 0 Hf Hw) as (sh & -> & Hs & Hm & Hor);
    [unfold kMultBits; lia|].
  exists sh. split; [done|]. split; [done|].
  assert (Hn : 0 < kNsPerSec * 2 ^ sh) by (unfold kNsPerSec; assert (0 < 2 ^ sh) by (apply pow2_pos; lia); lia).
  split; [split; [|done]; rewrite mult_for_eq by lia; apply Z.div_pos; dlia|].
  intros Hw63. rewrite mult_for_eq by lia. apply Z.div_str_pos. split; [done|].
  destruct (Z.eq_dec sh 32) as [->|Hs32];
    [unfold kNsPerSec, kMaxSec in *; assert (0 <= freq / 2) by dlia; lia|].
  change (Z.of_nat (Z.to_nat kMultBits)) with 32 in Hor. destruct Hor as [|Hor]; [done|].
  destruct (sftacc_for_spec freq Hf Hw) as (Ha & _ & Ha2).
  assert (Ha1 : 1 <= sftacc_for freq).
  { destruct Ha2 as [->|Ha2]; [lia|]. destruct (Z.eq_dec (sftacc_for freq) 0) as [E0|]; [|lia].
    rewrite E0 in Ha2. change (2 ^ (63 - 0)) with (2 ^ 63) in Ha2. lia. }
  assert (2 ^ 1 <= 2 ^ sftacc_for freq) by (apply Z.pow_le_mono_r; lia).
  rewrite mult_for_eq in Hor by lia. rewrite Z.pow_add_r in Hor by lia.
  change (2 ^ 1) with 2 in *. set (x := kNsPerSec * 2 ^ sh) in *.
  replace (kNsPerSec * (2 ^ sh * 2)) with (2 * x) in Hor by (subst x; ring).
  pose proof (Z.mul_div_le (2 * x + freq / 2) freq Hf). assert (0 <= freq / 2) by dlia. nia.
Qed.

Lemma window_product freq sh cycles :
  0 < freq -> kMaxSec * freq < 2 ^ 64 -> 0 <= mult_for freq sh < 2 ^ sftacc_for freq ->
  0 <= cycles <= kMaxSec * freq -> 0 <= cycles * mult_for freq sh < 2 ^ 64.
Proof.
  intros Hf Hw Hm Hc. destruct (sftacc_for_spec freq Hf Hw) as (Ha & Hlt & _).
  assert (Hp : 2 ^ 64 = 2 ^ sftacc_for freq * 2 ^ (64 - sftacc_for freq))
    by (rewrite <- Z.pow_add_r by lia; f_equal; lia).
  assert (0 < 2 ^ (64 - sftacc_for freq)) by (apply pow2_pos; lia). nia.
Qed.

(** ** Properties *)

(** C39: within the 600 s window the conversion of cycles to nanoseconds does
    not overflow 64 bits, never goes backwards, and is within one nanosecond
    plus [cycles / 2^(shift+1)] of the exact [cycles * 10^9 / freq], for every
    counter frequency up to [2^63 / 600] Hz. *)
Theorem clock_window_exact freq s tv_sec tv_nsec c1 c2 :
  0 < freq -> kMaxSec * freq < 2 ^ 63 -> 0 <= c1 <= c2 -> c2 <= kMaxSec * freq ->
  let s' := CalcMultShift freq s in
  let now c := kv_now_ns s' c tv_sec tv_nsec in
  c2 * s'.(g_mult) < 2 ^ 64 /\ now c1 <= now c2 /\
  2 ^ (s'.(g_shift) + 1) * Z.abs (now c2 * freq - c2 * kNsPerSec)
    <= freq * (c2 + 2 ^ (s'.(g_shift) + 1)).
Proof.
  intros Hf Hw63 Hc Hc2 s' now. assert (Hw : kMaxSec * freq < 2 ^ 64) by lia.
  destruct (calc_spec freq s Hf Hw) as (sh & E & Hs & Hm & Hm0). specialize (Hm0 Hw63).
  unfold now, s'. rewrite E. simpl. unfold kv_now_ns. simpl.
  destruct (Z.eqb_spec (mult_for freq sh) 0); [lia|].
  pose proof (window_product freq sh c1 Hf Hw Hm ltac:(lia)).
  pose proof (window_product freq sh c2 Hf Hw Hm ltac:(lia)).
  rewrite !u64_small, !Z.shiftr_div_pow2 by lia.
  assert (Hp : 0 < 2 ^ sh) by (apply pow2_pos; lia).
  split; [lia|]. split; [apply Z.div_le_mono; nia|].
  pose proof (mult_for_nearest freq sh Hf Hw ltac:(lia)) as Hn.
  set (m := mult_for freq sh) in *. set (q := c2 * m / 2 ^ sh).
  assert (Hq : q * 2 ^ sh <= c2 * m < q * 2 ^ sh + 2 ^ sh) by (subst q; dlia).
  rewrite Z.pow_add_r by lia. change (2 ^ 1) with 2.
  assert (HA : Z.abs (2 * (c2 * m * freq - c2 * (kNsPerSec * 2 ^ sh))) <= c2 * freq).
  { replace (2 * (c2 * m * freq - c2 * (kNsPerSec * 2 ^ sh)))
      with (c2 * (2 * (m * freq - kNsPerSec * 2 ^ sh))) by ring.
    rewrite Z.abs_mul, (Z.abs_eq c2) by lia. nia. }
  replace (2 ^ sh * 2 * Z.abs (q * freq - c2 * kNsPerSec))
    with (Z.abs (2 * (q * 2 ^ sh * freq - c2 * (kNsPerSec * 2 ^ sh)))).
  { assert (0 <= (c2 * m - q * 2 ^ sh) * freq <= 2 ^ sh * freq) by nia. lia. }
  replace (2 * (q * 2 ^ sh * freq - c2 * (kNsPerSec * 2 ^ sh)))
    with (2 ^ sh * 2 * (q * freq - c2 * kNsPerSec)) by ring.
  rewrite Z.abs_mul, (Z.abs_eq (2 ^ sh * 2)) by lia. done.
Qed.

Lemma clock_window_exact_witness :
  let s' := CalcMultShift 100000000 clock0 in
  let now c := kv_now_ns s' c 0 0 in
  60000000000 * s'.(g_mult) < 2 ^ 64 /\ now 59999999999 <= now 60000000000 /\
  2 ^ (s'.(g_shift) + 1) * Z.abs (now 60000000000 * 100000000 - 60000000000 * kNsPerSec)
    <= 100000000 * (60000000000 + 2 ^ (s'.(g_shift) + 1)).
Proof.
  apply (clock_window_exact 100000000 clock0 0 0 59999999999 60000000000); unfold kMaxSec; lia.
Defined.

(** A converted time always fits [64 - shift] bits. *)
Lemma now_bounded s c tv_sec tv_nsec :
  s.(g_mult) <> 0 -> 0 <= s.(g_shift) <= 64 ->
  0 <= kv_now_ns s c tv_sec tv_nsec < 2 ^ (64 - s.(g_shift)).
Proof.
  intros Hm Hs. unfold kv_now_ns. apply Z.eqb_neq in Hm. rewrite Hm.
  rewrite Z.shiftr_div_pow2 by lia. pose proof (u64_range (c * g_mult s)).
  assert (0 < 2 ^ g_shift s) by (apply pow2_pos; lia).
  split; [apply Z.div_pos; lia|]. apply Z.div_lt_upper_bound; [lia|].
  rewrite <- Z.pow_add_r by lia. replace (g_shift s + (64 - g_shift s)) with 64 by lia. lia.
Qed.

(** [kv_now_ns] converts the absolute counter, not a difference, so
    outside the window it wraps: with a 100 MHz counter the time goes from
    1099.5 s back to 4 ns at one tick, and a deadline set 10 s ahead just
    before the wrap is never reached, whatever the counter reads later (the
    loops of the program run [while (now_ns() < deadline)]). *)
Theorem clock_wraps_and_deadline_unreachable tv_sec tv_nsec :
  let s := kv_clock_init 100000000 0 clock0 in
  let now c := kv_now_ns s c tv_sec tv_nsec in
  now 109951162777 = 1099511627770 /\ now 109951162778 = 4 /\
  forall c, now c < u64 (now 109951162777 + 10 * kNsPerSec).
Proof.
  intros s now.
  assert (Es : s = mk_clock 167772160 24 100000000) by (vm_compute; reflexivity).
  assert (H1 : now 109951162777 = 1099511627770) by (unfold now; rewrite Es; vm_compute; reflexivity).
  split; [done|]. split; [unfold now; rewrite Es; vm_compute; reflexivity|].
  intros c. rewrite H1. pose proof (now_bounded s c tv_sec tv_nsec) as Hb.
  rewrite Es in Hb. simpl in Hb. unfold now. rewrite Es. unfold kNsPerSec.
  rewrite u64_small by lia. change (2 ^ (64 - 24)) with 1099511627776 in Hb. lia.
Qed.

(** [kv_clock_init] may be called again: once a multiplier is set the
    second call changes nothing; and it leaves the clock on the
    [CLOCK_MONOTONIC] fallback exactly when neither the frequency register
    nor the calibration gives a usable frequency. *)
Theorem clock_init_idempotent cntfrq calibrated cntfrq' calibrated' :
  0 <= cntfrq -> kMaxSec * cntfrq < 2 ^ 63 -> 0 <= calibrated -> kMaxSec * calibrated < 2 ^ 63 ->
  let s := kv_clock_init cntfrq calibrated clock0 in
  (s.(g_mult) = 0 <-> cntfrq = 0 /\ calibrated = 0) /\
  (s.(g_mult) <> 0 -> kv_clock_init cntfrq' calibrated' s = s).
Proof.
  intros H1 H2 H3 H4 s. split.
  - assert (Hpos : forall f s0, 0 < f -> kMaxSec * f < 2 ^ 63 -> 0 < (CalcMultShift f s0).(g_mult)).
    { intros f s0 Hf Hw. destruct (calc_spec f s0 Hf ltac:(lia)) as (sh & -> & _ & _ & Hm).
      simpl. auto. }
    unfold s, kv_clock_init, set_freq. simpl.
    destruct (Z.eqb_spec cntfrq 0) as [->|Hc]; simpl.
    + destruct (Z.eqb_spec calibrated 0) as [->|Hc]; simpl; [done|].
      pose proof (Hpos calibrated (mk_clock 0 0 calibrated)). lia.
    + pose proof (Hpos cntfrq (mk_clock 0 0 cntfrq) ltac:(lia) H2).
      destruct (Z.eqb_spec (g_mult (CalcMultShift cntfrq (mk_clock 0 0 cntfrq))) 0); lia.
  - intros Hm. unfold kv_clock_init at 1. apply Z.eqb_neq in Hm. by rewrite Hm.
Qed.

Lemma clock_init_idempotent_witness :
  let s := kv_clock_init 0 2400000000 clock0 in
  (s.(g_mult) = 0 <-> 0 = 0 /\ 2400000000 = 0) /\
  (s.(g_mult) <> 0 -> kv_clock_init 0 5 s = s).
Proof. apply (clock_init_idempotent 0 2400000000 0 5); unfold kMaxSec; lia. Defined.
