(* ===== verification/Calibrate.v ===== *)
(** * Calibrate: the counters of [src/clock.h] and the calibration of [src/clock.cpp]

    [kv_cycles] and [ReadCntfrq] by architecture, and [CalibrateFreq], which
    estimates the frequency of the counter from two hundred samples against
    [CLOCK_MONOTONIC] by linear regression in [long double].  The format of a
    [long double] depends on the machine (64 bits of precision on x86_64, 113 on
    aarch64): its [prec] and [emax] are arguments. *)

From S2P Require Import Prelude Hist Floats Clock.
From Stdlib Require Import SpecFloat.
From stdpp Require Import list.
#[local] Open Scope Z_scope.

Inductive arch := aarch64 | x86_64 | other_arch.

(** [cntfrq_el0]: the register, readable on aarch64. *)
Definition ReadCntfrq (m : arch) (cntfrq_el0 : Z) : Z := match m with aarch64 => cntfrq_el0 | _ => 0 end.

(** A [struct timespec]: [tv_sec] and [tv_nsec]. *)
Definition timespec : Type := Z * Z.

(** What can be read at one moment: the virtual counter, the halves (high, low)
    of the time-stamp counter, the monotonic clock. *)
Record counters := mk_counters { cntvct_el0 : Z; tsc : Z * Z; monotonic : timespec }.

Definition kv_cycles (m : arch) (c : counters) : Z :=
  match m with
  | aarch64 => c.(cntvct_el0)
  | x86_64 => Z.lor (fst c.(tsc) <<u64 32) (snd c.(tsc))
  | other_arch => fst c.(monotonic) *u64 kNsPerSec +u64 snd c.(monotonic)
  end.

(** ** Samples *)

Definition kN : Z := 200.

(** Nanoseconds from [t0] to [t1]. *)
Definition ts_diff (t0 t1 : timespec) : Z := (fst t1 - fst t0) * 1000000000 + (snd t1 - snd t0).

(** The [do ... while (1)]: the first of the clock's values that is [target] or
    more after [t0]; [None] when the given values do not get there. *)
Fixpoint spin (t0 : timespec) (target : Z) (reads : list timespec) : option timespec :=
  match reads with
  | [] => None
  | t1 :: reads => if target <=? ts_diff t0 t1 then Some t1 else spin t0 target reads
  end.

(** What one pass of the sampling loop reads. *)
Record pass := mk_pass { ps_t0 : timespec; ps_c0 : counters; ps_reads : list timespec; ps_c1 : counters }.

Definition target_of (i : nat) : Z := u64 (100 + Z.of_nat i * 10) *u64 1000.

(** [xs[i]] and [ys[i]] *)
Definition take_sample (m : arch) (i : nat) (p : pass) : option (Z * Z) :=
  t1 ← spin p.(ps_t0) (target_of i) p.(ps_reads);
  Some (u64 (ts_diff p.(ps_t0) t1), kv_cycles m p.(ps_c1) -u64 kv_cycles m p.(ps_c0)).

Fixpoint take_samples (m : arch) (i : nat) (ps : list pass) : option (list (Z * Z)) :=
  match ps with
  | [] => Some []
  | p :: ps => s ← take_sample m i p; l ← take_samples m (S i) ps; Some (s :: l)
  end.

(** ** Regression *)

Section regression.
Context (prec emax : Z).

Definition ld (n : Z) : spec_float := binary_normalize prec emax n 0 false.
Definition ld_add := SFadd prec emax.
Definition ld_sub := SFsub prec emax.
Definition ld_mul := SFmul prec emax.
Definition ld_div := SFdiv prec emax.

Record sums := mk_sums { sx : spec_float; sy : spec_float; sxx : spec_float; sxy : spec_float }.

Definition add_sample (s : sums) (xy : Z * Z) : sums :=
  let tx := ld (fst xy) in
  let ty := ld (snd xy) in
  mk_sums (ld_add s.(sx) tx) (ld_add s.(sy) ty) (ld_add s.(sxx) (ld_mul tx tx)) (ld_add s.(sxy) (ld_mul tx ty)).

Definition regression (xys : list (Z * Z)) : Z :=
  let s := foldl add_sample (mk_sums (ld 0) (ld 0) (ld 0) (ld 0)) xys in
  if SFleb (ld_mul (ld kN) s.(sxx)) (ld_mul s.(sx) s.(sx)) then 0
  else
    let b := ld_div (ld_sub (ld_mul (ld kN) s.(sxy)) (ld_mul s.(sx) s.(sy)))
                    (ld_sub (ld_mul (ld kN) s.(sxx)) (ld_mul s.(sx) s.(sx))) in
    if SFleb b (ld 0) then 0 else u64_of_double (ld_mul b (ld kNsPerSec)).

(** [ps]: the two hundred passes. *)
Definition CalibrateFreq (m : arch) (ps : list pass) : option Z :=
  xys ← take_samples m 0 ps; Some (regression xys).

End regression.

(** ** The sums as integers *)

Definition Sx (l : list (Z * Z)) : Z := sumZ (fst <$> l).
Definition Sy (l : list (Z * Z)) : Z := sumZ (snd <$> l).
Definition Sxx (l : list (Z * Z)) : Z := sumZ ((fun xy => fst xy * fst xy) <$> l).
Definition Sxy (l : list (Z * Z)) : Z := sumZ ((fun xy => fst xy * snd xy) <$> l).

Lemma sumZ_bounded {A} (f : A -> Z) (B : Z) l : Forall (fun x => 0 <= f x <= B) l -> 0 <= sumZ (f <$> l) <= Z.of_nat (length l) * B.
Proof. induction 1; csimpl; lia. Qed.

(** The squared distances of the first components to [x]. *)
Lemma spread_nonneg l x : 0 <= Sxx l - 2 * x * Sx l + Z.of_nat (length l) * x * x.
Proof. unfold Sxx, Sx. induction l as [|[a b] l IH]; csimpl; [lia|]. pose proof (Z.square_nonneg (a - x)). lia. Qed.

Lemma spread_pos l x a : a ∈ fst <$> l -> a <> x -> 0 < Sxx l - 2 * x * Sx l + Z.of_nat (length l) * x * x.
Proof.
  intros Ha Hne. induction l as [|[c b] l IH]; csimpl in *; [by apply not_elem_of_nil in Ha|].
  pose proof (spread_nonneg l x) as Hn. unfold Sxx, Sx in *. csimpl. apply elem_of_cons in Ha as [->|Ha].
  - assert (0 < (c - x) * (c - x)) by nia. lia.
  - specialize (IH Ha). pose proof (Z.square_nonneg (c - x)). lia.
Qed.

(** The inequality of Cauchy and Schwarz, strict when two samples differ. *)
Lemma variance_nonneg l : Sx l * Sx l <= Z.of_nat (length l) * Sxx l.
Proof.
  induction l as [|[a b] l IH]; [done|]. pose proof (spread_nonneg l a) as Hs. unfold Sxx, Sx in *. csimpl.
  set (S := sumZ (fst <$> l)) in *. set (Q := sumZ _) in *. rewrite Nat2Z.inj_succ. nia.
Qed.

Lemma variance_pos l a b : a ∈ fst <$> l -> b ∈ fst <$> l -> a <> b -> Sx l * Sx l < Z.of_nat (length l) * Sxx l.
Proof.
  intros Ha Hb Hne. induction l as [|[c d] l IH]; csimpl in *; [by apply not_elem_of_nil in Ha|].
  assert (Hsplit : (exists z, z ∈ fst <$> l /\ z <> c) \/ (a ∈ fst <$> l /\ b ∈ fst <$> l)).
  { apply elem_of_cons in Ha as [->|Ha], Hb as [->|Hb]; [done|left; by exists b|left; by exists a|by right]. }
  pose proof (variance_nonneg l) as Hv. pose proof (spread_nonneg l c) as Hs. unfold Sxx, Sx in *. csimpl.
  destruct Hsplit as [(z & Hz & Hzc)|[Ha' Hb']].
  - pose proof (spread_pos l z c) as Hp. pose proof (spread_pos l c z Hz Hzc) as Hp'. unfold Sxx, Sx in Hp'.
    set (S := sumZ (fst <$> l)) in *. set (Q := sumZ _) in *. rewrite Nat2Z.inj_succ. nia.
  - specialize (IH Ha' Hb'). set (S := sumZ (fst <$> l)) in *. set (Q := sumZ _) in *. rewrite Nat2Z.inj_succ. nia.
Qed.

(** Samples on a line. *)
Lemma line_sums l off k : Forall (fun xy => snd xy = off + k * fst xy) l ->
  Sy l = Z.of_nat (length l) * off + k * Sx l /\ Sxy l = off * Sx l + k * Sxx l.
Proof. unfold Sy, Sxy, Sx, Sxx. induction 1 as [|[x y] l E _ IH]; csimpl in *; [lia|]. subst y. nia. Qed.

(** Samples of at most 4 ms and 2^26 cycles. *)
Definition small_sample (xy : Z * Z) : Prop := 0 <= fst xy < 2 ^ 22 /\ 0 <= snd xy < 2 ^ 26.

Lemma sums_bounds l : Forall small_sample l ->
  0 <= Sx l <= Z.of_nat (length l) * 2 ^ 22 /\ 0 <= Sy l <= Z.of_nat (length l) * 2 ^ 26 /\
  0 <= Sxx l <= Z.of_nat (length l) * 2 ^ 44 /\ 0 <= Sxy l <= Z.of_nat (length l) * 2 ^ 48.
Proof.
  intros Hl. unfold Sx, Sy, Sxx, Sxy.
  split; [|split; [|split]]; apply sumZ_bounded; (eapply Forall_impl; [exact Hl|]); intros [x y] [Hx Hy]; simpl in *; nia.
Qed.

Section exact.
Context (prec emax : Z) (Hprec : 64 <= prec) (Hemax : prec <= emax).

#[local] Abbreviation fl := (fl prec).
#[local] Abbreviation fits := (fits_prec prec).

Lemma pow_prec : 2 ^ 64 <= 2 ^ prec.
Proof. apply Z.pow_le_mono_r; lia. Qed.

Lemma fits_small n : 0 <= n < 2 ^ 64 -> fits n.
Proof. pose proof pow_prec. unfold fits_prec. lia. Qed.

Lemma ld_fl n : 0 <= n < 2 ^ 64 -> ld prec emax n = fl n.
Proof. intros Hn. apply of_Z_exact; [lia|lia|by apply fits_small]. Qed.

Definition exact_sums (s : sums) (a b c d : Z) : Prop := s = mk_sums (fl a) (fl b) (fl c) (fl d).

Lemma fold_exact l : forall s a b c d, exact_sums s a b c d -> 0 <= a -> 0 <= b -> 0 <= c -> 0 <= d ->
  Forall small_sample l -> a + Sx l < 2 ^ 64 -> b + Sy l < 2 ^ 64 -> c + Sxx l < 2 ^ 64 -> d + Sxy l < 2 ^ 64 ->
  exact_sums (foldl (add_sample prec emax) s l) (a + Sx l) (b + Sy l) (c + Sxx l) (d + Sxy l).
Proof.
  induction l as [|[x y] l IH]; intros s a b c d Hs Ha Hb Hc Hd Hl La Lb Lc Ld.
  - unfold Sx, Sy, Sxx, Sxy. simpl. by rewrite !Z.add_0_r.
  - inversion Hl as [|? ? [Hx Hy] Hl']; subst. simpl in Hx, Hy. pose proof (sums_bounds l Hl') as N.
    unfold Sx, Sy, Sxx, Sxy in *. csimpl in *. rewrite !Z.add_assoc in *.
    assert (0 <= x * x < 2 ^ 44 /\ 0 <= x * y < 2 ^ 48) as [Hxx Hxy] by nia.
    apply IH; try lia; [|done]. rewrite Hs. unfold exact_sums, add_sample, ld_add, ld_mul. cbn [sx sy sxx sxy fst snd].
    rewrite !ld_fl by lia. rewrite !mul_exact by (first [lia | apply fits_small; lia]).
    rewrite !add_exact by (first [lia | apply fits_small; lia]). done.
Qed.

Lemma regression_line l off k : length l = Z.to_nat kN -> 0 < k <= 32 ->
  Forall (fun xy => snd xy = off + k * fst xy) l -> Forall small_sample l ->
  (exists a b, a ∈ fst <$> l /\ b ∈ fst <$> l /\ a <> b) ->
  regression prec emax l = k * kNsPerSec.
Proof.
  intros Hlen Hk Hline Hb (a & b & Ha & Hb' & Hne). pose proof (sums_bounds l Hb) as B.
  pose proof (variance_pos l a b Ha Hb' Hne) as V. destruct (line_sums l off k Hline) as [Ey Exy].
  rewrite Hlen in B, V, Ey. change (Z.of_nat (Z.to_nat kN)) with 200 in *.
  assert (P1 : 0 <= Sx l * Sx l < 2 ^ 64) by nia. assert (P2 : 0 <= Sx l * Sy l < 2 ^ 64) by nia.
  assert (D : 200 * Sxy l - Sx l * Sy l = k * (200 * Sxx l - Sx l * Sx l)) by nia.
  assert (P3 : 0 < k * (200 * Sxx l - Sx l * Sx l) < 2 ^ 64) by nia.
  unfold regression, ld_mul, ld_div, ld_sub.
  rewrite (fold_exact l _ 0 0 0 0) by (first [lia | done | unfold exact_sums; by rewrite !ld_fl]).
  cbn [sx sy sxx sxy]. rewrite !Z.add_0_l. unfold kN, kNsPerSec. rewrite !ld_fl by lia.
  rewrite !mul_exact by (first [lia | apply fits_small; lia]). rewrite leb_exact by (first [lia | apply fits_small; lia]).
  destruct (Z.leb_spec (200 * Sxx l) (Sx l * Sx l)); [lia|].
  rewrite !sub_exact by (first [lia | apply fits_small; lia]). rewrite D, div_exact by (first [lia | apply fits_small; lia]).
  rewrite leb_exact by (first [lia | apply fits_small; lia]). destruct (Z.leb_spec k 0); [lia|].
  rewrite mul_exact by (first [lia | apply fits_small; lia]). unfold u64_of_double.
  assert (F : fits (k * 1000000000)) by (apply fits_small; lia).
  pose proof (trunc_exact prec ltac:(lia) (k * 1000000000) F) as T.
  destruct (Floats.fl prec (k * 1000000000)) as [| | |[] m e]; try lia. rewrite T. apply Z.mod_small. lia.
Qed.

End exact.

(** ** The calibration *)

Lemma spin_reached t0 target reads t1 : spin t0 target reads = Some t1 -> target <= ts_diff t0 t1 /\ t1 ∈ reads.
Proof.
  induction reads as [|t reads IH]; simpl; [done|]. destruct (Z.leb_spec target (ts_diff t0 t)) as [Hle|_].
  - intros [= ->]. split; [done|apply list_elem_of_here].
  - intros Hs. destruct (IH Hs). split; [done|by apply list_elem_of_further].
Qed.

(** No value of the clock in a pass is 4 ms or more after its start. *)
Definition short_pass (p : pass) : Prop := Forall (fun t => ts_diff p.(ps_t0) t < 2 ^ 22) p.(ps_reads).

Lemma target_small i : (i < 200)%nat -> target_of i = (100 + Z.of_nat i * 10) * 1000.
Proof. intros Hi. unfold target_of. rewrite !u64_small by (rewrite ?u64_small; lia). done. Qed.

Lemma take_sample_bounds m i p xy : short_pass p -> (i < 200)%nat -> take_sample m i p = Some xy ->
  target_of i <= fst xy < 2 ^ 22.
Proof.
  intros Hp Hi. unfold take_sample. destruct (spin _ _ _) as [t1|] eqn:Es; [|done]. cbn. intros [= <-]. cbn [fst].
  destruct (spin_reached _ _ _ _ Es) as [Hle Hin]. pose proof (proj1 (Forall_forall _ _) Hp t1 Hin) as Hlt. cbv beta in Hlt.
  rewrite (target_small i Hi) in *. rewrite u64_small by lia. lia.
Qed.

Lemma take_samples_bounds m ps : forall i l, Forall short_pass ps -> (i + length ps <= 200)%nat -> take_samples m i ps = Some l ->
  length l = length ps /\ forall j xy, l !! j = Some xy -> target_of (i + j) <= fst xy < 2 ^ 22.
Proof.
  induction ps as [|p ps IH]; intros i l Hps Hi; simpl; [by intros [= <-]|]. inversion Hps as [|? ? Hp Hps']; subst.
  destruct (take_sample m i p) as [xy|] eqn:E1; [|done]. simpl. destruct (take_samples m (S i) ps) as [l'|] eqn:E2; [|done].
  simpl. intros [= <-]. simpl in Hi. destruct (IH (S i) l' Hps' ltac:(lia) E2) as [Hlen Hj]. split; [simpl; by f_equal|].
  intros [|j] xy'; simpl.
  - intros [= <-]. rewrite Nat.add_0_r. apply (take_sample_bounds m i p); [done|lia|done].
  - intros Hl. replace (i + S j)%nat with (S i + j)%nat by lia. by apply Hj.
Qed.

(** C14: the calibration, in the ideal case.  The counter advances by a whole
    number [k] of cycles per nanosecond, 1 to 15, and is read with one and the
    same delay [off] of at most 2^22 cycles in every sample, so that the samples
    are exactly on a line; all 200 passes come to an end and no pass is held up
    for 2^22 ns (4 ms) or more; the first sample is earlier than the last pass
    aims at.  Then the regression in [long double] is free of rounding and
    returns exactly [k] GHz, whatever the format of [long double] is as long as
    it has 64 bits.  Nothing is stated about samples off the line or other
    frequencies. *)
Theorem calibration_exact prec emax m ps xys off k :
  64 <= prec <= emax -> length ps = Z.to_nat kN -> Forall short_pass ps -> take_samples m 0 ps = Some xys ->
  0 < k <= 15 -> 0 <= off <= 2 ^ 22 -> Forall (fun xy => snd xy = off + k * fst xy) xys ->
  (forall x y, head xys = Some (x, y) -> x < target_of 199) ->
  CalibrateFreq prec emax m ps = Some (k * kNsPerSec).
Proof.
  intros [Hp He] Hlen Hps Es Hk Hoff Hline Hfirst. change (Z.to_nat kN) with 200%nat in *.
  destruct (take_samples_bounds m ps 0 xys Hps ltac:(lia) Es) as [Hl Hb]. unfold CalibrateFreq. rewrite Es. simpl. f_equal.
  assert (Hsmall : Forall small_sample xys).
  { apply Forall_lookup. intros j [x y] Hj. pose proof (Hb j _ Hj) as Hx. pose proof (proj1 (Forall_lookup _ _) Hline j _ Hj) as Hy.
    pose proof (lookup_lt_Some _ _ _ Hj). rewrite (target_small (0 + j)) in Hx by lia. simpl in *. split; simpl; nia. }
  apply (regression_line prec emax Hp He xys off k); [by rewrite Hl|lia|done|done|].
  destruct (lookup_lt_is_Some_2 xys 0 ltac:(lia)) as [[x0 y0] H0]. destruct (lookup_lt_is_Some_2 xys 199 ltac:(lia)) as [[x1 y1] H1].
  exists x0, x1. split; [|split].
  - apply (list_elem_of_fmap_2' fst xys (x0, y0)); [by eapply list_elem_of_lookup_2|done].
  - apply (list_elem_of_fmap_2' fst xys (x1, y1)); [by eapply list_elem_of_lookup_2|done].
  - pose proof (Hb 199%nat _ H1) as Hx1. simpl in Hx1. assert (x0 < target_of 199) by (apply (Hfirst x0 y0); by destruct xys; simplify_eq/=).
    lia.
Qed.

(** A time-stamp counter of 3 GHz that is read five cycles late; every pass
    overshoots a little. *)
Definition demo_pass (i : nat) : pass :=
  let x := target_of i + Z.of_nat (i * i) mod 97 in
  mk_pass (7, 999999000) (mk_counters 0 (2, 1000) (0, 0)) [(7, 999999500); (8, x / 2 - 1000); (8, x - 1000)]
    (mk_counters 0 (2, 1005 + 3 * x) (0, 0)).

Definition demo_passes : list pass := demo_pass <$> seq 0 200.
Definition demo_samples : list (Z * Z) := default [] (take_samples x86_64 0 demo_passes).

Lemma demo_samples_taken : take_samples x86_64 0 demo_passes = Some demo_samples.
Proof. by vm_compute. Qed.

Lemma calibration_exact_witness : CalibrateFreq 64 16384 x86_64 demo_passes = Some 3000000000.
Proof.
  apply (calibration_exact 64 16384 x86_64 demo_passes demo_samples 5 3).
  - lia.
  - vm_compute. reflexivity.
  - apply (bool_decide_eq_true_1 _). vm_compute. reflexivity.
  - exact demo_samples_taken.
  - lia.
  - lia.
  - apply (bool_decide_eq_true_1 _). vm_compute. reflexivity.
  - intros x y E. vm_compute in E. injection E as <- _. vm_compute. reflexivity.
Defined.
