(* ===== verification/EventSlotPool.v ===== *)
(** * EventSlotPool: the per-worker completion slots of
      [src/urma/event_slot_pool.h]

    The pool is modelled with its four arrays.  The worker thread calls
    [Acquire], [Probe] and [Abort]; the poll thread calls [Complete].  First
    each call on its own, against a map from live tokens to their status;
    then the two threads interleaved at the granularity of the atomic
    operations, with the trace theorems (tokens are never reissued, every
    event is consumed at most once, a late completion hits nothing). *)

From S2P Require Import Prelude.
From stdpp Require Import list.
#[local] Open Scope Z_scope.

(** ** Data *)

Definition kSlotCount : Z := 256.
Definition kSlotBits : Z := 8.
Definition kSlotMask : Z := kSlotCount - 1.

Record event_pool := mk_pool {
  states_ : list Z;
  generations_ : list Z;
  freeSlots_ : list Z;
  freeCount_ : Z;
}.

(** The constructor [EventSlotPool()]. *)
Definition new_pool : event_pool :=
  mk_pool (replicate (Z.to_nat kSlotCount) 0) (replicate (Z.to_nat kSlotCount) 0)
    ((fun i => kSlotCount - 1 - Z.of_nat i) <$> seq 0 (Z.to_nat kSlotCount))
    kSlotCount.

(** [a[i]] of a [std::array]. *)
Definition get (a : list Z) (i : Z) : Z := default 0 (a !! Z.to_nat i).
Definition set (a : list Z) (i x : Z) : list Z := <[Z.to_nat i := x]> a.

Definition Pending (token : Z) : Z := token <<u64 2.
Definition Done (token : Z) (ok : bool) : Z := Z.lor (token <<u64 2) (if ok then 1 else 2).
Definition Index (token : Z) : Z := u32 (Z.land token kSlotMask).

Definition with_states (p : event_pool) (l : list Z) : event_pool :=
  mk_pool l p.(generations_) p.(freeSlots_) p.(freeCount_).

(** [compare_exchange_strong]: whether the exchange took place, and the pool
    after it. *)
Definition cas (p : event_pool) (index expected desired : Z) : bool * event_pool :=
  if get p.(states_) index =? expected
  then (true, with_states p (set p.(states_) index desired))
  else (false, p).

(** [freeSlots_[freeCount_++] = index] *)
Definition Release (p : event_pool) (index : Z) : event_pool :=
  mk_pool p.(states_) p.(generations_) (set p.(freeSlots_) p.(freeCount_) index)
    (u32 (p.(freeCount_) + 1)).

(** ** Operations

    [Acquire], [Probe] and [Abort] are split at their atomic operations: the
    second thread may run in between. *)

(** [Acquire] up to its compare-exchange: the slot popped from the free stack
    and its new token; [None] when the stack is empty. *)
Definition acquire_prepare (p : event_pool) : option (Z * Z * event_pool) :=
  if p.(freeCount_) =? 0 then None
  else
    let fc := p.(freeCount_) - 1 in
    let index := get p.(freeSlots_) fc in
    let generation := u32 (get p.(generations_) index + 1) in
    let gens := set p.(generations_) index generation in
    let '(generation, gens) :=
      if generation =? 0
      then let g := u32 (get gens index + 1) in (g, set gens index g)
      else (generation, gens) in
    let token := Z.lor (Z.shiftl generation kSlotBits) index in
    Some (index, token, mk_pool p.(states_) gens p.(freeSlots_) fc).

Definition acquire_commit (index token : Z) (p : event_pool) : bool * Z * event_pool :=
  let '(swapped, p') := cas p index 0 (Pending token) in
  if swapped then (true, token, p')
  else (false, 0, Release p' index).

Definition Acquire (p : event_pool) : bool * Z * event_pool :=
  match acquire_prepare p with
  | None => (false, 0, p)
  | Some (index, token, p') => acquire_commit index token p'
  end.

Definition Complete (token : Z) (ok : bool) (p : event_pool) : event_pool :=
  if token =? 0 then p
  else snd (cas p (Index token) (Pending token) (Done token ok)).

(** [Probe] up to its compare-exchange: the value loaded when it is a
    completion of this token. *)
Definition probe_load (token : Z) (p : event_pool) : option Z :=
  if token =? 0 then None
  else
    let value := get p.(states_) (Index token) in
    if negb (value =? Done token true) && negb (value =? Done token false)
    then None else Some value.

Definition probe_commit (token value : Z) (p : event_pool) : Z * event_pool :=
  let index := Index token in
  let '(swapped, p') := cas p index value 0 in
  if swapped
  then (if value =? Done token true then 1 else -1, Release p' index)
  else (0, p').

Definition Probe (token : Z) (p : event_pool) : Z * event_pool :=
  match probe_load token p with
  | None => (0, p)
  | Some value => probe_commit token value p
  end.

(** The guard of the loop of [Abort] on a loaded value. *)
Definition abort_guard (token value : Z) : bool := Z.shiftr value 2 =? token.

(** One [compare_exchange_weak] of [Abort]: [inl] is the value seen when the
    exchange failed (for the next test of the guard), [inr] the pool after a
    successful one.  [spurious] lets the weak exchange fail by itself. *)
Definition abort_commit (spurious : bool) (token value : Z) (p : event_pool) : Z + event_pool :=
  let index := Index token in
  if spurious then inl (get p.(states_) index)
  else
    let '(swapped, p') := cas p index value 0 in
    if swapped then inr (Release p' index) else inl (get p.(states_) index).

(** [Abort] when no other thread interferes: the exchange of the loaded value
    succeeds at the first attempt that does not fail spuriously. *)
Definition Abort (token : Z) (p : event_pool) : bool * event_pool :=
  if token =? 0 then (false, p)
  else
    let value := get p.(states_) (Index token) in
    if abort_guard token value then
      match abort_commit false token value p with
      | inr p' => (true, p')
      | inl _ => (false, p)
      end
    else (false, p).

Definition Available (p : event_pool) : Z := p.(freeCount_).

(** ** Abstract view: the live events *)

Inductive status := SPending | SDone (ok : bool).

#[global] Instance status_eq_dec : EqDecision status.
Proof. solve_decision. Defined.

Definition status_of (v : Z) : status :=
  if v mod 4 =? 0 then SPending else SDone (v mod 4 =? 1).

(** The status of the event a token names, if it is live. *)
Definition live (p : event_pool) (token : Z) : option status :=
  if token =? 0 then None
  else
    let v := get p.(states_) (token mod 256) in
    if v / 4 =? token then Some (status_of v) else None.

(** Tokens are what [Acquire] hands out: 40 bits. *)
Definition is_token (t : Z) : Prop := 0 <= t < 2 ^ 40.

(** ** Encodings *)

Lemma Pending_eq t : is_token t -> Pending t = 4 * t.
Proof.
  intros Ht. unfold Pending, is_token in *. rewrite Z.shiftl_mul_pow2 by lia.
  rewrite u64_small; lia.
Qed.

Lemma Done_eq t ok : is_token t -> Done t ok = 4 * t + (if ok then 1 else 2).
Proof.
  intros Ht. unfold Done. pose proof (Pending_eq t Ht) as E. unfold Pending in E.
  assert (Z.lor (Z.shiftl t 2) (if ok then 1 else 2) = t * 2 ^ 2 + (if ok then 1 else 2))
    by (apply lor_shiftl_low; [lia|destruct ok; lia]).
  rewrite u64_small in * by (unfold is_token in Ht; rewrite Z.shiftl_mul_pow2; lia). lia.
Qed.

Lemma Index_eq t : Index t = t mod 256.
Proof.
  unfold Index. change kSlotMask with (2 ^ 8 - 1). rewrite land_mask by lia.
  apply u32_small. pose proof (Z.mod_pos_bound t 256). change (2 ^ 8) with 256. lia.
Qed.

Lemma Index_range t : 0 <= Index t < 256.
Proof. rewrite Index_eq. apply Z.mod_pos_bound. lia. Qed.

Lemma token_eq g i : 0 <= i < 256 -> Z.lor (Z.shiftl g kSlotBits) i = g * 256 + i.
Proof. intros. apply (lor_shiftl_low g i 8); lia. Qed.

Lemma get_set_eq a i x : 0 <= i < Z.of_nat (length a) -> get (set a i x) i = x.
Proof. intros. unfold get, set. by rewrite list_lookup_insert_eq by lia. Qed.

Lemma get_set_ne a i j x : 0 <= i -> 0 <= j -> i <> j -> get (set a i x) j = get a j.
Proof. intros. unfold get, set. by rewrite list_lookup_insert_ne by lia. Qed.

Lemma length_set a i x : length (set a i x) = length a.
Proof. apply length_insert. Qed.

#[export] Hint Rewrite get_set_eq using (rewrite ?length_set; lia) : kv_arith.
#[export] Hint Rewrite get_set_ne using lia : kv_arith.
#[export] Hint Rewrite length_set : kv_arith.

(** ** Invariant *)

(** The free stack: the first [freeCount_] entries of [freeSlots_]. *)
Definition free_list (p : event_pool) : list Z := take (Z.to_nat p.(freeCount_)) p.(freeSlots_).

(** [held] are the slots popped from the free stack whose state is not yet
    written (empty between calls). *)
Record pool_wf (held : list Z) (p : event_pool) : Prop := {
  wf_states : length p.(states_) = 256%nat;
  wf_gens : length p.(generations_) = 256%nat;
  wf_free : length p.(freeSlots_) = 256%nat;
  wf_count : 0 <= p.(freeCount_) <= 256;
  wf_gen_range : forall i, 0 <= i < 256 -> 0 <= get p.(generations_) i < 2 ^ 32;
  wf_nodup : NoDup (held ++ free_list p);
  wf_slots : Forall (fun i => 0 <= i < 256) (held ++ free_list p);
  wf_free_iff : forall i, 0 <= i < 256 ->
    (get p.(states_) i = 0 <-> i ∈ held ++ free_list p);
  wf_live : forall i, 0 <= i < 256 -> get p.(states_) i <> 0 ->
    0 < get p.(generations_) i /\
    exists s, 0 <= s <= 2 /\
      get p.(states_) i = 4 * (get p.(generations_) i * 256 + i) + s;
}.

Lemma new_pool_gens i : get new_pool.(generations_) i = 0.
Proof.
  unfold get. destruct (new_pool.(generations_) !! Z.to_nat i) eqn:E; [|done].
  by apply lookup_replicate in E as [-> _].
Qed.

Lemma new_pool_wf : pool_wf [] new_pool.
Proof.
  assert (Hf : free_list new_pool = (fun i => 255 - Z.of_nat i) <$> seq 0 256) by (vm_compute; reflexivity).
  assert (Hs : forall i, get new_pool.(states_) i = 0).
  { intros i. unfold get. destruct (new_pool.(states_) !! Z.to_nat i) eqn:E; [|done].
    apply lookup_replicate in E as [-> _]. done. }
  constructor.
  - vm_compute. done.
  - vm_compute. done.
  - vm_compute. done.
  - simpl. unfold kSlotCount. lia.
  - intros i _. rewrite new_pool_gens. lia.
  - rewrite Hf, app_nil_l. apply NoDup_fmap_2; [intros x y; lia|apply NoDup_seq].
  - rewrite Hf. apply Forall_fmap, Forall_forall. intros i [_ Hi]%elem_of_seq. simpl. lia.
  - intros i Hi. split; [|done]. intros _. rewrite Hf, app_nil_l.
    apply list_elem_of_fmap. exists (Z.to_nat (255 - i)). split; [lia|]. apply elem_of_seq. lia.
  - intros i Hi H. by rewrite Hs in H.
Qed.

(** The length of the free stack. *)
Lemma free_list_length held p : pool_wf held p -> length (free_list p) = Z.to_nat p.(freeCount_).
Proof. intros []. unfold free_list. rewrite length_take. lia. Qed.

(** ** Steps preserve the invariant *)

Lemma cas_hit p i v w : get p.(states_) i = v -> cas p i v w = (true, with_states p (set p.(states_) i w)).
Proof. intros <-. unfold cas. by rewrite Z.eqb_refl. Qed.

Lemma cas_miss p i v w : get p.(states_) i <> v -> cas p i v w = (false, p).
Proof. intros H. unfold cas. by apply Z.eqb_neq in H as ->. Qed.

Lemma free_list_pop held p :
  pool_wf held p -> p.(freeCount_) <> 0 ->
  free_list p = free_list (mk_pool p.(states_) p.(generations_) p.(freeSlots_) (p.(freeCount_) - 1))
                ++ [get p.(freeSlots_) (p.(freeCount_) - 1)].
Proof.
  intros [] Hne. unfold free_list. simpl.
  replace (Z.to_nat p.(freeCount_)) with (S (Z.to_nat (p.(freeCount_) - 1))) at 1 by lia.
  unfold get. destruct (lookup_lt_is_Some_2 p.(freeSlots_) (Z.to_nat (p.(freeCount_) - 1))) as [x Hx];
    [lia|]. rewrite Hx. simpl. by apply take_S_r.
Qed.

Lemma acquire_prepare_spec p :
  pool_wf [] p -> p.(freeCount_) <> 0 ->
  exists i g p', acquire_prepare p = Some (i, g * 256 + i, p') /\ 0 <= i < 256 /\
    0 < g < 2 ^ 32 /\ get p'.(generations_) i = g /\
    (get p.(generations_) i < 2 ^ 32 - 1 -> g = get p.(generations_) i + 1) /\
    (forall j, 0 <= j < 256 -> j <> i -> get p'.(generations_) j = get p.(generations_) j) /\
    p'.(states_) = p.(states_) /\ p'.(freeCount_) = p.(freeCount_) - 1 /\
    pool_wf [i] p'.
Proof.
  intros W Hne. pose proof (free_list_pop [] p W Hne) as Hpop. pose proof W as W'. destruct W'.
  set (i := get p.(freeSlots_) (p.(freeCount_) - 1)) in *.
  assert (Hi : 0 <= i < 256).
  { rewrite app_nil_l, Hpop, Forall_app in wf_slots0. destruct wf_slots0 as [_ Hx].
    rewrite Forall_singleton in Hx. exact Hx. }
  assert (Hgi := wf_gen_range0 i Hi).
  set (g := if decide (get p.(generations_) i = 2 ^ 32 - 1) then 1 else get p.(generations_) i + 1).
  set (gens := set p.(generations_) i g).
  assert (Ep : acquire_prepare p = Some (i, g * 256 + i, mk_pool p.(states_) gens p.(freeSlots_) (p.(freeCount_) - 1))).
  { unfold acquire_prepare. apply Z.eqb_neq in Hne. rewrite Hne. fold i.
    unfold gens, g. destruct (decide (get (generations_ p) i = 2 ^ 32 - 1)) as [E|E].
    - rewrite E. change (u32 (2 ^ 32 - 1 + 1)) with 0. simpl Z.eqb. cbv iota.
      rewrite get_set_eq by lia. change (u32 (0 + 1)) with 1. rewrite token_eq by lia.
      do 3 f_equal. unfold set. by rewrite list_insert_insert_eq.
    - rewrite u32_small by lia. destruct (Z.eqb_spec (get (generations_ p) i + 1) 0); [lia|].
      by rewrite token_eq by lia. }
  exists i, g, (mk_pool p.(states_) gens p.(freeSlots_) (p.(freeCount_) - 1)).
  assert (Hg : 0 < g < 2 ^ 32) by (unfold g; case_decide; lia).
  assert (Hgg : get gens i = g) by (unfold gens; by rewrite get_set_eq by lia).
  assert (Hgo : forall j, 0 <= j < 256 -> j <> i -> get gens j = get p.(generations_) j)
    by (intros; unfold gens; by rewrite get_set_ne by lia).
  assert (Hfl : [i] ++ free_list (mk_pool p.(states_) gens p.(freeSlots_) (p.(freeCount_) - 1)) ≡ₚ free_list p).
  { rewrite Hpop. unfold free_list. simpl. by rewrite Permutation_cons_append. }
  split; [done|]. split; [done|]. split; [done|]. split; [done|].
  split; [unfold g; case_decide; lia|]. split; [done|]. split; [done|]. split; [done|].
  constructor; simpl; auto.
  - unfold gens. by rewrite length_set.
  - lia.
  - intros j Hj. destruct (Z.eq_dec j i) as [->|]; [rewrite Hgg; lia|rewrite Hgo by done; auto].
  - change (NoDup ([i] ++ free_list (mk_pool p.(states_) gens p.(freeSlots_) (p.(freeCount_) - 1)))).
    by rewrite Hfl.
  - change (Forall (fun i => 0 <= i < 256) ([i] ++ free_list (mk_pool p.(states_) gens p.(freeSlots_) (p.(freeCount_) - 1)))).
    by rewrite Hfl.
  - intros j Hj. rewrite (wf_free_iff0 j Hj), app_nil_l, <- Hfl. done.
  - intros j Hj Hs. assert (j <> i).
    { intros ->. apply Hs, (wf_free_iff0 i Hi). rewrite app_nil_l, <- Hfl. set_solver. }
    rewrite Hgo by done. auto.
Qed.

(** The compare-exchange of [Acquire] finds the slot empty, whatever happened
    since the slot was popped. *)
Lemma acquire_commit_spec i t p :
  pool_wf [i] p -> 0 < get p.(generations_) i -> t = get p.(generations_) i * 256 + i ->
  acquire_commit i t p = (true, t, with_states p (set p.(states_) i (4 * t))) /\
  pool_wf [] (with_states p (set p.(states_) i (4 * t))).
Proof.
  intros W Hg ->. pose proof W as W'. destruct W'.
  assert (Hi : 0 <= i < 256) by (apply Forall_cons_1 in wf_slots0; tauto).
  specialize (wf_gen_range0 i Hi) as Hgr.
  assert (H0 : get p.(states_) i = 0) by (apply wf_free_iff0; [done|set_solver]).
  unfold acquire_commit. rewrite cas_hit by done.
  rewrite Pending_eq by (unfold is_token; lia). split; [done|].
  apply NoDup_cons in wf_nodup0 as [Hni Hnd]. apply Forall_cons in wf_slots0 as [_ Hsl].
  change (free_list p) with (free_list (with_states p (set p.(states_) i (4 * (get p.(generations_) i * 256 + i))))) in *.
  constructor; simpl; auto.
  - by rewrite length_set.
  - intros j Hj. destruct (Z.eq_dec j i) as [->|Hne].
    + rewrite get_set_eq by lia. split; [lia|]. done.
    + rewrite get_set_ne by lia. rewrite (wf_free_iff0 j Hj). set_solver.
  - intros j Hj Hs. destruct (Z.eq_dec j i) as [->|Hne].
    + split; [done|]. exists 0. rewrite get_set_eq by lia. lia.
    + rewrite get_set_ne in * by lia. auto.
Qed.

(** Storing a completion into a pending slot keeps the invariant, also while
    the worker is inside [Acquire]. *)
Lemma complete_wf held t ok p : is_token t -> pool_wf held p -> pool_wf held (Complete t ok p).
Proof.
  intros Ht W. unfold Complete. destruct (Z.eqb_spec t 0); [done|].
  rewrite Pending_eq, Done_eq by done. pose proof (Index_range t) as Hi.
  destruct (Z.eq_dec (get p.(states_) (Index t)) (4 * t)) as [E|E];
    [rewrite cas_hit by done|by rewrite cas_miss]. simpl. set (i := Index t) in *.
  destruct W. constructor; simpl; auto.
  - by rewrite length_set.
  - intros j Hj. destruct (Z.eq_dec j i) as [->|Hne].
    + rewrite get_set_eq by lia. rewrite <- (wf_free_iff0 i Hj). destruct ok; unfold is_token in Ht; lia.
    + rewrite get_set_ne by lia. by apply wf_free_iff0.
  - intros j Hj Hs. destruct (Z.eq_dec j i) as [->|Hne].
    + rewrite get_set_eq in * by lia. destruct (wf_live0 i Hj) as (Hg & s & Hsr & Es); [unfold is_token in Ht; lia|].
      split; [done|]. exists (if ok then 1 else 2). split; [destruct ok; lia|]. destruct ok; lia.
    + rewrite get_set_ne in * by lia. auto.
Qed.

(** Clearing a live slot and pushing it on the free stack. *)
Lemma release_wf i p :
  pool_wf [] p -> 0 <= i < 256 -> get p.(states_) i <> 0 ->
  pool_wf [] (Release (with_states p (set p.(states_) i 0)) i) /\
  (Release (with_states p (set p.(states_) i 0)) i).(freeCount_) = p.(freeCount_) + 1.
Proof.
  intros W Hi Hs. pose proof (free_list_length _ _ W) as Hlen. pose proof W as W'. destruct W'.
  assert (Hni : i ∉ free_list p) by (rewrite <- (app_nil_l (free_list p)), <- wf_free_iff0; done).
  assert (Hc : p.(freeCount_) < 256).
  { assert (Hsub : NoDup (i :: free_list p)) by (apply NoDup_cons; auto).
    assert (Hin : forall x, x ∈ i :: free_list p -> x ∈ (Z.of_nat <$> seq 0 256)).
    { intros x Hx. apply list_elem_of_fmap. exists (Z.to_nat x).
      assert (0 <= x < 256).
      { apply elem_of_cons in Hx as [->|Hx]; [done|].
        rewrite app_nil_l, Forall_forall in wf_slots0. auto. }
      split; [lia|apply elem_of_seq; lia]. }
    assert (length (i :: free_list p) <= length (Z.of_nat <$> seq 0 256))%nat as Hle.
    { apply submseteq_length, NoDup_submseteq; auto. }
    rewrite length_fmap, length_seq in Hle. simpl in Hle. lia. }
  unfold Release, with_states. simpl. rewrite u32_small by lia.
  assert (Hfl : free_list (mk_pool (set p.(states_) i 0) p.(generations_)
      (set p.(freeSlots_) p.(freeCount_) i) (p.(freeCount_) + 1)) = free_list p ++ [i]).
  { unfold free_list, set. simpl.
    replace (Z.to_nat (p.(freeCount_) + 1)) with (S (Z.to_nat p.(freeCount_))) by lia.
    erewrite take_S_r by (apply list_lookup_insert_eq; lia).
    by rewrite take_insert_ge by lia. }
  split; [|done]. constructor; simpl; auto.
  - by rewrite length_set.
  - by rewrite length_set.
  - lia.
  - rewrite Hfl. apply NoDup_app. split; [done|]. split; [set_solver|apply NoDup_singleton].
  - rewrite Hfl. apply Forall_app. split; [done|]. by apply Forall_singleton.
  - intros j Hj. rewrite Hfl. destruct (Z.eq_dec j i) as [->|Hne].
    + rewrite get_set_eq by lia. split; [|done]. intros _. set_solver.
    + rewrite get_set_ne by lia. rewrite (wf_free_iff0 j Hj). set_solver.
  - intros j Hj Hsj. destruct (Z.eq_dec j i) as [->|Hne].
    + by rewrite get_set_eq in Hsj by lia.
    + rewrite get_set_ne in * by lia. auto.
Qed.

(** ** The live events after each step *)

Lemma live_write p i v t :
  0 <= i < 256 -> length p.(states_) = 256%nat ->
  live (with_states p (set p.(states_) i v)) t =
    if decide (t mod 256 = i)
    then (if decide (t <> 0 /\ v / 4 = t) then Some (status_of v) else None)
    else live p t.
Proof.
  intros Hi Hl. unfold live. simpl. pose proof (Z.mod_pos_bound t 256 ltac:(lia)).
  destruct (decide (t mod 256 = i)) as [E|E].
  - rewrite E, get_set_eq by lia. destruct (Z.eqb_spec t 0), (Z.eqb_spec (v / 4) t);
      case_decide; naive_solver.
  - by rewrite get_set_ne by lia.
Qed.

(** A live token is the token of the current generation of its slot. *)
Lemma live_Some held p t st :
  pool_wf held p -> live p t = Some st ->
  let i := t mod 256 in
  t = get p.(generations_) i * 256 + i /\ 0 < get p.(generations_) i /\ is_token t /\
  get p.(states_) i <> 0 /\ exists s, 0 <= s <= 2 /\ get p.(states_) i = 4 * t + s /\
  st = (if s =? 0 then SPending else SDone (s =? 1)).
Proof.
  intros W H i. unfold live in H. destruct (Z.eqb_spec t 0); [done|].
  fold i in H. destruct (Z.eqb_spec (get p.(states_) i / 4) t) as [E|]; [|done].
  assert (Hi : 0 <= i < 256) by (apply Z.mod_pos_bound; lia).
  assert (Hs : get p.(states_) i <> 0) by (intros E0; rewrite E0, Z.div_0_l in E by lia; lia).
  destruct (wf_live _ _ W i Hi Hs) as (Hg & s & Hsr & Es).
  pose proof (wf_gen_range _ _ W i Hi).
  assert (Et : t = get p.(generations_) i * 256 + i).
  { rewrite <- E, Es. dlia. }
  split; [done|]. split; [done|]. split; [unfold is_token; lia|]. split; [done|].
  exists s. split; [done|]. rewrite <- Et in Es. split; [done|].
  injection H as <-. unfold status_of. rewrite Es.
  by replace ((4 * t + s) mod 4) with s by dlia.
Qed.

(** Conversely the state word of a live token. *)
Lemma live_pending p t :
  is_token t -> t <> 0 -> get p.(states_) (t mod 256) = 4 * t -> live p t = Some SPending.
Proof.
  intros Ht H0 E. unfold live. apply Z.eqb_neq in H0. rewrite H0, E.
  rewrite Z.mul_comm, Z.div_mul by lia. rewrite Z.eqb_refl.
  unfold status_of. by rewrite Z.mod_mul by lia.
Qed.

Lemma live_done p t (ok : bool) :
  is_token t -> t <> 0 -> get p.(states_) (t mod 256) = 4 * t + (if ok then 1 else 2) ->
  live p t = Some (SDone ok).
Proof.
  intros Ht H0 E. unfold live. apply Z.eqb_neq in H0. rewrite H0, E.
  assert (Hd : (4 * t + (if ok then 1 else 2)) / 4 = t) by (destruct ok; dlia).
  assert (Hm : (4 * t + (if ok then 1 else 2)) mod 4 = if ok then 1 else 2) by (destruct ok; dlia).
  rewrite Hd, Z.eqb_refl. unfold status_of. rewrite Hm. by destruct ok.
Qed.

Lemma live_zero_slot p i t :
  get p.(states_) i = 0 -> t mod 256 = i -> live p t = None.
Proof.
  intros H E. unfold live. rewrite E, H, Z.div_0_l by lia. destruct (Z.eqb_spec t 0); [done|].
  destruct (Z.eqb_spec 0 t); [lia|done].
Qed.

(** The live events after the compare-exchange of [Acquire]. *)
Lemma acquire_commit_live i t p :
  pool_wf [i] p -> 0 < get p.(generations_) i -> t = get p.(generations_) i * 256 + i ->
  t <> 0 /\ is_token t /\ live p t = None /\
  forall t', live (with_states p (set p.(states_) i (4 * t))) t' =
    if decide (t = t') then Some SPending else live p t'.
Proof.
  intros W Hg Et.
  assert (Hi : 0 <= i < 256) by (pose proof (wf_slots _ _ W) as Hf; by apply Forall_cons_1 in Hf as [? _]).
  assert (H0 : get p.(states_) i = 0) by (apply W; [done|set_solver]).
  assert (Hm : t mod 256 = i) by (rewrite Et, Z.add_comm, Z.mod_add, Z.mod_small; lia).
  pose proof (wf_gen_range _ _ W i Hi).
  split; [lia|]. split; [unfold is_token; lia|]. split; [by apply (live_zero_slot p i)|].
  intros t'. rewrite live_write by (done || apply W).
  destruct (decide (t = t')) as [<-|Hne].
  - rewrite Hm, decide_True by done. rewrite decide_True; [|split; [lia|dlia]].
    unfold status_of. by replace (4 * t mod 4) with 0 by dlia.
  - destruct (decide (t' mod 256 = i)) as [Em|Em]; [|done].
    rewrite decide_False by (intros [_ E4]; apply Hne; dlia).
    symmetry. by apply (live_zero_slot p i).
Qed.

(** [Complete] on the live events. *)
Lemma complete_live held p t ok t' :
  is_token t -> pool_wf held p ->
  live (Complete t ok p) t' =
    if decide (t' = t /\ live p t = Some SPending) then Some (SDone ok) else live p t'.
Proof.
  intros Ht W. unfold Complete. destruct (Z.eqb_spec t 0) as [->|H0].
  { rewrite decide_False; [done|]. unfold live. simpl. naive_solver. }
  rewrite Pending_eq, Done_eq, Index_eq by done.
  pose proof (Z.mod_pos_bound t 256 ltac:(lia)) as Hm.
  destruct (Z.eq_dec (get p.(states_) (t mod 256)) (4 * t)) as [E|E].
  - rewrite cas_hit by done. simpl. rewrite live_write by (done || apply W).
    pose proof (live_pending p t Ht H0 E) as Hl.
    assert (Hd : (4 * t + (if ok then 1 else 2)) / 4 = t) by (destruct ok; dlia).
    assert (Hmod : (4 * t + (if ok then 1 else 2)) mod 4 = if ok then 1 else 2) by (destruct ok; dlia).
    assert (Hst : status_of (4 * t + (if ok then 1 else 2)) = SDone ok)
      by (unfold status_of; rewrite Hmod; by destruct ok).
    destruct (decide (t' mod 256 = t mod 256)) as [Em|Em].
    + rewrite Hd, Hst. destruct (decide (t' = t)) as [->|Hne].
      * rewrite !decide_True by done. done.
      * rewrite (decide_False (P := t' = t /\ _)) by naive_solver.
        rewrite decide_False by naive_solver. symmetry.
        unfold live. rewrite Em, E. rewrite Z.mul_comm, Z.div_mul by lia.
        destruct (Z.eqb_spec t' 0); [done|]. destruct (Z.eqb_spec t t'); [congruence|done].
    + rewrite decide_False; [done|]. naive_solver.
  - rewrite cas_miss by done. simpl. rewrite decide_False; [done|].
    intros [-> Hl]. destruct (live_Some _ _ _ _ W Hl) as (_ & _ & _ & _ & s & Hs & Es & Est).
    destruct (Z.eqb_spec s 0); [lia|done].
Qed.

(** Consuming the event of token [t] (the common tail of [Probe] and
    [Abort]). *)
Lemma consume_spec p t st :
  pool_wf [] p -> live p t = Some st ->
  let p' := Release (with_states p (set p.(states_) (Index t) 0)) (Index t) in
  pool_wf [] p' /\ p'.(freeCount_) = p.(freeCount_) + 1 /\
  p'.(generations_) = p.(generations_) /\
  forall t', live p' t' = if decide (t' = t) then None else live p t'.
Proof.
  intros W Hl p'. destruct (live_Some _ _ _ _ W Hl) as (Et & Hg & Ht & Hs & _).
  rewrite <- Index_eq in *. pose proof (Index_range t) as Hi.
  destruct (release_wf (Index t) p W Hi Hs) as [W' Hc].
  split; [done|]. split; [done|]. split; [done|]. intros t'.
  assert (Hw := live_write p (Index t) 0 t' Hi (wf_states _ _ W)).
  replace (live p' t') with (live (with_states p (set p.(states_) (Index t) 0)) t') by done.
  rewrite Hw. destruct (decide (t' mod 256 = Index t)) as [Em|Em].
  - rewrite decide_False by (rewrite Z.div_0_l by lia; lia).
    destruct (decide (t' = t)) as [->|Hne]; [done|].
    symmetry. destruct (live p t') as [st'|] eqn:El; [|done]. exfalso.
    destruct (live_Some _ _ _ _ W El) as (Et' & _). rewrite Em in Et'. congruence.
  - rewrite decide_False; [done|]. intros ->. by rewrite Index_eq in Em.
Qed.

Lemma probe_load_spec held p t :
  is_token t -> pool_wf held p ->
  probe_load t p = match live p t with
                   | Some (SDone ok) => Some (4 * t + (if ok then 1 else 2))
                   | _ => None
                   end.
Proof.
  intros Ht W. unfold probe_load. destruct (Z.eqb_spec t 0) as [->|H0]; [done|].
  rewrite !Done_eq, Index_eq by done. set (v := get p.(states_) (t mod 256)).
  destruct (Z.eqb_spec v (4 * t + 1)) as [E|E1]; simpl.
  { rewrite (live_done p t true) by done. by rewrite E. }
  destruct (Z.eqb_spec v (4 * t + 2)) as [E|E2]; simpl.
  { rewrite (live_done p t false) by done. by rewrite E. }
  destruct (live p t) as [st|] eqn:El; [|done].
  destruct (live_Some _ _ _ _ W El) as (_ & _ & _ & _ & s & Hs & Es & ->). fold v in Es.
  destruct (Z.eqb_spec s 0); [done|lia].
Qed.

Lemma probe_commit_spec p t ok :
  is_token t -> pool_wf [] p -> live p t = Some (SDone ok) ->
  probe_commit t (4 * t + (if ok then 1 else 2)) p =
    ((if ok then 1 else -1), Release (with_states p (set p.(states_) (Index t) 0)) (Index t)).
Proof.
  intros Ht W Hl. destruct (live_Some _ _ _ _ W Hl) as (_ & _ & _ & _ & s & Hs & Es & Est).
  unfold probe_commit. rewrite cas_hit.
  2:{ rewrite Index_eq, Es. destruct (Z.eqb_spec s 0); [done|]. injection Est as ->.
      destruct (Z.eqb_spec s 1); lia. }
  rewrite Done_eq by done. destruct ok; [by rewrite Z.eqb_refl|].
  destruct (Z.eqb_spec (4 * t + 2) (4 * t + 1)); [lia|done].
Qed.

Lemma abort_guard_live held p t :
  is_token t -> t <> 0 -> pool_wf held p ->
  abort_guard t (get p.(states_) (Index t)) = bool_decide (is_Some (live p t)).
Proof.
  intros Ht H0 W. unfold abort_guard, live. apply Z.eqb_neq in H0. rewrite H0, Index_eq.
  rewrite Z.shiftr_div_pow2 by lia. change (2 ^ 2) with 4.
  destruct (_ / 4 =? t); by rewrite bool_decide_decide.
Qed.

(** ** Specification *)

Record espec := mk_espec { ev : gmap Z status; room : Z }.

Definition spec_complete (t : Z) (ok : bool) (s : espec) : espec :=
  match s.(ev) !! t with
  | Some SPending => mk_espec (<[t := SDone ok]> s.(ev)) s.(room)
  | _ => s
  end.

Definition spec_consume (t : Z) (s : espec) : espec := mk_espec (delete t s.(ev)) (s.(room) + 1).

Definition spec_probe (t : Z) (s : espec) : Z * espec :=
  match s.(ev) !! t with
  | Some (SDone ok) => (if ok then 1 else -1, spec_consume t s)
  | _ => (0, s)
  end.

Definition spec_abort (t : Z) (s : espec) : bool * espec :=
  match s.(ev) !! t with
  | Some _ => (true, spec_consume t s)
  | None => (false, s)
  end.

(** [Acquire] fails exactly when there is no room, and otherwise picks some
    token that is not in use. *)
Inductive spec_acquire (s : espec) : bool -> Z -> espec -> Prop :=
| spec_full : s.(room) = 0 -> spec_acquire s false 0 s
| spec_fresh t :
    0 < s.(room) -> t <> 0 -> is_token t -> s.(ev) !! t = None ->
    spec_acquire s true t (mk_espec (<[t := SPending]> s.(ev)) (s.(room) - 1)).

Record refines (p : event_pool) (s : espec) : Prop := {
  ref_wf : pool_wf [] p;
  ref_live : forall t, live p t = s.(ev) !! t;
  ref_room : p.(freeCount_) = s.(room);
  ref_size : Z.of_nat (size s.(ev)) + s.(room) = kSlotCount;
}.

Lemma new_pool_refines : refines new_pool (mk_espec ∅ kSlotCount).
Proof.
  constructor; [apply new_pool_wf| |done|done].
  intros t. simpl ev. rewrite lookup_empty. destruct (live new_pool t) as [st|] eqn:E; [|done].
  destruct (live_Some _ _ _ _ new_pool_wf E) as (_ & _ & _ & Hs & _). exfalso. apply Hs.
  apply (wf_free_iff _ _ new_pool_wf); [apply Z.mod_pos_bound; lia|].
  assert (Hf : free_list new_pool = (fun i => 255 - Z.of_nat i) <$> seq 0 256) by (vm_compute; reflexivity).
  rewrite Hf, app_nil_l. pose proof (Z.mod_pos_bound t 256). apply list_elem_of_fmap.
  exists (Z.to_nat (255 - t mod 256)). split; [lia|]. apply elem_of_seq. lia.
Qed.

Lemma acquire_refines p s :
  refines p s ->
  let '(b, t, p') := Acquire p in exists s', spec_acquire s b t s' /\ refines p' s'.
Proof.
  intros [W HL HR HS]. unfold Acquire. destruct (Z.eq_dec p.(freeCount_) 0) as [E|E].
  { unfold acquire_prepare. rewrite E. simpl. exists s. split; [constructor; lia|by constructor]. }
  destruct (acquire_prepare_spec p W E) as (i & g & p' & -> & Hi & Hg & Hgi & _ & _ & Hst & Hc & W').
  destruct (acquire_commit_spec i (g * 256 + i) p' W') as [-> W'']; [lia|by rewrite Hgi|].
  destruct (acquire_commit_live i (g * 256 + i) p' W') as (H0 & Ht & Hn & Hl); [lia|by rewrite Hgi|].
  assert (HL' : forall t, live p' t = s.(ev) !! t) by (intros t; rewrite <- HL; unfold live; by rewrite Hst).
  pose proof (wf_count _ _ W). rewrite HL' in Hn. eexists. split; [apply spec_fresh; eauto; lia|].
  constructor; simpl; [done| |lia|rewrite map_size_insert_None by done; lia].
  intros t'. by rewrite Hl, lookup_insert, HL'.
Qed.

Lemma complete_refines p s t ok :
  is_token t -> refines p s -> refines (Complete t ok p) (spec_complete t ok s).
Proof.
  intros Ht [W HL HR HS]. pose proof (complete_wf [] t ok p Ht W) as W'.
  assert (Hfc : (Complete t ok p).(freeCount_) = p.(freeCount_)).
  { unfold Complete. destruct (t =? 0); [done|]. unfold cas. by destruct (_ =? _). }
  unfold spec_complete. rewrite <- HL.
  destruct (live p t) as [[|ok']|] eqn:E; constructor; simpl; try done; try lia; try congruence.
  all: try (intros t'; rewrite (complete_live [] p t ok t' Ht W), E).
  - rewrite lookup_insert, <- HL. repeat case_decide; naive_solver.
  - rewrite map_size_insert_Some; [done|]. rewrite <- HL. eauto.
  - rewrite decide_False; [apply HL|naive_solver].
  - rewrite decide_False; [apply HL|naive_solver].
Qed.

Lemma consume_refines p s t st :
  refines p s -> live p t = Some st ->
  refines (Release (with_states p (set p.(states_) (Index t) 0)) (Index t)) (spec_consume t s).
Proof.
  intros [W HL HR HS] El. destruct (consume_spec p t st W El) as (W' & Hc & _ & Hl).
  constructor; simpl; [done| |simpl in Hc; lia|].
  - intros t'. rewrite Hl, lookup_delete, HL. repeat case_decide; congruence.
  - rewrite HL in El. rewrite map_size_delete_Some by eauto.
    assert (size (ev s) <> 0%nat) by (apply map_size_ne_0_lookup; eauto). lia.
Qed.

Lemma probe_refines p s t :
  is_token t -> refines p s ->
  fst (Probe t p) = fst (spec_probe t s) /\ refines (snd (Probe t p)) (snd (spec_probe t s)).
Proof.
  intros Ht R. pose proof (ref_wf _ _ R) as W. unfold Probe, spec_probe.
  rewrite (probe_load_spec [] p t Ht W), <- (ref_live _ _ R).
  destruct (live p t) as [[|ok]|] eqn:E; [done| |done].
  rewrite (probe_commit_spec p t ok Ht W E). split; [done|]. by apply consume_refines with (st := SDone ok).
Qed.

Lemma abort_refines p s t :
  is_token t -> refines p s ->
  fst (Abort t p) = fst (spec_abort t s) /\ refines (snd (Abort t p)) (snd (spec_abort t s)).
Proof.
  intros Ht R. pose proof (ref_wf _ _ R) as W. unfold Abort, spec_abort. rewrite <- (ref_live _ _ R).
  destruct (Z.eqb_spec t 0) as [->|H0]; [done|].
  rewrite (abort_guard_live [] p t Ht H0 W).
  destruct (live p t) as [st|] eqn:E.
  - rewrite bool_decide_eq_true_2 by eauto. unfold abort_commit. rewrite cas_hit by done.
    split; [done|]. by apply consume_refines with (st := st).
  - by rewrite bool_decide_eq_false_2 by (intros [? ?]; done).
Qed.

(** each call of the slot pool, run alone, implements the bounded set of
    events it stands for: [Acquire] fails exactly when no slot is left and
    otherwise hands out a token that names no live event; [Complete] turns a
    pending event into a completed one and ignores every other token;
    [Probe] consumes a completed event and tells how it ended; [Abort]
    consumes a live event; [Available] is the number of slots left. *)
Theorem pool_refines_spec p s t ok :
  is_token t -> refines p s ->
  (let '(b, t', p') := Acquire p in exists s', spec_acquire s b t' s' /\ refines p' s') /\
  refines (Complete t ok p) (spec_complete t ok s) /\
  (fst (Probe t p) = fst (spec_probe t s) /\ refines (snd (Probe t p)) (snd (spec_probe t s))) /\
  (fst (Abort t p) = fst (spec_abort t s) /\ refines (snd (Abort t p)) (snd (spec_abort t s))) /\
  Available p = s.(room).
Proof.
  intros Ht R. split; [by apply acquire_refines|]. split; [by apply complete_refines|].
  split; [by apply probe_refines|]. split; [by apply abort_refines|]. apply R.
Qed.

Lemma pool_refines_spec_witness :
  Available new_pool = 256 /\
  (let '(b, t', p') := Acquire new_pool in
   exists s', spec_acquire (mk_espec ∅ kSlotCount) b t' s' /\ refines p' s').
Proof.
  destruct (pool_refines_spec new_pool (mk_espec ∅ kSlotCount) 256 true) as (Ha & _ & _ & _ & Hr).
  - unfold is_token. lia.
  - apply new_pool_refines.
  - split; [exact Hr|exact Ha].
Defined.

(** ** Two threads

    The worker's program counter inside a call, and one action per atomic
    operation.  The plain accesses to [generations_], [freeSlots_] and
    [freeCount_] belong to the worker alone and go with the atomic operation
    next to them. *)

Inductive wpc :=
| WIdle
| WAcq (index token : Z)
| WProbe (token value : Z)
| WAbort (token value : Z).

Inductive action :=
| AcqBegin
| AcqCas
| ProbeLoad (t : Z)
| ProbeCas
| AbortLoad (t : Z)
| AbortCas (spurious : bool)
| PollComplete (t : Z) (ok : bool).

#[global] Instance action_eq_dec : EqDecision action.
Proof. solve_decision. Defined.

(** What a call returned (or, for [Complete], that it took effect). *)
Inductive event :=
| EvAcquired (t : Z)
| EvFull
| EvRefused
| EvProbed (t r : Z)
| EvAborted (t : Z) (b : bool)
| EvCompleted (t : Z) (ok : bool).

Record conc := mk_conc { pool : event_pool; pc : wpc }.

(** The state after [Abort] has seen [value]: in the loop body, or returning
    [false]. *)
Definition abort_loop (t value : Z) (p : event_pool) : conc * option event :=
  if abort_guard t value then (mk_conc p (WAbort t value), None)
  else (mk_conc p WIdle, Some (EvAborted t false)).

Definition exec (a : action) (c : conc) : option (conc * option event) :=
  let p := c.(pool) in
  match a, c.(pc) with
  | AcqBegin, WIdle =>
      Some match acquire_prepare p with
           | None => (c, Some EvFull)
           | Some (index, token, p') => (mk_conc p' (WAcq index token), None)
           end
  | AcqCas, WAcq index token =>
      let '(b, t, p') := acquire_commit index token p in
      Some (mk_conc p' WIdle, Some (if b : bool then EvAcquired t else EvRefused))
  | ProbeLoad t, WIdle =>
      Some match probe_load t p with
           | None => (c, Some (EvProbed t 0))
           | Some value => (mk_conc p (WProbe t value), None)
           end
  | ProbeCas, WProbe t value =>
      let '(r, p') := probe_commit t value p in
      Some (mk_conc p' WIdle, Some (EvProbed t r))
  | AbortLoad t, WIdle =>
      Some (if t =? 0 then (c, Some (EvAborted t false))
            else abort_loop t (get p.(states_) (Index t)) p)
  | AbortCas spurious, WAbort t value =>
      Some match abort_commit spurious t value p with
           | inr p' => (mk_conc p' WIdle, Some (EvAborted t true))
           | inl value' => abort_loop t value' p
           end
  | PollComplete t ok, _ =>
      Some (mk_conc (Complete t ok p) c.(pc), Some (EvCompleted t ok))
  | _, _ => None
  end.

(** A run of actions and the events it shows, oldest first. *)
Fixpoint run (l : list action) (c : conc) : option (conc * list event) :=
  match l with
  | [] => Some (c, [])
  | a :: l =>
      '(c1, e) ← exec a c;
      '(c2, tr) ← run l c1;
      Some (c2, option_list e ++ tr)
  end.

Definition start : conc := mk_conc new_pool WIdle.

(** The tokens the actions name are 40 bits wide (the low part of a
    completion's [user_ctx]). *)
Definition action_ok (a : action) : Prop :=
  match a with
  | ProbeLoad t | AbortLoad t | PollComplete t _ => is_token t
  | _ => True
  end.

(** The events a sequential specification allows; there is no rule for
    [EvRefused]. *)
Inductive spec_step (s : espec) : event -> espec -> Prop :=
| spec_EvAcquired t s' : spec_acquire s true t s' -> spec_step s (EvAcquired t) s'
| spec_EvFull : spec_acquire s false 0 s -> spec_step s EvFull s
| spec_EvProbed t r s' : spec_probe t s = (r, s') -> spec_step s (EvProbed t r) s'
| spec_EvAborted t b s' : spec_abort t s = (b, s') -> spec_step s (EvAborted t b) s'
| spec_EvCompleted t ok : spec_step s (EvCompleted t ok) (spec_complete t ok s).

Inductive spec_trace : espec -> list event -> espec -> Prop :=
| spec_nil s : spec_trace s [] s
| spec_cons s e s1 tr s2 :
    spec_step s e s1 -> spec_trace s1 tr s2 -> spec_trace s (e :: tr) s2.

Definition spec0 : espec := mk_espec ∅ kSlotCount.

(** *** Simulation *)

Definition held (w : wpc) : list Z := match w with WAcq i _ => [i] | _ => [] end.

Definition pc_ok (p : event_pool) (w : wpc) : Prop :=
  match w with
  | WIdle => True
  | WAcq i t => 0 < get p.(generations_) i < 2 ^ 32 /\ t = get p.(generations_) i * 256 + i
  | WProbe t v => is_token t /\ exists ok, live p t = Some (SDone ok) /\ v = 4 * t + (if ok then 1 else 2)
  | WAbort t v => is_token t /\ t <> 0 /\ exists st, live p t = Some st /\
      (v = get p.(states_) (Index t) \/ (v = 4 * t /\ st <> SPending))
  end.

Record sim (c : conc) (s : espec) : Prop := {
  sim_wf : pool_wf (held c.(pc)) c.(pool);
  sim_live : forall t, live c.(pool) t = s.(ev) !! t;
  sim_room : c.(pool).(freeCount_) + Z.of_nat (length (held c.(pc))) = s.(room);
  sim_size : Z.of_nat (size s.(ev)) + s.(room) = kSlotCount;
  sim_pc : pc_ok c.(pool) c.(pc);
}.

(** Outside of calls the simulation is the refinement relation. *)
Lemma sim_idle p s : sim (mk_conc p WIdle) s <-> refines p s.
Proof.
  split; intros []; constructor; simpl in *; auto; lia.
Qed.

(** A completion of an event that is not pending does nothing. *)
Lemma complete_noop held p t ok :
  is_token t -> pool_wf held p -> live p t <> Some SPending -> Complete t ok p = p.
Proof.
  intros Ht W Hl. unfold Complete. destruct (Z.eqb_spec t 0); [done|].
  rewrite Pending_eq, Index_eq by done. destruct (Z.eq_dec (get p.(states_) (t mod 256)) (4 * t)) as [E|E].
  - by destruct Hl; apply live_pending.
  - by rewrite cas_miss.
Qed.

(** ... and a completion never touches the slot of another live event. *)
Lemma complete_keeps held p t st t' ok :
  is_token t' -> pool_wf held p -> live p t = Some st -> st <> SPending \/ t' <> t ->
  get (Complete t' ok p).(states_) (Index t) = get p.(states_) (Index t).
Proof.
  intros Ht W El Hor. destruct (decide (live p t' = Some SPending)) as [E|E];
    [|by rewrite (complete_noop held)].
  destruct (live_Some _ _ _ _ W El) as (Et & _). destruct (live_Some _ _ _ _ W E) as (Et' & _).
  assert (t' <> t) by naive_solver.
  assert (Hne : Index t' <> Index t) by (rewrite !Index_eq; congruence).
  pose proof (Index_range t). pose proof (Index_range t').
  unfold Complete. destruct (t' =? 0); [done|]. unfold cas. destruct (_ =? _); [|done].
  simpl. by rewrite get_set_ne by lia.
Qed.

Lemma complete_frame t ok p :
  (Complete t ok p).(freeCount_) = p.(freeCount_) /\ (Complete t ok p).(generations_) = p.(generations_).
Proof. unfold Complete. destruct (t =? 0); [done|]. unfold cas. by destruct (_ =? _). Qed.

(** The poll thread's step keeps what the worker knows inside its call. *)
Lemma complete_pc p w t ok :
  is_token t -> pool_wf (held w) p -> pc_ok p w -> pc_ok (Complete t ok p) w.
Proof.
  intros Ht W. destruct w as [|i t'|t' v|t' v]; simpl; [done| | |].
  - by rewrite (proj2 (complete_frame t ok p)).
  - intros (Ht' & ok' & El & Ev). split; [done|]. exists ok'. split; [|done].
    rewrite (complete_live [] p t ok t' Ht W). rewrite decide_False; [done|]. naive_solver.
  - intros (Ht' & H0 & st & El & Hv). split; [done|]. split; [done|].
    rewrite (complete_live [] p t ok t' Ht W). case_decide as E.
    + exists (SDone ok). split; [done|]. destruct E as [-> E]. right. split; [|done].
      destruct Hv as [->|[-> _]]; [|done]. rewrite Index_eq.
      destruct (live_Some _ _ _ _ W E) as (_ & _ & _ & _ & s & Hs & -> & Est).
      destruct (Z.eqb_spec s 0); [lia|done].
    + exists st. split; [done|]. destruct Hv as [->|Hv]; [left|by right].
      symmetry. destruct (decide (st = SPending)) as [->|].
      * apply (complete_keeps [] p t' SPending); auto. right. naive_solver.
      * apply (complete_keeps [] p t' st); auto.
Qed.

Lemma complete_sim c s t ok :
  is_token t -> sim c s -> sim (mk_conc (Complete t ok c.(pool)) c.(pc)) (spec_complete t ok s).
Proof.
  intros Ht [W HL HR HS HP].
  assert (room (spec_complete t ok s) = room s /\ size (ev (spec_complete t ok s)) = size (ev s)) as [Er Es].
  { unfold spec_complete. destruct (ev s !! t) as [[|]|] eqn:E; try done. simpl.
    by rewrite map_size_insert_Some by eauto. }
  constructor; simpl.
  - by apply complete_wf.
  - intros t'. rewrite (complete_live _ _ t ok t' Ht W). unfold spec_complete. rewrite !HL.
    destruct (ev s !! t) as [[|]|] eqn:E; simpl; rewrite ?lookup_insert; repeat case_decide; naive_solver.
  - rewrite (proj1 (complete_frame t ok _)). lia.
  - lia.
  - by apply complete_pc.
Qed.

(** What an action that shows [oe] and ends in [c'] has to satisfy. *)
Definition step_ok (s : espec) (c' : conc) (oe : option event) : Prop :=
  match oe with
  | None => sim c' s
  | Some e => exists s', spec_step s e s' /\ sim c' s'
  end.

Lemma step_ok_same s c' e : spec_step s e s -> sim c' s -> step_ok s c' (Some e).
Proof. simpl. eauto. Qed.

Lemma acq_begin_sim p s c' oe :
  refines p s -> exec AcqBegin (mk_conc p WIdle) = Some (c', oe) -> step_ok s c' oe.
Proof.
  intros R E. pose proof R as [W HL HR HS]. simpl in E.
  destruct (Z.eq_dec p.(freeCount_) 0) as [E0|E0].
  { unfold acquire_prepare in E. rewrite E0 in E. simpl in E. simplify_eq.
    apply step_ok_same; [do 2 constructor; lia|by apply sim_idle]. }
  destruct (acquire_prepare_spec p W E0) as (i & g & p' & E1 & Hi & Hg & Hgi & _ & _ & Hst & Hc & W').
  rewrite E1 in E. injection E as <- <-. constructor; simpl; [done| |lia|done|by rewrite Hgi].
  intros t. rewrite <- HL. unfold live. by rewrite Hst.
Qed.

Lemma acq_cas_sim p s i t c' oe :
  sim (mk_conc p (WAcq i t)) s -> exec AcqCas (mk_conc p (WAcq i t)) = Some (c', oe) ->
  step_ok s c' oe.
Proof.
  intros [W HL HR HS [Hg Et]] E. simpl in *.
  destruct (acquire_commit_spec i t p W) as [E1 W']; [lia|done|].
  rewrite E1 in E. injection E as <- <-.
  destruct (acquire_commit_live i t p W) as (H0 & Ht & Hn & Hl); [lia|done|].
  pose proof (wf_count _ _ W). rewrite HL in Hn. eexists. split; [constructor; apply spec_fresh; eauto; lia|].
  constructor; simpl; [done| |lia|rewrite map_size_insert_None by done; lia|done].
  intros t'. by rewrite Hl, lookup_insert, HL.
Qed.

Lemma probe_load_sim p s t c' oe :
  is_token t -> refines p s -> exec (ProbeLoad t) (mk_conc p WIdle) = Some (c', oe) ->
  step_ok s c' oe.
Proof.
  intros Ht R E. pose proof R as [W HL HR HS]. simpl in E.
  rewrite (probe_load_spec [] p t Ht W) in E.
  destruct (live p t) as [[|ok]|] eqn:El; injection E as <- <-.
  - apply step_ok_same; [|by apply sim_idle]. constructor. unfold spec_probe. by rewrite <- HL, El.
  - constructor; simpl; auto; [lia|]. eauto.
  - apply step_ok_same; [|by apply sim_idle]. constructor. unfold spec_probe. by rewrite <- HL, El.
Qed.

Lemma probe_cas_sim p s t v c' oe :
  sim (mk_conc p (WProbe t v)) s -> exec ProbeCas (mk_conc p (WProbe t v)) = Some (c', oe) ->
  step_ok s c' oe.
Proof.
  intros [W HL HR HS (Ht & ok & El & ->)] E. simpl in *.
  rewrite (probe_commit_spec p t ok Ht W El) in E. injection E as <- <-.
  exists (spec_consume t s). split.
  - constructor. unfold spec_probe. by rewrite <- HL, El.
  - apply sim_idle. apply consume_refines with (st := SDone ok); [|done]. constructor; auto; lia.
Qed.

(** The loop test of [Abort] on the slot's current value. *)
Lemma abort_loop_sim p s t c' oe :
  is_token t -> t <> 0 -> refines p s ->
  abort_loop t (get p.(states_) (Index t)) p = (c', oe) -> step_ok s c' oe.
Proof.
  intros Ht H0 R E. pose proof (ref_wf _ _ R) as W. unfold abort_loop in E.
  rewrite (abort_guard_live [] p t Ht H0 W) in E.
  destruct (live p t) as [st|] eqn:El.
  - rewrite bool_decide_eq_true_2 in E by eauto. destruct R as [_ HL HR HS]. injection E as <- <-.
    constructor; simpl; auto; [lia|]. eauto 8.
  - rewrite bool_decide_eq_false_2 in E by (by intros [? ?]). injection E as <- <-.
    apply step_ok_same; [|by apply sim_idle].
    constructor. unfold spec_abort. by rewrite <- (ref_live _ _ R), El.
Qed.

Lemma abort_load_sim p s t c' oe :
  is_token t -> refines p s -> exec (AbortLoad t) (mk_conc p WIdle) = Some (c', oe) ->
  step_ok s c' oe.
Proof.
  intros Ht R E. simpl in E. destruct (Z.eqb_spec t 0) as [->|H0].
  - injection E as <- <-. apply step_ok_same; [|by apply sim_idle]. constructor. unfold spec_abort.
    by rewrite <- (ref_live _ _ R).
  - injection E as E. by eapply abort_loop_sim.
Qed.

Lemma abort_cas_sim p s t v sp c' oe :
  sim (mk_conc p (WAbort t v)) s -> exec (AbortCas sp) (mk_conc p (WAbort t v)) = Some (c', oe) ->
  step_ok s c' oe.
Proof.
  intros [W HL HR HS (Ht & H0 & st & El & Hv)] E. simpl in *.
  assert (R : refines p s) by (constructor; auto; lia).
  unfold abort_commit in E. destruct sp; [injection E as E; by eapply abort_loop_sim|].
  destruct (Z.eq_dec (get p.(states_) (Index t)) v) as [Ev|Ev].
  - rewrite cas_hit in E by done. injection E as <- <-. exists (spec_consume t s). split.
    + constructor. unfold spec_abort. by rewrite <- HL, El.
    + apply sim_idle. by apply consume_refines with (st := st).
  - rewrite cas_miss in E by done. injection E as E. by eapply abort_loop_sim.
Qed.

#[local] Hint Resolve acq_begin_sim acq_cas_sim probe_load_sim probe_cas_sim abort_load_sim
  abort_cas_sim : kv.

(** Every action that is enabled either shows nothing and stays in the same
    abstract state, or shows an event the specification allows. *)
Lemma exec_sim a c s c' oe :
  action_ok a -> sim c s -> exec a c = Some (c', oe) -> step_ok s c' oe.
Proof.
  intros Ha S E. destruct c as [p w].
  destruct a as [| |t| |t|sp|t ok].
  7:{ injection E as <- <-. exists (spec_complete t ok s). split; [constructor|].
      by apply (complete_sim (mk_conc p w)). }
  all: destruct w; try done; try (apply sim_idle in S as R); eauto with kv.
Qed.

Lemma run_sim l : forall c s c' tr,
  Forall action_ok l -> sim c s -> run l c = Some (c', tr) ->
  exists s', spec_trace s tr s' /\ sim c' s'.
Proof.
  induction l as [|a l IH]; intros c s c' tr Hok S E.
  { simpl in E. simplify_eq. eauto using spec_nil. }
  apply Forall_cons in Hok as [Ha Hl]. simpl in E.
  destruct (exec a c) as [[c1 oe]|] eqn:Ee; [simpl in E|done].
  destruct (run l c1) as [[c2 tr']|] eqn:Er; simpl in E; [|done]. simplify_eq.
  pose proof (exec_sim _ _ _ _ _ Ha S Ee) as Hs. destruct oe as [e|]; simpl.
  - destruct Hs as (s1 & Hs & S1). destruct (IH _ _ _ _ Hl S1 Er) as (s2 & Ht & S2).
    eauto using spec_cons.
  - by apply (IH c1).
Qed.

Lemma start_sim : sim start spec0.
Proof. apply sim_idle, new_pool_refines. Qed.

(** *** Tokens are never reissued *)

Definition issued (tr : list event) : list Z :=
  omap (fun e => match e with EvAcquired t => Some t | _ => None end) tr.

(** The tokens whose event a [Probe] or an [Abort] took. *)
Definition consumed (tr : list event) : list Z :=
  omap (fun e => match e with
                 | EvProbed t r => if r =? 0 then None else Some t
                 | EvAborted t true => Some t
                 | _ => None
                 end) tr.

(** After [n] actions that issued [iss]: every generation is at most [n], and
    every issued token is of a generation the slot has reached (strictly
    passed, for the slot [Acquire] is busy with). *)
Record gens_ok (n : Z) (iss : list Z) (c : conc) : Prop := {
  gens_le : forall i, 0 <= i < 256 -> get c.(pool).(generations_) i <= n;
  gens_issued : forall t, t ∈ iss -> t / 256 <= get c.(pool).(generations_) (t mod 256);
  gens_busy : forall i t0, c.(pc) = WAcq i t0 -> forall t, t ∈ iss -> t mod 256 = i ->
    t / 256 < get c.(pool).(generations_) i;
  gens_nodup : NoDup iss;
}.

(** Steps other than the two halves of [Acquire] do not touch the
    generations. *)
Lemma exec_gens a c c' oe :
  exec a c = Some (c', oe) -> a <> AcqBegin -> c'.(pool).(generations_) = c.(pool).(generations_).
Proof.
  intros E Ha. destruct c as [p w].
  destruct a as [| |t| |t|sp|t ok], w as [|i t0|t0 v|t0 v]; simpl in *; try done.
  - unfold acquire_commit, cas in E. destruct (_ =? _); by simplify_eq.
  - destruct (probe_load t p); by simplify_eq.
  - unfold probe_commit, cas in E. destruct (_ =? _); by simplify_eq.
  - unfold abort_loop in E. repeat case_match; by simplify_eq.
  - unfold abort_commit, cas, abort_loop in E. repeat case_match; by simplify_eq.
  - simplify_eq. apply complete_frame.
  - simplify_eq. apply complete_frame.
  - simplify_eq. apply complete_frame.
  - simplify_eq. apply complete_frame.
Qed.

(** ... and neither issue a token nor leave the worker inside [Acquire] unless
    it was there. *)
Lemma exec_quiet a c c' oe :
  exec a c = Some (c', oe) -> a <> AcqBegin -> a <> AcqCas ->
  issued (option_list oe) = [] /\ forall i t, c'.(pc) = WAcq i t -> c.(pc) = WAcq i t.
Proof.
  intros E H1 H2. destruct c as [p w].
  destruct a as [| |t| |t|sp|t ok], w as [|i t0|t0 v|t0 v]; simpl in *; try done.
  all: unfold probe_commit, abort_commit, cas, abort_loop in E;
       repeat case_match; simplify_eq; simpl; auto; naive_solver.
Qed.

Lemma token_split g i : 0 <= i < 256 -> (g * 256 + i) / 256 = g /\ (g * 256 + i) mod 256 = i.
Proof.
  intros. rewrite Z.add_comm, Z.mod_add, Z.div_add, Z.mod_small, Z.div_small; lia.
Qed.

Lemma gens_acq_begin n iss p s c' oe :
  refines p s -> gens_ok n iss (mk_conc p WIdle) -> 0 <= n < 2 ^ 32 - 1 ->
  exec AcqBegin (mk_conc p WIdle) = Some (c', oe) -> gens_ok (n + 1) (iss ++ issued (option_list oe)) c'.
Proof.
  intros R [G1 G2 _ G4] Hn E. pose proof (ref_wf _ _ R) as W. simpl in *.
  destruct (Z.eq_dec p.(freeCount_) 0) as [E0|E0].
  { unfold acquire_prepare in E. rewrite E0 in E. simpl in E. simplify_eq. simpl. rewrite app_nil_r.
    constructor; simpl; auto; [|done]. intros i Hi. specialize (G1 i Hi). lia. }
  destruct (acquire_prepare_spec p W E0) as (i & g & p' & E1 & Hi & Hg & Hgi & Hnw & Ho & _ & _ & _).
  rewrite E1 in E. injection E as <- <-. simpl. rewrite app_nil_r.
  assert (Hg1 : g = get p.(generations_) i + 1) by (apply Hnw; specialize (G1 i Hi); lia).
  constructor; simpl; auto.
  - intros j Hj. specialize (G1 j Hj). destruct (Z.eq_dec j i) as [->|]; [lia|rewrite Ho by done; lia].
  - intros t Hin. specialize (G2 t Hin). pose proof (Z.mod_pos_bound t 256 ltac:(lia)).
    destruct (Z.eq_dec (t mod 256) i) as [Em|]; [rewrite Em in *; lia|rewrite Ho by done; lia].
  - intros ? ? [= <- <-] t Hin Em. specialize (G2 t Hin). rewrite Em in G2. lia.
Qed.

Lemma gens_acq_cas n iss p s i t c' oe :
  sim (mk_conc p (WAcq i t)) s -> gens_ok n iss (mk_conc p (WAcq i t)) ->
  exec AcqCas (mk_conc p (WAcq i t)) = Some (c', oe) -> gens_ok (n + 1) (iss ++ issued (option_list oe)) c'.
Proof.
  intros [W _ _ _ [Hg Et]] [G1 G2 G3 G4] E. simpl in *.
  assert (Hi : 0 <= i < 256) by (pose proof (wf_slots _ _ W) as Hf; by apply Forall_cons_1 in Hf as [? _]).
  destruct (acquire_commit_spec i t p W) as [E1 _]; [lia|done|].
  rewrite E1 in E. injection E as <- <-. simpl.
  destruct (token_split (get p.(generations_) i) i Hi) as [Hd Hm].
  constructor; simpl; try done.
  - intros j Hj. specialize (G1 j Hj). lia.
  - intros t' [Hin|Hin]%elem_of_app; [by apply G2|]. apply list_elem_of_singleton in Hin as ->.
    rewrite Et, Hd, Hm. lia.
  - apply NoDup_app. split; [done|]. split; [|apply NoDup_singleton].
    intros t' Hin Hin'. apply list_elem_of_singleton in Hin' as ->.
    specialize (G3 i t eq_refl t Hin). rewrite Et, Hd, Hm in G3. lia.
Qed.

Lemma exec_gens_ok n iss a c s c' oe :
  action_ok a -> sim c s -> gens_ok n iss c -> 0 <= n < 2 ^ 32 - 1 ->
  exec a c = Some (c', oe) -> gens_ok (n + 1) (iss ++ issued (option_list oe)) c'.
Proof.
  intros Ha S G Hn E. destruct c as [p w].
  destruct (decide (a = AcqBegin)) as [->|H1].
  { destruct w; try done. eapply gens_acq_begin; eauto. by apply sim_idle. }
  destruct (decide (a = AcqCas)) as [->|H2].
  { destruct w; try done. by eapply gens_acq_cas. }
  destruct (exec_quiet _ _ _ _ E H1 H2) as [-> Hpc]. rewrite app_nil_r.
  pose proof (exec_gens _ _ _ _ E H1) as Eg. destruct G as [G1 G2 G3 G4].
  constructor; rewrite ?Eg; eauto. intros i Hi. specialize (G1 i Hi). lia.
Qed.

Lemma run_gens_ok l : forall n iss c s c' tr,
  Forall action_ok l -> sim c s -> gens_ok n iss c -> 0 <= n ->
  n + Z.of_nat (length l) < 2 ^ 32 -> run l c = Some (c', tr) ->
  gens_ok (n + Z.of_nat (length l)) (iss ++ issued tr) c'.
Proof.
  induction l as [|a l IH]; intros n iss c s c' tr Hok S G Hn Hl E.
  { simpl in E. simplify_eq. simpl. by rewrite app_nil_r, Z.add_0_r. }
  apply Forall_cons in Hok as [Ha Hok]. simpl in E, Hl.
  destruct (exec a c) as [[c1 oe]|] eqn:Ee; [simpl in E|done].
  destruct (run l c1) as [[c2 tr']|] eqn:Er; simpl in E; [|done]. simplify_eq.
  pose proof (exec_gens_ok n iss _ _ _ _ _ Ha S G ltac:(lia) Ee) as G1.
  assert (exists s1, sim c1 s1) as [s1 S1].
  { pose proof (exec_sim _ _ _ _ _ Ha S Ee) as Hs. destruct oe; simpl in Hs; naive_solver. }
  specialize (IH (n + 1) _ c1 s1 _ _ Hok S1 G1 ltac:(lia) ltac:(lia) Er).
  unfold issued in *. rewrite omap_app, app_assoc.
  replace (n + Z.of_nat (length (a :: l))) with (n + 1 + Z.of_nat (length l)) by (simpl; lia).
  done.
Qed.

Lemma start_gens : gens_ok 0 [] start.
Proof.
  constructor; [|intros t Ht; by apply elem_of_nil in Ht|done|constructor].
  intros i Hi. change (get new_pool.(generations_) i <= 0). by rewrite new_pool_gens.
Qed.

(** What a trace from [s] to [s'] did with the events: each consumed at most
    once, only events that were live or issued, and what is live at the end
    is what was issued and not consumed. *)
Definition accounts (s : espec) (tr : list event) (s' : espec) : Prop :=
  NoDup (consumed tr) /\
  (forall t, t ∈ consumed tr -> is_Some (s.(ev) !! t) \/ t ∈ issued tr) /\
  forall t, is_Some (s'.(ev) !! t) <->
    (is_Some (s.(ev) !! t) \/ t ∈ issued tr) /\ t ∉ consumed tr.

Definition unused (s : espec) (tr : list event) : Prop :=
  NoDup (issued tr) /\ forall t, t ∈ issued tr -> s.(ev) !! t = None.

Lemma accounts_consume s t st e tr s2 :
  s.(ev) !! t = Some st -> issued (e :: tr) = issued tr -> consumed (e :: tr) = t :: consumed tr ->
  unused s (e :: tr) -> (unused (spec_consume t s) tr -> accounts (spec_consume t s) tr s2) ->
  accounts s (e :: tr) s2.
Proof.
  unfold accounts, unused. intros Et -> -> [Hnd Hf] IH.
  destruct IH as (I1 & I2 & I3); [split; [done|]; intros t' Ht'; simpl; rewrite lookup_delete; case_decide; auto|].
  assert (t ∉ issued tr) by (intros Hin; specialize (Hf t Hin); congruence).
  assert (Hd : forall t', is_Some (ev (spec_consume t s) !! t') <-> t' <> t /\ is_Some (ev s !! t')).
  { intros t'. simpl. rewrite lookup_delete. case_decide; [|naive_solver].
    split; [by intros [? ?]|naive_solver]. }
  split; [|split].
  - constructor; [|done]. intros Hin. destruct (I2 t Hin) as [Hx|?]; [|done]. apply Hd in Hx. naive_solver.
  - intros t' [->|Hin]%elem_of_cons; [eauto|]. destruct (I2 t' Hin) as [Hx|?]; [|by right].
    apply Hd in Hx. naive_solver.
  - intros t'. rewrite I3, Hd, not_elem_of_cons. destruct (decide (t' = t)); naive_solver.
Qed.

Lemma accounts_same s s1 e tr s2 :
  (forall t, is_Some (s1.(ev) !! t) <-> is_Some (s.(ev) !! t)) ->
  issued (e :: tr) = issued tr -> consumed (e :: tr) = consumed tr ->
  unused s (e :: tr) -> (unused s1 tr -> accounts s1 tr s2) -> accounts s (e :: tr) s2.
Proof.
  unfold accounts, unused. intros Hd -> -> [Hnd Hf] IH. destruct IH as (I1 & I2 & I3).
  - split; [done|]. intros t Ht. apply eq_None_not_Some. rewrite Hd. rewrite Hf by done. by intros [? ?].
  - split; [done|]. split; [|by intros; rewrite I3, Hd].
    intros t Ht. destruct (I2 t Ht) as [Hx|?]; [left; by apply Hd|by right].
Qed.

Lemma accounts_acquire s t r tr s2 :
  let s1 := mk_espec (<[t := SPending]> s.(ev)) r in
  unused s (EvAcquired t :: tr) -> (unused s1 tr -> accounts s1 tr s2) ->
  accounts s (EvAcquired t :: tr) s2.
Proof.
  unfold accounts, unused. simpl. intros [Hnd Hf] IH. apply NoDup_cons in Hnd as [Hni Hnd].
  destruct IH as (I1 & I2 & I3).
  { split; [done|]. intros t' Ht'. rewrite lookup_insert_ne by set_solver. apply Hf. set_solver. }
  assert (Hd : forall t', is_Some (<[t:=SPending]> (ev s) !! t') <-> t' = t \/ is_Some (ev s !! t')).
  { intros t'. rewrite lookup_insert. case_decide; naive_solver. }
  split; [done|]. split.
  - intros t' Ht'. destruct (I2 t' Ht') as [Hx|?]; [apply Hd in Hx|]; set_solver.
  - intros t'. rewrite I3, Hd. set_solver.
Qed.

Lemma spec_accounts s tr s' : spec_trace s tr s' -> unused s tr -> accounts s tr s'.
Proof.
  induction 1 as [s|s e s1 tr s2 Hs _ IH]; intros Hu.
  { split; [constructor|]. split; [intros t Ht; by apply elem_of_nil in Ht|]. intros t. set_solver. }
  destruct Hs as [t s1 Ha| Ha|t r s1 Hp|t b s1 Hb|t ok].
  - inversion Ha; subst. by eapply accounts_acquire.
  - by apply (accounts_same s s).
  - unfold spec_probe in Hp. destruct (ev s !! t) as [[|ok]|] eqn:Et; simplify_eq;
      try by apply (accounts_same s1 s1).
    apply (accounts_consume s t (SDone ok)); try done. by destruct ok.
  - unfold spec_abort in Hb. destruct (ev s !! t) as [st|] eqn:Et; simplify_eq;
      [by apply (accounts_consume s t st)|by apply (accounts_same s1 s1)].
  - apply (accounts_same s (spec_complete t ok s)); try done. intros t'. unfold spec_complete.
    destruct (ev s !! t) as [[|]|] eqn:Et; try done. simpl. rewrite lookup_insert.
    case_decide; [subst; naive_solver|done].
Qed.

(** *** The trace theorems *)

(** C1: linearizability.  However the atomic operations of the worker's calls
    and the poll thread's completions interleave (a weak compare-exchange may
    also fail by itself), the results the calls return are a run of the
    sequential specification in the order of their linearization points; in
    particular no compare-exchange of [Acquire] ever meets an occupied slot
    and no event is lost or taken twice.  Between calls the pool is again in
    the refinement relation. *)
Theorem pool_linearizable l c tr :
  Forall action_ok l -> run l start = Some (c, tr) ->
  exists s, spec_trace spec0 tr s /\ (c.(pc) = WIdle -> refines c.(pool) s).
Proof.
  intros Hok E. destruct (run_sim l start spec0 c tr Hok start_sim E) as (s & Ht & S).
  exists s. split; [done|]. destruct c as [p w]. simpl. intros ->. by apply sim_idle.
Qed.

(** The worker acquires, the poll thread completes while the worker is
    probing, an [Abort] of the consumed token fails. *)
Definition demo_actions : list action :=
  [AcqBegin; AcqCas; ProbeLoad 256; PollComplete 256 true; ProbeLoad 256;
   PollComplete 256 false; ProbeCas; AbortLoad 256; AcqBegin; PollComplete 256 true; AcqCas;
   AbortLoad 512; PollComplete 512 false; AbortCas false; AbortCas true; AbortCas false].

Definition demo_trace : list event :=
  [EvAcquired 256; EvProbed 256 0; EvCompleted 256 true; EvCompleted 256 false; EvProbed 256 1;
   EvAborted 256 false; EvCompleted 256 true; EvAcquired 512; EvCompleted 512 false;
   EvAborted 512 true].

Lemma demo_ok : Forall action_ok demo_actions.
Proof. repeat constructor; unfold is_token; lia. Qed.

Lemma demo_run : exists c, run demo_actions start = Some (c, demo_trace) /\ c.(pc) = WIdle.
Proof. eexists. split; vm_compute; reflexivity. Qed.

Lemma pool_linearizable_witness : exists s, spec_trace spec0 demo_trace s.
Proof.
  destruct demo_run as (c & E & _).
  destruct (pool_linearizable demo_actions c demo_trace demo_ok E) as (s & H & _). by exists s.
Defined.

(** C4: tokens are not reused.  In the first 2^32 - 1 atomic operations no
    token is handed out twice; every event is consumed (by [Probe] or by
    [Abort]) at most once and only if it was handed out; and the live events
    are exactly those handed out and not yet consumed. *)
Theorem pool_tokens_unique l c tr :
  Forall action_ok l -> Z.of_nat (length l) < 2 ^ 32 -> run l start = Some (c, tr) ->
  NoDup (issued tr) /\ NoDup (consumed tr) /\ (forall t, t ∈ consumed tr -> t ∈ issued tr) /\
  forall t, is_Some (live c.(pool) t) <-> t ∈ issued tr /\ t ∉ consumed tr.
Proof.
  intros Hok Hl E. destruct (run_sim l start spec0 c tr Hok start_sim E) as (s & Ht & S).
  pose proof (run_gens_ok l 0 [] start spec0 c tr Hok start_sim start_gens ltac:(lia) ltac:(lia) E) as [_ _ _ Hnd].
  destruct (spec_accounts _ _ _ Ht) as (I1 & I2 & I3); [split; [done|intros; apply lookup_empty]|].
  assert (Hno : forall t, ~ is_Some (ev spec0 !! t)) by (intros t [x Hx]; simpl in Hx; by rewrite lookup_empty in Hx).
  split; [done|]. split; [done|]. split; [intros t Hin; destruct (I2 t Hin); [by edestruct Hno|done]|].
  intros t. rewrite (sim_live _ _ S), I3. split; [|naive_solver].
  intros [[?|?] ?]; [by edestruct Hno|done].
Qed.

Lemma pool_tokens_unique_witness : NoDup (issued demo_trace) /\ consumed demo_trace = [256; 512].
Proof.
  destruct demo_run as (c & E & _).
  destruct (pool_tokens_unique demo_actions c demo_trace demo_ok ltac:(vm_compute; reflexivity) E) as (H & _).
  split; [exact H|reflexivity].
Defined.

(** a late completion hits nothing.  Once the event of a token was
    consumed, a completion that still carries the token leaves the whole pool
    as it is, also when the slot serves a newer event and whatever the worker
    is in the middle of. *)
Theorem pool_late_completion l c tr t ok :
  Forall action_ok l -> Z.of_nat (length l) < 2 ^ 32 -> run l start = Some (c, tr) ->
  is_token t -> t ∈ consumed tr ->
  exec (PollComplete t ok) c = Some (c, Some (EvCompleted t ok)).
Proof.
  intros Hok Hl E Hk Hc. destruct (run_sim l start spec0 c tr Hok start_sim E) as (s & Ht & S).
  pose proof (run_gens_ok l 0 [] start spec0 c tr Hok start_sim start_gens ltac:(lia) ltac:(lia) E) as [_ _ _ Hnd].
  destruct (spec_accounts _ _ _ Ht) as (_ & _ & I3); [split; [done|intros; apply lookup_empty]|].
  assert (Hn : live c.(pool) t <> Some SPending).
  { rewrite (sim_live _ _ S). intros Hp. destruct (proj1 (I3 t)) as [_ ?]; [by eexists|done]. }
  destruct c as [p w]. simpl. by rewrite (complete_noop _ p t ok Hk (sim_wf _ _ S) Hn).
Qed.

Lemma pool_late_completion_witness :
  exists c, run demo_actions start = Some (c, demo_trace) /\
    exec (PollComplete 256 true) c = Some (c, Some (EvCompleted 256 true)).
Proof.
  destruct demo_run as (c & E & _). exists c. split; [exact E|].
  apply (pool_late_completion demo_actions c demo_trace 256 true demo_ok).
  - vm_compute. reflexivity.
  - exact E.
  - unfold is_token. lia.
  - change (consumed demo_trace) with [256; 512]. left.
Defined.

(** Completions by the poll thread while the worker is inside [Abort] and the
    event is already done. *)
Lemma polls_keep polls : forall c c' tr t st,
  Forall (fun a => exists t ok, a = PollComplete t ok /\ is_token t) polls ->
  run polls c = Some (c', tr) -> pool_wf [] c.(pool) -> live c.(pool) t = Some st -> st <> SPending ->
  c'.(pc) = c.(pc) /\ pool_wf [] c'.(pool) /\ live c'.(pool) t = Some st /\
  get c'.(pool).(states_) (Index t) = get c.(pool).(states_) (Index t).
Proof.
  induction polls as [|a polls IH]; intros c c' tr t st Hp E W El Hst.
  { simpl in E. by simplify_eq. }
  apply Forall_cons in Hp as [(t' & ok & -> & Ht') Hp]. simpl in E.
  destruct (run polls _) as [[c2 tr']|] eqn:Er; simpl in E; [|done]. simplify_eq.
  destruct (IH _ _ _ t st Hp Er) as (I1 & I2 & I3 & I4); simpl; try done.
  - by apply complete_wf.
  - rewrite (complete_live [] _ t' ok t Ht' W). rewrite decide_False; [done|]. naive_solver.
  - simpl in *. rewrite (complete_keeps [] _ t st) in I4 by auto. done.
Qed.

(** [Abort] does not spin.  Inside its loop, a compare-exchange that does
    not fail by itself either takes the event or fails because the event was
    completed in the meantime; after such a failure the next one succeeds,
    however many completions arrive in between. *)
Theorem abort_terminates l c tr t v :
  Forall action_ok l -> run l start = Some (c, tr) -> c.(pc) = WAbort t v ->
  exists c1 e1, exec (AbortCas false) c = Some (c1, e1) /\
    ((c1.(pc) = WIdle /\ e1 = Some (EvAborted t true)) \/
     (e1 = None /\ live c1.(pool) t <> Some SPending /\
      forall polls c2 tr2,
        Forall (fun a => exists t ok, a = PollComplete t ok /\ is_token t) polls ->
        run polls c1 = Some (c2, tr2) ->
        exists p3, exec (AbortCas false) c2 = Some (mk_conc p3 WIdle, Some (EvAborted t true)))).
Proof.
  intros Hok E Hpc. destruct (run_sim l start spec0 c tr Hok start_sim E) as (s & _ & S).
  destruct c as [p w]. simpl in Hpc. subst w. destruct S as [W _ _ _ (Ht & H0 & st & El & Hv)]. simpl in *.
  unfold abort_commit. destruct (Z.eq_dec (get p.(states_) (Index t)) v) as [Ev|Ev].
  { rewrite cas_hit by done. do 2 eexists. split; [done|]. by left. }
  rewrite cas_miss by done. destruct Hv as [->|[-> Hst]]; [done|].
  unfold abort_loop. rewrite (abort_guard_live [] p t Ht H0 W), bool_decide_eq_true_2 by eauto.
  do 2 eexists. split; [done|]. right. split; [done|]. split; [simpl; congruence|].
  intros polls c2 tr2 Hp Er.
  destruct (polls_keep polls _ _ _ t st Hp Er W El Hst) as (I1 & I2 & I3 & I4).
  destruct c2 as [p2 w2]. simpl in *. subst w2. unfold abort_commit. rewrite cas_hit by done. eauto.
Qed.

(** The worker loaded a pending state, then the completion arrived. *)
Lemma abort_terminates_witness :
  exists c, run [AcqBegin; AcqCas; AbortLoad 256; PollComplete 256 true] start
              = Some (c, [EvAcquired 256; EvCompleted 256 true]) /\
    exists c1 e1, exec (AbortCas false) c = Some (c1, e1).
Proof.
  assert (exists c, run [AcqBegin; AcqCas; AbortLoad 256; PollComplete 256 true] start
              = Some (c, [EvAcquired 256; EvCompleted 256 true]) /\ c.(pc) = WAbort 256 1024)
    as (c & E & Hpc) by (eexists; split; vm_compute; reflexivity).
  exists c. split; [exact E|].
  destruct (abort_terminates [AcqBegin; AcqCas; AbortLoad 256; PollComplete 256 true] c _ 256 1024
    ltac:(repeat constructor; unfold is_token; lia) E Hpc)
    as (c1 & e1 & H & _). by exists c1, e1.
Defined.
