(* ===== verification/SendLane.v ===== *)
(** * SendLane: the pool of send jettys of [src/urma/urma_send_lane.h]

    A [shared_ptr<UrmaJetty>] is the address it holds (0 is [nullptr]).  The
    four members of [SendJettyPool] are kept as they are: the vector of
    jettys, the deque of idle indices, the vector of flags and the map from
    address to index.  Every method runs under the pool's mutex, so a history
    of the pool is a sequence of calls.  An access outside a vector is
    undefined behaviour in C++ and [None] here; the invariant rules it out.

    The pool implements a FIFO queue of idle lanes over a set of members
    ([lane_spec]); the exclusive use of a lane is a theorem on histories. *)

From S2P Require Import Prelude.
From stdpp Require Import list.
#[local] Open Scope Z_scope.

(** ** State *)

Definition nullptr : Z := 0.

Record lane_pool := mk_lanes {
  jettys_ : list Z;
  idleIndices_ : list nat;
  isIdle_ : list bool;
  jettyIndices_ : gmap Z nat;
}.

Definition empty_lanes : lane_pool := mk_lanes [] [] [] ∅.

Record Stats := mk_stats { poolSize : nat; idleCount : nat; inUseCount : nat }.

(** ** Operations *)

Definition Clear (p : lane_pool) : lane_pool := empty_lanes.

Definition Add (jetty : Z) (p : lane_pool) : lane_pool :=
  let index := length p.(jettys_) in
  mk_lanes (p.(jettys_) ++ [jetty]) (p.(idleIndices_) ++ [index]) (p.(isIdle_) ++ [true])
    (<[jetty := index]> p.(jettyIndices_)).

(** The loop of [PopIdle]: indices taken from the front of the deque until one
    names an idle jetty. *)
Fixpoint pop_idle_loop (jettys : list Z) (flags : list bool) (idle : list nat)
    : option (option Z * list nat * list bool) :=
  match idle with
  | [] => Some (None, [], flags)
  | idx :: rest =>
      if (length jettys <=? idx)%nat then pop_idle_loop jettys flags rest
      else
        f ← flags !! idx;
        if negb f then pop_idle_loop jettys flags rest
        else j ← jettys !! idx; Some (Some j, rest, <[idx := false]> flags)
  end.

(** The jetty taken ([None] when the pool is exhausted). *)
Definition PopIdle (p : lane_pool) : option (option Z * lane_pool) :=
  '(r, idle, flags) ← pop_idle_loop p.(jettys_) p.(isIdle_) p.(idleIndices_);
  Some (r, mk_lanes p.(jettys_) idle flags p.(jettyIndices_)).

Definition Release (jetty : Z) (p : lane_pool) : option lane_pool :=
  if jetty =? nullptr then Some p
  else match (p.(jettyIndices_) !! jetty : option nat) with
       | None => Some p
       | Some i =>
           f ← (p.(isIdle_) !! i : option bool);
           if (f : bool) then Some p
           else Some (mk_lanes p.(jettys_) (p.(idleIndices_) ++ [i]) (<[i := true]> p.(isIdle_))
                        p.(jettyIndices_))
       end.

(** [Remove]: drop the index from the deque, move the last jetty into the hole
    (the moved-from [shared_ptr] is null until [pop_back]), rename its index. *)
Definition Remove (jetty : Z) (p : lane_pool) : option (bool * lane_pool) :=
  match (p.(jettyIndices_) !! jetty : option nat) with
  | None => Some (false, p)
  | Some index =>
      let lastIndex := (length p.(jettys_) - 1)%nat in
      let idle := filter (fun i => i <> index) p.(idleIndices_) in
      let indices := delete jetty p.(jettyIndices_) in
      if decide (index = lastIndex) then
        Some (true, mk_lanes (take lastIndex p.(jettys_)) idle (take lastIndex p.(isIdle_)) indices)
      else
        moved ← (p.(jettys_) !! lastIndex : option Z);
        flag ← (p.(isIdle_) !! lastIndex : option bool);
        let jettys := <[lastIndex := nullptr]> (<[index := moved]> p.(jettys_)) in
        let flags := <[index := flag]> p.(isIdle_) in
        let idle := (fun i => if decide (i = lastIndex) then index else i) <$> idle in
        Some (true, mk_lanes (take lastIndex jettys) idle (take lastIndex flags)
                      (<[moved := index]> indices))
  end.

Definition GetStats (p : lane_pool) : Stats :=
  let ps := length p.(jettys_) in
  let ic := length p.(idleIndices_) in
  mk_stats ps ic (if (ic <? ps)%nat then ps - ic else 0)%nat.

Definition At (index : nat) (p : lane_pool) : Z := default nullptr (p.(jettys_) !! index).

(** ** Invariant *)

Record lanes_wf (p : lane_pool) : Prop := {
  lw_flags : length p.(isIdle_) = length p.(jettys_);
  lw_nodup : NoDup p.(jettys_);
  lw_nonnull : nullptr ∉ p.(jettys_);
  lw_index : forall j i, p.(jettyIndices_) !! j = Some i <-> p.(jettys_) !! i = Some j;
  lw_idle_nodup : NoDup p.(idleIndices_);
  lw_idle : forall i, i ∈ p.(idleIndices_) <-> p.(isIdle_) !! i = Some true;
}.

(** ** Specification: a queue of idle members *)

Record lane_spec := mk_lspec { queue : list Z; members : gset Z }.

Definition spec_Add (j : Z) (s : lane_spec) : lane_spec :=
  mk_lspec (s.(queue) ++ [j]) ({[j]} ∪ s.(members)).

Definition spec_PopIdle (s : lane_spec) : option Z * lane_spec :=
  match s.(queue) with
  | [] => (None, s)
  | j :: q => (Some j, mk_lspec q s.(members))
  end.

Definition spec_Release (j : Z) (s : lane_spec) : lane_spec :=
  if decide (j ∈ s.(members) /\ j ∉ s.(queue)) then mk_lspec (s.(queue) ++ [j]) s.(members) else s.

Definition spec_Remove (j : Z) (s : lane_spec) : bool * lane_spec :=
  if decide (j ∈ s.(members))
  then (true, mk_lspec (filter (fun x => x <> j) s.(queue)) (s.(members) ∖ {[j]}))
  else (false, s).

(** The queue is the deque read through the vector. *)
Record implements (p : lane_pool) (s : lane_spec) : Prop := {
  im_wf : lanes_wf p;
  im_queue : Forall2 (fun i j => p.(jettys_) !! i = Some j) p.(idleIndices_) s.(queue);
  im_members : forall j, j ∈ s.(members) <-> j ∈ p.(jettys_);
}.

(** *** What the invariant gives *)

Lemma idle_lt p i : lanes_wf p -> i ∈ p.(idleIndices_) -> (i < length p.(jettys_))%nat.
Proof.
  intros W Hi. apply (lw_idle _ W) in Hi. apply lookup_lt_Some in Hi.
  by rewrite (lw_flags _ W) in Hi.
Qed.

Lemma wf_inj p i i' j :
  lanes_wf p -> p.(jettys_) !! i = Some j -> p.(jettys_) !! i' = Some j -> i = i'.
Proof. intros W. apply NoDup_lookup, W. Qed.

Lemma queue_elem p s i j :
  implements p s -> p.(jettys_) !! i = Some j -> j ∈ s.(queue) <-> i ∈ p.(idleIndices_).
Proof.
  intros [W Q _] Hj. split; intros Hin.
  - apply list_elem_of_lookup in Hin as [k Hk].
    destruct (Forall2_lookup_r _ _ _ _ _ Q Hk) as (i' & Hi' & Hj').
    rewrite (wf_inj p i i' j W Hj Hj'). by eapply list_elem_of_lookup_2.
  - apply list_elem_of_lookup in Hin as [k Hk].
    destruct (Forall2_lookup_l _ _ _ _ _ Q Hk) as (j' & Hj' & Hi').
    assert (j = j') as -> by congruence. by eapply list_elem_of_lookup_2.
Qed.

Lemma queue_member p s j : implements p s -> j ∈ s.(queue) -> j ∈ s.(members).
Proof.
  intros [W Q M] Hin. apply list_elem_of_lookup in Hin as [k Hk].
  destruct (Forall2_lookup_r _ _ _ _ _ Q Hk) as (i' & Hi' & Hj').
  apply M. by eapply list_elem_of_lookup_2.
Qed.

Lemma indices_member p s j :
  implements p s -> j ∈ s.(members) <-> exists i, p.(jettyIndices_) !! j = Some i.
Proof.
  intros [W _ M]. rewrite M. rewrite list_elem_of_lookup.
  split; intros [i Hi]; exists i; by apply (lw_index _ W).
Qed.

Lemma empty_implements : implements empty_lanes (mk_lspec [] ∅).
Proof.
  constructor; simpl; [|constructor|set_solver].
  constructor; simpl; try done; try constructor; try set_solver.
Qed.

(** *** Each operation *)

Lemma Add_implements p s j :
  implements p s -> j <> nullptr -> j ∉ s.(members) -> implements (Add j p) (spec_Add j s).
Proof.
  intros R Hn Hf. pose proof R as [W Q M]. pose proof W as [F N NN I IN ID].
  assert (Hj : j ∉ p.(jettys_)) by (by rewrite <- M).
  constructor; simpl.
  - constructor; simpl.
    + rewrite !length_app. simpl. lia.
    + apply NoDup_app. split; [done|]. split; [set_solver|apply NoDup_singleton].
    + set_solver.
    + intros j' i. rewrite lookup_insert, lookup_app. destruct (decide (j = j')) as [<-|Hne].
      * split.
        -- intros [= <-]. rewrite lookup_ge_None_2 by lia. by rewrite Nat.sub_diag.
        -- destruct (p.(jettys_) !! i) eqn:E; [intros [= ->]; by apply list_elem_of_lookup_2 in E|].
           apply lookup_ge_None in E. intros H. f_equal.
           apply lookup_lt_Some in H as H'. simpl in H'. lia.
      * rewrite I. destruct (p.(jettys_) !! i) eqn:E; [done|].
        split; [done|]. intros H. apply list_elem_of_lookup_2 in H. set_solver.
    + apply NoDup_app. split; [done|]. split; [|apply NoDup_singleton].
      intros i Hi%(idle_lt p i W). set_unfold. lia.
    + intros i. rewrite elem_of_app, list_elem_of_singleton, lookup_app, ID.
      destruct (p.(isIdle_) !! i) eqn:E.
      * split; [|by left]. intros [?| ->]; [done|]. apply lookup_lt_Some in E. lia.
      * apply lookup_ge_None in E. split.
        -- intros [?| ->]; [done|]. by rewrite F, Nat.sub_diag.
        -- intros H. right. apply lookup_lt_Some in H as H'. simpl in H'. lia.
  - apply Forall2_app.
    + eapply Forall2_impl; [exact Q|]. intros i x H. by apply lookup_app_l_Some.
    + constructor; [|constructor]. by apply list_lookup_middle.
  - intros x. rewrite elem_of_union, elem_of_app, M. set_solver.
Qed.

(** A deque of valid idle indices is popped at its front at once. *)
Lemma pop_front jettys flags i rest :
  (i < length jettys)%nat -> flags !! i = Some true ->
  pop_idle_loop jettys flags (i :: rest) =
    Some (jettys !! i, rest, <[i := false]> flags).
Proof.
  intros Hi Hf. simpl. destruct (Nat.leb_spec (length jettys) i); [lia|].
  rewrite Hf. simpl. destruct (lookup_lt_is_Some_2 jettys i Hi) as [x Hx]. by rewrite Hx.
Qed.

Lemma PopIdle_implements p s :
  implements p s ->
  exists p', PopIdle p = Some (fst (spec_PopIdle s), p') /\ implements p' (snd (spec_PopIdle s)).
Proof.
  intros R. pose proof R as [W Q M]. pose proof W as [F N NN I IN ID].
  unfold PopIdle, spec_PopIdle. destruct p as [js idle fs ix], s as [q0 ms]. simpl in *.
  destruct Q as [|i j rest q Hj Q]; [by eexists|].
  assert (Hf : fs !! i = Some true) by (apply ID; set_solver).
  rewrite pop_front by (done || by eapply lookup_lt_Some).
  rewrite Hj. simpl. eexists. split; [done|]. apply NoDup_cons in IN as [Hni IN].
  constructor; simpl; [|done|done].
  constructor; simpl; auto; [by rewrite length_insert|].
  intros k. destruct (decide (i = k)) as [<-|Hne].
  - rewrite list_lookup_insert_eq by (by eapply lookup_lt_Some). naive_solver.
  - rewrite list_lookup_insert_ne, <- ID, elem_of_cons by done. naive_solver.
Qed.

Lemma Release_implements p s j :
  implements p s -> exists p', Release j p = Some p' /\ implements p' (spec_Release j s).
Proof.
  intros R. pose proof R as [W Q M]. pose proof W as [F N NN I IN ID].
  unfold Release, spec_Release. destruct (Z.eqb_spec j nullptr) as [->|Hn].
  { exists p. split; [done|]. rewrite decide_False; [done|]. rewrite M. naive_solver. }
  destruct (p.(jettyIndices_) !! j) as [i|] eqn:Ei.
  2:{ exists p. split; [done|]. rewrite decide_False; [done|].
      rewrite (indices_member p s j R). intros [[i Hi] _]. congruence. }
  assert (Hj : p.(jettys_) !! i = Some j) by (by apply I).
  assert (Hm : j ∈ s.(members)) by (apply (indices_member p s j R); eauto).
  pose proof (queue_elem p s i j R Hj) as Hq.
  destruct (lookup_lt_is_Some_2 p.(isIdle_) i) as [f Hf]; [rewrite F; by eapply lookup_lt_Some|].
  rewrite Hf. simpl. destruct f.
  { exists p. split; [done|]. rewrite decide_False; [done|]. rewrite Hq, ID. naive_solver. }
  assert (Hni : i ∉ p.(idleIndices_)) by (rewrite ID; congruence).
  eexists. split; [done|]. rewrite decide_True by (by rewrite Hq).
  constructor; simpl; [|apply Forall2_app; [done|by repeat constructor]|done].
  constructor; simpl; auto; [by rewrite length_insert| |].
  - apply NoDup_app. split; [done|]. split; [set_solver|apply NoDup_singleton].
  - intros k. destruct (decide (i = k)) as [<-|Hne].
    + rewrite list_lookup_insert_eq by (by eapply lookup_lt_Some). set_solver.
    + rewrite list_lookup_insert_ne, <- ID by done. set_solver.
Qed.

(** *** [Remove]: the last entry moves into the hole *)

Definition renumber (index last i : nat) : nat := if decide (i = last) then index else i.

(** What [pop_back] leaves after the move, entry by entry. *)
Lemma swap_out_lookup {A} (l : list A) index m k x :
  let last := (length l - 1)%nat in
  (index < length l)%nat -> l !! last = Some m ->
  take last (<[index := m]> l) !! k = Some x <->
    exists i, i <> index /\ renumber index last i = k /\ l !! i = Some x.
Proof.
  intros last Hi Hm. unfold renumber. rewrite lookup_take_Some. split.
  - intros [H Hk]. destruct (decide (k = index)) as [->|Hne].
    + rewrite list_lookup_insert_eq in H by done. simplify_eq.
      exists last. split; [lia|]. by rewrite decide_True.
    + rewrite list_lookup_insert_ne in H by done. exists k. rewrite decide_False by lia. auto.
  - intros (i & Hne & Hk & Hx). apply lookup_lt_Some in Hx as Hlt.
    destruct (decide (i = last)) as [->|Hil].
    + subst k. rewrite Hm in Hx. simplify_eq. rewrite list_lookup_insert_eq by done.
      split; [done|]. lia.
    + subst k. rewrite list_lookup_insert_ne by done. split; [done|lia].
Qed.

Lemma renumber_inj index last i i' :
  i <> index -> i' <> index -> renumber index last i = renumber index last i' -> i = i'.
Proof. unfold renumber. intros. repeat case_decide; congruence. Qed.

Lemma filter_Forall2 {A B} (R : A -> B -> Prop) (P : A -> Prop) (Q : B -> Prop)
    `{forall x, Decision (P x), forall x, Decision (Q x)} l l' :
  Forall2 R l l' -> (forall x y, R x y -> P x <-> Q y) ->
  Forall2 (fun x y => R x y /\ P x) (filter P l) (filter Q l').
Proof.
  intros HR HPQ. induction HR as [|x y l l' Hxy _ IH]; [constructor|].
  rewrite !filter_cons. specialize (HPQ x y Hxy). repeat case_decide; try tauto. by constructor.
Qed.

(** Both branches of [Remove] at once. *)
Lemma Remove_eq p j index :
  lanes_wf p -> p.(jettyIndices_) !! j = Some index ->
  let last := (length p.(jettys_) - 1)%nat in
  exists m f, p.(jettys_) !! last = Some m /\ p.(isIdle_) !! last = Some f /\
  Remove j p = Some (true, mk_lanes
    (take last (<[index := m]> p.(jettys_)))
    (renumber index last <$> filter (fun i => i <> index) p.(idleIndices_))
    (take last (<[index := f]> p.(isIdle_)))
    (if decide (index = last) then delete j p.(jettyIndices_)
     else <[m := index]> (delete j p.(jettyIndices_)))).
Proof.
  intros W Ei last. pose proof W as [F N NN I IN ID].
  assert (Hj : p.(jettys_) !! index = Some j) by (by apply I).
  assert (Hlt : (index < length p.(jettys_))%nat) by (by eapply lookup_lt_Some).
  destruct (lookup_lt_is_Some_2 p.(jettys_) last) as [m Hm]; [lia|].
  destruct (lookup_lt_is_Some_2 p.(isIdle_) last) as [f Hf]; [lia|].
  exists m, f. split; [done|]. split; [done|]. unfold Remove. rewrite Ei. fold last.
  destruct (decide (index = last)) as [El|El].
  - rewrite !list_insert_id by congruence. do 3 f_equal.
    rewrite <- (list_fmap_id (filter _ _)) at 1. apply list_fmap_ext. intros k i Hk. simpl.
    apply list_elem_of_lookup_2 in Hk. apply list_elem_of_filter in Hk as [Hk _].
    unfold renumber. case_decide; congruence.
  - rewrite Hm, Hf. simpl. by rewrite take_insert_ge.
Qed.

(** The entries after [Remove], and that the address map follows them. *)
Section removed.
Context (p : lane_pool) (j : Z) (index : nat) (m : Z).
Let last := (length p.(jettys_) - 1)%nat.
Context (W : lanes_wf p) (Ei : p.(jettyIndices_) !! j = Some index)
  (Hm : p.(jettys_) !! last = Some m).

Lemma removed_lookup k x :
  take last (<[index := m]> p.(jettys_)) !! k = Some x <->
  exists i, i <> index /\ renumber index last i = k /\ p.(jettys_) !! i = Some x.
Proof.
  apply swap_out_lookup; [|done]. eapply lookup_lt_Some. by apply (lw_index _ W).
Qed.

Lemma removed_indices j' k :
  (if decide (index = last) then delete j p.(jettyIndices_)
   else <[m := index]> (delete j p.(jettyIndices_))) !! j' = Some k <->
  exists i, i <> index /\ renumber index last i = k /\ p.(jettyIndices_) !! j' = Some i.
Proof.
  assert (Hinj : forall j1 j2 i, p.(jettyIndices_) !! j1 = Some i -> p.(jettyIndices_) !! j2 = Some i -> j1 = j2).
  { intros j1 j2 i H1%(lw_index _ W) H2%(lw_index _ W). congruence. }
  assert (Hmi : p.(jettyIndices_) !! m = Some last) by (by apply (lw_index _ W)).
  unfold renumber. destruct (decide (index = last)) as [El|El].
  - rewrite lookup_delete_Some. split.
    + intros [Hne Hk]. exists k. assert (k <> index) by naive_solver.
      rewrite decide_False by congruence. auto.
    + intros (i & Hne & Hk & Hx). rewrite decide_False in Hk by congruence. subst i.
      split; [|done]. intros <-. congruence.
  - rewrite lookup_insert. destruct (decide (m = j')) as [<-|Hne].
    + split; [intros [= <-]; exists last; by rewrite decide_True|].
      intros (i & Hi & Hk & Hx). rewrite Hmi in Hx. simplify_eq. by rewrite decide_True.
    + rewrite lookup_delete_Some. split.
      * intros [Hne' Hk]. exists k. assert (k <> index) by naive_solver.
        rewrite decide_False by naive_solver. auto.
      * intros (i & Hi & Hk & Hx). rewrite decide_False in Hk by naive_solver.
        subst i. split; [|done]. intros <-. congruence.
Qed.

Lemma removed_wf f :
  p.(isIdle_) !! last = Some f ->
  lanes_wf (mk_lanes (take last (<[index := m]> p.(jettys_)))
    (renumber index last <$> filter (fun i => i <> index) p.(idleIndices_))
    (take last (<[index := f]> p.(isIdle_)))
    (if decide (index = last) then delete j p.(jettyIndices_)
     else <[m := index]> (delete j p.(jettyIndices_)))).
Proof.
  intros Hf. pose proof W as [F N NN I IN ID].
  assert (Hlt : (index < length p.(jettys_))%nat) by (eapply lookup_lt_Some; by apply I).
  constructor; simpl.
  - rewrite !length_take, !length_insert. lia.
  - apply NoDup_alt. intros k1 k2 x (i1 & H1 & <- & E1)%removed_lookup (i2 & H2 & <- & E2)%removed_lookup.
    by rewrite (wf_inj p i1 i2 x W E1 E2).
  - intros (k & Hk)%list_elem_of_lookup. apply removed_lookup in Hk as (i & _ & _ & Hx).
    apply NN. by eapply list_elem_of_lookup_2.
  - intros j' k. rewrite removed_lookup, removed_indices. by setoid_rewrite I.
  - apply NoDup_fmap_2_strong; [|by apply NoDup_filter].
    intros x y [Hx _]%list_elem_of_filter [Hy _]%list_elem_of_filter. by apply renumber_inj.
  - intros k. rewrite list_elem_of_fmap. setoid_rewrite list_elem_of_filter. setoid_rewrite ID.
    assert (HF := swap_out_lookup p.(isIdle_) index f k true). rewrite F in HF. fold last in HF.
    rewrite HF by done. naive_solver.
Qed.
End removed.

Lemma Remove_implements p s j :
  implements p s ->
  exists p', Remove j p = Some (fst (spec_Remove j s), p') /\ implements p' (snd (spec_Remove j s)).
Proof.
  intros R. pose proof R as [W Q M]. unfold spec_Remove.
  pose proof (indices_member p s j R) as Hmem.
  destruct (p.(jettyIndices_) !! j) as [index|] eqn:Ei.
  2:{ exists p. rewrite decide_False by (rewrite Hmem; naive_solver). unfold Remove. by rewrite Ei. }
  rewrite decide_True by (apply Hmem; eauto). assert (Hj : p.(jettys_) !! index = Some j) by (by apply (lw_index _ W)).
  destruct (Remove_eq p j index W Ei) as (m & f & Hm & Hf & ->).
  eexists. split; [done|]. constructor; simpl; [by eapply removed_wf| |].
  - apply Forall2_fmap_l. eapply Forall2_impl; [eapply (filter_Forall2 _ _ (fun x => x <> j)); [exact Q|]|].
    + intros i x Hx. simpl. split; [|naive_solver].
      intros Hi ->. by apply Hi, (wf_inj p i index j W).
    + intros i x [Hx Hi]. simpl. apply (removed_lookup p j); eauto.
  - intros x. rewrite elem_of_difference, elem_of_singleton, M, !list_elem_of_lookup.
    setoid_rewrite (removed_lookup p j index m W Ei Hm). split.
    + intros [[i Hi] Hne]. exists (renumber index (length p.(jettys_) - 1) i), i.
      split; [|done]. intros ->. congruence.
    + intros (k & i & Hi & _ & Hx). split; [by exists i|]. intros ->. by apply Hi, (wf_inj p i index j W).
Qed.

(** *** Counters *)

Lemma queue_length p s : implements p s -> length p.(idleIndices_) = length s.(queue).
Proof. intros [_ Q _]. by eapply Forall2_length. Qed.

Lemma queue_nodup p s : implements p s -> NoDup s.(queue).
Proof.
  intros R. pose proof R as [W Q _]. apply NoDup_alt. intros k1 k2 x H1 H2.
  destruct (Forall2_lookup_r _ _ _ _ _ Q H1) as (i1 & Hi1 & E1).
  destruct (Forall2_lookup_r _ _ _ _ _ Q H2) as (i2 & Hi2 & E2).
  rewrite (wf_inj p i1 i2 x W E1 E2) in Hi1. by eapply NoDup_lookup; [apply (lw_idle_nodup _ W)|..].
Qed.

Lemma members_size p s : implements p s -> size s.(members) = length p.(jettys_).
Proof.
  intros [W _ M]. rewrite <- (size_list_to_set (C := gset Z)) by apply W.
  f_equal. apply set_eq. intros x. rewrite elem_of_list_to_set. apply M.
Qed.

Lemma stats_spec p s :
  implements p s ->
  GetStats p = mk_stats (size s.(members)) (length s.(queue))
                 (size (s.(members) ∖ list_to_set s.(queue))).
Proof.
  intros R. unfold GetStats. rewrite (queue_length p s R), <- (members_size p s R).
  assert (Hsub : list_to_set s.(queue) ⊆ s.(members)).
  { intros x Hx. apply elem_of_list_to_set in Hx. by eapply queue_member. }
  pose proof (subseteq_size _ _ Hsub) as Hle.
  rewrite size_difference by done. rewrite size_list_to_set in * by (by eapply queue_nodup).
  f_equal. destruct (Nat.ltb_spec (length s.(queue)) (size s.(members))); lia.
Qed.

(** C23: the lane pool is a FIFO queue of idle members.  From every state that
    stands for a queue, each method accesses its vectors in range, returns
    what the queue returns and leaves a pool that stands for the new queue:
    [PopIdle] takes the lane that has been idle longest, [Release] puts a lane
    in use at the end and ignores unknown and idle ones, [Remove] (which moves
    the last jetty into the hole and renumbers it) drops one lane and keeps
    the order of the others; [GetStats] counts members, idle lanes and lanes
    in use. *)
Theorem lanes_refine_queue p s j :
  implements p s ->
  (j <> nullptr -> j ∉ s.(members) -> implements (Add j p) (spec_Add j s)) /\
  (exists p', PopIdle p = Some (fst (spec_PopIdle s), p') /\ implements p' (snd (spec_PopIdle s))) /\
  (exists p', Release j p = Some p' /\ implements p' (spec_Release j s)) /\
  (exists p', Remove j p = Some (fst (spec_Remove j s), p') /\ implements p' (snd (spec_Remove j s))) /\
  implements (Clear p) (mk_lspec [] ∅) /\
  GetStats p = mk_stats (size s.(members)) (length s.(queue))
                 (size (s.(members) ∖ list_to_set s.(queue))).
Proof.
  intros R. split; [by intros; apply Add_implements|]. split; [by apply PopIdle_implements|].
  split; [by apply Release_implements|]. split; [by apply Remove_implements|].
  split; [apply empty_implements|by apply stats_spec].
Qed.

Lemma lanes_refine_queue_witness : implements (Add 7 empty_lanes) (mk_lspec [7] ({[7]} ∪ ∅)).
Proof.
  apply (lanes_refine_queue empty_lanes (mk_lspec [] ∅) 7 empty_implements).
  - done.
  - simpl. set_solver.
Defined.

(** ** Histories *)

Inductive lane_op :=
| OpAdd (j : Z)
| OpPop
| OpRelease (j : Z)
| OpRemove (j : Z)
| OpClear.

(** One call: what [PopIdle] handed out ([None] for the other calls) and the
    pool after it. *)
Definition lane_exec (op : lane_op) (p : lane_pool) : option (option Z * lane_pool) :=
  match op with
  | OpAdd j => Some (None, Add j p)
  | OpPop => PopIdle p
  | OpRelease j => p' ← Release j p; Some (None, p')
  | OpRemove j => '(_, p') ← Remove j p; Some (None, p')
  | OpClear => Some (None, Clear p)
  end.

Definition spec_exec (op : lane_op) (s : lane_spec) : option Z * lane_spec :=
  match op with
  | OpAdd j => (None, spec_Add j s)
  | OpPop => spec_PopIdle s
  | OpRelease j => (None, spec_Release j s)
  | OpRemove j => (None, snd (spec_Remove j s))
  | OpClear => (None, mk_lspec [] ∅)
  end.

(** The only demand on callers: what they [Add] is a jetty the pool does not
    have yet. *)
Definition op_ok (op : lane_op) (p : lane_pool) : Prop :=
  match op with OpAdd j => j <> nullptr /\ j ∉ p.(jettys_) | _ => True end.

Inductive history : lane_pool -> list (lane_op * option Z) -> lane_pool -> Prop :=
| history_nil p : history p [] p
| history_cons p op r p1 tr p2 :
    op_ok op p -> lane_exec op p = Some (r, p1) -> history p1 tr p2 ->
    history p ((op, r) :: tr) p2.

Lemma exec_implements op p s :
  implements p s -> op_ok op p ->
  exists p', lane_exec op p = Some (fst (spec_exec op s), p') /\ implements p' (snd (spec_exec op s)).
Proof.
  intros R Hok. destruct op as [j| |j|j|]; simpl.
  - eexists. split; [done|]. apply Add_implements; [done|naive_solver|]. rewrite (im_members _ _ R). naive_solver.
  - by apply PopIdle_implements.
  - destruct (Release_implements p s j R) as (p' & -> & R'). by eexists.
  - destruct (Remove_implements p s j R) as (p' & -> & R'). by eexists.
  - eexists. split; [done|]. apply empty_implements.
Qed.

(** A history seen as a run of the queue. *)
Fixpoint spec_run (tr : list (lane_op * option Z)) (s : lane_spec) : Prop :=
  match tr with
  | [] => True
  | (op, r) :: tr => r = fst (spec_exec op s) /\ spec_run tr (snd (spec_exec op s))
  end.

Fixpoint spec_after (tr : list (lane_op * option Z)) (s : lane_spec) : lane_spec :=
  match tr with [] => s | (op, _) :: tr => spec_after tr (snd (spec_exec op s)) end.

Lemma history_spec p tr p' : history p tr p' -> forall s, implements p s ->
  spec_run tr s /\ implements p' (spec_after tr s).
Proof.
  induction 1 as [|p op r p1 tr p2 Hok E _ IH]; intros s R; [done|].
  destruct (exec_implements op p s R Hok) as (p1' & E' & R').
  rewrite E in E'. simplify_eq. simpl. destruct (IH _ R') as [I1 I2]. auto.
Qed.

Lemma spec_run_app tr1 : forall s tr2,
  spec_run (tr1 ++ tr2) s <-> spec_run tr1 s /\ spec_run tr2 (spec_after tr1 s).
Proof. induction tr1 as [|[op r] tr1 IH]; intros s tr2; simpl; [tauto|]. rewrite IH. tauto. Qed.

Lemma history_app_inv tr1 : forall p tr2 p',
  history p (tr1 ++ tr2) p' -> exists pm, history p tr1 pm /\ history pm tr2 p'.
Proof.
  induction tr1 as [|x tr1 IH]; intros p tr2 p' H; [by exists p; split; [constructor|]|].
  inversion H as [|? op r p1 ? ? Hok E H']; subst. destruct (IH _ _ _ H') as (pm & H1 & H2).
  exists pm. split; [by econstructor|done].
Qed.

(** A lane that is not idle stays so until it is released or added. *)
Lemma busy_stays tr : forall s j,
  j ∉ s.(queue) -> Forall (fun x => ~ (fst x = OpRelease j \/ fst x = OpAdd j)) tr ->
  j ∉ (spec_after tr s).(queue).
Proof.
  induction tr as [|[op r] tr IH]; intros s j Hj Hf; [done|].
  apply Forall_cons in Hf as [H1 Hf]. simpl in *. apply IH; [|done]. clear IH Hf.
  destruct op as [j'| |j'|j'|]; simpl.
  - rewrite elem_of_app, list_elem_of_singleton. naive_solver.
  - unfold spec_PopIdle. destruct (queue s) eqn:E; simpl; rewrite ?E in *; [done|]. set_solver.
  - unfold spec_Release. case_decide; simpl; [|done]. rewrite elem_of_app, list_elem_of_singleton. naive_solver.
  - unfold spec_Remove. case_decide; simpl; [|done]. rewrite list_elem_of_filter. tauto.
  - apply not_elem_of_nil.
Qed.

Lemma popped_not_idle p s j :
  implements p s -> Some j = fst (spec_PopIdle s) -> j ∉ (snd (spec_PopIdle s)).(queue).
Proof.
  intros R E. pose proof (queue_nodup p s R) as N. unfold spec_PopIdle in *.
  destruct (queue s) as [|x q]; simpl in *; [done|]. simplify_eq. by apply NoDup_cons in N as [? _].
Qed.

#[global] Instance lane_op_eq_dec : EqDecision lane_op.
Proof. solve_decision. Defined.

(** a lane has one user at a time.  In every history of the pool, between
    two times [PopIdle] hands out the same jetty somebody released it (or took
    it out and added it anew); and after every history each method still runs
    without an access out of range. *)
Theorem lanes_exclusive tr p :
  history empty_lanes tr p ->
  (forall op, op_ok op p -> is_Some (lane_exec op p)) /\
  forall j tr1 tr2 tr3, tr = tr1 ++ (OpPop, Some j) :: tr2 ++ (OpPop, Some j) :: tr3 ->
  Exists (fun x => fst x = OpRelease j \/ fst x = OpAdd j) tr2.
Proof.
  intros H. split.
  - intros op Hok. destruct (history_spec _ _ _ H _ empty_implements) as [_ R].
    destruct (exec_implements op p _ R Hok) as (p' & -> & _). by eexists.
  - intros j tr1 tr2 tr3 ->. apply history_app_inv in H as (p1 & H1 & H2).
    destruct (history_spec _ _ _ H1 _ empty_implements) as [_ R1].
    destruct (history_spec _ _ _ H2 _ R1) as [Hr _]. simpl in Hr. destruct Hr as [Ej Hr].
    apply spec_run_app in Hr as [_ [Ej' _]].
    destruct (decide (Exists (fun x => fst x = OpRelease j \/ fst x = OpAdd j) tr2)) as [|Hn]; [done|].
    exfalso. apply not_Exists_Forall in Hn; [|intros x; apply _].
    apply (busy_stays _ _ _ (popped_not_idle _ _ _ R1 Ej)) in Hn. apply Hn.
    simpl in Ej'. unfold spec_PopIdle in Ej' at 1. destruct (queue (spec_after tr2 _)); [done|].
    simpl in Ej'. simplify_eq. left.
Qed.

(** Two jettys, taken, one given back and taken again. *)
Definition demo_history : list (lane_op * option Z) :=
  [(OpAdd 11, None); (OpAdd 12, None); (OpPop, Some 11); (OpPop, Some 12); (OpPop, None);
   (OpRelease 11, None); (OpRelease 11, None); (OpPop, Some 11); (OpRemove 12, None)].

Lemma demo_history_run : exists p, history empty_lanes demo_history p.
Proof.
  eexists. repeat (econstructor; [simpl; first [exact I|split; [done|set_solver]]|vm_compute; reflexivity|]).
  constructor.
Qed.

Lemma lanes_exclusive_witness :
  Exists (fun x => fst x = OpRelease 11 \/ fst x = OpAdd 11)
    [(OpPop, Some 12); (OpPop, None); (OpRelease 11, None); (OpRelease 11, None)].
Proof.
  destruct demo_history_run as [p H].
  exact (proj2 (lanes_exclusive demo_history p H) 11
    [(OpAdd 11, None); (OpAdd 12, None)] [(OpPop, Some 12); (OpPop, None); (OpRelease 11, None); (OpRelease 11, None)]
    [(OpRemove 12, None)] eq_refl).
Defined.

(** *** Fairness *)

(** The results of the [PopIdle] calls of a history. *)
Definition pops (tr : list (lane_op * option Z)) : list (option Z) :=
  omap (fun x => match fst x with OpPop => Some (snd x) | _ => None end) tr.

Definition keeps_members (op : lane_op) : Prop :=
  match op with OpRemove _ | OpClear => False | _ => True end.

Lemma fifo_spec tr : forall s k j,
  spec_run tr s -> s.(queue) !! k = Some j -> Forall (fun x => keeps_members (fst x)) tr ->
  (k < length (pops tr))%nat -> pops tr !! k = Some (Some j).
Proof.
  induction tr as [|[op r] tr IH]; intros s k j Hr Hk Hf Hl; [simpl in Hl; lia|].
  apply Forall_cons in Hf as [Hop Hf]. simpl in Hr. destruct Hr as [-> Hr].
  destruct op as [j'| |j'|j'|]; simpl in *; try done.
  - apply (IH _ k j Hr); auto. simpl. by apply lookup_app_l_Some.
  - unfold spec_PopIdle in *. destruct (queue s) as [|x q] eqn:E; [done|]. simpl in *.
    destruct k as [|k]; simpl in *; [by simplify_eq|]. apply (IH _ k j Hr); auto. lia.
  - apply (IH _ k j Hr); auto. unfold spec_Release. case_decide; simpl; [|done].
    by apply lookup_app_l_Some.
Qed.

(** lanes rotate fairly.  A lane that has [k] idle lanes before it is
    handed out by the [k]-th [PopIdle] from now, whatever is released or added
    in the meantime. *)
Theorem lanes_fifo p s tr p' k j :
  implements p s -> history p tr p' -> s.(queue) !! k = Some j ->
  Forall (fun x => keeps_members (fst x)) tr -> (k < length (pops tr))%nat ->
  pops tr !! k = Some (Some j).
Proof.
  intros R H Hk Hf Hl. destruct (history_spec _ _ _ H _ R) as [Hr _]. by eapply fifo_spec.
Qed.

Lemma lanes_fifo_witness : pops [(OpPop, Some 11); (OpRelease 11, None); (OpPop, Some 12)] !! 1%nat = Some (Some 12).
Proof.
  assert (R : implements (Add 12 (Add 11 empty_lanes)) (spec_Add 12 (spec_Add 11 (mk_lspec [] ∅)))).
  { apply Add_implements; [|done|simpl; set_solver].
    apply Add_implements; [apply empty_implements|done|simpl; set_solver]. }
  eapply (lanes_fifo _ _ [(OpPop, Some 11); (OpRelease 11, None); (OpPop, Some 12)] _ 1 12 R).
  - repeat (econstructor; [exact I|vm_compute; reflexivity|]). constructor.
  - reflexivity.
  - repeat constructor.
  - simpl. lia.
Defined.
