(* ===== verification/UrmaEvents.v ===== *)
(** * UrmaEvents: worker registration and completion events of
      [src/urma/urma_manager.cpp]

    The part of [UrmaManager] between the workers and the poll thread:
    [RegisterWorker], [PostEvent], [WaitEvent], [ProbeEvent], [AbortEvent] on
    one side, the body of [PollThreadMain] with [CompleteEvent] on the other.
    Each call of the slot pool is atomic here (its linearizability is proved
    in EventSlotPool); what the poll thread delivers and what the clock reads
    between two calls is an input. *)

From S2P Require Import Prelude EventSlotPool.
From stdpp Require Import list.
#[local] Open Scope Z_scope.

(** ** State *)

Definition kMaxRegisteredWorkers : Z := 1024.
Definition kRidShift : Z := 40.
Definition kRidMask : Z := 2 ^ 40 - 1.

Record events := mk_events {
  workerSlots_ : list (option event_pool);
  workerCount_ : Z;
  pollStarted_ : bool;
}.

Definition no_events : events := mk_events (replicate (Z.to_nat kMaxRegisteredWorkers) None) 0 false.

(** [EnsurePollThread]; [spawned] tells whether the constructor of
    [std::thread] returned (it may throw). *)
Definition EnsurePollThread (spawned : bool) (m : events) : bool * events :=
  if m.(pollStarted_) then (true, m)
  else if spawned then (true, mk_events m.(workerSlots_) m.(workerCount_) true)
  else (false, m).

(** The new worker's id, or [None] when there are too many. *)
Definition RegisterWorker (spawned : bool) (m : events) : option Z * events :=
  let count := m.(workerCount_) in
  if kMaxRegisteredWorkers <=? count then (None, m)
  else
    let m1 := mk_events (<[Z.to_nat count := Some new_pool]> m.(workerSlots_)) (u32 (count + 1))
                m.(pollStarted_) in
    let m2 := if count =? 0 then snd (EnsurePollThread spawned m1) else m1 in
    (Some count, m2).

Definition GetEventSlots (workerId : Z) (m : events) : option event_pool :=
  if m.(workerCount_) <=? workerId then None
  else mjoin (m.(workerSlots_) !! Z.to_nat workerId).

(** Run a method of the worker's pool and store the pool back. *)
Definition put_slots (workerId : Z) (p : event_pool) (m : events) : events :=
  mk_events (<[Z.to_nat workerId := Some p]> m.(workerSlots_)) m.(workerCount_) m.(pollStarted_).

(** ** Worker side *)

(** Returns the user context and the event token; both 0 on failure. *)
Definition PostEvent (workerId : Z) (m : events) : Z * Z * events :=
  match GetEventSlots workerId m with
  | None => (0, 0, m)
  | Some slots =>
      let '(ok, token, slots') := Acquire slots in
      let m' := put_slots workerId slots' m in
      if ok : bool then (Z.lor (workerId <<u64 kRidShift) token, token, m') else (0, 0, m')
  end.

Definition ProbeEvent (workerId token : Z) (m : events) : Z * events :=
  match GetEventSlots workerId m with
  | None => (0, m)
  | Some slots => let '(r, slots') := Probe token slots in (r, put_slots workerId slots' m)
  end.

Definition AbortEvent (workerId token : Z) (m : events) : events :=
  match GetEventSlots workerId m with
  | None => m
  | Some slots => put_slots workerId (snd (Abort token slots)) m
  end.

(** ** Poll thread side *)

(** A completion record: [user_ctx] and whether [status] is
    [URMA_CR_SUCCESS]. *)
Record urma_cr := mk_cr { user_ctx : Z; success : bool }.

Definition CompleteEvent (workerId userCtx : Z) (ok : bool) (m : events) : events :=
  let eventToken := Z.land userCtx kRidMask in
  if negb (Z.shiftr userCtx kRidShift =? workerId) then m
  else match GetEventSlots workerId m with
       | None => m
       | Some slots => put_slots workerId (Complete eventToken ok slots) m
       end.

(** The loop of [PollThreadMain] over the records of one [urma_poll_jfc]. *)
Fixpoint poll_batch (crs : list urma_cr) (m : events) : events :=
  match crs with
  | [] => m
  | cr :: crs =>
      let wid := u32 (Z.shiftr cr.(user_ctx) kRidShift) in
      poll_batch crs (CompleteEvent wid cr.(user_ctx) cr.(success) m)
  end.

(** ** Waiting *)

(** What happens around one round of the loop of [WaitEvent]: the completions
    delivered before its [Probe], then the clock reading after it. *)
Definition round : Type := list urma_cr * Z.

(** The rounds until an event is consumed ([inl]) or the deadline has passed
    ([inr]: the loop left by [break]); [None] when the rounds run out. *)
Fixpoint wait_loop (workerId token deadline : Z) (rounds : list round) (m : events)
    : option (events * option bool) :=
  match rounds with
  | [] => None
  | (crs, now) :: rounds =>
      let '(result, m) := ProbeEvent workerId token (poll_batch crs m) in
      if negb (result =? 0) then Some (m, Some (result =? 1))
      else if deadline <=? now then Some (m, None)
      else wait_loop workerId token deadline rounds m
  end.

(** [WaitEvent]: [now0] is the clock at entry, [crs1] and [crs2] arrive before
    the last [Probe] and before the [Abort]. *)
Definition WaitEvent (workerId token timeoutMs now0 : Z) (rounds : list round)
    (crs1 crs2 : list urma_cr) (m : events) : option (bool * events) :=
  match GetEventSlots workerId m with
  | None => Some (false, m)
  | Some _ =>
      let deadline := now0 +u64 (u64 timeoutMs *u64 1000000) in
      '(m, r) ← wait_loop workerId token deadline rounds m;
      match r with
      | Some b => Some (b, m)
      | None =>
          let '(result, m) := ProbeEvent workerId token (poll_batch crs1 m) in
          if negb (result =? 0) then Some (result =? 1, m)
          else Some (false, AbortEvent workerId token (poll_batch crs2 m))
      end
  end.

(** ** Abstract view: one set of events per worker *)

Record events_ok (m : events) (ss : list espec) : Prop := {
  eo_len : length m.(workerSlots_) = Z.to_nat kMaxRegisteredWorkers;
  eo_count : m.(workerCount_) = Z.of_nat (length ss);
  eo_max : Z.of_nat (length ss) <= kMaxRegisteredWorkers;
  eo_slots : forall i s, ss !! i = Some s ->
    exists p, m.(workerSlots_) !! i = Some (Some p) /\ refines p s;
}.

Definition ctx_worker (uctx : Z) : Z := uctx / 2 ^ 40.
Definition ctx_token (uctx : Z) : Z := uctx mod 2 ^ 40.

(** A completion, seen by one worker. *)
Definition deliver1 (wid : nat) (s : espec) (cr : urma_cr) : espec :=
  if decide (ctx_worker cr.(user_ctx) = Z.of_nat wid)
  then spec_complete (ctx_token cr.(user_ctx)) cr.(success) s else s.

Definition deliver (wid : nat) (crs : list urma_cr) (s : espec) : espec :=
  foldl (deliver1 wid) s crs.

Definition crs_ok (crs : list urma_cr) : Prop := Forall (fun cr => is_u64 cr.(user_ctx)) crs.

Lemma no_events_ok : events_ok no_events [].
Proof. constructor; [done..|]. intros i s H. by rewrite lookup_nil in H. Qed.

Lemma slots_spec m ss (wid : nat) s :
  events_ok m ss -> ss !! wid = Some s ->
  exists p, GetEventSlots (Z.of_nat wid) m = Some p /\ refines p s.
Proof.
  intros [L C _ S] H. destruct (S wid s H) as (p & Hp & R). exists p. split; [|done].
  unfold GetEventSlots. apply lookup_lt_Some in H. rewrite C.
  destruct (Z.leb_spec (Z.of_nat (length ss)) (Z.of_nat wid)); [lia|].
  by rewrite Nat2Z.id, Hp.
Qed.

Lemma slots_None m ss wid :
  events_ok m ss -> Z.of_nat (length ss) <= wid -> GetEventSlots wid m = None.
Proof.
  intros [_ C _ _] H. unfold GetEventSlots. rewrite C.
  destruct (Z.leb_spec (Z.of_nat (length ss)) wid); [done|lia].
Qed.

Lemma put_ok m ss wid s p :
  events_ok m ss -> (wid < length ss)%nat -> refines p s ->
  events_ok (put_slots (Z.of_nat wid) p m) (<[wid := s]> ss).
Proof.
  intros [L C M S] Hw R. constructor; simpl; rewrite ?length_insert; [done..|].
  intros i s' H. rewrite Nat2Z.id. destruct (decide (wid = i)) as [<-|Hne].
  - rewrite list_lookup_insert_eq in H by done. simplify_eq. exists p.
    by rewrite list_lookup_insert_eq by lia.
  - rewrite list_lookup_insert_ne in H by done. rewrite list_lookup_insert_ne by done. by apply S.
Qed.

(** Decoding a user context. *)
Lemma ctx_token_land uctx : Z.land uctx kRidMask = ctx_token uctx.
Proof. unfold kRidMask, ctx_token. by rewrite land_mask by lia. Qed.

Lemma ctx_worker_shift uctx : Z.shiftr uctx kRidShift = ctx_worker uctx.
Proof. unfold ctx_worker, kRidShift. by rewrite Z.shiftr_div_pow2 by lia. Qed.

Lemma ctx_token_ok uctx : is_token (ctx_token uctx).
Proof. apply Z.mod_pos_bound. lia. Qed.

Lemma ctx_worker_range uctx : is_u64 uctx -> 0 <= ctx_worker uctx < 2 ^ 24.
Proof. unfold is_u64, ctx_worker. intros. dlia. Qed.

(** Encoding one. *)
Lemma ctx_encode wid t :
  0 <= wid < kMaxRegisteredWorkers -> is_token t ->
  let uctx := Z.lor (wid <<u64 kRidShift) t in
  uctx = wid * 2 ^ 40 + t /\ ctx_worker uctx = wid /\ ctx_token uctx = t /\ is_u64 uctx.
Proof.
  intros Hw Ht uctx. unfold kMaxRegisteredWorkers, is_token in *.
  assert (E : uctx = wid * 2 ^ 40 + t).
  { unfold uctx, kRidShift. rewrite u64_small by (rewrite Z.shiftl_mul_pow2; lia).
    by apply lor_shiftl_low. }
  split; [done|]. rewrite E. unfold ctx_worker, ctx_token, is_u64.
  rewrite mod_add_low by lia. rewrite Z.div_add_l, Z.div_small by lia. lia.
Qed.

(** One completion on all workers. *)
Lemma complete_event_ok m ss cr :
  events_ok m ss -> is_u64 cr.(user_ctx) ->
  events_ok (CompleteEvent (u32 (Z.shiftr cr.(user_ctx) kRidShift)) cr.(user_ctx) cr.(success) m)
    (imap (fun i s => deliver1 i s cr) ss).
Proof.
  intros E H. pose proof (ctx_worker_range _ H) as Hr. unfold CompleteEvent.
  rewrite ctx_worker_shift, ctx_token_land, u32_small, Z.eqb_refl by lia. simpl.
  set (w := ctx_worker cr.(user_ctx)) in *.
  destruct (ss !! Z.to_nat w) as [s|] eqn:Es.
  - destruct (slots_spec m ss (Z.to_nat w) s E Es) as (p & Hp & R).
    rewrite Z2Nat.id in Hp by lia. rewrite Hp.
    replace (imap _ ss) with (<[Z.to_nat w := spec_complete (ctx_token cr.(user_ctx)) cr.(success) s]> ss).
    + rewrite <- (Z2Nat.id w) at 1 by lia. apply put_ok; [done|by eapply lookup_lt_Some|].
      apply complete_refines; [apply ctx_token_ok|done].
    + apply list_eq. intros i. rewrite list_lookup_imap. unfold deliver1. fold w.
      destruct (decide (Z.to_nat w = i)) as [<-|Hne].
      * rewrite list_lookup_insert_eq by (by eapply lookup_lt_Some). rewrite Es. simpl.
        by rewrite decide_True by lia.
      * rewrite list_lookup_insert_ne by done. destruct (ss !! i); [simpl|done].
        by rewrite decide_False by lia.
  - apply lookup_ge_None in Es. rewrite (slots_None m ss w E) by lia.
    replace (imap _ ss) with ss; [done|]. apply list_eq. intros i. rewrite list_lookup_imap.
    destruct (ss !! i) eqn:Ei; [simpl|done]. apply lookup_lt_Some in Ei. unfold deliver1. fold w.
    by rewrite decide_False by lia.
Qed.

Lemma poll_batch_ok crs : forall m ss,
  events_ok m ss -> crs_ok crs ->
  events_ok (poll_batch crs m) (imap (fun i s => deliver i crs s) ss).
Proof.
  induction crs as [|cr crs IH]; intros m ss E H; simpl.
  - replace (imap _ ss) with ss; [done|]. apply list_eq. intros i. rewrite list_lookup_imap.
    by destruct (ss !! i).
  - apply Forall_cons in H as [H1 H2]. specialize (IH _ _ (complete_event_ok m ss cr E H1) H2).
    replace (imap _ ss) with (imap (fun i s => deliver i crs s) (imap (fun i s => deliver1 i s cr) ss)); [done|].
    apply list_eq. intros i. rewrite !list_lookup_imap. by destruct (ss !! i).
Qed.

Lemma poll_lookup ss wid crs s :
  ss !! wid = Some s -> imap (fun i s => deliver i crs s) ss !! wid = Some (deliver wid crs s).
Proof. intros H. by rewrite list_lookup_imap, H. Qed.

(** ** Delivery *)

(** How the event of token [t] stands after some completions: the first one
    that carries its user context decides. *)
Fixpoint first_done (wid : nat) (t : Z) (st : status) (crs : list urma_cr) : option bool :=
  match st, crs with
  | SDone ok, _ => Some ok
  | SPending, [] => None
  | SPending, cr :: crs =>
      if decide (ctx_worker cr.(user_ctx) = Z.of_nat wid /\ ctx_token cr.(user_ctx) = t)
      then Some cr.(success) else first_done wid t SPending crs
  end.

Definition status_after (o : option bool) : status :=
  match o with None => SPending | Some ok => SDone ok end.

Lemma first_done_SDone wid t ok crs : first_done wid t (SDone ok) crs = Some ok.
Proof. by destruct crs. Qed.

Lemma deliver1_lookup wid s cr t :
  (deliver1 wid s cr).(ev) !! t =
    (if decide (ctx_worker cr.(user_ctx) = Z.of_nat wid /\ ctx_token cr.(user_ctx) = t /\
                s.(ev) !! t = Some SPending)
     then Some (SDone cr.(success)) else s.(ev) !! t).
Proof.
  unfold deliver1. case_decide as H1; [|by rewrite decide_False by naive_solver].
  unfold spec_complete. destruct (decide (ctx_token cr.(user_ctx) = t)) as [<-|Hne].
  - destruct (ev s !! ctx_token (user_ctx cr)) as [[|]|] eqn:E; simpl.
    + rewrite decide_True by done. by rewrite lookup_insert_eq.
    + rewrite decide_False by naive_solver. done.
    + rewrite decide_False by naive_solver. done.
  - rewrite decide_False by naive_solver.
    destruct (ev s !! ctx_token (user_ctx cr)) as [[|]|]; simpl; [|done|done].
    by rewrite lookup_insert_ne.
Qed.

Lemma deliver1_frame wid s cr :
  (deliver1 wid s cr).(room) = s.(room) /\ dom (deliver1 wid s cr).(ev) = dom s.(ev).
Proof.
  unfold deliver1. case_decide; [|done]. unfold spec_complete.
  destruct (ev s !! _) as [[|]|] eqn:E; simpl; [|done|done]. split; [done|].
  rewrite dom_insert_L. apply elem_of_dom_2 in E. set_solver.
Qed.

Lemma deliver_frame wid crs : forall s,
  (deliver wid crs s).(room) = s.(room) /\ dom (deliver wid crs s).(ev) = dom s.(ev).
Proof.
  induction crs as [|cr crs IH]; intros s; [done|]. simpl. destruct (IH (deliver1 wid s cr)) as [-> ->].
  apply deliver1_frame.
Qed.

Lemma deliver_live wid t crs : forall s st,
  s.(ev) !! t = Some st ->
  (deliver wid crs s).(ev) !! t = Some (status_after (first_done wid t st crs)).
Proof.
  induction crs as [|cr crs IH]; intros s st E; [by destruct st|].
  simpl. destruct st as [|ok].
  - case_decide as H.
    + rewrite (IH _ (SDone cr.(success))); [by rewrite first_done_SDone|].
      rewrite deliver1_lookup. by rewrite decide_True by naive_solver.
    + apply IH. rewrite deliver1_lookup. by rewrite decide_False by naive_solver.
  - rewrite (IH _ (SDone ok)); [by rewrite first_done_SDone|].
    rewrite deliver1_lookup. by rewrite decide_False by naive_solver.
Qed.

Lemma deliver_dead wid t crs s : s.(ev) !! t = None -> (deliver wid crs s).(ev) !! t = None.
Proof. rewrite <- !not_elem_of_dom. by rewrite (proj2 (deliver_frame wid crs s)). Qed.

Lemma first_done_app wid t st crs1 crs2 :
  first_done wid t st (crs1 ++ crs2) =
    first_done wid t (status_after (first_done wid t st crs1)) crs2.
Proof.
  destruct st as [|ok]; [|by rewrite !first_done_SDone; simpl; rewrite first_done_SDone].
  induction crs1 as [|cr crs1 IH]; [done|]. simpl. case_decide; [|done].
  simpl. by rewrite first_done_SDone.
Qed.

(** ** The worker's calls on the abstract view *)

Lemma probe_event_ok m ss (wid : nat) s t :
  events_ok m ss -> ss !! wid = Some s -> is_token t ->
  fst (ProbeEvent (Z.of_nat wid) t m) = fst (spec_probe t s) /\
  events_ok (snd (ProbeEvent (Z.of_nat wid) t m)) (<[wid := snd (spec_probe t s)]> ss).
Proof.
  intros E Hs Ht. destruct (slots_spec m ss wid s E Hs) as (p & Hp & R).
  unfold ProbeEvent. rewrite Hp. destruct (probe_refines p s t Ht R) as [H1 H2].
  destruct (Probe t p) as [r p']. simpl in *. split; [done|].
  apply put_ok; [done|by eapply lookup_lt_Some|done].
Qed.

Lemma abort_event_ok m ss (wid : nat) s t :
  events_ok m ss -> ss !! wid = Some s -> is_token t ->
  events_ok (AbortEvent (Z.of_nat wid) t m) (<[wid := snd (spec_abort t s)]> ss).
Proof.
  intros E Hs Ht. destruct (slots_spec m ss wid s E Hs) as (p & Hp & R).
  unfold AbortEvent. rewrite Hp. destruct (abort_refines p s t Ht R) as [_ H2].
  apply put_ok; [done|by eapply lookup_lt_Some|done].
Qed.

(** The outcome of [PostEvent]: no slot, or a fresh token. *)
Definition spec_post (ss : list espec) (wid : nat) (s : espec) (ue t : Z) (m' : events) : Prop :=
  (s.(room) = 0 /\ ue = 0 /\ t = 0 /\ events_ok m' ss) \/
  (0 < s.(room) /\ t <> 0 /\ is_token t /\ s.(ev) !! t = None /\ ue = Z.of_nat wid * 2 ^ 40 + t /\
   events_ok m' (<[wid := mk_espec (<[t := SPending]> s.(ev)) (s.(room) - 1)]> ss)).

Lemma post_event_ok m ss (wid : nat) s :
  events_ok m ss -> ss !! wid = Some s ->
  let '(ue, t, m') := PostEvent (Z.of_nat wid) m in spec_post ss wid s ue t m'.
Proof.
  intros E Hs. destruct (slots_spec m ss wid s E Hs) as (p & Hp & R).
  assert (Hw : (wid < length ss)%nat) by (by eapply lookup_lt_Some).
  pose proof (eo_max _ _ E) as Hmax. unfold PostEvent. rewrite Hp. pose proof (acquire_refines p s R) as Ha.
  destruct (Acquire p) as [[b t] p']. destruct Ha as (s' & Ha & R').
  pose proof (put_ok m ss wid s' p' E Hw R') as E'. destruct Ha as [H0|t H0 Ht Hk Hn].
  - left. by rewrite list_insert_id in E'.
  - right. split; [done|]. split; [done|]. split; [done|]. split; [done|]. split; [|done].
    apply ctx_encode; [lia|done].
Qed.

Lemma crs_ok1 ue ok : is_u64 ue -> crs_ok [mk_cr ue ok].
Proof. intros H. by constructor. Qed.

(** Issuing, completing and consuming one event changes nothing. *)
Lemma consume_restores ss wid s t ue ok :
  ss !! wid = Some s -> s.(ev) !! t = None -> ctx_worker ue = Z.of_nat wid -> ctx_token ue = t ->
  let s' := mk_espec (<[t := SPending]> s.(ev)) (s.(room) - 1) in
  <[wid := spec_consume t (deliver wid [mk_cr ue ok] s')]>
    (imap (fun i s => deliver i [mk_cr ue ok] s) (<[wid := s']> ss)) = ss.
Proof.
  intros Hs Hn Hcw Hct s'. assert (Hw : (wid < length ss)%nat) by (by eapply lookup_lt_Some).
  apply list_eq. intros i. destruct (decide (wid = i)) as [<-|Hne].
  - rewrite list_lookup_insert_eq by (by rewrite length_imap, length_insert). rewrite Hs. f_equal.
    unfold spec_consume. destruct (deliver_frame wid [mk_cr ue ok] s') as [-> _]. destruct s as [es rs].
    f_equal; [|simpl; lia]. apply map_eq. intros t'. rewrite lookup_delete.
    case_decide as Ht'; [by subst|].
    simpl deliver. rewrite deliver1_lookup, decide_False by naive_solver. simpl.
    by rewrite lookup_insert_ne.
  - rewrite list_lookup_insert_ne, list_lookup_imap, list_lookup_insert_ne by done.
    destruct (ss !! i) as [x|]; [simpl|done]. unfold deliver1. simpl. rewrite decide_False by (rewrite Hcw; lia).
    done.
Qed.

(** C22: an event goes round.  [PostEvent] fails (returning 0) exactly when the
    worker has no slot left; otherwise its user context is not 0 and names the
    worker and a fresh token, and the completion record that brings the
    context back, however the poll thread decodes it, completes exactly this
    event: the worker's [ProbeEvent] then reports how it ended and the slot is
    free again. *)
Theorem post_complete_roundtrip m ss (wid : nat) s ok :
  events_ok m ss -> ss !! wid = Some s ->
  let '(ue, t, m') := PostEvent (Z.of_nat wid) m in
  (ue = 0 <-> s.(room) = 0) /\
  (ue <> 0 ->
   ctx_worker ue = Z.of_nat wid /\ ctx_token ue = t /\ s.(ev) !! t = None /\
   fst (ProbeEvent (Z.of_nat wid) t m') = 0 /\
   let m'' := poll_batch [mk_cr ue ok] m' in
   fst (ProbeEvent (Z.of_nat wid) t m'') = (if ok then 1 else -1) /\
   events_ok (snd (ProbeEvent (Z.of_nat wid) t m'')) ss).
Proof.
  intros E Hs. pose proof (post_event_ok m ss wid s E Hs) as HP.
  destruct (PostEvent (Z.of_nat wid) m) as [[ue t] m'].
  destruct HP as [(H0 & -> & -> & E')|(H0 & Ht & Hk & Hn & Hue & E')]; [done|].
  assert (Hw : (wid < length ss)%nat) by (by eapply lookup_lt_Some).
  pose proof (eo_max _ _ E). unfold kMaxRegisteredWorkers in *.
  destruct (ctx_encode (Z.of_nat wid) t) as (Heq & Hcw & Hct & Hu); [unfold kMaxRegisteredWorkers; lia|done|].
  rewrite Heq, <- Hue in *. split; [unfold is_token in Hk; lia|]. intros _.
  set (s' := mk_espec (<[t := SPending]> s.(ev)) (s.(room) - 1)) in *.
  assert (Hs' : <[wid := s']> ss !! wid = Some s') by (by apply list_lookup_insert_eq).
  assert (Hl' : s'.(ev) !! t = Some SPending) by (unfold s'; simpl; by rewrite lookup_insert_eq).
  split; [done|]. split; [done|]. split; [done|]. split.
  { destruct (probe_event_ok m' _ wid s' t E' Hs' Hk) as [-> _]. unfold spec_probe. by rewrite Hl'. }
  pose proof (poll_batch_ok [mk_cr ue ok] _ _ E' (crs_ok1 ue ok Hu)) as E''.
  destruct (probe_event_ok _ _ wid _ t E'' (poll_lookup _ _ _ _ Hs') Hk) as [-> Ef].
  pose proof (deliver_live wid t [mk_cr ue ok] s' SPending Hl') as Hd. simpl first_done in Hd.
  rewrite decide_True in Hd by done.
  revert Ef. unfold spec_probe. rewrite Hd. cbn [status_after fst snd]. intros Ef. split; [done|].
  pose proof (consume_restores ss wid s t ue ok Hs Hn Hcw Hct) as Hc. cbv zeta in Hc. fold s' in Hc.
  by rewrite Hc in Ef.
Qed.

Lemma post_complete_roundtrip_witness :
  let m := snd (RegisterWorker true no_events) in
  PostEvent 0 m = (256, 256, snd (PostEvent 0 m)) /\
  fst (ProbeEvent 0 256 (poll_batch [mk_cr 256 false] (snd (PostEvent 0 m)))) = -1.
Proof.
  intros m.
  assert (E : events_ok m [spec0]).
  { constructor; [done|done|done|]. intros [|i] s H; [|done]. injection H as <-. exists new_pool.
    split; [by vm_compute|apply new_pool_refines]. }
  pose proof (post_complete_roundtrip m [spec0] 0 spec0 false E eq_refl) as H.
  change (Z.of_nat 0) with 0 in H.
  assert (Ep : PostEvent 0 m = (256, 256, snd (PostEvent 0 m))) by (vm_compute; reflexivity).
  split; [exact Ep|]. destruct (PostEvent 0 m) as [[ue t] m'].
  cbn [snd] in Ep |- *. injection Ep as -> ->. apply (proj2 H). done.
Defined.

(** registration.  The first 1024 calls hand out the ids 0, 1, 2, ... in
    order, each with an empty pool of its own and without touching the pools
    of the others; every later call is refused; the first registration tries
    to start the poll thread. *)
Theorem register_worker_fresh m ss spawned :
  events_ok m ss ->
  let '(r, m') := RegisterWorker spawned m in
  if decide (Z.of_nat (length ss) < kMaxRegisteredWorkers)
  then r = Some (Z.of_nat (length ss)) /\ events_ok m' (ss ++ [spec0]) /\
       (ss = [] -> m'.(pollStarted_) = orb m.(pollStarted_) spawned)
  else r = None /\ m' = m.
Proof.
  intros E. pose proof E as [L C M S]. unfold RegisterWorker. rewrite C.
  unfold kMaxRegisteredWorkers in *. destruct (Z.leb_spec 1024 (Z.of_nat (length ss))) as [H|H];
    [by rewrite decide_False by lia|].
  rewrite decide_True by lia. split; [done|]. rewrite u32_small by lia.
  set (m1 := mk_events _ _ _).
  assert (E1 : events_ok m1 (ss ++ [spec0])).
  { constructor; simpl; rewrite ?length_insert, ?length_app; simpl; unfold kMaxRegisteredWorkers; [done|lia|lia|].
    intros i s Hi. rewrite Nat2Z.id. apply lookup_app_Some in Hi as [Hi|[Hge Hi]].
    - apply lookup_lt_Some in Hi as Hlt. rewrite list_lookup_insert_ne by lia. by apply S.
    - apply list_lookup_singleton_Some in Hi as [Hi <-].
      replace i with (length ss) by lia. exists new_pool.
      rewrite list_lookup_insert_eq by lia. split; [done|apply new_pool_refines]. }
  destruct (Z.eqb_spec (Z.of_nat (length ss)) 0) as [H0|H0].
  - unfold EnsurePollThread. change (pollStarted_ m1) with (pollStarted_ m).
    destruct (pollStarted_ m) eqn:Ep, spawned; simpl; split; try done.
    all: destruct E1; by constructor.
  - split; [done|]. by intros ->.
Qed.

Lemma register_worker_fresh_witness :
  fst (RegisterWorker true no_events) = Some 0 /\
  events_ok (snd (RegisterWorker true no_events)) [spec0].
Proof.
  pose proof (register_worker_fresh no_events [] true no_events_ok) as H.
  destruct (RegisterWorker true no_events) as [r m'] eqn:E.
  rewrite decide_True in H by done. destruct H as (-> & H & _). split; [done|exact H].
Defined.

(** ** [WaitEvent] *)

(** The completions the rounds deliver up to the first reading at or past the
    deadline. *)
Fixpoint seen (deadline : Z) (rounds : list round) : list urma_cr :=
  match rounds with
  | [] => []
  | (crs, now) :: rounds => if deadline <=? now then crs else crs ++ seen deadline rounds
  end.

Definition rounds_ok (rounds : list round) : Prop := Forall (fun r => crs_ok (fst r)) rounds.

(** Some reading of the clock reaches the deadline. *)
Definition expires (deadline : Z) (rounds : list round) : Prop :=
  Exists (fun r => deadline <= snd r) rounds.

(** The worker's view after a wait that consumed token [t]; other workers and
    other tokens keep their events. *)
Definition waited (ss ss' : list espec) (wid : nat) (t : Z) (freed : bool) : Prop :=
  length ss' = length ss /\
  forall i s, ss !! i = Some s -> exists s', ss' !! i = Some s' /\
    dom s'.(ev) = (if decide (i = wid) then dom s.(ev) ∖ {[t]} else dom s.(ev)) /\
    s'.(room) = s.(room) + (if decide (i = wid /\ freed = true) then 1 else 0).

Lemma waited_consume ss wid t s crs :
  ss !! wid = Some s -> is_Some (s.(ev) !! t) ->
  waited ss (<[wid := spec_consume t (deliver wid crs s)]> (imap (fun i s => deliver i crs s) ss)) wid t true.
Proof.
  intros Hs Hl. split; [by rewrite length_insert, length_imap|].
  intros i s' Hi. destruct (decide (wid = i)) as [<-|Hne].
  - rewrite list_lookup_insert_eq by (rewrite length_imap; by eapply lookup_lt_Some).
    assert (s' = s) as -> by congruence. eexists. split; [done|].
    rewrite !decide_True by done. simpl. destruct (deliver_frame wid crs s) as [-> <-].
    by rewrite dom_delete_L.
  - rewrite list_lookup_insert_ne, list_lookup_imap, Hi by done. eexists. split; [done|].
    rewrite !decide_False by naive_solver. destruct (deliver_frame i crs s') as [-> ->]. split; [done|lia].
Qed.

Lemma waited_none ss wid t crs :
  (forall s, ss !! wid = Some s -> s.(ev) !! t = None) ->
  waited ss (imap (fun i s => deliver i crs s) ss) wid t false.
Proof.
  intros Hn. split; [by rewrite length_imap|]. intros i s Hi. rewrite list_lookup_imap, Hi.
  eexists. split; [done|]. destruct (deliver_frame i crs s) as [-> ->].
  rewrite (decide_False (P := _ /\ false = true)) by naive_solver. split; [|lia].
  case_decide; [subst|done]. apply Hn in Hi. apply not_elem_of_dom in Hi. set_solver.
Qed.

Lemma deliver_app wid crs1 crs2 s : deliver wid (crs1 ++ crs2) s = deliver wid crs2 (deliver wid crs1 s).
Proof. apply foldl_app. Qed.

Lemma imap_deliver_app crs1 crs2 ss :
  imap (fun i s => deliver i (crs1 ++ crs2) s) ss =
  imap (fun i s => deliver i crs2 s) (imap (fun i s => deliver i crs1 s) ss).
Proof.
  apply list_eq. intros i. rewrite !list_lookup_imap. destruct (ss !! i); [simpl|done].
  by rewrite deliver_app.
Qed.

(** One round on the abstract view. *)
Lemma round_ok m ss (wid : nat) s t crs :
  events_ok m ss -> ss !! wid = Some s -> is_token t -> crs_ok crs ->
  let pr := ProbeEvent (Z.of_nat wid) t (poll_batch crs m) in
  let s1 := deliver wid crs s in
  let ss1 := imap (fun i s => deliver i crs s) ss in
  match s1.(ev) !! t with
  | Some (SDone ok) => fst pr = (if ok then 1 else -1) /\ events_ok (snd pr) (<[wid := spec_consume t s1]> ss1)
  | _ => fst pr = 0 /\ events_ok (snd pr) ss1
  end.
Proof.
  intros E Hs Ht Hc pr s1 ss1.
  assert (Hs1 : ss1 !! wid = Some s1) by (by apply poll_lookup).
  destruct (probe_event_ok _ ss1 wid s1 t (poll_batch_ok crs m ss E Hc) Hs1 Ht) as [H1 H2].
  unfold pr. rewrite H1. unfold spec_probe in *.
  destruct (s1.(ev) !! t) as [[|ok]|]; [|done|]; simpl in *; (split; [done|]);
    by rewrite list_insert_id in H2.
Qed.

Lemma wait_loop_live deadline rounds : forall m ss (wid : nat) s t st,
  events_ok m ss -> ss !! wid = Some s -> is_token t -> s.(ev) !! t = Some st ->
  rounds_ok rounds -> expires deadline rounds ->
  let o := first_done wid t st (seen deadline rounds) in
  exists m', wait_loop (Z.of_nat wid) t deadline rounds m = Some (m', o) /\
  exists crs, (if o then events_ok m' (<[wid := spec_consume t (deliver wid crs s)]>
                                         (imap (fun i s => deliver i crs s) ss))
               else crs = seen deadline rounds /\ events_ok m' (imap (fun i s => deliver i crs s) ss)).
Proof.
  induction rounds as [|[crs now] rounds IH]; intros m ss wid s t st E Hs Ht Hl Hok Hex o;
    [by inversion Hex|].
  apply Forall_cons in Hok as [Hc Hok]. simpl in Hc.
  pose proof (round_ok m ss wid s t crs E Hs Ht Hc) as HR. cbv zeta in HR.
  assert (Hd := deliver_live wid t crs s st Hl). rewrite Hd in HR.
  cbn [wait_loop]. destruct (ProbeEvent _ _ _) as [r m1]. simpl in HR.
  destruct (first_done wid t st crs) as [ok|] eqn:Ef; simpl in HR; destruct HR as [-> E1].
  - assert (Ho : o = Some ok).
    { unfold o. simpl. destruct (deadline <=? now); [done|].
      rewrite first_done_app, Ef. simpl. apply first_done_SDone. }
    rewrite Ho. exists m1. split; [by destruct ok|]. by exists crs.
  - rewrite Z.eqb_refl. simpl. unfold o. cbn [seen]. destruct (Z.leb_spec deadline now) as [Hn|Hn].
    + rewrite Ef. exists m1. split; [done|]. by exists crs.
    + rewrite first_done_app, Ef. apply Exists_cons in Hex as [Hx|Hex]; [simpl in Hx; lia|].
      destruct (IH m1 _ wid _ t SPending E1 (poll_lookup _ _ crs _ Hs) Ht Hd Hok Hex) as (m' & -> & crs' & H').
      exists m'. split; [done|]. simpl. destruct (first_done wid t SPending (seen deadline rounds)).
      * exists (crs ++ crs'). by rewrite deliver_app, imap_deliver_app.
      * destruct H' as [-> H']. exists (crs ++ seen deadline rounds). by rewrite imap_deliver_app.
Qed.

Lemma wait_loop_dead deadline rounds : forall m ss (wid : nat) s t,
  events_ok m ss -> ss !! wid = Some s -> is_token t -> s.(ev) !! t = None -> rounds_ok rounds ->
  match wait_loop (Z.of_nat wid) t deadline rounds m with
  | Some (m', r) => r = None /\ expires deadline rounds /\
      events_ok m' (imap (fun i s => deliver i (seen deadline rounds) s) ss)
  | None => ~ expires deadline rounds
  end.
Proof.
  induction rounds as [|[crs now] rounds IH]; intros m ss wid s t E Hs Ht Hl Hok;
    [intros H; by inversion H|].
  apply Forall_cons in Hok as [Hc Hok]. simpl in Hc.
  pose proof (round_ok m ss wid s t crs E Hs Ht Hc) as HR. cbv zeta in HR.
  assert (Hd := deliver_dead wid t crs s Hl). rewrite Hd in HR.
  cbn [wait_loop]. destruct (ProbeEvent _ _ _) as [r m1]. simpl in HR. destruct HR as [-> E1].
  rewrite Z.eqb_refl. simpl. destruct (Z.leb_spec deadline now) as [Hn|Hn].
  - split; [done|]. split; [by left|done].
  - specialize (IH m1 _ wid _ t E1 (poll_lookup _ _ crs _ Hs) Ht Hd Hok).
    destruct (wait_loop _ _ _ _ _) as [[m' r]|].
    + destruct IH as (-> & Hex & E'). split; [done|]. split; [by right|]. by rewrite imap_deliver_app.
    + intros Hex. apply Exists_cons in Hex as [Hx|Hex]; [simpl in Hx; lia|done].
Qed.

Lemma wait_live_ok m ss (wid : nat) s t st timeoutMs now0 rounds crs1 crs2 :
  events_ok m ss -> ss !! wid = Some s -> is_token t -> s.(ev) !! t = Some st ->
  rounds_ok rounds -> crs_ok crs1 -> crs_ok crs2 ->
  let deadline := now0 +u64 (u64 timeoutMs *u64 1000000) in
  expires deadline rounds ->
  exists m' ss',
    WaitEvent (Z.of_nat wid) t timeoutMs now0 rounds crs1 crs2 m =
      Some (default false (first_done wid t st (seen deadline rounds ++ crs1)), m') /\
    events_ok m' ss' /\ waited ss ss' wid t true.
Proof.
  intros E Hs Ht Hl Hok H1 H2 deadline Hex. unfold WaitEvent.
  destruct (slots_spec m ss wid s E Hs) as (p & -> & _). fold deadline.
  destruct (wait_loop_live deadline rounds m ss wid s t st E Hs Ht Hl Hok Hex) as (m1 & -> & crs & HL).
  simpl. rewrite first_done_app.
  destruct (first_done wid t st (seen deadline rounds)) as [ok|] eqn:Ef.
  { eexists m1, _. cbn [status_after]. rewrite first_done_SDone. split; [done|]. split; [exact HL|].
    apply waited_consume; eauto. }
  destruct HL as [-> E1]. set (all := seen deadline rounds) in *.
  assert (Hl1 := deliver_live wid t all s st Hl). rewrite Ef in Hl1. simpl in Hl1.
  pose proof (round_ok m1 _ wid _ t crs1 E1 (poll_lookup _ _ all _ Hs) Ht H1) as HR. cbv zeta in HR.
  rewrite (deliver_live wid t crs1 _ SPending Hl1) in HR.
  rewrite <- imap_deliver_app, <- deliver_app in HR.
  destruct (ProbeEvent _ _ _) as [r m2]. cbn [fst snd] in HR.
  cbn [status_after]. destruct (first_done wid t SPending crs1) as [ok|] eqn:Ef1; simpl in HR; destruct HR as [-> E2].
  - eexists m2, _. split; [by destruct ok|]. split; [exact E2|]. apply waited_consume; eauto.
  - pose proof (poll_batch_ok crs2 m2 _ E2 H2) as E3. rewrite <- imap_deliver_app in E3.
    pose proof (abort_event_ok _ _ wid _ t E3 (poll_lookup _ _ ((all ++ crs1) ++ crs2) _ Hs) Ht) as E4.
    assert (Hl3 := deliver_live wid t ((all ++ crs1) ++ crs2) s st Hl).
    unfold spec_abort in E4. rewrite Hl3 in E4. simpl in E4.
    eexists _, _. rewrite Z.eqb_refl. split; [done|]. split; [exact E4|]. apply waited_consume; eauto.
Qed.

(** C21: [WaitEvent] on an event in flight.  As soon as the clock reaches the
    deadline it returns; it returns [true] exactly when the first completion
    of this event delivered before the last probe was a success; in every case
    (success, failure, timeout) the event is gone and its slot is free again,
    and no other event of this or another worker was consumed. *)
Theorem wait_event_total m ss (wid : nat) s t st timeoutMs now0 rounds crs1 crs2 :
  events_ok m ss -> ss !! wid = Some s -> is_token t -> s.(ev) !! t = Some st ->
  rounds_ok rounds -> crs_ok crs1 -> crs_ok crs2 ->
  let deadline := now0 +u64 (u64 timeoutMs *u64 1000000) in
  expires deadline rounds ->
  exists m' ss',
    WaitEvent (Z.of_nat wid) t timeoutMs now0 rounds crs1 crs2 m =
      Some (default false (first_done wid t st (seen deadline rounds ++ crs1)), m') /\
    events_ok m' ss' /\ waited ss ss' wid t true.
Proof. apply wait_live_ok. Qed.

(** A worker that posted one event; its completion arrives in the second
    round. *)
Lemma wait_event_total_witness :
  let m := snd (PostEvent 0 (snd (RegisterWorker true no_events))) in
  option_map fst (WaitEvent 0 256 5 1000 [([], 2000); ([mk_cr 256 true], 3000); ([], 9000000)] [] [] m) = Some true.
Proof.
  intros m.
  assert (E : events_ok m [mk_espec (<[256 := SPending]> ∅) 255]).
  { assert (E0 : events_ok (snd (RegisterWorker true no_events)) [spec0]).
    { constructor; [done|done|done|]. intros [|i] s H; [|done]. injection H as <-. exists new_pool.
      split; [by vm_compute|apply new_pool_refines]. }
    pose proof (post_event_ok _ _ 0 spec0 E0 eq_refl) as H. change (Z.of_nat 0) with 0 in H.
    assert (Ep : PostEvent 0 (snd (RegisterWorker true no_events)) = (256, 256, m)) by (vm_compute; reflexivity).
    rewrite Ep in H. destruct H as [(H & _)|H]; [done|]. apply H. }
  destruct (wait_event_total m _ 0 _ 256 SPending 5 1000
     [([], 2000); ([mk_cr 256 true], 3000); ([], 9000000)] [] [] E eq_refl) as (m' & ss' & H & _).
  - unfold is_token. lia.
  - reflexivity.
  - repeat constructor; simpl; lia.
  - constructor.
  - constructor.
  - do 2 right. left. vm_compute. discriminate.
  - change (Z.of_nat 0) with 0 in H. rewrite H. vm_compute. reflexivity.
Defined.

Lemma wait_dead_ok m ss (wid : nat) s t timeoutMs now0 rounds crs1 crs2 :
  events_ok m ss -> ss !! wid = Some s -> is_token t -> s.(ev) !! t = None ->
  rounds_ok rounds -> crs_ok crs1 -> crs_ok crs2 ->
  let deadline := now0 +u64 (u64 timeoutMs *u64 1000000) in
  match WaitEvent (Z.of_nat wid) t timeoutMs now0 rounds crs1 crs2 m with
  | None => ~ expires deadline rounds
  | Some (b, m') => b = false /\ expires deadline rounds /\
      exists ss', events_ok m' ss' /\ waited ss ss' wid t false
  end.
Proof.
  intros E Hs Ht Hl Hok H1 H2 deadline. unfold WaitEvent.
  destruct (slots_spec m ss wid s E Hs) as (p & -> & _). fold deadline.
  pose proof (wait_loop_dead deadline rounds m ss wid s t E Hs Ht Hl Hok) as HL.
  destruct (wait_loop _ _ _ _ _) as [[m1 r]|]; [|done]. destruct HL as (-> & Hex & E1). simpl.
  set (all := seen deadline rounds) in *.
  assert (Hl1 := deliver_dead wid t all s Hl).
  pose proof (round_ok m1 _ wid _ t crs1 E1 (poll_lookup _ _ all _ Hs) Ht H1) as HR. cbv zeta in HR.
  rewrite (deliver_dead wid t crs1 _ Hl1) in HR.
  destruct (ProbeEvent _ _ _) as [r m2]. cbn [fst snd] in HR. destruct HR as [-> E2]. simpl.
  split; [done|]. split; [done|].
  pose proof (poll_batch_ok crs2 m2 _ E2 H2) as E3. rewrite <- !imap_deliver_app in E3.
  pose proof (abort_event_ok _ _ wid _ t E3 (poll_lookup _ _ (all ++ crs1 ++ crs2) _ Hs) Ht) as E4.
  unfold spec_abort in E4. rewrite (deliver_dead wid t _ s Hl) in E4. simpl in E4.
  rewrite list_insert_id in E4 by (by apply poll_lookup).
  eexists. split; [exact E4|]. apply waited_none. intros s0 Hs0. assert (s0 = s) as -> by congruence. done.
Qed.

(** waiting on a token that is already consumed never succeeds: the call
    returns only once the clock has passed the whole timeout, it returns
    [false], and it takes no slot. *)
Theorem wait_event_consumed m ss (wid : nat) s t timeoutMs now0 rounds crs1 crs2 :
  events_ok m ss -> ss !! wid = Some s -> is_token t -> s.(ev) !! t = None ->
  rounds_ok rounds -> crs_ok crs1 -> crs_ok crs2 ->
  let deadline := now0 +u64 (u64 timeoutMs *u64 1000000) in
  match WaitEvent (Z.of_nat wid) t timeoutMs now0 rounds crs1 crs2 m with
  | None => ~ expires deadline rounds
  | Some (b, m') => b = false /\ expires deadline rounds /\
      exists ss', events_ok m' ss' /\ waited ss ss' wid t false
  end.
Proof. apply wait_dead_ok. Qed.

Lemma wait_event_consumed_witness :
  let m := snd (RegisterWorker true no_events) in
  option_map fst (WaitEvent 0 256 5 1000 [([mk_cr 256 true], 2000); ([], 5001000)] [] [] m) = Some false.
Proof.
  intros m.
  assert (E0 : events_ok m [spec0]).
  { constructor; [done|done|done|]. intros [|i] s H; [|done]. injection H as <-. exists new_pool.
    split; [by vm_compute|apply new_pool_refines]. }
  pose proof (wait_event_consumed m [spec0] 0 spec0 256 5 1000
    [([mk_cr 256 true], 2000); ([], 5001000)] [] [] E0 eq_refl) as H.
  change (Z.of_nat 0) with 0 in H.
  destruct (WaitEvent 0 256 5 1000 _ _ _ m) as [[b m']|].
  - destruct H as [-> _]; [unfold is_token; lia|done|repeat constructor; simpl; lia|constructor|constructor|].
    reflexivity.
  - exfalso. apply H; [unfold is_token; lia|done|repeat constructor; simpl; lia|constructor|constructor|].
    right. left. vm_compute. discriminate.
Defined.
