(* ===== verification/Args.v ===== *)
(** * Args: command line, parameter checks and buffer layout of
      [src/kv_bench.cpp]

    The C string conversions the program calls ([strtoul] and its family,
    [atoi], [strtok], [sscanf "%u:%u"]) are modelled on lists of characters
    without the terminating NUL; [getopt_long] is the list of option codes and
    arguments it yields.  Then [parse_size], [parse_cpu_list],
    [parse_arguments], [validate_input_params] and the two layout functions,
    with the theorem the rest of the client relies on: accepted parameters
    give buffers that cover every work request. *)

From Stdlib Require Import Ascii.
From Stdlib Require String.
Import String.StringSyntax.
From S2P Require Import Prelude.
From stdpp Require Import list.
#[local] Open Scope Z_scope.

(** ** C strings *)

Definition cstr : Type := list ascii.

(** A string literal. *)
Definition lit (s : String.string) : cstr := String.list_ascii_of_string s.
Arguments lit s%_string_scope.

Definition code (c : ascii) : Z := Z.of_N (N_of_ascii c).

#[global] Instance ascii_eqdec : EqDecision ascii.
Proof. intros x y. apply Ascii.ascii_dec. Defined.

(** [isspace] in the C locale. *)
Definition is_space (c : ascii) : bool :=
  let n := code c in (n =? 32) || ((9 <=? n) && (n <=? 13)).

(** The value of a digit or letter, 36 for everything else. *)
Definition digit_value (c : ascii) : Z :=
  let n := code c in
  if (48 <=? n) && (n <=? 57) then n - 48
  else if (97 <=? n) && (n <=? 122) then n - 97 + 10
  else if (65 <=? n) && (n <=? 90) then n - 65 + 10
  else 36.

Definition is_digit (base : Z) (c : ascii) : bool := digit_value c <? base.

Fixpoint skip_spaces (s : cstr) : cstr :=
  match s with
  | c :: s' => if is_space c then skip_spaces s' else s
  | [] => []
  end.

(** The longest run of digits: its value and what follows. *)
Fixpoint digits (base acc : Z) (s : cstr) : Z * cstr :=
  match s with
  | c :: s' => if is_digit base c then digits base (acc * base + digit_value c) s' else (acc, s)
  | [] => (acc, [])
  end.

(** The subject sequence of the [strto] functions: sign, value (unbounded) and
    the rest; [None] when there is no conversion.  Base 0 recognises the
    prefixes [0x] and [0]. *)
Definition strto (base : Z) (s : cstr) : option (bool * Z * cstr) :=
  let s := skip_spaces s in
  let '(neg, s) :=
    match s with
    | c :: s' => if code c =? 45 then (true, s') else if code c =? 43 then (false, s') else (false, s)
    | [] => (false, s)
    end in
  let '(base, s) :=
    match s with
    | z :: x :: d :: s' =>
        if (code z =? 48) && ((code x =? 120) || (code x =? 88)) && is_digit 16 d &&
           ((base =? 0) || (base =? 16))
        then (16, d :: s')
        else (if base =? 0 then if code z =? 48 then 8 else 10 else base, s)
    | z :: _ => (if base =? 0 then if code z =? 48 then 8 else 10 else base, s)
    | [] => (base, s)
    end in
  match s with
  | c :: _ => if is_digit base c then let '(v, rest) := digits base 0 s in Some (neg, v, rest) else None
  | [] => None
  end.

(** [strtoull] (also [strtoul], [unsigned long] being 64 bits wide). *)
Definition strtoull (base : Z) (s : cstr) : Z :=
  match strto base s with
  | None => 0
  | Some (neg, v, _) => if UINT64_MAX <? v then UINT64_MAX else if neg then u64 (- v) else v
  end.

(** [strtol]: saturates at the ends of [long]. *)
Definition strtol (base : Z) (s : cstr) : Z :=
  match strto base s with
  | None => 0
  | Some (neg, v, _) => if neg then Z.max (- 2 ^ 63) (- v) else Z.min (2 ^ 63 - 1) v
  end.

Definition atoi (s : cstr) : Z := i32 (strtol 10 s).

(** ** [parse_size] *)

Definition parse_size (text : cstr) : Z :=
  match strto 0 text with
  | None => 0
  | Some (_, _, rest) =>
      let value := strtoull 0 text in
      match rest with
      | [] => value
      | c :: _ =>
          if (code c =? 75) || (code c =? 107) then value *u64 1024
          else if (code c =? 77) || (code c =? 109) then value *u64 (1024 * 1024)
          else if (code c =? 71) || (code c =? 103) then value *u64 (1024 * 1024 * 1024)
          else 0
      end
  end.

(** ** [parse_cpu_list] *)

(** The parts [strtok(list, ",")] yields: maximal runs without a comma. *)
Fixpoint strtok (delim : ascii) (cur s : cstr) : list cstr :=
  match s with
  | [] => match cur with [] => [] | _ => [cur] end
  | c :: s' =>
      if decide (c = delim)
      then (match cur with [] => [] | _ => [cur] end) ++ strtok delim [] s'
      else strtok delim (cur ++ [c]) s'
  end.

(** [strchr(part, '-')]: the text before and after the first dash. *)
Fixpoint split_at (d : ascii) (s : cstr) : option (cstr * cstr) :=
  match s with
  | [] => None
  | c :: s' => if decide (c = d) then Some ([], s')
               else match split_at d s' with
                    | Some (a, b) => Some (c :: a, b)
                    | None => None
                    end
  end.

Definition comma : ascii := ascii_of_N 44.
Definition dash : ascii := ascii_of_N 45.

(** [lo] and [hi] of one part. *)
Definition part_range (part : cstr) : Z * Z :=
  match split_at dash part with
  | Some (a, b) => (atoi a, atoi b)
  | None => let lo := atoi part in (lo, lo)
  end.

(** [for (c = lo; c <= hi && n < max_out; c++) out[n++] = c]: at most [room]
    values are written. *)
Definition push_range (lo hi : Z) (room : nat) : list Z :=
  (fun i => lo + Z.of_nat i) <$> seq 0 (Nat.min room (Z.to_nat (hi - lo + 1))).

Fixpoint parse_parts (parts : list cstr) (out : list Z) (max_out : nat) : list Z :=
  match parts with
  | [] => out
  | part :: parts =>
      if (max_out <=? length out)%nat then out
      else
        let '(lo, hi) := part_range part in
        if (lo <? 0) || (hi <? lo) then parse_parts parts out max_out
        else parse_parts parts (out ++ push_range lo hi (max_out - length out)) max_out
  end.

(** The filled part of [out]; [None] is a null list. *)
Definition parse_cpu_list (l : option cstr) (max_out : nat) : list Z :=
  match l with
  | None => []
  | Some s => parse_parts (strtok comma [] s) [] max_out
  end.

(** ** [argument_t] *)

Record argument := mk_args {
  dev_name : option cstr;
  dev_name2 : option cstr;
  dual_dev : bool;
  server_ip : option cstr;
  server_port : Z;
  trans_mode : Z;
  event_mode : bool;
  value_size : Z;
  send_size : Z;
  qps : Z;
  duration_sec : Z;
  jetty_count : Z;
  affinity_mode : Z;
  source_cpus : option cstr;
  destination_cpus : option cstr;
  cacheable : bool;
  threads : Z;
  concurrency : Z;
  single_chip : Z;
  chip_weight : Z * Z;
  poll_cpu : Z;
  op : Z;
  mixed_ratio : Z;
  report_interval : Z;
  mbind : bool;
  drv_ext : bool;
  import_rtp : bool;
  seed : Z;
  fixed_offset : bool;
  timeout_ms : Z;
  query_chips : bool;
}.

(** Assignment to a member. *)
Definition set_dev_name (x : option cstr) (a : argument) : argument :=
  mk_args x a.(dev_name2) a.(dual_dev) a.(server_ip) a.(server_port) a.(trans_mode)
  a.(event_mode) a.(value_size) a.(send_size) a.(qps) a.(duration_sec) a.(jetty_count)
  a.(affinity_mode) a.(source_cpus) a.(destination_cpus) a.(cacheable) a.(threads)
  a.(concurrency) a.(single_chip) a.(chip_weight) a.(poll_cpu) a.(op) a.(mixed_ratio)
  a.(report_interval) a.(mbind) a.(drv_ext) a.(import_rtp) a.(seed) a.(fixed_offset)
  a.(timeout_ms) a.(query_chips).
Definition set_dev_name2 (x : option cstr) (a : argument) : argument :=
  mk_args a.(dev_name) x a.(dual_dev) a.(server_ip) a.(server_port) a.(trans_mode) a.(event_mode)
  a.(value_size) a.(send_size) a.(qps) a.(duration_sec) a.(jetty_count) a.(affinity_mode)
  a.(source_cpus) a.(destination_cpus) a.(cacheable) a.(threads) a.(concurrency) a.(single_chip)
  a.(chip_weight) a.(poll_cpu) a.(op) a.(mixed_ratio) a.(report_interval) a.(mbind) a.(drv_ext)
  a.(import_rtp) a.(seed) a.(fixed_offset) a.(timeout_ms) a.(query_chips).
Definition set_dual_dev (x : bool) (a : argument) : argument :=
  mk_args a.(dev_name) a.(dev_name2) x a.(server_ip) a.(server_port) a.(trans_mode)
  a.(event_mode) a.(value_size) a.(send_size) a.(qps) a.(duration_sec) a.(jetty_count)
  a.(affinity_mode) a.(source_cpus) a.(destination_cpus) a.(cacheable) a.(threads)
  a.(concurrency) a.(single_chip) a.(chip_weight) a.(poll_cpu) a.(op) a.(mixed_ratio)
  a.(report_interval) a.(mbind) a.(drv_ext) a.(import_rtp) a.(seed) a.(fixed_offset)
  a.(timeout_ms) a.(query_chips).
Definition set_server_ip (x : option cstr) (a : argument) : argument :=
  mk_args a.(dev_name) a.(dev_name2) a.(dual_dev) x a.(server_port) a.(trans_mode) a.(event_mode)
  a.(value_size) a.(send_size) a.(qps) a.(duration_sec) a.(jetty_count) a.(affinity_mode)
  a.(source_cpus) a.(destination_cpus) a.(cacheable) a.(threads) a.(concurrency) a.(single_chip)
  a.(chip_weight) a.(poll_cpu) a.(op) a.(mixed_ratio) a.(report_interval) a.(mbind) a.(drv_ext)
  a.(import_rtp) a.(seed) a.(fixed_offset) a.(timeout_ms) a.(query_chips).
Definition set_server_port (x : Z) (a : argument) : argument :=
  mk_args a.(dev_name) a.(dev_name2) a.(dual_dev) a.(server_ip) x a.(trans_mode) a.(event_mode)
  a.(value_size) a.(send_size) a.(qps) a.(duration_sec) a.(jetty_count) a.(affinity_mode)
  a.(source_cpus) a.(destination_cpus) a.(cacheable) a.(threads) a.(concurrency) a.(single_chip)
  a.(chip_weight) a.(poll_cpu) a.(op) a.(mixed_ratio) a.(report_interval) a.(mbind) a.(drv_ext)
  a.(import_rtp) a.(seed) a.(fixed_offset) a.(timeout_ms) a.(query_chips).
Definition set_trans_mode (x : Z) (a : argument) : argument :=
  mk_args a.(dev_name) a.(dev_name2) a.(dual_dev) a.(server_ip) a.(server_port) x a.(event_mode)
  a.(value_size) a.(send_size) a.(qps) a.(duration_sec) a.(jetty_count) a.(affinity_mode)
  a.(source_cpus) a.(destination_cpus) a.(cacheable) a.(threads) a.(concurrency) a.(single_chip)
  a.(chip_weight) a.(poll_cpu) a.(op) a.(mixed_ratio) a.(report_interval) a.(mbind) a.(drv_ext)
  a.(import_rtp) a.(seed) a.(fixed_offset) a.(timeout_ms) a.(query_chips).
Definition set_event_mode (x : bool) (a : argument) : argument :=
  mk_args a.(dev_name) a.(dev_name2) a.(dual_dev) a.(server_ip) a.(server_port) a.(trans_mode) x
  a.(value_size) a.(send_size) a.(qps) a.(duration_sec) a.(jetty_count) a.(affinity_mode)
  a.(source_cpus) a.(destination_cpus) a.(cacheable) a.(threads) a.(concurrency) a.(single_chip)
  a.(chip_weight) a.(poll_cpu) a.(op) a.(mixed_ratio) a.(report_interval) a.(mbind) a.(drv_ext)
  a.(import_rtp) a.(seed) a.(fixed_offset) a.(timeout_ms) a.(query_chips).
Definition set_value_size (x : Z) (a : argument) : argument :=
  mk_args a.(dev_name) a.(dev_name2) a.(dual_dev) a.(server_ip) a.(server_port) a.(trans_mode)
  a.(event_mode) x a.(send_size) a.(qps) a.(duration_sec) a.(jetty_count) a.(affinity_mode)
  a.(source_cpus) a.(destination_cpus) a.(cacheable) a.(threads) a.(concurrency) a.(single_chip)
  a.(chip_weight) a.(poll_cpu) a.(op) a.(mixed_ratio) a.(report_interval) a.(mbind) a.(drv_ext)
  a.(import_rtp) a.(seed) a.(fixed_offset) a.(timeout_ms) a.(query_chips).
Definition set_send_size (x : Z) (a : argument) : argument :=
  mk_args a.(dev_name) a.(dev_name2) a.(dual_dev) a.(server_ip) a.(server_port) a.(trans_mode)
  a.(event_mode) a.(value_size) x a.(qps) a.(duration_sec) a.(jetty_count) a.(affinity_mode)
  a.(source_cpus) a.(destination_cpus) a.(cacheable) a.(threads) a.(concurrency) a.(single_chip)
  a.(chip_weight) a.(poll_cpu) a.(op) a.(mixed_ratio) a.(report_interval) a.(mbind) a.(drv_ext)
  a.(import_rtp) a.(seed) a.(fixed_offset) a.(timeout_ms) a.(query_chips).
Definition set_qps (x : Z) (a : argument) : argument :=
  mk_args a.(dev_name) a.(dev_name2) a.(dual_dev) a.(server_ip) a.(server_port) a.(trans_mode)
  a.(event_mode) a.(value_size) a.(send_size) x a.(duration_sec) a.(jetty_count)
  a.(affinity_mode) a.(source_cpus) a.(destination_cpus) a.(cacheable) a.(threads)
  a.(concurrency) a.(single_chip) a.(chip_weight) a.(poll_cpu) a.(op) a.(mixed_ratio)
  a.(report_interval) a.(mbind) a.(drv_ext) a.(import_rtp) a.(seed) a.(fixed_offset)
  a.(timeout_ms) a.(query_chips).
Definition set_duration_sec (x : Z) (a : argument) : argument :=
  mk_args a.(dev_name) a.(dev_name2) a.(dual_dev) a.(server_ip) a.(server_port) a.(trans_mode)
  a.(event_mode) a.(value_size) a.(send_size) a.(qps) x a.(jetty_count) a.(affinity_mode)
  a.(source_cpus) a.(destination_cpus) a.(cacheable) a.(threads) a.(concurrency) a.(single_chip)
  a.(chip_weight) a.(poll_cpu) a.(op) a.(mixed_ratio) a.(report_interval) a.(mbind) a.(drv_ext)
  a.(import_rtp) a.(seed) a.(fixed_offset) a.(timeout_ms) a.(query_chips).
Definition set_jetty_count (x : Z) (a : argument) : argument :=
  mk_args a.(dev_name) a.(dev_name2) a.(dual_dev) a.(server_ip) a.(server_port) a.(trans_mode)
  a.(event_mode) a.(value_size) a.(send_size) a.(qps) a.(duration_sec) x a.(affinity_mode)
  a.(source_cpus) a.(destination_cpus) a.(cacheable) a.(threads) a.(concurrency) a.(single_chip)
  a.(chip_weight) a.(poll_cpu) a.(op) a.(mixed_ratio) a.(report_interval) a.(mbind) a.(drv_ext)
  a.(import_rtp) a.(seed) a.(fixed_offset) a.(timeout_ms) a.(query_chips).
Definition set_affinity_mode (x : Z) (a : argument) : argument :=
  mk_args a.(dev_name) a.(dev_name2) a.(dual_dev) a.(server_ip) a.(server_port) a.(trans_mode)
  a.(event_mode) a.(value_size) a.(send_size) a.(qps) a.(duration_sec) a.(jetty_count) x
  a.(source_cpus) a.(destination_cpus) a.(cacheable) a.(threads) a.(concurrency) a.(single_chip)
  a.(chip_weight) a.(poll_cpu) a.(op) a.(mixed_ratio) a.(report_interval) a.(mbind) a.(drv_ext)
  a.(import_rtp) a.(seed) a.(fixed_offset) a.(timeout_ms) a.(query_chips).
Definition set_source_cpus (x : option cstr) (a : argument) : argument :=
  mk_args a.(dev_name) a.(dev_name2) a.(dual_dev) a.(server_ip) a.(server_port) a.(trans_mode)
  a.(event_mode) a.(value_size) a.(send_size) a.(qps) a.(duration_sec) a.(jetty_count)
  a.(affinity_mode) x a.(destination_cpus) a.(cacheable) a.(threads) a.(concurrency)
  a.(single_chip) a.(chip_weight) a.(poll_cpu) a.(op) a.(mixed_ratio) a.(report_interval)
  a.(mbind) a.(drv_ext) a.(import_rtp) a.(seed) a.(fixed_offset) a.(timeout_ms) a.(query_chips).
Definition set_destination_cpus (x : option cstr) (a : argument) : argument :=
  mk_args a.(dev_name) a.(dev_name2) a.(dual_dev) a.(server_ip) a.(server_port) a.(trans_mode)
  a.(event_mode) a.(value_size) a.(send_size) a.(qps) a.(duration_sec) a.(jetty_count)
  a.(affinity_mode) a.(source_cpus) x a.(cacheable) a.(threads) a.(concurrency) a.(single_chip)
  a.(chip_weight) a.(poll_cpu) a.(op) a.(mixed_ratio) a.(report_interval) a.(mbind) a.(drv_ext)
  a.(import_rtp) a.(seed) a.(fixed_offset) a.(timeout_ms) a.(query_chips).
Definition set_cacheable (x : bool) (a : argument) : argument :=
  mk_args a.(dev_name) a.(dev_name2) a.(dual_dev) a.(server_ip) a.(server_port) a.(trans_mode)
  a.(event_mode) a.(value_size) a.(send_size) a.(qps) a.(duration_sec) a.(jetty_count)
  a.(affinity_mode) a.(source_cpus) a.(destination_cpus) x a.(threads) a.(concurrency)
  a.(single_chip) a.(chip_weight) a.(poll_cpu) a.(op) a.(mixed_ratio) a.(report_interval)
  a.(mbind) a.(drv_ext) a.(import_rtp) a.(seed) a.(fixed_offset) a.(timeout_ms) a.(query_chips).
Definition set_threads (x : Z) (a : argument) : argument :=
  mk_args a.(dev_name) a.(dev_name2) a.(dual_dev) a.(server_ip) a.(server_port) a.(trans_mode)
  a.(event_mode) a.(value_size) a.(send_size) a.(qps) a.(duration_sec) a.(jetty_count)
  a.(affinity_mode) a.(source_cpus) a.(destination_cpus) a.(cacheable) x a.(concurrency)
  a.(single_chip) a.(chip_weight) a.(poll_cpu) a.(op) a.(mixed_ratio) a.(report_interval)
  a.(mbind) a.(drv_ext) a.(import_rtp) a.(seed) a.(fixed_offset) a.(timeout_ms) a.(query_chips).
Definition set_concurrency (x : Z) (a : argument) : argument :=
  mk_args a.(dev_name) a.(dev_name2) a.(dual_dev) a.(server_ip) a.(server_port) a.(trans_mode)
  a.(event_mode) a.(value_size) a.(send_size) a.(qps) a.(duration_sec) a.(jetty_count)
  a.(affinity_mode) a.(source_cpus) a.(destination_cpus) a.(cacheable) a.(threads) x
  a.(single_chip) a.(chip_weight) a.(poll_cpu) a.(op) a.(mixed_ratio) a.(report_interval)
  a.(mbind) a.(drv_ext) a.(import_rtp) a.(seed) a.(fixed_offset) a.(timeout_ms) a.(query_chips).
Definition set_single_chip (x : Z) (a : argument) : argument :=
  mk_args a.(dev_name) a.(dev_name2) a.(dual_dev) a.(server_ip) a.(server_port) a.(trans_mode)
  a.(event_mode) a.(value_size) a.(send_size) a.(qps) a.(duration_sec) a.(jetty_count)
  a.(affinity_mode) a.(source_cpus) a.(destination_cpus) a.(cacheable) a.(threads)
  a.(concurrency) x a.(chip_weight) a.(poll_cpu) a.(op) a.(mixed_ratio) a.(report_interval)
  a.(mbind) a.(drv_ext) a.(import_rtp) a.(seed) a.(fixed_offset) a.(timeout_ms) a.(query_chips).
Definition set_chip_weight (x : Z * Z) (a : argument) : argument :=
  mk_args a.(dev_name) a.(dev_name2) a.(dual_dev) a.(server_ip) a.(server_port) a.(trans_mode)
  a.(event_mode) a.(value_size) a.(send_size) a.(qps) a.(duration_sec) a.(jetty_count)
  a.(affinity_mode) a.(source_cpus) a.(destination_cpus) a.(cacheable) a.(threads)
  a.(concurrency) a.(single_chip) x a.(poll_cpu) a.(op) a.(mixed_ratio) a.(report_interval)
  a.(mbind) a.(drv_ext) a.(import_rtp) a.(seed) a.(fixed_offset) a.(timeout_ms) a.(query_chips).
Definition set_poll_cpu (x : Z) (a : argument) : argument :=
  mk_args a.(dev_name) a.(dev_name2) a.(dual_dev) a.(server_ip) a.(server_port) a.(trans_mode)
  a.(event_mode) a.(value_size) a.(send_size) a.(qps) a.(duration_sec) a.(jetty_count)
  a.(affinity_mode) a.(source_cpus) a.(destination_cpus) a.(cacheable) a.(threads)
  a.(concurrency) a.(single_chip) a.(chip_weight) x a.(op) a.(mixed_ratio) a.(report_interval)
  a.(mbind) a.(drv_ext) a.(import_rtp) a.(seed) a.(fixed_offset) a.(timeout_ms) a.(query_chips).
Definition set_op (x : Z) (a : argument) : argument :=
  mk_args a.(dev_name) a.(dev_name2) a.(dual_dev) a.(server_ip) a.(server_port) a.(trans_mode)
  a.(event_mode) a.(value_size) a.(send_size) a.(qps) a.(duration_sec) a.(jetty_count)
  a.(affinity_mode) a.(source_cpus) a.(destination_cpus) a.(cacheable) a.(threads)
  a.(concurrency) a.(single_chip) a.(chip_weight) a.(poll_cpu) x a.(mixed_ratio)
  a.(report_interval) a.(mbind) a.(drv_ext) a.(import_rtp) a.(seed) a.(fixed_offset)
  a.(timeout_ms) a.(query_chips).
Definition set_mixed_ratio (x : Z) (a : argument) : argument :=
  mk_args a.(dev_name) a.(dev_name2) a.(dual_dev) a.(server_ip) a.(server_port) a.(trans_mode)
  a.(event_mode) a.(value_size) a.(send_size) a.(qps) a.(duration_sec) a.(jetty_count)
  a.(affinity_mode) a.(source_cpus) a.(destination_cpus) a.(cacheable) a.(threads)
  a.(concurrency) a.(single_chip) a.(chip_weight) a.(poll_cpu) a.(op) x a.(report_interval)
  a.(mbind) a.(drv_ext) a.(import_rtp) a.(seed) a.(fixed_offset) a.(timeout_ms) a.(query_chips).
Definition set_report_interval (x : Z) (a : argument) : argument :=
  mk_args a.(dev_name) a.(dev_name2) a.(dual_dev) a.(server_ip) a.(server_port) a.(trans_mode)
  a.(event_mode) a.(value_size) a.(send_size) a.(qps) a.(duration_sec) a.(jetty_count)
  a.(affinity_mode) a.(source_cpus) a.(destination_cpus) a.(cacheable) a.(threads)
  a.(concurrency) a.(single_chip) a.(chip_weight) a.(poll_cpu) a.(op) a.(mixed_ratio) x a.(mbind)
  a.(drv_ext) a.(import_rtp) a.(seed) a.(fixed_offset) a.(timeout_ms) a.(query_chips).
Definition set_mbind (x : bool) (a : argument) : argument :=
  mk_args a.(dev_name) a.(dev_name2) a.(dual_dev) a.(server_ip) a.(server_port) a.(trans_mode)
  a.(event_mode) a.(value_size) a.(send_size) a.(qps) a.(duration_sec) a.(jetty_count)
  a.(affinity_mode) a.(source_cpus) a.(destination_cpus) a.(cacheable) a.(threads)
  a.(concurrency) a.(single_chip) a.(chip_weight) a.(poll_cpu) a.(op) a.(mixed_ratio)
  a.(report_interval) x a.(drv_ext) a.(import_rtp) a.(seed) a.(fixed_offset) a.(timeout_ms)
  a.(query_chips).
Definition set_drv_ext (x : bool) (a : argument) : argument :=
  mk_args a.(dev_name) a.(dev_name2) a.(dual_dev) a.(server_ip) a.(server_port) a.(trans_mode)
  a.(event_mode) a.(value_size) a.(send_size) a.(qps) a.(duration_sec) a.(jetty_count)
  a.(affinity_mode) a.(source_cpus) a.(destination_cpus) a.(cacheable) a.(threads)
  a.(concurrency) a.(single_chip) a.(chip_weight) a.(poll_cpu) a.(op) a.(mixed_ratio)
  a.(report_interval) a.(mbind) x a.(import_rtp) a.(seed) a.(fixed_offset) a.(timeout_ms)
  a.(query_chips).
Definition set_import_rtp (x : bool) (a : argument) : argument :=
  mk_args a.(dev_name) a.(dev_name2) a.(dual_dev) a.(server_ip) a.(server_port) a.(trans_mode)
  a.(event_mode) a.(value_size) a.(send_size) a.(qps) a.(duration_sec) a.(jetty_count)
  a.(affinity_mode) a.(source_cpus) a.(destination_cpus) a.(cacheable) a.(threads)
  a.(concurrency) a.(single_chip) a.(chip_weight) a.(poll_cpu) a.(op) a.(mixed_ratio)
  a.(report_interval) a.(mbind) a.(drv_ext) x a.(seed) a.(fixed_offset) a.(timeout_ms)
  a.(query_chips).
Definition set_seed (x : Z) (a : argument) : argument :=
  mk_args a.(dev_name) a.(dev_name2) a.(dual_dev) a.(server_ip) a.(server_port) a.(trans_mode)
  a.(event_mode) a.(value_size) a.(send_size) a.(qps) a.(duration_sec) a.(jetty_count)
  a.(affinity_mode) a.(source_cpus) a.(destination_cpus) a.(cacheable) a.(threads)
  a.(concurrency) a.(single_chip) a.(chip_weight) a.(poll_cpu) a.(op) a.(mixed_ratio)
  a.(report_interval) a.(mbind) a.(drv_ext) a.(import_rtp) x a.(fixed_offset) a.(timeout_ms)
  a.(query_chips).
Definition set_fixed_offset (x : bool) (a : argument) : argument :=
  mk_args a.(dev_name) a.(dev_name2) a.(dual_dev) a.(server_ip) a.(server_port) a.(trans_mode)
  a.(event_mode) a.(value_size) a.(send_size) a.(qps) a.(duration_sec) a.(jetty_count)
  a.(affinity_mode) a.(source_cpus) a.(destination_cpus) a.(cacheable) a.(threads)
  a.(concurrency) a.(single_chip) a.(chip_weight) a.(poll_cpu) a.(op) a.(mixed_ratio)
  a.(report_interval) a.(mbind) a.(drv_ext) a.(import_rtp) a.(seed) x a.(timeout_ms)
  a.(query_chips).
Definition set_timeout_ms (x : Z) (a : argument) : argument :=
  mk_args a.(dev_name) a.(dev_name2) a.(dual_dev) a.(server_ip) a.(server_port) a.(trans_mode)
  a.(event_mode) a.(value_size) a.(send_size) a.(qps) a.(duration_sec) a.(jetty_count)
  a.(affinity_mode) a.(source_cpus) a.(destination_cpus) a.(cacheable) a.(threads)
  a.(concurrency) a.(single_chip) a.(chip_weight) a.(poll_cpu) a.(op) a.(mixed_ratio)
  a.(report_interval) a.(mbind) a.(drv_ext) a.(import_rtp) a.(seed) a.(fixed_offset) x
  a.(query_chips).
Definition set_query_chips (x : bool) (a : argument) : argument :=
  mk_args a.(dev_name) a.(dev_name2) a.(dual_dev) a.(server_ip) a.(server_port) a.(trans_mode)
  a.(event_mode) a.(value_size) a.(send_size) a.(qps) a.(duration_sec) a.(jetty_count)
  a.(affinity_mode) a.(source_cpus) a.(destination_cpus) a.(cacheable) a.(threads)
  a.(concurrency) a.(single_chip) a.(chip_weight) a.(poll_cpu) a.(op) a.(mixed_ratio)
  a.(report_interval) a.(mbind) a.(drv_ext) a.(import_rtp) a.(seed) a.(fixed_offset)
  a.(timeout_ms) x.

Definition PAGE_SIZE : Z := 4096.
Definition DEFAULT_VALUE_SIZE : Z := 4 * 1024 * 1024.
Definition DEFAULT_SEND_SIZE : Z := 8 * 1024 * 1024.
Definition DEFAULT_PORT : Z := 13857.
Definition DEFAULT_TIMEOUT_MS : Z := 5000.
Definition MAX_JETTY_COUNT : Z := 200.
Definition DATA_WINDOW_PER_THREAD : Z := 4.
Definition SERVER_DATA_WINDOW : Z := 4.
Definition KV_WR_PER_SEND : Z := 2.
Definition KV_SENDS_PER_REQ : Z := 10.
Definition KV_WR_PER_REQ : Z := KV_SENDS_PER_REQ * KV_WR_PER_SEND.
Definition KV_MAX_CONCURRENCY : Z := 10.

Definition OP_WRITE : Z := 0.
Definition OP_GET : Z := 1.
Definition OP_MIXED : Z := 2.
Definition AFF_AFFINITY : Z := 0.
Definition AFF_ANTI : Z := 1.
Definition AFF_NONE : Z := 2.

(** ** [validate_input_params] *)

(** [strncmp(dev_name, "bonding", 7) == 0] *)
Definition is_bonding (dev : cstr) : bool := bool_decide (take 7 dev = lit "bonding").

(** Accepted (return value 0)? *)
Definition validate_input_params (a : argument) : bool :=
  let '(w1, w2) := a.(chip_weight) in
  match a.(dev_name) with
  | None => false
  | Some dev =>
      if (a.(value_size) =? 0) || (UINT32_MAX <? a.(value_size)) || (a.(duration_sec) =? 0) ||
         (a.(jetty_count) =? 0) || (MAX_JETTY_COUNT <? a.(jetty_count)) then false
      else if (a.(send_size) <? 2 * PAGE_SIZE) || negb (Z.land a.(send_size) 1 =? 0) ||
              negb ((a.(send_size) / 2) mod PAGE_SIZE =? 0) || (UINT32_MAX <? a.(send_size)) then false
      else if (a.(op) =? OP_GET) &&
              ((a.(value_size) <? 2 * PAGE_SIZE) || negb (a.(value_size) mod (2 * PAGE_SIZE) =? 0) ||
               (UINT32_MAX <? a.(value_size) / 2)) then false
      else if a.(dual_dev) && bool_decide (a.(dev_name2) = None) then false
      else if (a.(threads) =? 0) || (512 <? a.(threads)) then false
      else if (a.(concurrency) <? 1) || (KV_MAX_CONCURRENCY <? a.(concurrency)) then false
      else if (a.(single_chip) <? 0) || (2 <? a.(single_chip)) then false
      else if u32 (w1 + w2) =? 0 then false
      else if negb (a.(single_chip) =? 0) && (negb (w1 =? 1) || negb (w2 =? 1)) then false
      else if (a.(op) <? OP_WRITE) || (OP_MIXED <? a.(op)) then false
      else if 100 <? a.(mixed_ratio) then false
      else if 3 <? a.(trans_mode) then false
      else if is_bonding dev && (negb (a.(trans_mode) =? 0) && negb (a.(trans_mode) =? 1)) then false
      else true
  end.

(** ** [parse_arguments] *)

Definition default_args : argument :=
  {| dev_name := None; dev_name2 := None; dual_dev := false; server_ip := None;
     server_port := DEFAULT_PORT; trans_mode := 0; event_mode := false;
     value_size := DEFAULT_VALUE_SIZE; send_size := DEFAULT_SEND_SIZE; qps := 0;
     duration_sec := 10; jetty_count := 1; affinity_mode := AFF_AFFINITY;
     source_cpus := None; destination_cpus := None; cacheable := false; threads := 1;
     concurrency := 1; single_chip := 0; chip_weight := (1, 1); poll_cpu := -1; op := OP_WRITE;
     mixed_ratio := 50; report_interval := 1; mbind := true; drv_ext := true;
     import_rtp := false; seed := 42; fixed_offset := false; timeout_ms := DEFAULT_TIMEOUT_MS;
     query_chips := false |}.

(** The conversion [%u] of [sscanf]: like [strtoul] in base 10, stored in 32
    bits. *)
Definition scan_u (s : cstr) : option (Z * cstr) :=
  match strto 10 s with
  | None => None
  | Some (_, _, rest) => Some (u32 (strtoull 10 s), rest)
  end.

(** [sscanf(s, "%u:%u", &w1, &w2) == 2] *)
Definition scan_weights (s : cstr) : option (Z * Z) :=
  match scan_u s with
  | Some (w1, c :: rest) =>
      if code c =? 58 then
        match scan_u rest with Some (w2, _) => Some (w1, w2) | None => None end
      else None
  | _ => None
  end.

(** One option: [None] is an early [return -1]. *)
Definition apply_option (c : Z) (optarg : cstr) (a : argument) : option argument :=
  if c =? 109 then Some (set_trans_mode (u32 (strtoull 0 optarg)) a)
  else if c =? 100 then Some (set_dev_name (Some optarg) a)
  else if c =? 105 then Some (set_server_ip (Some optarg) a)
  else if c =? 112 then Some (set_server_port (u32 (strtoull 0 optarg)) a)
  else if c =? 101 then Some (set_event_mode true a)
  else if c =? 1000 then Some (set_value_size (parse_size optarg) a)
  else if c =? 1035 then Some (set_send_size (parse_size optarg) a)
  else if c =? 1036 then
    match scan_weights optarg with Some w => Some (set_chip_weight w a) | None => None end
  else if c =? 1001 then Some (set_qps (strtoull 0 optarg) a)
  else if c =? 1002 then Some (set_duration_sec (strtoull 0 optarg) a)
  else if c =? 1003 then Some (set_jetty_count (u32 (strtoull 0 optarg)) a)
  else if c =? 1004 then
    if decide (optarg = lit "affinity") then Some (set_affinity_mode AFF_AFFINITY a)
    else if decide (optarg = lit "anti" \/ optarg = lit "anti-affinity")
    then Some (set_affinity_mode AFF_ANTI a)
    else if decide (optarg = lit "none") then Some (set_affinity_mode AFF_NONE a)
    else None
  else if c =? 1005 then Some (set_source_cpus (Some optarg) a)
  else if c =? 1006 then Some (set_destination_cpus (Some optarg) a)
  else if c =? 1007 then Some (set_cacheable true a)
  else if c =? 1008 then Some (set_threads (u32 (strtoull 0 optarg)) a)
  else if c =? 1009 then
    if decide (optarg = lit "write") then Some (set_op OP_WRITE a)
    else if decide (optarg = lit "get") then Some (set_op OP_GET a)
    else if decide (optarg = lit "mixed") then Some (set_op OP_MIXED a)
    else None
  else if c =? 1010 then Some (set_mixed_ratio (u32 (strtoull 0 optarg)) a)
  else if c =? 1012 then Some (set_report_interval (u32 (strtoull 0 optarg)) a)
  else if c =? 1015 then Some (set_mbind true a)
  else if c =? 1031 then Some (set_mbind false a)
  else if c =? 1019 then Some (set_drv_ext true a)
  else if c =? 1030 then Some (set_drv_ext false a)
  else if c =? 1023 then Some (set_import_rtp true a)
  else if c =? 1016 then Some (set_seed (u32 (strtoull 0 optarg)) a)
  else if c =? 1017 then Some (set_fixed_offset true a)
  else if c =? 1018 then Some (set_timeout_ms (i32 (strtol 0 optarg)) a)
  else if c =? 1024 then Some (set_query_chips true a)
  else if c =? 1025 then Some (set_concurrency (i32 (strtol 0 optarg)) a)
  else if c =? 1026 then Some (set_single_chip (i32 (strtol 0 optarg)) a)
  else if c =? 1032 then Some (set_poll_cpu (i32 (strtol 0 optarg)) a)
  else if c =? 1033 then Some (set_dual_dev true a)
  else if c =? 1034 then Some (set_dev_name2 (Some optarg) a)
  else None.

Fixpoint apply_options (opts : list (Z * cstr)) (a : argument) : option argument :=
  match opts with
  | [] => Some a
  | (c, optarg) :: opts => a' ← apply_option c optarg a; apply_options opts a'
  end.

(** [parse_arguments]: [opts] is what [getopt_long] yields, [operands] whether
    operands are left ([optind < argc]).  The arguments when the return value
    is 0 ([strdup] finds memory). *)
Definition parse_arguments (argc : Z) (opts : list (Z * cstr)) (operands : bool) : option argument :=
  if argc =? 1 then None
  else
    a ← apply_options opts default_args;
    if operands then None
    else
      let a := match a.(dev_name) with
               | None => set_dev_name (Some (lit "bonding0")) a
               | Some _ => a
               end in
      if validate_input_params a then Some a else None.

(** ** Buffer layout *)

(** [ROUND_UP(x, a)] for a power of two [a]. *)
Definition ROUND_UP (x a : Z) : Z := Z.land (x +u64 a -u64 1) (u64 (Z.lnot (a -u64 1))).

(** [data_len] and [buf_len]. *)
Definition layout_client_buffer (a : argument) : Z * Z :=
  let window_reqs := if negb (a.(op) =? OP_MIXED) && (0 <? a.(concurrency)) then a.(concurrency) else 1 in
  let data_len :=
    if a.(op) =? OP_WRITE then a.(threads) *u64 window_reqs *u64 a.(send_size)
    else if a.(op) =? OP_GET
    then a.(threads) *u64 window_reqs *u64 a.(value_size) *u64 KV_SENDS_PER_REQ
    else a.(threads) *u64 DATA_WINDOW_PER_THREAD *u64 a.(value_size) in
  (data_len, ROUND_UP data_len PAGE_SIZE).

Definition layout_server_buffer (a : argument) : Z * Z :=
  let size := a.(value_size) in
  let data_len :=
    if a.(op) =? OP_WRITE then KV_SENDS_PER_REQ *u64 KV_MAX_CONCURRENCY *u64 a.(send_size)
    else if a.(op) =? OP_GET then KV_SENDS_PER_REQ *u64 KV_MAX_CONCURRENCY *u64 size
    else SERVER_DATA_WINDOW *u64 size in
  (data_len, ROUND_UP data_len PAGE_SIZE).

(** ** Decimal text *)

Fixpoint dec_onto (fuel : nat) (n : Z) (l : cstr) : cstr :=
  match fuel with
  | O => l
  | S fuel =>
      let l' := ascii_of_N (Z.to_N (48 + n mod 10)) :: l in
      if n <? 10 then l' else dec_onto fuel (n / 10) l'
  end.

(** The decimal text of [n] in front of [l]. *)
Definition dec (n : Z) (l : cstr) : cstr := dec_onto (S (Z.to_nat (Z.log2 n))) n l.

Lemma code_ascii n : 0 <= n < 256 -> code (ascii_of_N (Z.to_N n)) = n.
Proof. intros. unfold code. rewrite N_ascii_embedding by lia. lia. Qed.

Lemma digit_value_dec d : 0 <= d < 10 -> digit_value (ascii_of_N (Z.to_N (48 + d))) = d.
Proof.
  intros. unfold digit_value. rewrite code_ascii by lia.
  destruct (Z.leb_spec 48 (48 + d)), (Z.leb_spec (48 + d) 57); simpl; lia.
Qed.

Lemma dec_onto_digits fuel : forall n l, 0 <= n < 2 ^ Z.of_nat fuel ->
  digits 10 0 (dec_onto fuel n l) = digits 10 n l.
Proof.
  induction fuel as [|fuel IH]; intros n l Hn; [by replace n with 0 by (simpl in Hn; lia)|].
  cbn [dec_onto]. pose proof (Z.mod_pos_bound n 10 ltac:(lia)) as Hm.
  assert (Hd : forall a, digits 10 a (ascii_of_N (Z.to_N (48 + n mod 10)) :: l) = digits 10 (a * 10 + n mod 10) l).
  { intros a. cbn [digits]. unfold is_digit. rewrite digit_value_dec by done.
    by destruct (Z.ltb_spec (n mod 10) 10); [|lia]. }
  rewrite Nat2Z.inj_succ, Z.pow_succ_r in Hn by lia.
  destruct (Z.ltb_spec n 10) as [H|H].
  - rewrite Hd. f_equal. rewrite Z.mod_small by lia. lia.
  - rewrite IH by dlia. rewrite Hd. f_equal. dlia.
Qed.

Lemma dec_fuel n : 0 <= n -> 0 <= n < 2 ^ Z.of_nat (S (Z.to_nat (Z.log2 n))).
Proof.
  intros. split; [done|]. pose proof (Z.log2_nonneg n).
  rewrite Nat2Z.inj_succ, Z2Nat.id by done.
  destruct (Z.eq_dec n 0) as [->|]; [done|]. by apply log2_bounds; lia.
Qed.

(** Text that a number in front of it does not swallow. *)
Definition stops (rest : cstr) : Prop := match rest with [] => True | c :: _ => is_digit 10 c = false end.

Lemma digits_dec n rest : 0 <= n -> stops rest -> digits 10 0 (dec n rest) = (n, rest).
Proof.
  intros Hn Hr. unfold dec. rewrite dec_onto_digits by (by apply dec_fuel).
  destruct rest as [|c rest]; [done|]. simpl in *. by rewrite Hr.
Qed.

(** The first character is a digit, and not 0 unless the number is. *)
Lemma dec_onto_head fuel : forall n l, 0 <= n < 2 ^ Z.of_nat fuel -> (fuel <> 0)%nat ->
  exists d l', dec_onto fuel n l = ascii_of_N (Z.to_N (48 + d)) :: l' /\ 0 <= d < 10 /\ (0 < n -> 0 < d).
Proof.
  induction fuel as [|fuel IH]; intros n l Hn Hf; [done|]. cbn [dec_onto].
  pose proof (Z.mod_pos_bound n 10 ltac:(lia)).
  rewrite Nat2Z.inj_succ, Z.pow_succ_r in Hn by lia.
  destruct (Z.ltb_spec n 10) as [H1|H1].
  - exists (n mod 10), l. split; [done|]. split; [done|]. rewrite Z.mod_small by lia. lia.
  - destruct (IH (n / 10) (ascii_of_N (Z.to_N (48 + n mod 10)) :: l)) as (d & l' & -> & Hd & Hp).
    + dlia.
    + intros ->. simpl in Hn. lia.
    + exists d, l'. split; [done|]. split; [done|]. intros _. apply Hp. dlia.
Qed.

Lemma dec_head n l : 0 <= n ->
  exists d l', dec n l = ascii_of_N (Z.to_N (48 + d)) :: l' /\ 0 <= d < 10 /\ (0 < n -> 0 < d).
Proof. intros. apply dec_onto_head; [by apply dec_fuel|done]. Qed.

(** A decimal number is what the [strto] functions read. *)
Lemma strto_dec base n rest :
  0 <= n -> stops rest -> base = 10 \/ (base = 0 /\ 0 < n) ->
  strto base (dec n rest) = Some (false, n, rest).
Proof.
  intros Hn Hr Hb. pose proof (digits_dec n rest Hn Hr) as HD.
  destruct (dec_head n rest Hn) as (d & l' & E & Hd & Hp). rewrite E in *.
  set (c := ascii_of_N (Z.to_N (48 + d))) in *.
  assert (Hc : code c = 48 + d) by (apply code_ascii; lia).
  unfold strto. cbn [skip_spaces]. unfold is_space. rewrite Hc.
  destruct (Z.eqb_spec (48 + d) 32); [lia|]. destruct (Z.leb_spec (48 + d) 13); [lia|].
  rewrite andb_false_r. simpl orb. cbv iota. rewrite Hc.
  destruct (Z.eqb_spec (48 + d) 45); [lia|]. destruct (Z.eqb_spec (48 + d) 43); [lia|].
  assert (Hbase : (if base =? 0 then if code c =? 48 then 8 else 10 else base) = 10).
  { destruct Hb as [->|[-> Hb]]; [done|]. simpl. rewrite Hc. destruct (Z.eqb_spec (48 + d) 48); [lia|done]. }
  assert (Hpre : forall x y z, (code c =? 48) && x && y && ((base =? 0) || (base =? 16)) = z -> z = false).
  { intros x y z <-. destruct Hb as [->|[-> Hb]]; [by rewrite andb_false_r|].
    rewrite Hc. destruct (Z.eqb_spec (48 + d) 48); [lia|done]. }
  assert (Hfin : (if is_digit 10 c then let '(v, rest0) := digits 10 0 (c :: l') in Some (false, v, rest0) else None)
                 = Some (false, n, rest)).
  { unfold is_digit, c at 1. rewrite digit_value_dec by done.
    destruct (Z.ltb_spec d 10); [|lia]. by rewrite HD. }
  destruct l' as [|x [|y l']]; [by rewrite Hbase|by rewrite Hbase|].
  destruct (_ && _ && _ && _) eqn:Ep; [by apply Hpre in Ep|]. by rewrite Hbase.
Qed.

(** The suffixes of [--value-size] and [--send-size]. *)
Definition units : list (ascii * Z) :=
  [("K"%char, 2 ^ 10); ("k"%char, 2 ^ 10); ("M"%char, 2 ^ 20); ("m"%char, 2 ^ 20);
   ("G"%char, 2 ^ 30); ("g"%char, 2 ^ 30)].

Lemma strtoull_dec base n rest :
  0 <= n < 2 ^ 64 -> stops rest -> base = 10 \/ (base = 0 /\ 0 < n) -> strtoull base (dec n rest) = n.
Proof.
  intros Hn Hr Hb. unfold strtoull. rewrite strto_dec by (done || lia).
  unfold UINT64_MAX. destruct (Z.ltb_spec (2 ^ 64 - 1) n); lia.
Qed.

Lemma unit_stops c k junk : (c, k) ∈ units -> stops (c :: junk).
Proof. intros H. unfold units in H. repeat (apply elem_of_cons in H as [[= -> ->]|H]; [done|]). by apply elem_of_nil in H. Qed.

(** [parse_size] reads what a user writes: a decimal number alone stands
    for itself and one followed by K, M or G (either case) for that many
    units, as long as the product fits 64 bits; a number followed by anything
    else is rejected (as 0).  What comes after the unit letter is ignored, and
    a product that does not fit is reduced modulo 2^64. *)
Theorem parse_size_reads n c k junk :
  0 < n < 2 ^ 64 -> is_digit 10 c = false ->
  parse_size (dec n []) = n /\
  ((c, k) ∈ units -> parse_size (dec n (c :: junk)) = (n * k) mod 2 ^ 64) /\
  ((c, k) ∈ units -> n * k < 2 ^ 64 -> parse_size (dec n (c :: junk)) = n * k) /\
  ((forall k', (c, k') ∉ units) -> parse_size (dec n (c :: junk)) = 0).
Proof.
  intros Hn Hc.
  assert (HS : forall rest, stops rest -> strto 0 (dec n rest) = Some (false, n, rest) /\ strtoull 0 (dec n rest) = n)
    by (intros rest Hr; split; [apply strto_dec|apply strtoull_dec]; auto; lia).
  assert (HU : (c, k) ∈ units -> parse_size (dec n (c :: junk)) = (n * k) mod 2 ^ 64).
  { intros H. pose proof (unit_stops c k junk H) as Hs. unfold parse_size.
    destruct (HS _ Hs) as [-> ->]. unfold units in H.
    repeat (apply elem_of_cons in H as [[= -> ->]|H]; [reflexivity|]). by apply elem_of_nil in H. }
  split; [|split; [done|split]].
  - unfold parse_size. by destruct (HS [] I) as [-> ->].
  - intros H Hl. rewrite HU by done. apply Z.mod_small.
    assert (0 < k); [|nia]. unfold units in H. repeat (apply elem_of_cons in H as [[= -> ->]|H]; [done|]).
    by apply elem_of_nil in H.
  - intros H. unfold parse_size. destruct (HS (c :: junk) Hc) as [-> ->].
    assert (Hne : forall a k', (a, k') ∈ units -> (code c =? code a) = false).
    { intros a k' Ha. apply Z.eqb_neq. intros E. apply (H k').
      replace c with a; [done|]. unfold code in E.
      rewrite <- (ascii_N_embedding a), <- (ascii_N_embedding c). f_equal. lia. }
    unfold units in Hne. change 75 with (code "K"%char). change 107 with (code "k"%char).
    change 77 with (code "M"%char). change 109 with (code "m"%char).
    change 71 with (code "G"%char). change 103 with (code "g"%char).
    rewrite (Hne "K"%char (2 ^ 10)), (Hne "k"%char (2 ^ 10)), (Hne "M"%char (2 ^ 20)),
      (Hne "m"%char (2 ^ 20)), (Hne "G"%char (2 ^ 30)), (Hne "g"%char (2 ^ 30)) by set_solver. done.
Qed.

(** [8M], and a size that wraps around to 4096. *)
Lemma parse_size_reads_witness :
  parse_size (lit "8M") = 8388608 /\ parse_size (lit "18014398509481988K") = 4096.
Proof.
  split.
  - apply (parse_size_reads 8 "M"%char (2 ^ 20) []); [lia|reflexivity|unfold units; set_solver|lia].
  - exact (proj1 (proj2 (parse_size_reads 18014398509481988 "K"%char (2 ^ 10) []
      ltac:(lia) eq_refl)) ltac:(unfold units; set_solver)).
Defined.

(** ** CPU lists *)

Definition no_sep (c : ascii) : Prop := c <> comma /\ c <> dash.

Lemma dec_no_sep fuel : forall n l, 0 <= n -> exists l', dec_onto fuel n l = l' ++ l /\ Forall no_sep l'.
Proof.
  induction fuel as [|fuel IH]; intros n l Hn; [by exists []|]. cbn [dec_onto].
  pose proof (Z.mod_pos_bound n 10 ltac:(lia)) as Hm.
  set (c := ascii_of_N (Z.to_N (48 + n mod 10))).
  assert (Hc : no_sep c).
  { assert (H : code c = 48 + n mod 10) by (apply code_ascii; lia).
    assert (Hk : code comma = 44 /\ code dash = 45) by done.
    split; intros E; rewrite E in H; lia. }
  destruct (n <? 10).
  - exists [c]. split; [done|]. by constructor.
  - destruct (IH (n / 10) (c :: l)) as (l' & -> & Hl'); [dlia|].
    exists (l' ++ [c]). rewrite <- app_assoc. split; [done|]. apply Forall_app. split; [done|by constructor].
Qed.

(** The text of [n], alone. *)
Lemma dec_app n l : 0 <= n -> dec n l = dec n [] ++ l /\ Forall no_sep (dec n []).
Proof.
  intros Hn. unfold dec. set (f := S _).
  assert (H : forall fuel n l, dec_onto fuel n l = dec_onto fuel n [] ++ l).
  { clear. induction fuel as [|fuel IH]; intros n l; [done|]. cbn [dec_onto].
    destruct (n <? 10); [done|]. rewrite IH, (IH _ [_]). by rewrite <- app_assoc. }
  split; [apply H|]. destruct (dec_no_sep f n [] Hn) as (l' & -> & Hl'). by rewrite app_nil_r.
Qed.

Lemma atoi_dec n rest : 0 <= n < 2 ^ 31 -> stops rest -> atoi (dec n rest) = n.
Proof.
  intros Hn Hr. unfold atoi, strtol. rewrite strto_dec by (auto; lia).
  rewrite Z.min_r by lia. apply i32_small. lia.
Qed.

(** How ranges are written. *)
Definition print_range (r : Z * Z) : cstr :=
  if fst r =? snd r then dec (fst r) [] else dec (fst r) (dash :: dec (snd r) []).

Fixpoint print_ranges (rs : list (Z * Z)) : cstr :=
  match rs with
  | [] => []
  | [r] => print_range r
  | r :: rs => print_range r ++ comma :: print_ranges rs
  end.

Definition range_ok (r : Z * Z) : Prop := 0 <= fst r <= snd r /\ snd r < 2 ^ 31.

Definition expand (r : Z * Z) : list Z := push_range (fst r) (snd r) (Z.to_nat (snd r - fst r + 1)).

Lemma split_none s : Forall no_sep s -> split_at dash s = None.
Proof.
  induction 1 as [|c s [_ Hc] _ IH]; [done|]. simpl. rewrite decide_False by done. by rewrite IH.
Qed.

Lemma split_dash s rest : Forall no_sep s -> split_at dash (s ++ dash :: rest) = Some (s, rest).
Proof.
  induction 1 as [|c s [_ Hc] _ IH]; [done|]. simpl. rewrite decide_False by done. by rewrite IH.
Qed.

Lemma part_range_print r : range_ok r -> part_range (print_range r) = r.
Proof.
  destruct r as [lo hi]. intros [H1 H2]. unfold print_range, part_range. simpl in *.
  destruct (Z.eqb_spec lo hi) as [->|Hne].
  - rewrite split_none by (apply (dec_app hi []); lia). by rewrite atoi_dec by (done || lia).
  - destruct (dec_app lo (dash :: dec hi [])) as [-> Hl]; [lia|].
    rewrite split_dash by done. by rewrite !atoi_dec by (done || lia).
Qed.

Lemma print_no_comma r : range_ok r -> Forall (fun c => c <> comma) (print_range r) /\ print_range r <> [].
Proof.
  destruct r as [lo hi]. intros [H1 H2]. unfold print_range. simpl in *.
  assert (Hd : forall n, 0 <= n -> Forall (fun c => c <> comma) (dec n [])).
  { intros n Hn. eapply Forall_impl; [by apply (dec_app n [])|]. by intros c []. }
  assert (Hne : forall n l, 0 <= n -> dec n l <> []).
  { intros n l Hn. destruct (dec_head n l Hn) as (d & l' & -> & _). done. }
  destruct (lo =? hi); (split; [|apply Hne; lia]); [apply Hd; lia|].
  destruct (dec_app lo (dash :: dec hi [])) as [-> _]; [lia|].
  apply Forall_app. split; [apply Hd; lia|]. constructor; [done|apply Hd; lia].
Qed.

Lemma strtok_run s : forall cur rest, Forall (fun c => c <> comma) s ->
  strtok comma cur (s ++ rest) = strtok comma (cur ++ s) rest.
Proof.
  induction s as [|c s IH]; intros cur rest H; [by rewrite app_nil_r|].
  apply Forall_cons in H as [Hc H]. simpl. rewrite decide_False by done.
  rewrite IH by done. by rewrite <- app_assoc.
Qed.

Lemma strtok_print rs : Forall range_ok rs -> strtok comma [] (print_ranges rs) = print_range <$> rs.
Proof.
  induction rs as [|r rs IH]; intros H; [done|]. apply Forall_cons in H as [Hr H].
  destruct (print_no_comma r Hr) as [Hc Hn].
  destruct rs as [|r' rs].
  - cbn [print_ranges]. rewrite <- (app_nil_r (print_range r)) at 1. rewrite strtok_run by done.
    simpl. destruct (print_range r); [done|]. done.
  - change (print_ranges (r :: r' :: rs)) with (print_range r ++ comma :: print_ranges (r' :: rs)).
    rewrite strtok_run by done. rewrite fmap_cons, <- IH by done. cbn [strtok app].
    rewrite decide_True by done. by destruct (print_range r).
Qed.

Lemma push_range_take lo hi k : push_range lo hi k = take k (push_range lo hi (Z.to_nat (hi - lo + 1))).
Proof.
  unfold push_range. rewrite <- fmap_take, take_seq. do 2 f_equal. lia.
Qed.

Lemma length_push lo hi k : length (push_range lo hi k) = Nat.min k (Z.to_nat (hi - lo + 1)).
Proof. unfold push_range. by rewrite length_fmap, length_seq. Qed.

Lemma parse_parts_print max_out rs : forall out,
  Forall range_ok rs -> (length out <= max_out)%nat ->
  parse_parts (print_range <$> rs) out max_out = take max_out (out ++ concat (expand <$> rs)).
Proof.
  induction rs as [|[lo hi] rs IH]; intros out H Hl; csimpl.
  { rewrite app_nil_r. by rewrite take_ge by lia. }
  apply Forall_cons in H as [Hr H]. rewrite part_range_print by done. destruct Hr as [Hr1 Hr2]. simpl in *.
  destruct (Nat.leb_spec max_out (length out)) as [Hm|Hm].
  { rewrite take_app_le, take_ge by lia. done. }
  destruct (Z.ltb_spec lo 0); [lia|]. destruct (Z.ltb_spec hi lo); [lia|]. simpl.
  rewrite IH by (done || rewrite length_app, length_push; lia).
  rewrite push_range_take. change (push_range lo hi (Z.to_nat (hi - lo + 1))) with (expand (lo, hi)).
  rewrite <- (app_assoc out), (take_app_ge out), (take_app_ge out) by lia. f_equal.
  set (k := (max_out - length out)%nat). set (e := expand (lo, hi)).
  destruct (decide (length e <= k)%nat) as [He|He].
  - by rewrite (take_ge e) by lia.
  - rewrite (take_app_le (take k e)) by (rewrite length_take; lia).
    rewrite take_take, Nat.min_id. by rewrite take_app_le by lia.
Qed.

Lemma parse_parts_length parts max_out : forall out,
  (length out <= max_out)%nat -> (length (parse_parts parts out max_out) <= max_out)%nat.
Proof.
  induction parts as [|p parts IH]; intros out H; simpl; [done|].
  destruct (max_out <=? length out)%nat; [done|]. destruct (part_range p) as [lo hi].
  destruct (_ || _); apply IH; [done|]. rewrite length_app, length_push. lia.
Qed.

(** [parse_cpu_list] inverts the notation [4,6-8,12]: a list of ranges,
    written out, is read back as the CPUs of the ranges in order, cut at the
    size of the output array; and whatever the text, the array is never
    overrun. *)
Theorem parse_cpu_list_roundtrip rs max_out :
  Forall range_ok rs ->
  parse_cpu_list (Some (print_ranges rs)) max_out = take max_out (concat (expand <$> rs)) /\
  forall text, (length (parse_cpu_list text max_out) <= max_out)%nat.
Proof.
  intros H. split.
  - simpl. rewrite strtok_print by done. by rewrite parse_parts_print by (done || simpl; lia).
  - intros [s|]; simpl; [apply parse_parts_length|]; simpl; lia.
Qed.

Lemma parse_cpu_list_roundtrip_witness :
  parse_cpu_list (Some (lit "4,6-8,12")) 1024 = [4; 6; 7; 8; 12] /\
  parse_cpu_list (Some (lit "4,6-8,12")) 3 = [4; 6; 7].
Proof.
  assert (Hr : Forall range_ok [(4, 4); (6, 8); (12, 12)]) by (repeat constructor; simpl; lia).
  split.
  - exact (proj1 (parse_cpu_list_roundtrip [(4, 4); (6, 8); (12, 12)] 1024 Hr)).
  - exact (proj1 (parse_cpu_list_roundtrip [(4, 4); (6, 8); (12, 12)] 3 Hr)).
Defined.

(** ** Accepted parameters *)

(** Every member is in the range of its C type. *)
Record typed (a : argument) : Prop := {
  ty_trans : is_u32 a.(trans_mode);
  ty_value : is_u64 a.(value_size);
  ty_send : is_u64 a.(send_size);
  ty_qps : is_u64 a.(qps);
  ty_duration : is_u64 a.(duration_sec);
  ty_jetty : is_u32 a.(jetty_count);
  ty_threads : is_u32 a.(threads);
  ty_w1 : is_u32 (fst a.(chip_weight));
  ty_w2 : is_u32 (snd a.(chip_weight));
  ty_mixed : is_u32 a.(mixed_ratio);
  ty_seed : is_u32 a.(seed);
  ty_mode : 0 <= a.(affinity_mode) <= 2;
}.

(** What the checks leave. *)
Record valid (a : argument) : Prop := {
  v_typed : typed a;
  v_dev : exists dev, a.(dev_name) = Some dev /\
            (take 7 dev = lit "bonding" -> a.(trans_mode) = 0 \/ a.(trans_mode) = 1);
  v_dev2 : a.(dual_dev) = true -> a.(dev_name2) <> None;
  v_value : 1 <= a.(value_size) < 2 ^ 32;
  v_send : exists h, a.(send_size) = 2 * PAGE_SIZE * h /\ 1 <= h /\ a.(send_size) < 2 ^ 32;
  v_get : a.(op) = OP_GET -> exists h, a.(value_size) = 2 * PAGE_SIZE * h /\ 1 <= h;
  v_duration : 1 <= a.(duration_sec);
  v_jetty : 1 <= a.(jetty_count) <= MAX_JETTY_COUNT;
  v_threads : 1 <= a.(threads) <= 512;
  v_conc : 1 <= a.(concurrency) <= KV_MAX_CONCURRENCY;
  v_single : 0 <= a.(single_chip) <= 2;
  v_weights : u32 (fst a.(chip_weight) + snd a.(chip_weight)) <> 0;
  v_excl : a.(single_chip) <> 0 -> a.(chip_weight) = (1, 1);
  v_op : a.(op) = OP_WRITE \/ a.(op) = OP_GET \/ a.(op) = OP_MIXED;
  v_mixed : a.(mixed_ratio) <= 100;
  v_mode : a.(trans_mode) <= 3;
}.

Lemma digit_value_nonneg c : 0 <= digit_value c.
Proof.
  unfold digit_value. destruct (Z.leb_spec 48 (code c)), (Z.leb_spec (code c) 57), (Z.leb_spec 97 (code c)),
    (Z.leb_spec (code c) 122), (Z.leb_spec 65 (code c)), (Z.leb_spec (code c) 90); simpl; lia.
Qed.

Lemma digits_nonneg base s : forall acc, 0 <= base -> 0 <= acc -> 0 <= fst (digits base acc s).
Proof.
  induction s as [|c s IH]; intros acc Hb Ha; simpl; [done|].
  destruct (is_digit base c); [|done]. apply IH; [done|]. pose proof (digit_value_nonneg c). nia.
Qed.

Lemma strto_nonneg base s neg v rest : 0 <= base -> strto base s = Some (neg, v, rest) -> 0 <= v.
Proof.
  intros Hb. unfold strto. destruct (match skip_spaces s with [] => _ | _ => _ end) as [n s1].
  assert (Hfin : forall b s2, 0 <= b ->
    match s2 with
    | [] => None
    | c :: _ => if is_digit b c then let '(v, rest) := digits b 0 s2 in Some (n, v, rest) else None
    end = Some (neg, v, rest) -> 0 <= v).
  { intros b s2 Hb2 E. destruct s2 as [|c s2]; [done|]. destruct (is_digit b c); [|done].
    pose proof (digits_nonneg b (c :: s2) 0 Hb2 ltac:(lia)) as H.
    destruct (digits b 0 (c :: s2)). simplify_eq. exact H. }
  destruct (match s1 with [] => _ | _ => _ end) as [b s2] eqn:Eb. apply Hfin.
  destruct s1 as [|z [|x [|d s1]]]; simplify_eq; try done.
  - destruct (base =? 0); [|done]. by destruct (code z =? 48).
  - destruct (base =? 0); [|done]. by destruct (code z =? 48).
  - destruct (_ && _ && _ && _); simplify_eq; [done|]. destruct (base =? 0); [|done]. by destruct (code z =? 48).
Qed.

Lemma strtoull_range base s : 0 <= base -> is_u64 (strtoull base s).
Proof.
  intros Hb. unfold strtoull, is_u64. destruct (strto base s) as [[[neg v] rest]|] eqn:E; [|lia].
  apply strto_nonneg in E; [|done]. unfold UINT64_MAX.
  destruct (Z.ltb_spec (2 ^ 64 - 1) v); [lia|]. destruct neg; [apply u64_range|lia].
Qed.

Lemma parse_size_range s : is_u64 (parse_size s).
Proof.
  unfold parse_size. destruct (strto 0 s) as [[[neg v] rest]|]; [|unfold is_u64; lia].
  pose proof (strtoull_range 0 s ltac:(lia)) as H.
  destruct rest as [|c rest]; [done|]. repeat case_match; try apply u64_range. unfold is_u64. lia.
Qed.

Lemma scan_weights_range s w : scan_weights s = Some w -> is_u32 (fst w) /\ is_u32 (snd w).
Proof.
  unfold scan_weights, scan_u. intros E. repeat case_match; simplify_eq; split; apply u32_range.
Qed.

Lemma u32_is_u32 x : is_u32 (u32 x).
Proof. apply u32_range. Qed.

Lemma apply_option_typed c optarg a a' : apply_option c optarg a = Some a' -> typed a -> typed a'.
Proof.
  intros E T. unfold apply_option in E.
  repeat (destruct (c =? _); [simplify_eq; first
    [ by destruct T; constructor; simpl;
      auto using u32_is_u32, parse_size_range, strtoull_range, Z.le_refl
    | idtac ]|]); try done.
  - destruct (scan_weights optarg) as [w|] eqn:Ew; [|done]. simplify_eq.
    apply scan_weights_range in Ew as [? ?]. destruct T. by constructor.
  - unfold AFF_AFFINITY, AFF_ANTI, AFF_NONE in *. repeat case_decide; simplify_eq;
      destruct T; constructor; simpl; auto; lia.
  - repeat case_decide; simplify_eq; destruct T; by constructor.
Qed.

Lemma apply_options_typed opts : forall a a', apply_options opts a = Some a' -> typed a -> typed a'.
Proof.
  induction opts as [|[c o] opts IH]; intros a a' E T; simpl in E; [by simplify_eq|].
  destruct (apply_option c o a) as [a1|] eqn:E1; [|done]. simpl in E.
  eapply IH; [exact E|]. by eapply apply_option_typed.
Qed.

Lemma default_typed : typed default_args.
Proof. constructor; vm_compute; intuition discriminate. Qed.

(** A failed test of a chain of rejections. *)
Ltac reject H :=
  match type of H with
  | context [if ?b then false else _] => let E := fresh "R" in destruct b eqn:E; [done|]
  end.

Lemma land_1_even x : Z.land x 1 = x mod 2.
Proof. change 1 with (2 ^ 1 - 1). rewrite land_mask by lia. done. Qed.

Lemma validate_valid a : typed a -> validate_input_params a = true -> valid a.
Proof.
  intros T H. unfold validate_input_params in H. destruct (chip_weight a) as [w1 w2] eqn:Ew.
  destruct (dev_name a) as [dev|] eqn:Ed; [|done]. repeat reject H. clear H.
  rewrite land_1_even in *. unfold OP_GET, OP_WRITE, OP_MIXED, PAGE_SIZE, UINT32_MAX, KV_MAX_CONCURRENCY in *.
  rewrite ?orb_false_iff, ?andb_false_iff, ?orb_false_iff, ?negb_false_iff, ?Z.eqb_eq, ?Z.eqb_neq, ?Z.ltb_ge in *.
  destruct_and?. pose proof T as T0. destruct T0. unfold is_u32, is_u64 in *.
  constructor; rewrite ?Ew; simpl; unfold OP_GET, OP_WRITE, OP_MIXED, PAGE_SIZE; try done; try lia.
  - exists dev. split; [done|]. unfold is_bonding in *. intros Hb. rewrite bool_decide_eq_true_2 in * by done. lia.
  - intros Hd Hn. rewrite Hd, bool_decide_eq_true_2 in * by done. naive_solver.
  - exists (send_size a / 8192). split; [dlia|]. split; [dlia|lia].
  - intros Ho. assert (value_size a mod (2 * 4096) = 0 /\ 2 * 4096 <= value_size a) as [Hm Hl].
    { rewrite Ho in *. naive_solver. }
    exists (value_size a / 8192). split; dlia.
  - intros Hs. f_equal; naive_solver.
Qed.

(** C37: whatever options come in, [parse_arguments] accepts only parameters in
    range: 1 to 512 threads, 1 to 10 requests in flight, 1 to 200 jettys, a
    [value_size] below 4 GiB, a [send_size] that is a positive multiple of two
    pages (so that both halves of a send are page-aligned, and the same for
    [value_size] under [get]), consistent chip options, a known operation and
    transport mode. *)
Theorem parse_arguments_valid argc opts operands a :
  parse_arguments argc opts operands = Some a -> valid a.
Proof.
  unfold parse_arguments. intros E. destruct (argc =? 1); [done|].
  destruct (apply_options opts default_args) as [a1|] eqn:Ea; [|done]. simpl in E.
  destruct operands; [done|].
  pose proof (apply_options_typed _ _ _ Ea default_typed) as T.
  set (a2 := match dev_name a1 with Some _ => a1 | None => set_dev_name _ a1 end) in *.
  assert (T2 : typed a2).
  { unfold a2. destruct (dev_name a1); [done|]. destruct T. by constructor. }
  destruct (validate_input_params a2) eqn:Ev; [|done]. simplify_eq. by apply validate_valid.
Qed.

(** A [get] client with eight threads. *)
Definition demo_args : argument :=
  set_concurrency 4 (set_threads 8 (set_value_size 1048576 (set_op OP_GET
    (set_server_ip (Some (lit "10.0.0.1")) (set_dev_name (Some (lit "bonding0")) default_args))))).

Lemma parse_arguments_valid_witness : valid demo_args.
Proof.
  apply (parse_arguments_valid 13
    [(105, lit "10.0.0.1"); (1009, lit "get"); (1000, lit "1M"); (1008, lit "8"); (1025, lit "4")] false).
  vm_compute. reflexivity.
Defined.

(** ** Buffers *)

Lemma ROUND_UP_page x : 0 <= x < 2 ^ 64 - PAGE_SIZE ->
  x <= ROUND_UP x PAGE_SIZE < x + PAGE_SIZE /\ ROUND_UP x PAGE_SIZE mod PAGE_SIZE = 0.
Proof.
  unfold PAGE_SIZE. intros Hx. unfold ROUND_UP. rewrite (u64_small (x + 4096)), (u64_small (x + 4096 - 1)) by lia.
  rewrite (u64_small (4096 - 1)) by lia.
  assert (E : Z.land (x + 4096 - 1) (u64 (Z.lnot (4096 - 1))) = (x + 4096 - 1) / 4096 * 4096).
  { set (y := x + 4096 - 1). apply Z.bits_inj'. intros n Hn. rewrite Z.land_spec. unfold u64.
    change 4096 with (2 ^ 12). rewrite <- Z.shiftr_div_pow2, <- Z.shiftl_mul_pow2 by lia.
    rewrite Z.shiftl_spec by lia. rewrite Z.testbit_mod_pow2 by lia.
    change (2 ^ 12 - 1) with (Z.ones 12). rewrite Z.lnot_spec by lia. rewrite Z.testbit_ones_nonneg by lia.
    destruct (Z.ltb_spec n 12) as [H|H].
    - rewrite (Z.testbit_neg_r _ (n - 12)) by lia. simpl. by rewrite !andb_false_r.
    - rewrite Z.shiftr_spec by lia. replace (n - 12 + 12) with n by lia.
      destruct (Z.ltb_spec n 64) as [H'|H']; simpl; [by rewrite andb_true_r|].
      rewrite (testbit_ge y 64 n); [done|lia|unfold y; lia|lia]. }
  rewrite E. split; [dlia|]. by rewrite Z.mod_mul by lia.
Qed.

(** The sizes as products, without wrap-around. *)
Definition client_data_len (a : argument) : Z :=
  if a.(op) =? OP_WRITE then a.(threads) * a.(concurrency) * a.(send_size)
  else if a.(op) =? OP_GET then a.(threads) * a.(concurrency) * (a.(value_size) * 10)
  else a.(threads) * 4 * a.(value_size).

Definition server_data_len (a : argument) : Z :=
  if a.(op) =? OP_WRITE then 100 * a.(send_size)
  else if a.(op) =? OP_GET then 100 * a.(value_size)
  else 4 * a.(value_size).

Lemma valid_sizes a : valid a ->
  1 <= a.(threads) <= 512 /\ 1 <= a.(concurrency) <= 10 /\ 1 <= a.(value_size) < 2 ^ 32 /\
  8192 <= a.(send_size) < 2 ^ 32 /\ (a.(op) = 0 \/ a.(op) = 1 \/ a.(op) = 2).
Proof.
  intros []. destruct v_send0 as (h & -> & Hh & Hs). unfold KV_MAX_CONCURRENCY, PAGE_SIZE in *.
  repeat split; try lia. unfold OP_WRITE, OP_GET, OP_MIXED in *. tauto.
Qed.

Lemma mul_bounds x y m n : 1 <= x <= m -> 1 <= y <= n -> 1 <= x * y <= m * n.
Proof. intros. split; nia. Qed.

Lemma client_data_len_bound a : valid a -> 0 < client_data_len a < 2 ^ 48.
Proof.
  intros V. destruct (valid_sizes a V) as (H1 & H2 & H3 & H4 & H5). unfold client_data_len.
  pose proof (mul_bounds _ _ _ _ H1 H2) as Htc.
  pose proof (mul_bounds _ (send_size a) _ (2 ^ 32 - 1) Htc ltac:(lia)).
  pose proof (mul_bounds _ (value_size a * 10) _ ((2 ^ 32 - 1) * 10) Htc ltac:(lia)).
  pose proof (mul_bounds (threads a * 4) (value_size a) 2048 (2 ^ 32 - 1) ltac:(lia) ltac:(lia)).
  destruct (_ =? _); [lia|]. destruct (_ =? _); lia.
Qed.

Lemma layout_client_eq a : valid a -> fst (layout_client_buffer a) = client_data_len a.
Proof.
  intros V. pose proof (client_data_len_bound a V) as Hb. destruct (valid_sizes a V) as (H1 & H2 & H3 & H4 & H5).
  pose proof (mul_bounds _ _ _ _ H1 H2) as Htc.
  pose proof (mul_bounds _ (value_size a) _ (2 ^ 32 - 1) Htc ltac:(lia)) as Hv.
  unfold layout_client_buffer, client_data_len in *.
  unfold OP_WRITE, OP_GET, OP_MIXED, KV_SENDS_PER_REQ, DATA_WINDOW_PER_THREAD in *.
  simpl fst. destruct (Z.ltb_spec 0 (concurrency a)); [|lia].
  destruct H5 as [Ho|[Ho|Ho]]; rewrite Ho in *; cbn [Z.eqb Pos.eqb negb andb] in *.
  - rewrite (u64_small (threads a * concurrency a)), u64_small by lia. done.
  - rewrite (u64_small (threads a * concurrency a)), (u64_small (_ * value_size a)), u64_small by lia. lia.
  - rewrite (u64_small (threads a * 4)), u64_small by lia. done.
Qed.

Lemma layout_server_eq a : valid a ->
  fst (layout_server_buffer a) = server_data_len a /\ 0 < server_data_len a < 2 ^ 48.
Proof.
  intros V. destruct (valid_sizes a V) as (H1 & H2 & H3 & H4 & H5).
  unfold layout_server_buffer, server_data_len, OP_WRITE, OP_GET, KV_SENDS_PER_REQ, KV_MAX_CONCURRENCY, SERVER_DATA_WINDOW.
  simpl. change (10 *u64 10) with 100. destruct H5 as [Ho|[Ho|Ho]]; rewrite Ho; simpl; rewrite u64_small; nia.
Qed.

(** for accepted parameters the buffer sizes are the intended products
    (threads x concurrency x send_size for [write], ten value_size per request
    for [get], four values per thread for [mixed]; 100 sends or four values on
    the server), nothing wraps around, and the registered length is the data
    length rounded up to whole pages. *)
Theorem layout_sizes a :
  valid a ->
  fst (layout_client_buffer a) = client_data_len a /\
  fst (layout_server_buffer a) = server_data_len a /\
  (forall l, l = layout_client_buffer a \/ l = layout_server_buffer a ->
   fst l <= snd l < fst l + PAGE_SIZE /\ snd l mod PAGE_SIZE = 0 /\ 0 < snd l < 2 ^ 49).
Proof.
  intros V. destruct (layout_server_eq a V) as [Es Hs]. pose proof (layout_client_eq a V) as Ec.
  pose proof (client_data_len_bound a V) as Hc. split; [done|]. split; [done|].
  assert (H : forall x, 0 < x < 2 ^ 48 ->
    x <= ROUND_UP x PAGE_SIZE < x + PAGE_SIZE /\ ROUND_UP x PAGE_SIZE mod PAGE_SIZE = 0 /\
    0 < ROUND_UP x PAGE_SIZE < 2 ^ 49).
  { intros x Hx. destruct (ROUND_UP_page x) as [H1 H2]; [unfold PAGE_SIZE; lia|].
    unfold PAGE_SIZE in *. split; [done|]. split; [done|lia]. }
  intros l [->| ->].
  - change (snd (layout_client_buffer a)) with (ROUND_UP (fst (layout_client_buffer a)) PAGE_SIZE).
    apply H. by rewrite Ec.
  - change (snd (layout_server_buffer a)) with (ROUND_UP (fst (layout_server_buffer a)) PAGE_SIZE).
    apply H. by rewrite Es.
Qed.

Lemma layout_sizes_witness : layout_client_buffer demo_args = (335544320, 335544320) /\ server_data_len demo_args = 104857600.
Proof.
  assert (V : valid demo_args).
  { apply validate_valid; [|vm_compute; reflexivity]. constructor; vm_compute; intuition discriminate. }
  destruct (layout_sizes demo_args V) as (H1 & H2 & _). split; [|reflexivity].
  rewrite (surjective_pairing (layout_client_buffer demo_args)), H1. vm_compute. reflexivity.
Defined.
