(* ===== verification/Affinity.v ===== *)
(** * Affinity: CPUs, NUMA nodes and the choice of chips in
      [src/kv_bench.cpp]

    The machine is an input ([machine]: the number of CPUs and the entries of
    each CPU's sysfs directory, which do not change during a run, so the
    caches of [read_cpu_numa] and [get_num_numa_nodes] are not state here).
    The choices are functions of the arguments, the machine and the worker's
    generator state: automatic CPU selection, the chips of a synchronous
    round, and the weighted chip sequence of the sends of a request. *)

From Stdlib Require Import Ascii.
From Stdlib Require String.
Import String.StringSyntax.
From S2P Require Import Prelude Args.
From stdpp Require Import list.
#[local] Open Scope Z_scope.

Definition MAX_CPUS : nat := 1024.
Definition INVALID_CHIP : Z := 255.

(** ** Generator *)

(** xorshift32: the new state is also the result. *)
Definition rng_next (state : Z) : Z :=
  let x := state in
  let x := Z.lxor x (u32 (Z.shiftl x 13)) in
  let x := Z.lxor x (Z.shiftr x 17) in
  Z.lxor x (u32 (Z.shiftl x 5)).

(** ** Topology *)

Record machine := mk_machine {
  nproc : Z;                           (* sysconf(_SC_NPROCESSORS_CONF) *)
  cpu_dir : Z -> option (list cstr);   (* entries of /sys/devices/system/cpu/cpuN *)
}.

(** The first entry [node<digit>...]. *)
Fixpoint find_node (entries : list cstr) : Z :=
  match entries with
  | [] => -1
  | e :: entries =>
      match e !! 4%nat with
      | Some c =>
          if bool_decide (take 4 e = lit "node") && ((48 <=? code c) && (code c <=? 57))
          then atoi (drop 4 e) else find_node entries
      | None => find_node entries
      end
  end.

Definition read_cpu_numa (m : machine) (cpu : Z) : Z :=
  match m.(cpu_dir) cpu with None => -1 | Some entries => find_node entries end.

Definition enumerate_all_cpus (m : machine) (max_out : nat) : list Z :=
  Z.of_nat <$> seq 0 (Nat.min (Z.to_nat m.(nproc)) max_out).

(** The loop of [get_num_numa_nodes]: [seen] are the nodes met so far. *)
Fixpoint count_nodes (m : machine) (cpus seen : list Z) (n : Z) : Z :=
  match cpus with
  | [] => n
  | c :: cpus =>
      let node := read_cpu_numa m c in
      if (0 <=? node) && (node <? 64) && negb (bool_decide (node ∈ seen))
      then count_nodes m cpus (node :: seen) (n + 1)
      else count_nodes m cpus seen n
  end.

Definition get_num_numa_nodes (m : machine) : Z :=
  let n := count_nodes m (enumerate_all_cpus m MAX_CPUS) [] 0 in
  if 0 <? n then n else 1.

Definition numa_to_chip (m : machine) (numa : Z) : Z :=
  let numa_count := get_num_numa_nodes m in
  if (numa <? 0) || (numa_count <=? 0) then -1
  else
    let first_half := (numa_count + 1) / 2 in
    if numa <? first_half then 1 else 2.

(** The loop of [chip_to_first_numa] from node [n], [steps] nodes to go. *)
Fixpoint first_numa_from (m : machine) (chip : Z) (n : Z) (steps : nat) : Z :=
  match steps with
  | O => -1
  | S steps => if numa_to_chip m n =? chip then n else first_numa_from m chip (n + 1) steps
  end.

Definition chip_to_first_numa (m : machine) (chip : Z) : Z :=
  first_numa_from m chip 0 (Z.to_nat (get_num_numa_nodes m)).

Definition cpu_to_chip (m : machine) (cpu : Z) : Z := numa_to_chip m (read_cpu_numa m cpu).

(** ** Automatic CPU selection *)

(** [std::swap]-like exchange of two entries. *)
Definition swap (i j : nat) (l : list Z) : list Z :=
  match l !! i, l !! j with
  | Some x, Some y => <[j := x]> (<[i := y]> l)
  | _, _ => l
  end.

(** The partial shuffle: for [i] from [start], [steps] times, exchange [i]
    with a random later entry. *)
Fixpoint shuffle (rng : Z) (l : list Z) (i steps : nat) : Z * list Z :=
  match steps with
  | O => (rng, l)
  | S steps =>
      let rng := rng_next rng in
      let j := (i + Z.to_nat (rng mod (Z.of_nat (length l - i))))%nat in
      shuffle rng (swap i j l) (S i) steps
  end.

(** How many CPUs to take per chip. *)
Definition per_chip (a : argument) (is_client : bool) : nat :=
  let target := if 0 <? a.(threads) then a.(threads) else 1 in
  let target := if negb is_client && (8 <? target) then 8 else target in
  let per := u32 (target + 1) / 2 in
  Z.to_nat (if per <? 1 then 1 else per).

Definition auto_select_cpus (a : argument) (m : machine) (is_client : bool) (max_out : nat) : list Z :=
  if negb (a.(affinity_mode) =? AFF_AFFINITY) then enumerate_all_cpus m max_out
  else
    let all := enumerate_all_cpus m MAX_CPUS in
    let c1 := filter (fun c => cpu_to_chip m c = 1) all in
    let c2 := filter (fun c => cpu_to_chip m c = 2) all in
    let per := per_chip a is_client in
    let rng := Z.lxor a.(seed) 2654435769 in
    let '(rng, c1) := shuffle rng c1 0 (Nat.min (length c1) per) in
    let '(rng, c2) := shuffle rng c2 0 (Nat.min (length c2) per) in
    let out := take max_out (take per c1) in
    let out := out ++ take (max_out - length out) (take per c2) in
    match out with
    | [] => enumerate_all_cpus m max_out
    | _ => out
    end.

Definition my_cpu_list (a : argument) (m : machine) (is_client : bool) (max_out : nat) : list Z :=
  let list := if is_client then a.(source_cpus) else a.(destination_cpus) in
  match parse_cpu_list list max_out with
  | [] => auto_select_cpus a m is_client max_out
  | out => out
  end.

(** The first positive chip of a list of CPUs. *)
Fixpoint first_chip (m : machine) (cpus : list Z) : Z :=
  match cpus with
  | [] => -1
  | c :: cpus => let chip := cpu_to_chip m c in if 0 <? chip then chip else first_chip m cpus
  end.

Definition first_dst_chip (a : argument) (m : machine) : Z :=
  first_chip m (my_cpu_list a m false MAX_CPUS).

Definition auto_poll_cpu (a : argument) (m : machine) (is_client : bool) : Z :=
  let used := my_cpu_list a m is_client MAX_CPUS in
  let free := filter (fun c => c ∉ used) (enumerate_all_cpus m MAX_CPUS) in
  match free with
  | [] => -1
  | _ =>
      let rng := rng_next (Z.lxor a.(seed) 1374496523) in
      default (-1) (free !! Z.to_nat (rng mod Z.of_nat (length free)))
  end.

(** ** The chips of a round *)

(** [arr[rng % n]] with the generator advanced; [None] when the array is empty
    (division by zero). *)
Definition pick (rng : Z) (arr : list Z) : option (Z * Z) :=
  let rng := rng_next rng in
  c ← arr !! Z.to_nat (rng mod Z.of_nat (length arr));
  Some (c, rng).

Definition other_chip (c : Z) : Z := if c =? 1 then 2 else 1.

(** [(src_a, src_b, dst)] and the worker's generator. *)
Definition pick_round_chips (a : argument) (m : machine) (is_client : bool) (wid rng : Z)
    : option (Z * Z * Z * Z) :=
  let all_cpus := enumerate_all_cpus m MAX_CPUS in
  let mine := my_cpu_list a m is_client MAX_CPUS in
  let dst_chip := first_dst_chip a m in
  let dst_chip := if dst_chip <? 0 then wid mod 2 + 1 else dst_chip in
  if a.(affinity_mode) =? AFF_AFFINITY then
    let my_chip := match mine !! Z.to_nat (wid mod Z.of_nat (length mine)) with
                   | Some c => cpu_to_chip m c
                   | None => -1
                   end in
    let my_chip := if my_chip <? 0 then wid mod 2 + 1 else my_chip in
    Some (my_chip, other_chip my_chip, dst_chip, rng)
  else if a.(affinity_mode) =? AFF_ANTI then
    let pool := match mine with [] => all_cpus | _ => mine end in
    '(c0, rng) ← pick rng pool;
    let ch0 := cpu_to_chip m c0 in
    let src_a := if 0 <? ch0 then ch0 else wid mod 2 + 1 in
    let cands := if 0 <? ch0 then filter (fun c => cpu_to_chip m c = other_chip ch0) pool else [] in
    '(c1, rng) ← pick rng (match cands with [] => pool | _ => cands end);
    let ch1 := cpu_to_chip m c1 in
    let src_b := if 0 <? ch1 then ch1 else other_chip src_a in
    Some (src_a, src_b, dst_chip, rng)
  else
    '(c0, rng) ← pick rng all_cpus;
    '(c1, rng) ← pick rng all_cpus;
    '(c2, rng) ← pick rng all_cpus;
    let ch0 := cpu_to_chip m c0 in
    let ch1 := cpu_to_chip m c1 in
    let ch2 := cpu_to_chip m c2 in
    Some (if 0 <? ch0 then ch0 else 1, if 0 <? ch1 then ch1 else 2, if 0 <? ch2 then ch2 else 1, rng).

(** ** The chip of a send *)

(** The loop of [pick_weighted_chip] at step [i] with [c1], [c2] sends given to
    the two chips, [steps] steps before the one asked for. *)
Fixpoint weighted_loop (w1 w2 total : Z) (steps : nat) (i c1 c2 : Z) : Z :=
  let want1 := u32 (u32 (i + 1) * w1) in
  let want2 := u32 (u32 (i + 1) * w2) in
  let def1 := i32 (u32 (want1 - u32 (c1 * total))) in
  let def2 := i32 (u32 (want2 - u32 (c2 * total))) in
  if def2 <=? def1 then
    match steps with O => 1 | S steps => weighted_loop w1 w2 total steps (u32 (i + 1)) (u32 (c1 + 1)) c2 end
  else
    match steps with O => 2 | S steps => weighted_loop w1 w2 total steps (u32 (i + 1)) c1 (u32 (c2 + 1)) end.

Definition pick_weighted_chip (a : argument) (send_idx : Z) : Z :=
  let '(w1, w2) := a.(chip_weight) in
  let total := u32 (w1 + w2) in
  if total =? 0 then 1
  else if w2 =? 0 then 1
  else if w1 =? 0 then 2
  else weighted_loop w1 w2 total (Z.to_nat send_idx) 0 0 0.

(** [(src, dst)] of a send and the worker's generator. *)
Definition pick_send_chip (a : argument) (m : machine) (wid rng send_idx : Z) : option (Z * Z * Z) :=
  let dst_chip := first_dst_chip a m in
  let dst_chip := if dst_chip <? 0 then wid mod 2 + 1 else dst_chip in
  let single := (1 <=? a.(single_chip)) && (a.(single_chip) <=? 2) in
  '(src, dst, rng) ←
    (if a.(affinity_mode) =? AFF_AFFINITY then
       let c := if single then a.(single_chip) else pick_weighted_chip a send_idx in
       Some (c, c, rng)
     else if a.(affinity_mode) =? AFF_ANTI then
       let all_cpus := enumerate_all_cpus m MAX_CPUS in
       let mine := my_cpu_list a m true MAX_CPUS in
       '(c0, rng) ← pick rng (match mine with [] => all_cpus | _ => mine end);
       let ch0 := cpu_to_chip m c0 in
       Some (if 0 <? ch0 then ch0 else wid mod 2 + 1, dst_chip, rng)
     else
       let all_cpus := enumerate_all_cpus m MAX_CPUS in
       '(c0, rng) ← pick rng all_cpus;
       '(c1, rng) ← pick rng all_cpus;
       let ch0 := cpu_to_chip m c0 in
       let ch1 := cpu_to_chip m c1 in
       Some (if 0 <? ch0 then ch0 else 1, if 0 <? ch1 then ch1 else 1, rng));
  if negb a.(drv_ext) && negb ((a.(affinity_mode) =? AFF_AFFINITY) && single)
  then Some (INVALID_CHIP, INVALID_CHIP, rng)
  else Some (src, dst, rng).

(** ** The two chips *)

Lemma num_nodes_pos m : 1 <= get_num_numa_nodes m.
Proof. unfold get_num_numa_nodes. destruct (Z.ltb_spec 0 (count_nodes m (enumerate_all_cpus m MAX_CPUS) [] 0)); lia. Qed.

Lemma numa_to_chip_eq m n :
  numa_to_chip m n = if n <? 0 then -1 else if n <? (get_num_numa_nodes m + 1) / 2 then 1 else 2.
Proof.
  unfold numa_to_chip. pose proof (num_nodes_pos m).
  destruct (Z.leb_spec (get_num_numa_nodes m) 0); [lia|]. by rewrite orb_false_r.
Qed.

Lemma chip_range m n : numa_to_chip m n = -1 \/ numa_to_chip m n = 1 \/ numa_to_chip m n = 2.
Proof. rewrite numa_to_chip_eq. destruct (n <? 0); [|destruct (n <? _)]; auto. Qed.

Lemma first_numa_from_eq m chip k : forall n,
  0 <= n -> 
  let r := first_numa_from m chip n k in
  (r = -1 /\ forall j, n <= j < n + Z.of_nat k -> numa_to_chip m j <> chip) \/
  (n <= r < n + Z.of_nat k /\ numa_to_chip m r = chip /\ forall j, n <= j < r -> numa_to_chip m j <> chip).
Proof.
  induction k as [|k IH]; intros n Hn r; [left; split; [done|]; lia|].
  unfold r. cbn [first_numa_from]. destruct (Z.eqb_spec (numa_to_chip m n) chip) as [E|E].
  - right. split; [lia|]. split; [done|lia].
  - destruct (IH (n + 1) ltac:(lia)) as [[H1 H2]|(H1 & H2 & H3)]; [left|right].
    + split; [done|]. intros j Hj. destruct (Z.eq_dec j n) as [->|]; [done|apply H2; lia].
    + split; [lia|]. split; [done|]. intros j Hj. destruct (Z.eq_dec j n) as [->|]; [done|apply H3; lia].
Qed.

(** The two-chip model.  Of [n] NUMA nodes the first [ceil(n/2)] are on chip
    1 and the others on chip 2, and [chip_to_first_numa] finds the first node
    of a chip: node 0 for chip 1, node [ceil(n/2)] for chip 2, none for chip 2
    of a single-node machine or for any other number. *)
Theorem chip_model m :
  (forall n, 0 <= n < get_num_numa_nodes m -> numa_to_chip m n = 1 \/ numa_to_chip m n = 2) /\
  chip_to_first_numa m 1 = 0 /\
  chip_to_first_numa m 2 = (if get_num_numa_nodes m =? 1 then -1 else (get_num_numa_nodes m + 1) / 2) /\
  (forall c, c <> 1 -> c <> 2 -> chip_to_first_numa m c = -1) /\
  (forall c n, 0 <= n -> chip_to_first_numa m c = n -> numa_to_chip m n = c).
Proof.
  pose proof (num_nodes_pos m) as Hp. set (N := get_num_numa_nodes m) in *.
  assert (HF := fun c => first_numa_from_eq m c (Z.to_nat N) 0 ltac:(lia)). cbv zeta in HF.
  assert (Hc : forall c, chip_to_first_numa m c = first_numa_from m c 0 (Z.to_nat N)) by done.
  assert (Hn : forall n, 0 <= n -> numa_to_chip m n = if n <? (N + 1) / 2 then 1 else 2).
  { intros n H. rewrite numa_to_chip_eq. by destruct (Z.ltb_spec n 0); [lia|]. }
  split; [|split; [|split; [|split]]].
  - intros n [H _]. rewrite Hn by done. destruct (n <? _); auto.
  - rewrite Hc. destruct (HF 1) as [[_ H]|(H1 & H2 & H3)].
    + exfalso. apply (H 0); [lia|]. rewrite Hn by lia. destruct (Z.ltb_spec 0 ((N + 1) / 2)); [done|dlia].
    + destruct (Z.eq_dec (first_numa_from m 1 0 (Z.to_nat N)) 0) as [E|E]; [done|].
      exfalso. apply (H3 0); [lia|]. rewrite Hn by lia. destruct (Z.ltb_spec 0 ((N + 1) / 2)); [done|dlia].
  - rewrite Hc. destruct (Z.eqb_spec N 1) as [E1|E1].
    + destruct (HF 2) as [[H _]|(H1 & H2 & _)]; [done|]. rewrite Hn in H2 by lia. exfalso.
      destruct (Z.ltb_spec (first_numa_from m 2 0 (Z.to_nat N)) ((N + 1) / 2)); [done|dlia].
    + assert (Hk : numa_to_chip m ((N + 1) / 2) = 2) by (rewrite Hn by dlia; by rewrite Z.ltb_irrefl).
      destruct (HF 2) as [[_ H]|(H1 & H2 & H3)]; [exfalso; apply (H ((N + 1) / 2)); [dlia|done]|].
      set (r := first_numa_from m 2 0 (Z.to_nat N)) in *. rewrite Hn in H2 by lia.
      destruct (Z.ltb_spec r ((N + 1) / 2)); [done|].
      destruct (Z.eq_dec r ((N + 1) / 2)) as [|Hne]; [done|]. exfalso. apply (H3 ((N + 1) / 2)); [dlia|done].
  - intros c H1 H2. rewrite Hc. destruct (HF c) as [[H _]|(H & Hr & _)]; [done|].
    rewrite Hn in Hr by lia. by destruct (_ <? _).
  - intros c n H E. rewrite Hc in E. destruct (HF c) as [[Hr _]|(_ & Hr & _)]; [lia|]. by rewrite <- E.
Qed.

(** ** Weighted chips *)

Definition is_chip (c : Z) : Prop := c = 1 \/ c = 2.

Section weights.
Context (w1 w2 : Z) (H1 : 1 <= w1) (H2 : 1 <= w2) (HT : 3 * (w1 + w2) < 2 ^ 32).
Let T := w1 + w2.

(** Sends owed to chip 1 after [n] sends, in units of 1/T. *)
Fixpoint owed (n : nat) : Z :=
  match n with
  | O => 0
  | S n => if w2 - w1 <=? 2 * owed n then owed n - w2 else owed n + w1
  end.

Lemma owed_bound n : - T <= 2 * owed n <= T.
Proof.
  induction n as [|n IH]; [simpl; lia|]. cbn [owed].
  destruct (Z.leb_spec (w2 - w1) (2 * owed n)); lia.
Qed.

Lemma deficit_exact x y : - 2 ^ 31 <= x - y < 2 ^ 31 -> i32 (u32 (u32 x - u32 y)) = x - y.
Proof.
  intros H. unfold u32. rewrite <- Zminus_mod. unfold i32.
  rewrite Zplus_mod_idemp_l. rewrite Z.mod_small; lia.
Qed.

(** The machine arithmetic of the loop is exact. *)
Lemma weighted_loop_eq s : forall (k : nat) c1 c2,
  c1 * T = Z.of_nat k * w1 - owed k -> c2 * T = Z.of_nat k * w2 + owed k ->
  0 <= c1 -> 0 <= c2 -> Z.of_nat (k + s) < 2 ^ 32 - 1 ->
  weighted_loop w1 w2 T s (Z.of_nat k) c1 c2 = if w2 - w1 <=? 2 * owed (k + s) then 1 else 2.
Proof.
  induction s as [|s IH]; intros k c1 c2 E1 E2 P1 P2 Hk; pose proof (owed_bound k) as Hb.
  all: assert (Hsum : c1 + c2 = Z.of_nat k) by (assert ((c1 + c2) * T = Z.of_nat k * T) by nia; nia).
  all: cbn [weighted_loop]; rewrite (u32_small (Z.of_nat k + 1)) by lia.
  all: rewrite !deficit_exact by lia.
  all: replace ((Z.of_nat k + 1) * w1 - c1 * T) with (owed k + w1) by lia.
  all: replace ((Z.of_nat k + 1) * w2 - c2 * T) with (w2 - owed k) by lia.
  all: assert (Hd : (w2 - owed k <=? owed k + w1) = (w2 - w1 <=? 2 * owed k))
         by (destruct (Z.leb_spec (w2 - owed k) (owed k + w1)), (Z.leb_spec (w2 - w1) (2 * owed k)); lia || done).
  all: rewrite Hd.
  - by rewrite Nat.add_0_r.
  - replace (k + S s)%nat with (S k + s)%nat by lia.
    replace (Z.of_nat k + 1) with (Z.of_nat (S k)) in * by lia.
    destruct (w2 - w1 <=? 2 * owed k) eqn:Ed; rewrite !u32_small by lia; apply IH;
      cbn [owed]; rewrite ?Ed; lia.
Qed.
End weights.

Lemma pick_weighted_eq a w1 w2 n :
  a.(chip_weight) = (w1, w2) -> 1 <= w1 -> 1 <= w2 -> 3 * (w1 + w2) < 2 ^ 32 ->
  Z.of_nat n < 2 ^ 32 - 1 ->
  pick_weighted_chip a (Z.of_nat n) = if w2 - w1 <=? 2 * owed w1 w2 n then 1 else 2.
Proof.
  intros E H1 H2 HT Hn. unfold pick_weighted_chip. rewrite E. rewrite u32_small by lia.
  destruct (Z.eqb_spec (w1 + w2) 0); [lia|]. destruct (Z.eqb_spec w2 0); [lia|].
  destruct (Z.eqb_spec w1 0); [lia|]. rewrite Nat2Z.id.
  apply (weighted_loop_eq w1 w2 H1 H2 HT n 0 0 0); simpl; lia.
Qed.

(** The chips of the first [n] sends, and how many are on chip 1. *)
Definition send_chips (a : argument) (n : nat) : list Z :=
  (fun i => pick_weighted_chip a (Z.of_nat i)) <$> seq 0 n.

Definition on_chip1 (a : argument) (n : nat) : Z :=
  Z.of_nat (length (filter (fun c => c = 1) (send_chips a n))).

Lemma on_chip1_owed a w1 w2 n :
  a.(chip_weight) = (w1, w2) -> 1 <= w1 -> 1 <= w2 -> 3 * (w1 + w2) < 2 ^ 32 ->
  Z.of_nat n < 2 ^ 32 ->
  on_chip1 a n * (w1 + w2) = Z.of_nat n * w1 - owed w1 w2 n.
Proof.
  intros E H1 H2 HT. induction n as [|n IH]; intros Hn; [done|].
  specialize (IH ltac:(lia)). unfold on_chip1, send_chips in *.
  rewrite seq_S, fmap_app, filter_app, length_app. cbn [fmap list_fmap]. rewrite Nat.add_0_l.
  rewrite (pick_weighted_eq a w1 w2 n E H1 H2 HT) by lia. cbn [owed].
  destruct (w2 - w1 <=? 2 * owed w1 w2 n).
  - rewrite filter_cons, decide_True by done. cbn [length filter list_filter]. lia.
  - rewrite filter_cons, decide_False by done. cbn [length filter list_filter]. lia.
Qed.

(** A weight of 0 leaves everything to the other chip. *)
Lemma on_chip1_const a c n : (forall i, pick_weighted_chip a i = c) -> on_chip1 a n = if c =? 1 then Z.of_nat n else 0.
Proof.
  intros Hc. induction n as [|n IH]; [by destruct (c =? 1)|]. unfold on_chip1, send_chips in *.
  rewrite seq_S, fmap_app, filter_app, length_app. cbn [fmap list_fmap]. rewrite Hc, filter_cons, filter_nil.
  destruct (Z.eqb_spec c 1) as [->|Hne]; [rewrite decide_True by done|rewrite decide_False by done]; simpl; lia.
Qed.

Lemma weighted_fair a w1 w2 n :
  a.(chip_weight) = (w1, w2) -> 0 <= w1 -> 0 <= w2 -> 1 <= w1 + w2 -> 3 * (w1 + w2) < 2 ^ 32 -> Z.of_nat n < 2 ^ 32 ->
  Forall is_chip (send_chips a n) /\ 2 * Z.abs (Z.of_nat n * w1 - on_chip1 a n * (w1 + w2)) <= w1 + w2 /\
  (Z.of_nat n = w1 + w2 -> on_chip1 a n = w1).
Proof.
  intros E H1 H2 Hs HT Hn.
  assert (Hz : w1 = 0 \/ w2 = 0 -> forall i, pick_weighted_chip a i = if w2 =? 0 then 1 else 2).
  { intros Hz i. unfold pick_weighted_chip. rewrite E. rewrite u32_small by lia. destruct (Z.eqb_spec (w1 + w2) 0); [lia|].
    destruct (Z.eqb_spec w2 0); [done|]. by destruct (Z.eqb_spec w1 0); [|lia]. }
  destruct (decide (w1 = 0 \/ w2 = 0)) as [H0|H0].
  - specialize (Hz H0). rewrite (on_chip1_const a _ n Hz). split.
    + apply Forall_fmap, Forall_forall. intros i _. simpl. rewrite Hz. unfold is_chip. destruct (w2 =? 0); auto.
    + destruct (Z.eqb_spec w2 0) as [->|]; simpl; [lia|]. assert (w1 = 0) as -> by lia. lia.
  - assert (H1' : 1 <= w1) by lia. assert (H2' : 1 <= w2) by lia.
    pose proof (on_chip1_owed a w1 w2 n E H1' H2' HT Hn) as Hc. pose proof (owed_bound w1 w2 H1' H2' n) as Hb.
    split; [|split; [lia|]].
    + apply Forall_fmap, Forall_forall. intros i Hi. apply elem_of_seq in Hi. simpl.
      rewrite (pick_weighted_eq a w1 w2 i E H1' H2' HT) by lia. unfold is_chip. destruct (_ <=? _); auto.
    + intros En. assert (Hd : (w1 - on_chip1 a n) * (w1 + w2) = owed w1 w2 n) by nia. nia.
Qed.

(** the weights are not checked against overflow.  Weights 4294967294:1
    pass [validate_input_params], and the 32-bit deficits then send the first
    request entirely to chip 2, although chip 1 is owed all but one in four
    billion sends. *)
Theorem weighted_chips_overflow :
  let a := set_chip_weight (4294967294, 1) (set_dev_name (Some (lit "bonding0")) default_args) in
  validate_input_params a = true /\ send_chips a 10 = [2; 2; 2; 2; 2; 2; 2; 2; 2; 2].
Proof. vm_compute. split; reflexivity. Qed.

(** ** CPU selection *)

Lemma swap_perm i j l : swap i j l ≡ₚ l.
Proof.
  unfold swap. destruct (l !! i) as [x|] eqn:Ei; [|done]. destruct (l !! j) as [y|] eqn:Ej; [|done].
  by apply Permutation_insert_swap.
Qed.

Lemma shuffle_perm k : forall rng l i, snd (shuffle rng l i k) ≡ₚ l.
Proof.
  induction k as [|k IH]; intros rng l i; [done|]. cbn [shuffle]. rewrite IH. apply swap_perm.
Qed.

Lemma all_cpus_nodup m k : NoDup (enumerate_all_cpus m k).
Proof. apply NoDup_fmap_2; [intros x y; lia|apply NoDup_seq]. Qed.

Lemma all_cpus_elem m k c :
  c ∈ enumerate_all_cpus m k <-> 0 <= c < m.(nproc) /\ c < Z.of_nat k.
Proof.
  unfold enumerate_all_cpus. rewrite list_elem_of_fmap. setoid_rewrite elem_of_seq. split.
  - intros (x & -> & Hx). lia.
  - intros H. exists (Z.to_nat c). lia.
Qed.

(** The CPUs of one chip. *)
Definition cpus_of_chip (m : machine) (chip : Z) : list Z :=
  filter (fun c => cpu_to_chip m c = chip) (enumerate_all_cpus m MAX_CPUS).

Lemma cpus_of_chip_elem m chip c :
  c ∈ cpus_of_chip m chip <-> cpu_to_chip m c = chip /\ 0 <= c < m.(nproc) /\ c < 1024.
Proof. unfold cpus_of_chip. rewrite list_elem_of_filter, all_cpus_elem. done. Qed.

(** A prefix of a shuffled list of CPUs of one chip. *)
Lemma shuffled_prefix m chip rng k steps :
  let l := take k (snd (shuffle rng (cpus_of_chip m chip) 0 steps)) in
  NoDup l /\ length l = Nat.min k (length (cpus_of_chip m chip)) /\
  forall c, c ∈ l -> c ∈ cpus_of_chip m chip.
Proof.
  intros l. pose proof (shuffle_perm steps rng (cpus_of_chip m chip) 0) as HP. split; [|split].
  - assert (HN : NoDup (snd (shuffle rng (cpus_of_chip m chip) 0 steps)))
      by (rewrite HP; apply NoDup_filter, all_cpus_nodup).
    rewrite <- (take_drop k) in HN. by apply NoDup_app in HN as [? _].
  - unfold l. by rewrite length_take, HP.
  - intros c Hc. rewrite <- HP. by apply subseteq_take in Hc.
Qed.

Lemma per_chip_bound a is_client : valid a -> (1 <= per_chip a is_client <= 256)%nat.
Proof.
  intros V. destruct (valid_sizes a V) as (H & _). unfold per_chip.
  destruct (Z.ltb_spec 0 (threads a)); [|lia].
  set (t := if negb is_client && (8 <? threads a) then 8 else threads a).
  assert (1 <= t <= 512) by (unfold t; destruct (negb is_client && (8 <? threads a)); lia).
  rewrite u32_small by lia. destruct (Z.ltb_spec ((t + 1) / 2) 1); dlia.
Qed.

(** automatic CPU selection.  With the default affinity mode and no CPU
    list, the program takes CPUs of the machine without repetition: from each
    chip half of the thread count rounded up (for a server at most 4), or all
    CPUs of the chip when there are fewer, first those of chip 1, then those
    of chip 2; a machine where no CPU has a known chip gets all its CPUs.
    The random choice never leaves the chip. *)
Theorem auto_select_balanced a m is_client :
  valid a -> a.(affinity_mode) = AFF_AFFINITY ->
  let l := auto_select_cpus a m is_client MAX_CPUS in
  let per := per_chip a is_client in
  NoDup l /\ (forall c, c ∈ l -> 0 <= c < m.(nproc)) /\
  if decide (cpus_of_chip m 1 = [] /\ cpus_of_chip m 2 = []) then l = enumerate_all_cpus m MAX_CPUS
  else exists l1 l2, l = l1 ++ l2 /\
    length l1 = Nat.min per (length (cpus_of_chip m 1)) /\
    length l2 = Nat.min per (length (cpus_of_chip m 2)) /\
    (forall c, c ∈ l1 -> cpu_to_chip m c = 1) /\ (forall c, c ∈ l2 -> cpu_to_chip m c = 2).
Proof.
  intros V Hm l per. pose proof (per_chip_bound a is_client V) as Hp. fold per in Hp.
  unfold l, auto_select_cpus. rewrite Hm. cbn [AFF_AFFINITY Z.eqb negb]. fold per.
  fold (cpus_of_chip m 1) (cpus_of_chip m 2). set (rng := Z.lxor _ _).
  pose proof (shuffled_prefix m 1 rng per (Nat.min (length (cpus_of_chip m 1)) per)) as S1.
  destruct (shuffle rng (cpus_of_chip m 1) 0 _) as [rng1 c1]. cbn [snd] in S1.
  pose proof (shuffled_prefix m 2 rng1 per (Nat.min (length (cpus_of_chip m 2)) per)) as S2.
  destruct (shuffle rng1 (cpus_of_chip m 2) 0 _) as [rng2 c2]. cbn [snd] in S2. cbv zeta in S1, S2.
  destruct S1 as (N1 & L1 & M1), S2 as (N2 & L2 & M2).
  set (t1 := take per c1) in *. set (t2 := take per c2) in *.
  rewrite (take_ge t1) by (rewrite L1; unfold MAX_CPUS; lia).
  rewrite (take_ge t2) by (rewrite L1, L2; unfold MAX_CPUS; lia).
  assert (HN : NoDup (t1 ++ t2)).
  { apply NoDup_app. split; [done|]. split; [|done]. intros c H1%M1 H2%M2.
    apply cpus_of_chip_elem in H1 as [? _], H2 as [? _]. lia. }
  assert (HE : forall c, c ∈ t1 ++ t2 -> 0 <= c < nproc m).
  { intros c [H%M1|H%M2]%elem_of_app; apply cpus_of_chip_elem in H; tauto. }
  destruct (decide (cpus_of_chip m 1 = [] /\ cpus_of_chip m 2 = [])) as [[E1 E2]|Hne].
  - rewrite E1, E2 in *. simpl in L1, L2. rewrite Nat.min_0_r in L1, L2.
    apply length_zero_iff_nil in L1, L2. rewrite L1, L2. cbn [app].
    split; [apply all_cpus_nodup|]. split; [|done]. intros c H. apply all_cpus_elem in H. tauto.
  - assert (Hnn : t1 ++ t2 <> []).
    { intros E. apply app_nil in E as [E1 E2]. rewrite E1 in L1. rewrite E2 in L2. simpl in L1, L2.
      apply Hne. split; apply length_zero_iff_nil; lia. }
    replace (match t1 ++ t2 with [] => _ | _ => _ end) with (t1 ++ t2) by (by destruct (t1 ++ t2)).
    split; [done|]. split; [done|]. exists t1, t2. split; [done|]. split; [done|]. split; [done|].
    split; intros c H; [apply M1 in H|apply M2 in H]; by apply cpus_of_chip_elem in H as [? _].
Qed.

(** Eight CPUs on two nodes. *)
Definition demo_machine : machine :=
  mk_machine 8 (fun c => if (0 <=? c) && (c <? 8)
                         then Some [lit "cache"; lit (if c <? 4 then "node0" else "node1")] else None).

Lemma auto_select_balanced_witness :
  exists l1 l2, auto_select_cpus demo_args demo_machine true MAX_CPUS = l1 ++ l2 /\
    length l1 = 4%nat /\ length l2 = 4%nat.
Proof.
  assert (V : valid demo_args).
  { apply validate_valid; [|vm_compute; reflexivity]. constructor; vm_compute; intuition discriminate. }
  destruct (auto_select_balanced demo_args demo_machine true V eq_refl) as (_ & _ & H).
  rewrite decide_False in H by (vm_compute; intros [? _]; discriminate).
  destruct H as (l1 & l2 & H & H1 & H2 & _). exists l1, l2. split; [exact H|].
  split; [rewrite H1|rewrite H2]; vm_compute; reflexivity.
Defined.

(** ** The chosen chips *)

Lemma cpu_chip_cases m c : cpu_to_chip m c = -1 \/ is_chip (cpu_to_chip m c).
Proof. apply chip_range. Qed.

Lemma first_chip_cases m l : first_chip m l = -1 \/ is_chip (first_chip m l).
Proof.
  induction l as [|c l IH]; [by left|]. cbn [first_chip].
  destruct (cpu_chip_cases m c) as [->|[-> | ->]]; [done|right; by left|right; by right].
Qed.

Lemma default_chip wid : is_chip (wid mod 2 + 1).
Proof. unfold is_chip. dlia. Qed.

Lemma or_default c wid : c = -1 \/ is_chip c ->
  is_chip (if c <? 0 then wid mod 2 + 1 else c) /\ is_chip (if 0 <? c then c else wid mod 2 + 1).
Proof. intros [->|[-> | ->]]; (split; [|simpl]); try apply default_chip; by (left + right). Qed.

Lemma or_chip c d : c = -1 \/ is_chip c -> is_chip d -> is_chip (if 0 <? c then c else d).
Proof. by intros [->|[-> | ->]]; [|left|right]. Qed.

Lemma other_chip_chip c : is_chip (other_chip c).
Proof. unfold other_chip. destruct (c =? 1); [by right|by left]. Qed.

Lemma pick_ok rng l : l <> [] -> exists c, pick rng l = Some (c, rng_next rng) /\ c ∈ l.
Proof.
  intros Hl. unfold pick.
  assert (0 < Z.of_nat (length l)) by (destruct l; [done|simpl; lia]).
  pose proof (Z.mod_pos_bound (rng_next rng) (Z.of_nat (length l)) ltac:(lia)).
  destruct (lookup_lt_is_Some_2 l (Z.to_nat (rng_next rng mod Z.of_nat (length l)))) as [c Hc]; [lia|].
  exists c. rewrite Hc. split; [done|]. by eapply list_elem_of_lookup_2.
Qed.

Lemma all_cpus_ne m k : 1 <= m.(nproc) -> (0 < k)%nat -> enumerate_all_cpus m k <> [].
Proof.
  intros H Hk E. assert (Hin : 0 ∈ enumerate_all_cpus m k) by (apply all_cpus_elem; lia).
  rewrite E in Hin. by apply elem_of_nil in Hin.
Qed.

Lemma pool_ne (l d : list Z) : d <> [] -> match l with [] => d | _ => l end <> [].
Proof. by destruct l. Qed.

(** the chips of a send.  In affinity mode source and destination are the
    same chip, without using the generator: the forced one under
    [--single-chip] (even with chip routing off), else the weighted one, else
    [INVALID_CHIP] when chip routing is off.  In the other modes, on a machine
    with a CPU, both are 1 or 2, or both [INVALID_CHIP] when chip routing is
    off. *)
Theorem send_chip_choice a m wid rng send_idx :
  1 <= m.(nproc) ->
  if decide (a.(affinity_mode) = AFF_AFFINITY) then
    let c := if decide (1 <= a.(single_chip) <= 2) then a.(single_chip)
             else if a.(drv_ext) then pick_weighted_chip a send_idx else INVALID_CHIP in
    pick_send_chip a m wid rng send_idx = Some (c, c, rng)
  else
    exists src dst rng', pick_send_chip a m wid rng send_idx = Some (src, dst, rng') /\
    if a.(drv_ext) then is_chip src /\ is_chip dst else src = INVALID_CHIP /\ dst = INVALID_CHIP.
Proof.
  intros Hn. unfold pick_send_chip.
  destruct (or_default (first_dst_chip a m) wid (first_chip_cases m _)) as [Hd _].
  set (dst_chip := if first_dst_chip a m <? 0 then _ else _) in *.
  pose proof (all_cpus_ne m MAX_CPUS Hn ltac:(unfold MAX_CPUS; lia)) as Hall.
  destruct (Z.eqb_spec (affinity_mode a) AFF_AFFINITY) as [Ea|Ea];
    [rewrite decide_True by done|rewrite decide_False by done].
  - destruct (Z.leb_spec 1 (single_chip a)), (Z.leb_spec (single_chip a) 2); try lia; simpl;
      first [rewrite decide_True by lia|rewrite decide_False by lia];
      destruct (drv_ext a); reflexivity.
  - rewrite andb_false_l, andb_true_r. destruct (affinity_mode a =? AFF_ANTI).
    + destruct (pick_ok rng (match my_cpu_list a m true MAX_CPUS with [] => _ | _ => _ end)
        (pool_ne _ _ Hall)) as (c & -> & _). simpl.
      destruct (drv_ext a); simpl; do 3 eexists; (split; [done|]); [|done].
      split; [|done]. apply or_default, cpu_chip_cases.
    + destruct (pick_ok rng _ Hall) as (c & -> & _). simpl.
      destruct (pick_ok (rng_next rng) _ Hall) as (c' & -> & _). simpl.
      destruct (drv_ext a); simpl; do 3 eexists; (split; [done|]); [|done].
      split; apply or_chip; try apply cpu_chip_cases; by left.
Qed.

Lemma send_chip_choice_witness :
  pick_send_chip demo_args demo_machine 3 42 1 = Some (2, 2, 42) /\
  exists src dst rng', pick_send_chip (set_affinity_mode AFF_NONE demo_args) demo_machine 3 42 1
                       = Some (src, dst, rng') /\ is_chip src /\ is_chip dst.
Proof.
  split.
  - exact (send_chip_choice demo_args demo_machine 3 42 1 ltac:(vm_compute; discriminate)).
  - exact (send_chip_choice (set_affinity_mode AFF_NONE demo_args) demo_machine 3 42 1
      ltac:(vm_compute; discriminate)).
Defined.

(** C38: weighted sends are spread evenly.  In affinity mode with chip routing
    and without [--single-chip], for weights that are not both 0 and whose sum
    [T] is below 2^32/3 (the program checks the first only, see
    [weighted_chips_overflow]): in every request, which numbers its sends from
    0, the sends go from and to the chips of [send_chips], whatever the worker
    and its generator; after the first [n] sends of a request the number of
    those on chip 1 differs from its exact share [n * W1 / T] by at most one
    half, and is [W1] when [n] is [T]; and so over [r] requests of [n] sends
    each the number on chip 1 is off by at most [r / 2]. *)
Theorem weighted_chips_fair a m w1 w2 n :
  1 <= m.(nproc) -> a.(affinity_mode) = AFF_AFFINITY -> a.(drv_ext) = true -> ~ 1 <= a.(single_chip) <= 2 ->
  a.(chip_weight) = (w1, w2) -> 0 <= w1 -> 0 <= w2 -> 1 <= w1 + w2 -> 3 * (w1 + w2) < 2 ^ 32 -> Z.of_nat n < 2 ^ 32 ->
  (forall i, (i < n)%nat -> exists c, send_chips a n !! i = Some c /\ is_chip c /\
    forall wid rng, pick_send_chip a m wid rng (Z.of_nat i) = Some (c, c, rng)) /\
  2 * Z.abs (Z.of_nat n * w1 - on_chip1 a n * (w1 + w2)) <= w1 + w2 /\
  (Z.of_nat n = w1 + w2 -> on_chip1 a n = w1) /\
  (forall r, 0 <= r -> 2 * Z.abs (r * Z.of_nat n * w1 - r * on_chip1 a n * (w1 + w2)) <= r * (w1 + w2)).
Proof.
  intros Hp Ea Ed Es E H1 H2 Hs HT Hn. destruct (weighted_fair a w1 w2 n E H1 H2 Hs HT Hn) as (HF & Hb & Ht).
  split; [|split; [done|split; [done|]]].
  - intros i Hi. exists (pick_weighted_chip a (Z.of_nat i)).
    assert (El : send_chips a n !! i = Some (pick_weighted_chip a (Z.of_nat i))).
    { unfold send_chips. rewrite list_lookup_fmap, lookup_seq_lt by done. done. }
    split; [done|]. split; [by eapply Forall_lookup_1|]. intros wid rng.
    pose proof (send_chip_choice a m wid rng (Z.of_nat i) Hp) as Hc. rewrite decide_True in Hc by done. cbv zeta in Hc.
    by rewrite decide_False, Ed in Hc by done.
  - intros r Hr. replace (r * Z.of_nat n * w1 - r * on_chip1 a n * (w1 + w2)) with (r * (Z.of_nat n * w1 - on_chip1 a n * (w1 + w2))) by ring.
    rewrite Z.abs_mul, (Z.abs_eq r) by lia. nia.
Qed.

(** The sequence quoted in the source for 7:3, and a weight of 0. *)
Lemma weighted_chips_fair_witness :
  (send_chips (set_chip_weight (7, 3) default_args) 10 = [1; 2; 1; 1; 1; 2; 1; 1; 2; 1] /\
   on_chip1 (set_chip_weight (7, 3) default_args) 10 = 7) /\
  (forall r, 0 <= r -> 2 * Z.abs (r * 10 * 0 - r * on_chip1 (set_chip_weight (0, 3) default_args) 10 * 3) <= r * 3).
Proof.
  split; [split; [vm_compute; reflexivity|]|].
  - apply (weighted_chips_fair (set_chip_weight (7, 3) default_args) demo_machine 7 3 10);
      first [reflexivity | vm_compute; intuition congruence | lia].
  - apply (weighted_chips_fair (set_chip_weight (0, 3) default_args) demo_machine 0 3 10);
      first [reflexivity | vm_compute; intuition congruence | lia].
Defined.

(** The chips of a synchronous round are always 1 or 2.  In affinity mode
    the two sources are the worker's own chip and the other one; in anti mode
    they are on different chips whenever the pool has a CPU on the chip
    opposite to the first source. *)
Theorem round_chip_choice a m is_client wid rng :
  1 <= m.(nproc) ->
  let mine := my_cpu_list a m is_client MAX_CPUS in
  let pool := match mine with [] => enumerate_all_cpus m MAX_CPUS | _ => mine end in
  exists src_a src_b dst rng', pick_round_chips a m is_client wid rng = Some (src_a, src_b, dst, rng') /\
  is_chip src_a /\ is_chip src_b /\ is_chip dst /\
  (a.(affinity_mode) = AFF_AFFINITY -> src_a <> src_b) /\
  (a.(affinity_mode) = AFF_ANTI -> (forall c, c ∈ pool -> is_chip (cpu_to_chip m c)) ->
   (exists c, c ∈ pool /\ cpu_to_chip m c <> src_a) -> src_a <> src_b).
Proof.
  intros Hn mine pool. unfold pick_round_chips. fold mine. fold pool.
  destruct (or_default (first_dst_chip a m) wid (first_chip_cases m _)) as [Hd _].
  set (dst_chip := if first_dst_chip a m <? 0 then _ else _) in *.
  pose proof (all_cpus_ne m MAX_CPUS Hn ltac:(unfold MAX_CPUS; lia)) as Hall.
  assert (Hpool : pool <> []) by (by apply pool_ne).
  assert (Ho : forall c, is_chip c -> c <> other_chip c) by (intros c [-> | ->]; done).
  destruct (Z.eqb_spec (affinity_mode a) AFF_AFFINITY) as [Ea|Ea]; [|destruct (Z.eqb_spec (affinity_mode a) AFF_ANTI) as [Eb|Eb]].
  - do 4 eexists. split; [done|].
    set (ch := match mine !! _ with Some c => _ | None => _ end).
    assert (Hch : ch = -1 \/ is_chip ch) by (unfold ch; destruct (mine !! _); [apply cpu_chip_cases|by left]).
    destruct (or_default ch wid Hch) as [Hc _].
    split; [done|]. split; [apply other_chip_chip|]. split; [done|]. split; [by intros; apply Ho|].
    intros Eb. rewrite Ea in Eb. discriminate.
  - destruct (pick_ok rng pool Hpool) as (c0 & -> & Hc0). simpl.
    set (cands := if 0 <? cpu_to_chip m c0 then _ else []).
    destruct (pick_ok (rng_next rng) (match cands with [] => pool | _ => cands end) (pool_ne _ _ Hpool))
      as (c1 & -> & Hc1). simpl. do 4 eexists. split; [done|].
    destruct (or_default (cpu_to_chip m c0) wid (cpu_chip_cases m c0)) as [_ Ha].
    split; [done|]. split; [apply or_chip; [apply cpu_chip_cases|apply other_chip_chip]|].
    split; [done|]. split; [done|]. intros _ Hall' (c & Hc & Hne).
    assert (Hk0 := Hall' c0 Hc0). assert (Hpos : (0 <? cpu_to_chip m c0) = true) by (destruct Hk0 as [-> | ->]; done).
    rewrite Hpos in *. assert (Hcin : c ∈ cands).
    { unfold cands. rewrite Hpos. apply list_elem_of_filter. split; [|done].
      specialize (Hall' c Hc). destruct Hk0 as [E|E], Hall' as [E'|E']; rewrite E, E' in *; done. }
    assert (Hc1' : cpu_to_chip m c1 = other_chip (cpu_to_chip m c0)).
    { destruct cands as [|x cs] eqn:Ecs; [by apply elem_of_nil in Hcin|]. rewrite <- Ecs in Hc1.
      unfold cands in Hc1. rewrite Hpos in Hc1. by apply list_elem_of_filter in Hc1 as [? _]. }
    rewrite Hc1'. destruct (0 <? other_chip (cpu_to_chip m c0)) eqn:E; [by apply Ho|by apply Ho].
  - destruct (pick_ok rng _ Hall) as (c0 & -> & _). simpl.
    destruct (pick_ok (rng_next rng) _ Hall) as (c1 & -> & _). simpl.
    destruct (pick_ok (rng_next (rng_next rng)) _ Hall) as (c2 & -> & _). simpl.
    do 4 eexists. split; [done|].
    split; [apply or_chip; [apply cpu_chip_cases|by left]|].
    split; [apply or_chip; [apply cpu_chip_cases|by right]|].
    split; [apply or_chip; [apply cpu_chip_cases|by left]|]. done.
Qed.

Lemma round_chip_choice_witness :
  exists src_a src_b dst rng', pick_round_chips (set_affinity_mode AFF_ANTI demo_args) demo_machine true 0 7
    = Some (src_a, src_b, dst, rng') /\ is_chip src_a /\ is_chip src_b /\ is_chip dst.
Proof.
  destruct (round_chip_choice (set_affinity_mode AFF_ANTI demo_args) demo_machine true 0 7
    ltac:(vm_compute; discriminate)) as (sa & sb & d & r & H & H1 & H2 & H3 & _).
  exists sa, sb, d, r. auto.
Defined.
