(* ===== verification/Requests.v ===== *)
(** * Requests: the work requests of the client in [src/kv_bench.cpp]

    The address arithmetic of [post_one_req] (write), [post_one_get] (get) and
    of the synchronous rounds of mixed mode ([client_do_write],
    [client_do_get], the offset kept by [client_worker_main]), at the widths
    of the source, and the theorems that every work request stays inside both
    buffers and that the requests of a slot tile its region. *)

From Stdlib Require String.
Import String.StringSyntax.
From S2P Require Import Prelude Args.
From stdpp Require Import list.
#[local] Open Scope Z_scope.

(** ** Address arithmetic *)

(** What a post call passes on. *)
Record wr_desc := mk_wr {
  wr_read : bool;
  wr_jetty : Z;
  wr_local : Z;
  wr_remote : Z;
  wr_len : Z;
  wr_src : Z;
  wr_dst : Z;
  wr_ctx : Z;
}.

(** [wr] is the index 0..19 of a work request, [data] the client's data area
    and [rva] the address of the peer's segment. *)
Definition send_of (wr : Z) : Z := wr / KV_WR_PER_SEND.
Definition half_of (wr : Z) : Z := wr mod KV_WR_PER_SEND.

(** [post_one_req]: every slot has one local block of [send_size]. *)
Definition write_len (a : argument) : Z := u32 (a.(send_size) / 2).

Definition write_local (a : argument) (data slot wr : Z) : Z :=
  let wr_size := a.(send_size) / 2 in
  let local_base_off := slot *u64 a.(send_size) in
  data +u64 local_base_off +u64 (half_of wr *u64 wr_size).

Definition write_remote (a : argument) (rva slot wr : Z) : Z :=
  let wr_size := a.(send_size) / 2 in
  let req_bytes := a.(send_size) *u64 KV_SENDS_PER_REQ in
  let remote_base_off := slot *u64 req_bytes in
  let remote_base := rva +u64 remote_base_off in
  remote_base +u64 (send_of wr *u64 a.(send_size)) +u64 (half_of wr *u64 wr_size).

(** [post_one_get]: local blocks per worker and slot. *)
Definition get_len (a : argument) : Z := u32 (a.(value_size) / 2).

Definition get_local (a : argument) (data wid slot wr : Z) : Z :=
  let wr_size := a.(value_size) / 2 in
  let req_bytes := a.(value_size) *u64 KV_SENDS_PER_REQ in
  let per_thread := (if 1 <=? a.(concurrency) then a.(concurrency) else 1) *u64 req_bytes in
  let local_base_off := (wid *u64 per_thread) +u64 (slot *u64 req_bytes) in
  data +u64 local_base_off +u64 (send_of wr *u64 a.(value_size)) +u64 (half_of wr *u64 wr_size).

Definition get_remote (a : argument) (rva slot wr : Z) : Z :=
  let wr_size := a.(value_size) / 2 in
  let req_bytes := a.(value_size) *u64 KV_SENDS_PER_REQ in
  let remote_base := rva +u64 (slot *u64 req_bytes) in
  remote_base +u64 (send_of wr *u64 a.(value_size)) +u64 (half_of wr *u64 wr_size).

(** Mixed mode: local and remote addresses of the two writes and of the read
    at the worker's offset [off]. *)
Definition mixed_write_a (a : argument) (data rva off : Z) : Z * Z :=
  let size := u32 a.(value_size) in
  let server_data_len := SERVER_DATA_WINDOW *u64 size in
  (data +u64 off, rva +u64 (off mod server_data_len)).

Definition mixed_write_b (a : argument) (data rva off : Z) : Z * Z :=
  let size := u32 a.(value_size) in
  let off_b := off +u64 size in
  let server_data_len := SERVER_DATA_WINDOW *u64 size in
  (data +u64 off_b, rva +u64 (off_b mod server_data_len)).

Definition mixed_read (a : argument) (data rva off : Z) : Z * Z :=
  let size := u32 a.(value_size) in
  let window := a.(threads) *u64 DATA_WINDOW_PER_THREAD *u64 size in
  let off := off mod window in
  (data +u64 off, rva +u64 (off mod (SERVER_DATA_WINDOW *u64 size))).

(** The offset of [client_worker_main]: at the start, and after a round. *)
Definition mixed_off0 (a : argument) (wid : Z) : Z := wid *u64 DATA_WINDOW_PER_THREAD *u64 a.(value_size).

Definition mixed_off_next (a : argument) (off : Z) : Z :=
  if a.(fixed_offset) then off
  else
    let round_bytes := if a.(op) =? OP_GET then a.(value_size) else 2 *u64 a.(value_size) in
    let window := a.(threads) *u64 DATA_WINDOW_PER_THREAD *u64 a.(value_size) in
    (off +u64 round_bytes) mod window.

(** ** Exact forms *)

(** [a * b] and [a + b] do not wrap when the exact result is in range. *)
Lemma u64_mul_small x y : 0 <= x -> 0 <= y -> x * y < 2 ^ 64 -> x *u64 y = x * y.
Proof. intros. apply u64_small. nia. Qed.

(** A request of ten sends of [size] bytes, [wr] by [wr], inside its region. *)
Lemma wr_offset size wr h :
  size = 2 * h -> 0 <= wr < 20 -> 1 <= h ->
  send_of wr * size + half_of wr * h = wr * h /\ 0 <= send_of wr < 10 /\ 0 <= half_of wr < 2.
Proof.
  intros -> Hw Hh. unfold send_of, half_of, KV_WR_PER_SEND.
  pose proof (Z.div_mod wr 2 ltac:(lia)). pose proof (Z.mod_pos_bound wr 2 ltac:(lia)).
  split; [nia|]. dlia.
Qed.

Lemma slot_offset_bound slot size c : 0 <= slot < c -> 0 <= size -> 0 <= slot * size /\ slot * size + size <= c * size.
Proof. intros. nia. Qed.

(** The facts on sizes the address lemmas share. *)
Lemma valid_half a : valid a ->
  exists h, a.(send_size) = 2 * h /\ 4096 <= h < 2 ^ 31 /\ h mod PAGE_SIZE = 0 /\ a.(send_size) / 2 = h.
Proof.
  intros V. destruct (v_send _ V) as (k & E & Hk & Hl). unfold PAGE_SIZE in *.
  exists (4096 * k). split; [lia|]. split; [lia|].
  split; [by rewrite Z.mul_comm, Z.mod_mul by lia|]. rewrite E. dlia.
Qed.

Lemma valid_half_get a : valid a -> a.(op) = OP_GET ->
  exists h, a.(value_size) = 2 * h /\ 4096 <= h < 2 ^ 31 /\ h mod PAGE_SIZE = 0 /\ a.(value_size) / 2 = h.
Proof.
  intros V Ho. destruct (v_get _ V Ho) as (k & E & Hk). pose proof (v_value _ V). unfold PAGE_SIZE in *.
  exists (4096 * k). split; [lia|]. split; [lia|].
  split; [by rewrite Z.mul_comm, Z.mod_mul by lia|]. rewrite E. dlia.
Qed.

(** Products of the two indices with a size. *)
Lemma prod_bounds x y n : 0 <= x < n -> 0 <= y -> 0 <= x * y <= (n - 1) * y.
Proof. intros. nia. Qed.

Lemma write_local_eq a data slot wr h :
  a.(send_size) = 2 * h -> a.(send_size) / 2 = h -> 1 <= h < 2 ^ 31 ->
  0 <= slot < 10 -> 0 <= wr < 20 -> 0 <= data -> data + 10 * a.(send_size) < 2 ^ 64 ->
  write_local a data slot wr = data + slot * (2 * h) + half_of wr * h.
Proof.
  intros E Eh Hh Hs Hw Hd Hl. destruct (wr_offset (2 * h) wr h eq_refl Hw ltac:(lia)) as (_ & _ & Hf).
  pose proof (prod_bounds slot (2 * h) 10 Hs ltac:(lia)). pose proof (prod_bounds _ h 2 Hf ltac:(lia)).
  unfold write_local. rewrite Eh, E in *.
  rewrite (u64_small (slot * (2 * h))), (u64_small (half_of wr * h)) by lia.
  rewrite (u64_small (data + slot * (2 * h))) by lia. apply u64_small. lia.
Qed.

(** The remote address of both pipelines: ten sends of [size] bytes per slot. *)
Definition slot_address (base size slot wr : Z) : Z :=
  let req_bytes := size *u64 KV_SENDS_PER_REQ in
  (base +u64 (slot *u64 req_bytes)) +u64 (send_of wr *u64 size) +u64 (half_of wr *u64 (size / 2)).

Lemma slot_address_eq base size slot wr h :
  size = 2 * h -> 1 <= h < 2 ^ 31 -> 0 <= slot < 10 -> 0 <= wr < 20 -> 0 <= base ->
  base + 100 * size < 2 ^ 64 ->
  slot_address base size slot wr = base + slot * (20 * h) + wr * h.
Proof.
  intros -> Hh Hs Hw Hd Hl. destruct (wr_offset (2 * h) wr h eq_refl Hw ltac:(lia)) as (Ho & Hi & Hf).
  unfold slot_address, KV_SENDS_PER_REQ. replace (2 * h / 2) with h by dlia.
  pose proof (prod_bounds slot (20 * h) 10 Hs ltac:(lia)). pose proof (prod_bounds _ h 2 Hf ltac:(lia)).
  pose proof (prod_bounds _ (2 * h) 10 Hi ltac:(lia)).
  rewrite (u64_small (2 * h * 10)) by lia. replace (slot * (2 * h * 10)) with (slot * (20 * h)) by lia.
  rewrite (u64_small (slot * (20 * h))), (u64_small (send_of wr * (2 * h))), (u64_small (half_of wr * h)) by lia.
  rewrite (u64_small (base + slot * (20 * h))) by lia.
  rewrite (u64_small (base + slot * (20 * h) + send_of wr * (2 * h))) by lia.
  rewrite u64_small by lia. lia.
Qed.

Lemma write_remote_slot a rva slot wr : write_remote a rva slot wr = slot_address rva a.(send_size) slot wr.
Proof. done. Qed.

Lemma get_remote_slot a rva slot wr : get_remote a rva slot wr = slot_address rva a.(value_size) slot wr.
Proof. done. Qed.

Lemma get_local_eq a data wid slot wr h :
  a.(value_size) = 2 * h -> 1 <= h < 2 ^ 31 ->
  1 <= a.(concurrency) <= 10 -> 0 <= wid < 512 -> 0 <= slot < a.(concurrency) -> 0 <= wr < 20 ->
  0 <= data -> data + 512 * 10 * (20 * h) < 2 ^ 64 ->
  get_local a data wid slot wr = data + ((wid * a.(concurrency) + slot) * 20 + wr) * h.
Proof.
  intros E Hh Hc Hwi Hs Hw Hd Hl. destruct (wr_offset (2 * h) wr h eq_refl Hw ltac:(lia)) as (Ho & Hi & Hf).
  unfold get_local, KV_SENDS_PER_REQ. rewrite E. replace (2 * h / 2) with h by dlia.
  destruct (Z.leb_spec 1 (concurrency a)); [|lia]. set (c := concurrency a) in *.
  assert (0 <= c * (20 * h) <= 10 * (20 * h)) by nia.
  pose proof (prod_bounds wid (c * (20 * h)) 512 Hwi ltac:(lia)).
  pose proof (prod_bounds slot (20 * h) c Hs ltac:(lia)). pose proof (prod_bounds _ h 2 Hf ltac:(lia)).
  pose proof (prod_bounds _ (2 * h) 10 Hi ltac:(lia)).
  rewrite (u64_small (2 * h * 10)) by lia. replace (c * (2 * h * 10)) with (c * (20 * h)) by lia.
  replace (slot * (2 * h * 10)) with (slot * (20 * h)) by lia.
  rewrite (u64_small (c * (20 * h))) by lia.
  rewrite (u64_small (slot * (20 * h))), (u64_small (send_of wr * (2 * h))), (u64_small (half_of wr * h)),
    (u64_small (wid * (c * (20 * h)))) by lia.
  set (b := wid * (c * (20 * h)) + slot * (20 * h)).
  rewrite (u64_small b) by (unfold b; lia). rewrite (u64_small (data + b)) by (unfold b; lia).
  rewrite (u64_small (data + b + send_of wr * (2 * h))) by (unfold b; lia).
  rewrite u64_small by (unfold b; lia). unfold b. lia.
Qed.

(** ** Bounds and tilings *)

(** User-space addresses. *)
Definition user_va (x : Z) : Prop := 0 <= x < 2 ^ 63.

(** [\[addr, addr + len)] lies in the [n] bytes at [base]. *)
Definition inside (addr len base n : Z) : Prop := base <= addr /\ addr + len <= base + n.

Definition covers (addr len x : Z) : Prop := addr <= x < addr + len.

Lemma tile n h x : 1 <= h -> 0 <= x < n * h ->
  exists k, 0 <= k < n /\ covers (k * h) h x /\ forall k', covers (k' * h) h x -> k' = k.
Proof.
  intros Hh Hx. exists (x / h). unfold covers.
  pose proof (Z.div_mod x h ltac:(lia)). pose proof (Z.mod_pos_bound x h ltac:(lia)).
  assert (0 <= x / h < n) by (split; [apply Z.div_pos; lia|apply Z.div_lt_upper_bound; lia]).
  split; [done|]. split; [lia|]. intros k' Hk. nia.
Qed.

(** C34: write requests.  For accepted parameters and a slot below the
    concurrency, all 20 work requests read inside the client's buffer and
    write inside the server's, are half a send long (whole pages), and the
    remote ranges of the 20 tile the slot's ten sends: every byte is written
    by exactly one work request. *)
Theorem write_requests_tile a data rva slot :
  valid a -> a.(op) = OP_WRITE -> 0 <= slot < a.(concurrency) -> user_va data -> user_va rva ->
  let len := write_len a in
  let req_bytes := 10 * a.(send_size) in
  2 * len = a.(send_size) /\ len mod PAGE_SIZE = 0 /\
  (forall wr, 0 <= wr < KV_WR_PER_REQ ->
   inside (write_local a data slot wr) len data (client_data_len a) /\
   inside (write_remote a rva slot wr) len rva (server_data_len a) /\
   inside (write_remote a rva slot wr) len (rva + slot * req_bytes) req_bytes) /\
  (forall x, 0 <= x < req_bytes -> exists wr, 0 <= wr < KV_WR_PER_REQ /\
   covers (write_remote a rva slot wr) len (rva + slot * req_bytes + x) /\
   forall wr', 0 <= wr' < KV_WR_PER_REQ ->
     covers (write_remote a rva slot wr') len (rva + slot * req_bytes + x) -> wr' = wr).
Proof.
  intros V Ho Hs Hd Hr len req_bytes. destruct (valid_half a V) as (h & E & Hh & Hp & Eh).
  destruct (valid_sizes a V) as (H1 & H2 & _). unfold user_va, KV_WR_PER_REQ, KV_SENDS_PER_REQ, KV_WR_PER_SEND in *.
  assert (Hlen : len = h) by (unfold len, write_len; rewrite Eh; apply u32_small; lia).
  rewrite Hlen. unfold req_bytes. rewrite E.
  assert (HR : forall wr, 0 <= wr < 10 * 2 -> write_remote a rva slot wr = rva + slot * (20 * h) + wr * h).
  { intros wr Hw. rewrite write_remote_slot. rewrite E. apply slot_address_eq; lia. }
  assert (HL : forall wr, 0 <= wr < 10 * 2 -> write_local a data slot wr = data + slot * (2 * h) + half_of wr * h).
  { intros wr Hw. apply write_local_eq; lia. }
  assert (Hcs : 0 <= slot * (2 * h) /\ slot * (2 * h) + 2 * h <= client_data_len a).
  { unfold client_data_len. rewrite Ho, E. simpl.
    pose proof (slot_offset_bound slot (2 * h) (concurrency a) Hs ltac:(lia)).
    assert (concurrency a <= threads a * concurrency a) by nia.
    pose proof (Z.mul_le_mono_nonneg_r (concurrency a) (threads a * concurrency a) (2 * h) ltac:(lia) ltac:(lia)). lia. }
  split; [lia|]. split; [done|]. split.
  - intros wr Hw. rewrite HR, HL by done. unfold inside, server_data_len. rewrite Ho, E. simpl.
    pose proof (prod_bounds _ h 2 (proj2 (proj2 (wr_offset (2 * h) wr h eq_refl Hw ltac:(lia)))) ltac:(lia)).
    pose proof (prod_bounds wr h 20 Hw ltac:(lia)). pose proof (prod_bounds slot (20 * h) 10 ltac:(lia) ltac:(lia)). lia.
  - intros x Hx. destruct (tile 20 h x ltac:(lia) ltac:(lia)) as (k & Hk & Hc & Hu).
    exists k. split; [done|]. unfold covers in *. rewrite HR by done. split; [lia|].
    intros k' Hk' Hc'. rewrite HR in Hc' by done. apply Hu. lia.
Qed.

(** The defaults (one thread, one request of ten 8 MiB sends). *)
Definition demo_write : argument := set_dev_name (Some (lit "bonding0")) default_args.

Lemma demo_write_valid : valid demo_write.
Proof. apply validate_valid; [|vm_compute; reflexivity]. constructor; vm_compute; intuition discriminate. Qed.

Lemma demo_get_valid : valid demo_args.
Proof. apply validate_valid; [|vm_compute; reflexivity]. constructor; vm_compute; intuition discriminate. Qed.

Lemma write_requests_tile_witness :
  write_len demo_write = 4194304 /\ inside (write_remote demo_write 4096 0 19) 4194304 4096 838860800.
Proof.
  destruct (write_requests_tile demo_write 8192 4096 0 demo_write_valid eq_refl) as (H1 & _ & H2 & _).
  - vm_compute. split; congruence.
  - vm_compute. split; congruence.
  - vm_compute. split; congruence.
  - split; [reflexivity|]. apply (H2 19). vm_compute. split; congruence.
Defined.

(** get requests.  For accepted parameters every work request of every
    worker reads inside the server's buffer and lands inside the client's;
    the local ranges of all workers, slots and work requests tile the data
    area exactly, so that no two requests in flight ever write the same byte
    and no byte of the area is unused; the remote ranges of a slot tile its
    ten values. *)
Theorem get_requests_tile a data rva :
  valid a -> a.(op) = OP_GET -> user_va data -> user_va rva ->
  let len := get_len a in
  2 * len = a.(value_size) /\ len mod PAGE_SIZE = 0 /\
  (forall wid slot wr, 0 <= wid < a.(threads) -> 0 <= slot < a.(concurrency) -> 0 <= wr < KV_WR_PER_REQ ->
   inside (get_local a data wid slot wr) len data (client_data_len a) /\
   inside (get_remote a rva slot wr) len rva (server_data_len a)) /\
  (forall x, 0 <= x < client_data_len a -> exists wid slot wr,
   (0 <= wid < a.(threads) /\ 0 <= slot < a.(concurrency) /\ 0 <= wr < KV_WR_PER_REQ) /\
   covers (get_local a data wid slot wr) len (data + x) /\
   forall wid' slot' wr', 0 <= wid' < a.(threads) -> 0 <= slot' < a.(concurrency) -> 0 <= wr' < KV_WR_PER_REQ ->
     covers (get_local a data wid' slot' wr') len (data + x) -> wid' = wid /\ slot' = slot /\ wr' = wr) /\
  (forall slot x, 0 <= slot < a.(concurrency) -> 0 <= x < 10 * a.(value_size) ->
   exists wr, 0 <= wr < KV_WR_PER_REQ /\
   covers (get_remote a rva slot wr) len (rva + slot * (10 * a.(value_size)) + x)).
Proof.
  intros V Ho Hd Hr len. destruct (valid_half_get a V Ho) as (h & E & Hh & Hp & Eh).
  destruct (valid_sizes a V) as (H1 & H2 & _). unfold user_va, KV_WR_PER_REQ, KV_SENDS_PER_REQ, KV_WR_PER_SEND in *.
  assert (Hlen : len = h) by (unfold len, get_len; rewrite Eh; apply u32_small; lia).
  rewrite Hlen. set (c := concurrency a) in *. set (t := threads a) in *.
  assert (HR : forall slot wr, 0 <= slot < c -> 0 <= wr < 10 * 2 -> get_remote a rva slot wr = rva + slot * (20 * h) + wr * h).
  { intros slot wr Hs Hw. rewrite get_remote_slot, E. apply slot_address_eq; lia. }
  assert (HL : forall wid slot wr, 0 <= wid < t -> 0 <= slot < c -> 0 <= wr < 10 * 2 ->
    get_local a data wid slot wr = data + ((wid * c + slot) * 20 + wr) * h).
  { intros wid slot wr Hwi Hs Hw. apply get_local_eq; fold c; lia. }
  assert (EC : client_data_len a = (t * c * 20) * h) by (unfold client_data_len; rewrite Ho, E; simpl; fold t c; lia).
  assert (EV : server_data_len a = 200 * h) by (unfold server_data_len; rewrite Ho, E; simpl; lia).
  split; [lia|]. split; [done|]. rewrite EC, EV, E. unfold inside, covers. split; [|split].
  - intros wid slot wr Hwi Hs Hw. rewrite HL, HR by done.
    pose proof (prod_bounds wid c t Hwi ltac:(lia)).
    assert (Hi : 0 <= (wid * c + slot) * 20 + wr <= t * c * 20 - 1) by lia.
    pose proof (prod_bounds _ h (t * c * 20) ltac:(split; [apply Hi|lia]) ltac:(lia)).
    pose proof (prod_bounds wr h 20 Hw ltac:(lia)). pose proof (prod_bounds slot (20 * h) 10 ltac:(lia) ltac:(lia)). lia.
  - intros x Hx. destruct (tile (t * c * 20) h x ltac:(lia) Hx) as (k & Hk & Hc & Hu).
    assert (Hdec : 0 <= k / 20 / c < t /\ 0 <= (k / 20) mod c < c /\ 0 <= k mod 20 < 20 /\
      (k / 20 / c * c + (k / 20) mod c) * 20 + k mod 20 = k).
    { pose proof (Z.div_mod k 20 ltac:(lia)). pose proof (Z.mod_pos_bound k 20 ltac:(lia)).
      pose proof (Z.div_mod (k / 20) c ltac:(lia)). pose proof (Z.mod_pos_bound (k / 20) c ltac:(lia)).
      assert (k / 20 < t * c) by (apply Z.div_lt_upper_bound; lia).
      assert (0 <= k / 20) by (apply Z.div_pos; lia).
      split; [split; [apply Z.div_pos; lia|apply Z.div_lt_upper_bound; lia]|]. split; [done|]. split; [done|]. lia. }
    destruct Hdec as (D1 & D2 & D3 & D4).
    exists (k / 20 / c), ((k / 20) mod c), (k mod 20). split; [done|]. rewrite HL, D4 by done. unfold covers in Hc.
    split; [lia|]. intros wid' slot' wr' Hw1 Hw2 Hw3 Hcov. rewrite HL in Hcov by done.
    assert (Ek : (wid' * c + slot') * 20 + wr' = k) by (apply Hu; unfold covers; lia).
    assert (wr' = k mod 20 /\ wid' * c + slot' = k / 20) as [-> Eq] by dlia.
    assert (slot' = (k / 20) mod c /\ wid' = k / 20 / c) as [-> ->]; [|done].
    rewrite <- Eq. split.
    + rewrite Z.add_comm, Z.mod_add by lia. by rewrite Z.mod_small.
    + rewrite Z.div_add_l by lia. rewrite Z.div_small by done. lia.
  - intros slot x Hs Hx. destruct (tile 20 h x ltac:(lia) ltac:(lia)) as (k & Hk & Hc & _).
    exists k. split; [done|]. unfold covers in Hc. rewrite HR by done. lia.
Qed.

Lemma get_requests_tile_witness :
  get_len demo_args = 524288 /\ inside (get_local demo_args 8192 7 3 19) 524288 8192 335544320.
Proof.
  destruct (get_requests_tile demo_args 8192 4096 demo_get_valid eq_refl) as (_ & _ & H & _).
  - vm_compute. split; congruence.
  - vm_compute. split; congruence.
  - split; [reflexivity|]. apply (H 7 3 19); vm_compute; split; congruence.
Defined.

(** ** Mixed mode *)

(** The offsets a worker's rounds use. *)
Definition mixed_off (a : argument) (wid : Z) (n : nat) : Z := Nat.iter n (mixed_off_next a) (mixed_off0 a wid).

Lemma mixed_off_even a wid n : valid a -> a.(op) = OP_MIXED -> 0 <= wid < a.(threads) ->
  exists k, mixed_off a wid n = 2 * a.(value_size) * k /\ 0 <= k < 2 * a.(threads).
Proof.
  intros V Ho Hw. destruct (valid_sizes a V) as (H1 & _ & H3 & _). set (v := value_size a) in *. set (t := threads a) in *.
  assert (Hb : forall x, 0 <= x <= 4 * t -> 0 <= x * v <= 2048 * (2 ^ 32 - 1)) by (intros; nia).
  induction n as [|n (k & E & Hk)].
  - exists (2 * wid). unfold mixed_off, mixed_off0, DATA_WINDOW_PER_THREAD. simpl. fold v.
    specialize (Hb (wid * 4) ltac:(lia)). rewrite (u64_small (wid * 4)), u64_small by lia. lia.
  - unfold mixed_off in *. cbn [Nat.iter nat_rect]. unfold Nat.iter in E. rewrite E. unfold mixed_off_next.
    destruct (fixed_offset a); [by exists k|]. rewrite Ho. cbn [OP_MIXED OP_GET Z.eqb Pos.eqb]. fold v t.
    unfold DATA_WINDOW_PER_THREAD. pose proof (Hb (2 * k) ltac:(lia)). pose proof (Hb (t * 4) ltac:(lia)).
    rewrite (u64_small (2 * v)), (u64_small (t * 4)), (u64_small (t * 4 * v)), u64_small by lia.
    replace (2 * v * k + 2 * v) with ((k + 1) * (2 * v)) by lia.
    replace (t * 4 * v) with (2 * t * (2 * v)) by lia. rewrite Z.mul_mod_distr_r by lia.
    exists ((k + 1) mod (2 * t)). split; [lia|]. apply Z.mod_pos_bound. lia.
Qed.

(** mixed rounds.  Whatever number of rounds a worker has done, the two
    writes of a round and the read use [value_size] bytes inside the client's
    window and inside the server's four values. *)
Theorem mixed_rounds_inside a data rva wid n :
  valid a -> a.(op) = OP_MIXED -> 0 <= wid < a.(threads) -> user_va data -> user_va rva ->
  let off := mixed_off a wid n in
  forall l r, (l, r) = mixed_write_a a data rva off \/ (l, r) = mixed_write_b a data rva off \/
              (l, r) = mixed_read a data rva off ->
  inside l a.(value_size) data (client_data_len a) /\ inside r a.(value_size) rva (server_data_len a).
Proof.
  intros V Ho Hw Hd Hr off l r. destruct (mixed_off_even a wid n V Ho Hw) as (k & E & Hk). fold off in E.
  destruct (valid_sizes a V) as (H1 & _ & H3 & _).
  assert (EC : client_data_len a = threads a * 4 * value_size a) by (unfold client_data_len; by rewrite Ho).
  assert (EV : server_data_len a = 4 * value_size a) by (unfold server_data_len; by rewrite Ho).
  rewrite EC, EV. set (v := value_size a) in *. set (t := threads a) in *. unfold user_va in *.
  assert (Hb : forall x, 0 <= x <= 4 * t -> 0 <= x * v <= 2048 * (2 ^ 32 - 1)) by (intros; nia).
  unfold mixed_write_a, mixed_write_b, mixed_read, SERVER_DATA_WINDOW, DATA_WINDOW_PER_THREAD. fold v t.
  pose proof (Hb (2 * k) ltac:(lia)). pose proof (Hb (2 * k + 1) ltac:(lia)). pose proof (Hb (t * 4) ltac:(lia)).
  rewrite (u32_small v), (u64_small (4 * v)), (u64_small (t * 4)), (u64_small (t * 4 * v)) by lia.
  assert (Hoff : forall j, 0 <= j < 4 * t -> inside (data +u64 (j * v)) v data (t * 4 * v) /\
    inside (rva +u64 ((j * v) mod (4 * v))) v rva (4 * v)).
  { intros j Hj. pose proof (Hb j ltac:(lia)). pose proof (Hb (j + 1) ltac:(lia)).
    rewrite Z.mul_mod_distr_r by lia. pose proof (Z.mod_pos_bound j 4 ltac:(lia)).
    assert (0 <= j mod 4 * v <= 3 * v) by nia. unfold inside. rewrite !u64_small by lia. split; [|lia]. split; [lia|]. nia. }
  assert (E2 : off = 2 * k * v) by lia.
  intros [Eq|[Eq|Eq]]; injection Eq as -> ->.
  - rewrite E2. apply Hoff. lia.
  - rewrite (u64_small (off + v)) by lia. replace (off + v) with ((2 * k + 1) * v) by lia. apply Hoff. lia.
  - rewrite E2. rewrite (Z.mod_small (2 * k * v)) by nia. apply Hoff. lia.
Qed.

Definition demo_mixed : argument := set_threads 3 (set_op OP_MIXED demo_write).

Lemma mixed_rounds_inside_witness :
  mixed_off demo_mixed 2 2 = 0 /\
  inside (fst (mixed_write_b demo_mixed 8192 4096 0)) 4194304 8192 50331648.
Proof.
  assert (V : valid demo_mixed).
  { apply validate_valid; [|vm_compute; reflexivity]. constructor; vm_compute; intuition discriminate. }
  split; [vm_compute; reflexivity|].
  refine (proj1 (mixed_rounds_inside demo_mixed 8192 4096 2 2 V eq_refl _ _ _ _ _ (or_intror (or_introl (surjective_pairing _))))).
  - vm_compute. split; congruence.
  - vm_compute. split; congruence.
  - vm_compute. split; congruence.
Defined.
