(* ===== verification/Pipeline.v ===== *)
(** * Pipeline: the request pipelines of a client worker in
      [src/kv_bench.cpp]

    [post_one_req] / [post_one_get], [drain_posted_wrs] / [rollback_get_wrs],
    [client_write_pipeline] and [client_get_pipeline].  The pipelines are
    written against an interface ([Manager]) of the calls they make on
    [UrmaManager] and on the clock; what they rely on are its laws
    ([ManagerLaws]), stated on the lanes the worker holds and on its live
    events.  Diagnostics (log lines, the interval maxima they print and the extra
    clock readings for them) are left out; so are the fields of [worker_t] that
    the pipelines do not touch.

    The write and the get pipeline share all code but the addresses, the kind
    of work request and the final drain; they are two instances of the same
    definitions here ([pipe_kind]). *)

From S2P Require Import Prelude Hist Args Affinity Requests.
From stdpp Require Import list.
#[local] Open Scope Z_scope.

(** ** Interface *)

(** The calls on the manager that hand out or consume something, with their
    results. *)
Inductive mgr_call :=
  | DidAcquire (lane : option Z)
  | DidRelease (lane : Z)
  | DidPostEvent (ue t : Z)
  | DidProbe (t r : Z)
  | DidWait (t : Z) (ok : bool)
  | DidAbort (t : Z)
  | DidPost (d : wr_desc) (ok : bool).

Class Manager (W : Type) := {
  AcquireSendLane : ST W (option Z);
  ReleaseSendLane : Z -> ST W unit;
  PostEvent : ST W (Z * Z);            (* user context and token *)
  ProbeEvent : Z -> ST W Z;
  WaitEvent : Z -> Z -> ST W bool;     (* token, timeout in ms *)
  AbortEvent : Z -> ST W unit;
  PostWr : wr_desc -> ST W bool;       (* PostWrite / PostRead *)
  now_ns : ST W Z;
  nanosleep : Z -> ST W unit;          (* a valid number of nanoseconds *)
  spin_until : Z -> ST W unit;         (* [while (now_ns() < t) {}] *)
  stopped : ST W bool;                 (* w->stop or ctx->fatal *)
  is_fatal : ST W bool;                (* ctx->fatal *)
  held : W -> gset Z;                  (* lanes this worker holds *)
  live : W -> gset Z;                  (* its live event tokens *)
  world_ok : W -> Prop;                (* consistency of the manager *)
  history : W -> list mgr_call;        (* the calls made so far, in order *)
}.

(** The bits of a token. *)
Definition token_range (t : Z) : Prop := 0 <= t < 2 ^ 40.

(** What a call promises of the lanes, the events and its result. *)
Definition promises {W A} `{Manager W} (m : ST W A) (pre : W -> Prop) (post : A -> W -> W -> Prop) : Prop :=
  forall w, world_ok w -> pre w -> world_ok (snd (m w)) /\ post (fst (m w)) w (snd (m w)).

(** A call that goes into the history. *)
Definition records {W A} `{Manager W} (m : ST W A) (c : A -> mgr_call) (pre : W -> Prop) (post : A -> W -> W -> Prop) : Prop :=
  promises m pre (fun r w w' => history w' = history w ++ [c r] /\ post r w w').

(** A call that leaves lanes and events alone. *)
Definition pure_call {W A} `{Manager W} (m : ST W A) : Prop :=
  promises m (fun _ => True) (fun _ w w' => held w' = held w /\ live w' = live w /\ history w' = history w).

Class ManagerLaws (W : Type) `{Manager W} : Prop := {
  acquire_law : records AcquireSendLane DidAcquire (fun _ => True) (fun r w w' =>
    live w' = live w /\
    match r with
    | None => held w' = held w
    | Some j => j <> 0 /\ j ∉ held w /\ held w' = {[j]} ∪ held w
    end);
  release_law : forall j, records (ReleaseSendLane j) (fun _ => DidRelease j) (fun w => j ∈ held w) (fun _ w w' =>
    live w' = live w /\ held w' = held w ∖ {[j]});
  post_event_law : records PostEvent (fun r => DidPostEvent r.1 r.2) (fun _ => True) (fun r w w' =>
    held w' = held w /\
    if decide (r.1 = 0) then live w' = live w /\ (256 <= size (live w))%nat
    else token_range r.2 /\ r.2 ∉ live w /\ live w' = {[r.2]} ∪ live w);
  probe_law : forall t, records (ProbeEvent t) (DidProbe t) (fun _ => token_range t) (fun r w w' =>
    held w' = held w /\
    ((r = 0 /\ live w' = live w) \/ ((r = 1 \/ r = -1) /\ t ∈ live w /\ live w' = live w ∖ {[t]})));
  wait_law : forall t ms, records (WaitEvent t ms) (DidWait t) (fun _ => token_range t) (fun b w w' =>
    held w' = held w /\ live w' = live w ∖ {[t]} /\ (b = true -> t ∈ live w));
  abort_law : forall t, records (AbortEvent t) (fun _ => DidAbort t) (fun _ => token_range t) (fun _ w w' =>
    held w' = held w /\ live w' = live w ∖ {[t]});
  post_wr_law : forall d, records (PostWr d) (DidPost d) (fun _ => True) (fun _ w w' =>
    held w' = held w /\ live w' = live w);
  now_law : pure_call now_ns;
  nanosleep_law : forall t, pure_call (nanosleep t);
  spin_law : forall t, pure_call (spin_until t);
  stopped_law : pure_call stopped;
  fatal_law : pure_call is_fatal;
}.

(** ** Reading a history

    These read the record of a run without reference to the code. *)

(** The lane every token was last posted on, and the lanes of the tokens whose
    wait failed. *)
Record account := mk_account { last_event : Z; lane_of : gmap Z Z; lost_on : gset Z }.

Definition note (x : account) (c : mgr_call) : account :=
  match c with
  | DidPostEvent _ t => mk_account t x.(lane_of) x.(lost_on)
  | DidPost d true => mk_account x.(last_event) (<[x.(last_event) := d.(wr_jetty)]> x.(lane_of)) x.(lost_on)
  | DidWait t false => mk_account x.(last_event) x.(lane_of) (from_option singleton ∅ (x.(lane_of) !! t) ∪ x.(lost_on))
  | _ => x
  end.

Definition account_of (h : list mgr_call) : account := foldl note (mk_account 0 ∅ ∅) h.

(** The lanes on which a wait failed. *)
Definition lost_lanes (h : list mgr_call) : gset Z := (account_of h).(lost_on).

(** Lanes and posts that were refused. *)
Definition refused (c : mgr_call) : bool :=
  match c with DidAcquire None | DidPost _ false => true | _ => false end.
Definition refusals (h : list mgr_call) : nat := length (filter (fun c => refused c = true) h).

(** Completions that reported an error. *)
Definition bad_probe (c : mgr_call) : bool :=
  match c with DidProbe _ r => r =? -1 | _ => false end.
Definition bad_probes (h : list mgr_call) : nat := length (filter (fun c => bad_probe c = true) h).

(** Counting complete rounds: on the lane acquired last, [r_posted] work requests were
    posted and [r_waited] of them waited for, and nothing failed so far
    ([r_good]); [r_count] rounds were complete before, and [r_failed] waits of
    the whole history failed. *)
Record tally := mk_tally { r_good : bool; r_posted : nat; r_waited : nat; r_count : nat; r_failed : nat }.

Definition round_note (x : tally) (c : mgr_call) : tally :=
  match c with
  | DidAcquire _ => mk_tally true 0 0 x.(r_count) x.(r_failed)
  | DidPostEvent ue _ => mk_tally (x.(r_good) && negb (ue =? 0)) x.(r_posted) x.(r_waited) x.(r_count) x.(r_failed)
  | DidPost _ ok => mk_tally (x.(r_good) && ok) (S x.(r_posted)) x.(r_waited) x.(r_count) x.(r_failed)
  | DidWait _ ok =>
      mk_tally (x.(r_good) && ok) x.(r_posted) (S x.(r_waited)) x.(r_count)
        (if ok then x.(r_failed) else S x.(r_failed))
  | DidAbort _ | DidProbe _ _ => mk_tally false x.(r_posted) x.(r_waited) x.(r_count) x.(r_failed)
  | DidRelease _ =>
      mk_tally false 0 0 (if x.(r_good) && (0 <? r_posted x)%nat && (r_waited x =? r_posted x)%nat
                          then S x.(r_count) else x.(r_count)) x.(r_failed)
  end.

Definition tally_of (h : list mgr_call) : tally := foldl round_note (mk_tally false 0 0 0 0) h.

(** The rounds in which a lane was acquired, work requests were posted on it,
    every one of them completed, and the lane was given back. *)
Definition complete_rounds (h : list mgr_call) : nat := (tally_of h).(r_count).

(** The waits that ended without their completion. *)
Definition failed_waits (h : list mgr_call) : nat := (tally_of h).(r_failed).

Lemma tally_snoc h c : tally_of (h ++ [c]) = round_note (tally_of h) c.
Proof. unfold tally_of. by rewrite foldl_app. Qed.

(** ** State *)

(** [wr_slot_t]: one request in flight (20 work requests on 10 lanes). *)
Record wr_slot := mk_slot {
  jetty : list Z;
  event_token : list Z;
  wr_post_ns : list Z;
  done_ : list bool;
  done_cnt : Z;
  req_seq : Z;
  post_ns : Z;
  active_ : bool;
}.

Definition set_jetty (x : list Z) (r : wr_slot) : wr_slot :=
  mk_slot x r.(event_token) r.(wr_post_ns) r.(done_) r.(done_cnt) r.(req_seq) r.(post_ns)
  r.(active_).
Definition set_event_token (x : list Z) (r : wr_slot) : wr_slot :=
  mk_slot r.(jetty) x r.(wr_post_ns) r.(done_) r.(done_cnt) r.(req_seq) r.(post_ns) r.(active_).
Definition set_wr_post_ns (x : list Z) (r : wr_slot) : wr_slot :=
  mk_slot r.(jetty) r.(event_token) x r.(done_) r.(done_cnt) r.(req_seq) r.(post_ns) r.(active_).
Definition set_done_ (x : list bool) (r : wr_slot) : wr_slot :=
  mk_slot r.(jetty) r.(event_token) r.(wr_post_ns) x r.(done_cnt) r.(req_seq) r.(post_ns)
  r.(active_).
Definition set_done_cnt (x : Z) (r : wr_slot) : wr_slot :=
  mk_slot r.(jetty) r.(event_token) r.(wr_post_ns) r.(done_) x r.(req_seq) r.(post_ns)
  r.(active_).
Definition set_req_seq (x : Z) (r : wr_slot) : wr_slot :=
  mk_slot r.(jetty) r.(event_token) r.(wr_post_ns) r.(done_) r.(done_cnt) x r.(post_ns)
  r.(active_).
Definition set_post_ns (x : Z) (r : wr_slot) : wr_slot :=
  mk_slot r.(jetty) r.(event_token) r.(wr_post_ns) r.(done_) r.(done_cnt) r.(req_seq) x
  r.(active_).
Definition set_active_ (x : bool) (r : wr_slot) : wr_slot :=
  mk_slot r.(jetty) r.(event_token) r.(wr_post_ns) r.(done_) r.(done_cnt) r.(req_seq) r.(post_ns)
  x.

(** The part of [worker_t] the pipelines use.  [active_slots] and [free_slots]
    are the arrays up to their counts, the stack of free slots with its top
    first. *)
Record worker := mk_worker {
  w_id : Z;
  w_rng : Z;
  hist_req : kv_hist;
  hist_wr : kv_hist;
  hist_post : kv_hist;
  w_ops : Z;
  w_bytes : Z;
  w_errors : Z;
  wr_slots : list wr_slot;
  active_slots : list nat;
  free_slots : list nat;
}.

Definition set_w_id (x : Z) (r : worker) : worker :=
  mk_worker x r.(w_rng) r.(hist_req) r.(hist_wr) r.(hist_post) r.(w_ops) r.(w_bytes) r.(w_errors)
  r.(wr_slots) r.(active_slots) r.(free_slots).
Definition set_w_rng (x : Z) (r : worker) : worker :=
  mk_worker r.(w_id) x r.(hist_req) r.(hist_wr) r.(hist_post) r.(w_ops) r.(w_bytes) r.(w_errors)
  r.(wr_slots) r.(active_slots) r.(free_slots).
Definition set_hist_req (x : kv_hist) (r : worker) : worker :=
  mk_worker r.(w_id) r.(w_rng) x r.(hist_wr) r.(hist_post) r.(w_ops) r.(w_bytes) r.(w_errors)
  r.(wr_slots) r.(active_slots) r.(free_slots).
Definition set_hist_wr (x : kv_hist) (r : worker) : worker :=
  mk_worker r.(w_id) r.(w_rng) r.(hist_req) x r.(hist_post) r.(w_ops) r.(w_bytes) r.(w_errors)
  r.(wr_slots) r.(active_slots) r.(free_slots).
Definition set_hist_post (x : kv_hist) (r : worker) : worker :=
  mk_worker r.(w_id) r.(w_rng) r.(hist_req) r.(hist_wr) x r.(w_ops) r.(w_bytes) r.(w_errors)
  r.(wr_slots) r.(active_slots) r.(free_slots).
Definition set_w_ops (x : Z) (r : worker) : worker :=
  mk_worker r.(w_id) r.(w_rng) r.(hist_req) r.(hist_wr) r.(hist_post) x r.(w_bytes) r.(w_errors)
  r.(wr_slots) r.(active_slots) r.(free_slots).
Definition set_w_bytes (x : Z) (r : worker) : worker :=
  mk_worker r.(w_id) r.(w_rng) r.(hist_req) r.(hist_wr) r.(hist_post) r.(w_ops) x r.(w_errors)
  r.(wr_slots) r.(active_slots) r.(free_slots).
Definition set_w_errors (x : Z) (r : worker) : worker :=
  mk_worker r.(w_id) r.(w_rng) r.(hist_req) r.(hist_wr) r.(hist_post) r.(w_ops) r.(w_bytes) x
  r.(wr_slots) r.(active_slots) r.(free_slots).
Definition set_wr_slots (x : list wr_slot) (r : worker) : worker :=
  mk_worker r.(w_id) r.(w_rng) r.(hist_req) r.(hist_wr) r.(hist_post) r.(w_ops) r.(w_bytes)
  r.(w_errors) x r.(active_slots) r.(free_slots).
Definition set_active_slots (x : list nat) (r : worker) : worker :=
  mk_worker r.(w_id) r.(w_rng) r.(hist_req) r.(hist_wr) r.(hist_post) r.(w_ops) r.(w_bytes)
  r.(w_errors) r.(wr_slots) x r.(free_slots).
Definition set_free_slots (x : list nat) (r : worker) : worker :=
  mk_worker r.(w_id) r.(w_rng) r.(hist_req) r.(hist_wr) r.(hist_post) r.(w_ops) r.(w_bytes)
  r.(w_errors) r.(wr_slots) r.(active_slots) x.

Definition empty_slot : wr_slot :=
  mk_slot (replicate 10 0) (replicate 20 0) (replicate 20 0) (replicate 20 false) 0 0 0 false.

(** Only the slots that have a local buffer are used. *)
Definition slot_count (a : argument) : Z :=
  let c := if 1 <=? a.(concurrency) then u32 a.(concurrency) else 1 in
  if KV_MAX_CONCURRENCY <? c then KV_MAX_CONCURRENCY else c.

(** One round of the loop of [create_workers]: worker [i] with the id that
    [RegisterWorker] gave it; [None] when a histogram cannot be allocated. *)
Definition create_worker (a : argument) (id i : Z) (alloc_ok : bool) : option worker :=
  '(r, h) ← kv_hist_init 1 (60 *u64 1000000000) 3 alloc_ok;
  if negb (r =? 0) then None
  else Some (mk_worker id (u32 (a.(seed) + u32 (i * 2654435761))) h h h 0 0 0
               (replicate 10 empty_slot) [] (rev (seq 0 (Z.to_nat (slot_count a))))).

Inductive pipe_kind := PWrite | PGet.

Section pipeline.
Context {W : Type} `{Manager W}.
Context (a : argument) (mch : machine) (kind : pipe_kind) (client_data rva : Z).

(** A worker, the world, and the local variables of the pipeline. *)
Record pst := mk_pst { wk : worker; wd : W; req_active : Z; seq_no : Z; next_req_ns : Z }.

Definition set_wk (x : worker) (s : pst) : pst := mk_pst x s.(wd) s.(req_active) s.(seq_no) s.(next_req_ns).

(** A call on the world. *)
Definition lift {A} (m : ST W A) : ST pst A :=
  fun s => let '(r, w') := m s.(wd) in (r, mk_pst s.(wk) w' s.(req_active) s.(seq_no) s.(next_req_ns)).

(** An assignment to the locals, to the worker, and reads. *)
Definition modify (f : pst -> pst) : ST pst unit := fun s => (tt, f s).
Definition asks {A} (f : pst -> A) : ST pst A := fun s => (f s, s).
Definition upd (f : worker -> worker) : ST pst unit := fun s => (tt, set_wk (f s.(wk)) s).
Definition gets {A} (f : worker -> A) : ST pst A := fun s => (f s.(wk), s).

Definition slot_at (w : worker) (i : nat) : wr_slot := default empty_slot (w.(wr_slots) !! i).
Definition upd_slot (i : nat) (f : wr_slot -> wr_slot) : ST pst unit :=
  upd (fun w => set_wr_slots (<[i := f (slot_at w i)]> w.(wr_slots)) w).
Definition slot_get {A} (i : nat) (f : wr_slot -> A) : ST pst A := gets (fun w => f (slot_at w i)).

Definition jetty_at (sl : wr_slot) (i : nat) : Z := default 0 (sl.(jetty) !! i).
Definition token_at (sl : wr_slot) (i : nat) : Z := default 0 (sl.(event_token) !! i).
Definition done_at (sl : wr_slot) (i : nat) : bool := default false (sl.(done_) !! i).
Definition post_ns_at (sl : wr_slot) (i : nat) : Z := default 0 (sl.(wr_post_ns) !! i).

Definition put_jetty (i : nat) (j : Z) (sl : wr_slot) : wr_slot := set_jetty (<[i := j]> sl.(jetty)) sl.
Definition put_done (i : nat) (b : bool) (sl : wr_slot) : wr_slot := set_done_ (<[i := b]> sl.(done_)) sl.
Definition put_token (i : nat) (t : Z) (sl : wr_slot) : wr_slot := set_event_token (<[i := t]> sl.(event_token)) sl.
Definition put_post_ns (i : nat) (t : Z) (sl : wr_slot) : wr_slot := set_wr_post_ns (<[i := t]> sl.(wr_post_ns)) sl.

(** [kv_hist_record(&w->hist_wr, now_ns() - s->wr_post_ns[wr])] and the two
    other histograms. *)
Definition record_wr (slot wr : nat) : ST pst unit :=
  t ← lift now_ns;
  upd (fun w => set_hist_wr (kv_hist_record w.(hist_wr) (t -u64 post_ns_at (slot_at w slot) wr)) w).

Definition record_req (slot : nat) : ST pst unit :=
  t ← lift now_ns;
  upd (fun w => set_hist_req (kv_hist_record w.(hist_req) (t -u64 (slot_at w slot).(post_ns))) w).

Definition record_post (t0 : Z) : ST pst unit :=
  t ← lift now_ns;
  upd (fun w => set_hist_post (kv_hist_record w.(hist_post) (t -u64 t0)) w).

(** ** Rolling back a request *)

(** The waits of one send in [drain_posted_wrs] / [rollback_get_wrs]: did all
    complete? *)
Fixpoint wait_wrs (slot : nat) (wrs : list nat) (timeout_ms : Z) : ST pst bool :=
  match wrs with
  | [] => mret true
  | wr :: wrs =>
      t ← slot_get slot (fun sl => token_at sl wr);
      b ← lift (WaitEvent t timeout_ms);
      (if b : bool then record_wr slot wr else mret tt) ;;
      rest ← wait_wrs slot wrs timeout_ms;
      mret (b && rest)
  end.

Definition release_lane (slot send_idx : nat) : ST pst unit :=
  j ← slot_get slot (fun sl => jetty_at sl send_idx);
  lift (ReleaseSendLane j).

(** One send: its lane goes back when all its work requests completed, and is
    quarantined (forgotten) otherwise. *)
Definition drain_send (slot send_idx : nat) (wrs : list nat) (timeout_ms : Z) : ST pst unit :=
  ok ← wait_wrs slot wrs timeout_ms;
  (if ok : bool then release_lane slot send_idx else mret tt) ;;
  upd_slot slot (put_jetty send_idx 0).

(** The posted work requests of a send. *)
Definition posted_of (send_idx count : nat) : list nat :=
  seq (send_idx * 2) (Nat.min (send_idx * 2 + 2) count - send_idx * 2).

Fixpoint drain_sends (slot : nat) (sends : list nat) (count : nat) (timeout_ms : Z) : ST pst unit :=
  match sends with
  | [] => mret tt
  | i :: sends =>
      drain_send slot i (posted_of i count) timeout_ms ;;
      drain_sends slot sends count timeout_ms
  end.

Definition drain_posted_wrs (slot count : nat) : ST pst unit :=
  drain_sends slot (seq 0 ((count + 2 - 1) / 2)) count a.(timeout_ms).

(** ** Posting a request *)

Definition wr_descriptor (wid : Z) (slot wr : nat) (j src dst ue : Z) : wr_desc :=
  let s := Z.of_nat slot in
  let i := Z.of_nat wr in
  match kind with
  | PWrite => mk_wr false j (write_local a client_data s i) (write_remote a rva s i) (write_len a)
                (u32 src) (u32 dst) ue
  | PGet => mk_wr true j (get_local a client_data wid s i) (get_remote a rva s i) (get_len a)
              (u32 src) (u32 dst) ue
  end.

(** [pick_send_chip] advances the worker's generator; it has a result on every
    machine with a CPU. *)
Definition choose_chips (send_idx : nat) : ST pst (Z * Z) :=
  fun s =>
    match pick_send_chip a mch s.(wk).(w_id) s.(wk).(w_rng) (Z.of_nat send_idx) with
    | Some (src, dst, rng) => ((src, dst), set_wk (set_w_rng rng s.(wk)) s)
    | None => ((INVALID_CHIP, INVALID_CHIP), s)
    end.

(** The failure exits of the loop body: give back a lane taken for this work
    request, drain what was posted before it, mark the slot free. *)
Definition fail_wr (slot wr : nat) : ST pst unit :=
  (if decide (wr mod 2 = 0)%nat
   then release_lane slot (wr / 2) ;; upd_slot slot (put_jetty (wr / 2) 0)
   else mret tt) ;;
  drain_posted_wrs slot wr ;;
  upd_slot slot (set_active_ false).

(** The part of the body from [PostEvent] on: [false] is [return -1]. *)
Definition post_wr_on (slot wr : nat) (j src dst : Z) : ST pst bool :=
  '(ue, t) ← lift PostEvent;
  if decide (ue = 0) then fail_wr slot wr ;; mret false
  else
    t_wr ← lift now_ns;
    upd_slot slot (put_post_ns wr t_wr) ;;
    t0 ← lift now_ns;
    wid ← gets w_id;
    ok ← lift (PostWr (wr_descriptor wid slot wr j src dst ue));
    record_post t0 ;;
    if ok : bool then
      upd_slot slot (put_token wr t) ;;
      upd_slot slot (put_done wr false) ;;
      mret true
    else
      lift (AbortEvent t) ;;
      fail_wr slot wr ;;
      mret false.

(** The body of the loop over the 20 work requests. *)
Definition post_wr (slot wr : nat) : ST pst bool :=
  '(src, dst) ← choose_chips (wr / 2);
  if decide (wr mod 2 = 0)%nat then
    r ← lift AcquireSendLane;
    match r with
    | None =>
        drain_posted_wrs slot wr ;;
        upd_slot slot (set_active_ false) ;;
        mret false
    | Some j =>
        upd_slot slot (put_jetty (wr / 2) j) ;;
        post_wr_on slot wr j src dst
    end
  else
    j ← slot_get slot (fun sl => jetty_at sl (wr / 2));
    post_wr_on slot wr j src dst.

Fixpoint post_wrs (slot : nat) (wrs : list nat) : ST pst bool :=
  match wrs with
  | [] => mret true
  | wr :: wrs => ok ← post_wr slot wr; if ok : bool then post_wrs slot wrs else mret false
  end.

(** [post_one_req] and [post_one_get]: [true] is the return value 0. *)
Definition post_one (slot : nat) (seqno : Z) : ST pst bool :=
  upd_slot slot (fun sl => set_active_ true (set_done_cnt 0 (set_req_seq seqno sl))) ;;
  t ← lift now_ns;
  upd_slot slot (set_post_ns t) ;;
  ok ← post_wrs slot (seq 0 20);
  if ok : bool then upd (fun w => set_active_slots (w.(active_slots) ++ [slot]) w) ;; mret true
  else mret false.

(** ** Collecting completions *)

Fixpoint probe_wrs (slot : nat) (wrs : list nat) : ST pst bool :=
  match wrs with
  | [] => mret true
  | i :: wrs =>
      d ← slot_get slot (fun sl => done_at sl i);
      if d : bool then probe_wrs slot wrs
      else
        t ← slot_get slot (fun sl => token_at sl i);
        r ← lift (ProbeEvent t);
        if r =? -1 then mret false
        else
          (if r =? 1 then
             upd_slot slot (fun sl => set_done_cnt (u8 (sl.(done_cnt) + 1)) (put_done i true sl)) ;;
             record_wr slot i
           else mret tt) ;;
          probe_wrs slot wrs
  end.

Definition req_bytes : Z :=
  match kind with
  | PWrite => a.(send_size) *u64 KV_SENDS_PER_REQ
  | PGet => a.(value_size) *u64 KV_SENDS_PER_REQ
  end.

Definition add_bytes : ST pst unit := upd (fun w => set_w_bytes (w.(w_bytes) +u64 req_bytes) w).
Definition add_op : ST pst unit := upd (fun w => set_w_ops (w.(w_ops) +u64 1) w).

Fixpoint release_sends (slot : nat) (sends : list nat) : ST pst unit :=
  match sends with
  | [] => mret tt
  | i :: sends =>
      release_lane slot i ;;
      upd_slot slot (put_jetty i 0) ;;
      release_sends slot sends
  end.

(** [free_slots[free_count++] = idx; active_slots[k] = active_slots[active_count - 1];
    active_count--] *)
Definition retire (k : nat) (idx : nat) (w : worker) : worker :=
  let n := (length w.(active_slots) - 1)%nat in
  set_free_slots (idx :: w.(free_slots))
    (set_active_slots (take n (<[k := default O (w.(active_slots) !! n)]> w.(active_slots))) w).

Definition finish_req (k idx : nat) : ST pst unit :=
  add_bytes ;;
  release_sends idx (seq 0 10) ;;
  upd_slot idx (set_active_ false) ;;
  record_req idx ;;
  add_op ;;
  modify (fun s => mk_pst s.(wk) s.(wd) (if 0 <? s.(req_active) then s.(req_active) - 1 else s.(req_active))
                     s.(seq_no) s.(next_req_ns)) ;;
  upd (retire k idx).

(** The loop over the slots in flight: every pass raises [k] or drops a slot,
    so [active_count + 1] passes are enough (the result is never [None]).
    [Some false] is [return -1]. *)
Fixpoint collect (fuel k : nat) : ST pst (option bool) :=
  match fuel with
  | O => mret None
  | S fuel =>
      r ← gets (fun w => w.(active_slots) !! k);
      match r with
      | None => mret (Some true)
      | Some idx =>
          ok ← probe_wrs idx (seq 0 20);
          if negb ok then mret (Some false)
          else
            c ← slot_get idx done_cnt;
            if c <? KV_WR_PER_REQ then collect fuel (S k)
            else finish_req k idx ;; collect fuel k
      end
  end.

(** ** Sending *)

(** [sleep_ns]: the argument goes to the [long] field [tv_nsec]; [nanosleep]
    refuses (EINVAL, at once) what is not in [0, 999999999]. *)
Definition sleep_ns (ns : Z) : ST W unit :=
  let tv_nsec := (ns + 2 ^ 63) mod 2 ^ 64 - 2 ^ 63 in
  if (0 <=? tv_nsec) && (tv_nsec <? 1000000000) then nanosleep tv_nsec else mret tt.

(** [if (interval_ns > 0) ...]: wait for the next slot in the rate, then set
    the one after it. *)
Definition pace (interval_ns : Z) : ST pst unit :=
  if 0 <? interval_ns then
    n ← lift now_ns;
    next ← asks next_req_ns;
    (if n <? next then
       n ← lift now_ns;
       (if 50000 <? next -u64 n then lift (sleep_ns ((next -u64 n) - 50000)) else mret tt) ;;
       lift (spin_until next)
     else mret tt) ;;
    n ← lift now_ns;
    modify (fun s => mk_pst s.(wk) s.(wd) s.(req_active) s.(seq_no) (n +u64 interval_ns))
  else mret tt.

(** The sending loop; every pass posts one request, so [max_inflight + 1]
    passes are enough (the result is never [None]).  [Some false] is
    [return -1]. *)
Fixpoint send (fuel : nat) (deadline max_inflight interval_ns : Z) : ST pst (option bool) :=
  match fuel with
  | O => mret None
  | S fuel =>
      n ← lift now_ns;
      go ← (if n <? deadline then fatal ← lift is_fatal; mret (negb fatal) else mret false);
      if negb go then mret (Some true)
      else
        ra ← asks req_active;
        if max_inflight <=? ra then mret (Some true)
        else
          pace interval_ns ;;
          fr ← gets free_slots;
          match fr with
          | [] => mret (Some true)
          | slot :: rest =>
              upd (set_free_slots rest) ;;
              seqno ← asks seq_no;
              ok ← post_one slot seqno;
              if negb ok then upd (fun w => set_free_slots (slot :: w.(free_slots)) w) ;; mret (Some false)
              else
                modify (fun s => mk_pst s.(wk) s.(wd) (u32 (s.(req_active) + 1)) (s.(seq_no) +u64 1)
                                   s.(next_req_ns)) ;;
                send fuel deadline max_inflight interval_ns
          end
  end.

(** ** Draining at the end *)

(** [remaining_ms] of a drain. *)
Definition remaining_ms (deadline : Z) : ST pst Z :=
  n ← lift now_ns;
  mret (if n <? deadline then i32 ((deadline - n +u64 999999) / 1000000) else 0).

(** [client_write_pipeline]: wait only for what is not done; a lane goes back
    when both halves of its send completed.  The number of failed waits. *)
Definition drain_wr (slot wr : nat) (deadline : Z) : ST pst Z :=
  d ← slot_get slot (fun sl => done_at sl wr);
  if d : bool then mret 0
  else
    ms ← remaining_ms deadline;
    t ← slot_get slot (fun sl => token_at sl wr);
    b ← lift (WaitEvent t ms);
    if b : bool then record_wr slot wr ;; mret 0 else mret 1.

Fixpoint drain_write_sends (slot : nat) (sends : list nat) (deadline : Z) : ST pst Z :=
  match sends with
  | [] => mret 0
  | i :: sends =>
      f0 ← drain_wr slot (i * 2) deadline;
      f1 ← drain_wr slot (i * 2 + 1) deadline;
      (if f0 + f1 =? 0 then release_lane slot i else mret tt) ;;
      upd_slot slot (put_jetty i 0) ;;
      f ← drain_write_sends slot sends deadline;
      mret (f0 + f1 + f)
  end.

Definition drain_write_slot (slot : nat) (deadline : Z) : ST pst Z :=
  f ← drain_write_sends slot (seq 0 10) deadline;
  (if f =? 0 then record_req slot ;; add_op ;; add_bytes else mret tt) ;;
  mret f.

(** [client_get_pipeline]: wait for all 20 tokens; the lanes go back only when
    every wait succeeded. *)
Definition drain_get_slot (slot : nat) (deadline : Z) : ST pst Z :=
  ms ← remaining_ms deadline;
  ok ← wait_wrs slot (seq 0 20) ms;
  (if (ok : bool) then record_req slot ;; add_op ;; add_bytes ;; release_sends slot (seq 0 10)
   else mret tt) ;;
  upd_slot slot (fun sl => set_jetty (replicate 10 0) sl) ;;
  mret (if (ok : bool) then 0 else 1).

(** The draining loop; every pass drops a slot. *)
Fixpoint drain_all (fuel : nat) (deadline failures : Z) : ST pst (option Z) :=
  match fuel with
  | O => mret None
  | S fuel =>
      r ← gets (fun w => w.(active_slots) !! O);
      match r with
      | None => mret (Some failures)
      | Some idx =>
          f ← (match kind with PWrite => drain_write_slot idx deadline | PGet => drain_get_slot idx deadline end);
          upd_slot idx (set_active_ false) ;;
          upd (retire O idx) ;;
          drain_all fuel deadline (failures +u64 f)
      end
  end.

(** ** The pipelines *)

Definition max_inflight : Z :=
  let c := if 1 <=? a.(concurrency) then a.(concurrency) else 1 in
  if KV_MAX_CONCURRENCY <? c then KV_MAX_CONCURRENCY else c.

Definition interval_ns : Z :=
  if 0 <? a.(qps) then
    let per_thread := a.(qps) / a.(threads) in
    1000000000 / (if per_thread =? 0 then 1 else per_thread)
  else 0.

(** The main loop for at most [fuel] passes: [None] when it is still running,
    [Some false] for [return -1]. *)
Fixpoint main_loop (fuel : nat) (deadline : Z) : ST pst (option bool) :=
  match fuel with
  | O => mret None
  | S fuel =>
      stop ← lift stopped;
      go ← (if (stop : bool) then mret false else n ← lift now_ns; mret (n <? deadline));
      if negb go then mret (Some true)
      else
        nact ← gets (fun w => length w.(active_slots));
        r ← collect (S nact) 0;
        match r with
        | Some true =>
            r ← send 11 deadline max_inflight interval_ns;
            match r with
            | Some true => main_loop fuel deadline
            | _ => mret r
            end
        | _ => mret r
        end
  end.

(** [client_write_pipeline] / [client_get_pipeline]: the return value, [None]
    when the main loop has not ended within [fuel] passes. *)
Definition client_pipeline (fuel : nat) (deadline : Z) : ST pst (option Z) :=
  n ← lift now_ns;
  modify (fun s => mk_pst s.(wk) s.(wd) 0 0 n) ;;
  r ← main_loop fuel deadline;
  match r with
  | None => mret None
  | Some false => mret (Some (-1))
  | Some true =>
      n ← lift now_ns;
      let drain_deadline := n +u64 (u64 a.(timeout_ms) *u64 1000000) in
      nact ← gets (fun w => length w.(active_slots));
      r ← drain_all (S nact) drain_deadline 0;
      match r with
      | None => mret None
      | Some f =>
          (if 0 <? f then upd (fun w => set_w_errors (w.(w_errors) +u64 f) w) else mret tt) ;;
          mret (Some 0)
      end
  end.

End pipeline.

(** The functions of the source: the get side is the same code with its own
    name. *)
Section names.
Context {W : Type} `{Manager W} (a : argument) (mch : machine) (client_data rva : Z).

Definition rollback_get_wrs (slot count : nat) : ST (@pst W) unit := drain_posted_wrs a slot count.
Definition post_one_req : nat -> Z -> ST (@pst W) bool := post_one a mch PWrite client_data rva.
Definition post_one_get : nat -> Z -> ST (@pst W) bool := post_one a mch PGet client_data rva.
Definition client_write_pipeline : nat -> Z -> ST (@pst W) (option Z) :=
  client_pipeline a mch PWrite client_data rva.
Definition client_get_pipeline : nat -> Z -> ST (@pst W) (option Z) :=
  client_pipeline a mch PGet client_data rva.

End names.

(** ** Weakest preconditions

    The pipelines see the world only through the lanes they hold and their
    live events, and leave a record of their calls: predicates are on this view
    of the state, and every call has a rule that follows from the laws. *)

Record view := mk_view { vw : worker; va : Z; vseq : Z; vheld : gset Z; vlive : gset Z; vhist : list mgr_call }.

Definition upd_vw (f : worker -> worker) (v : view) : view :=
  mk_view (f v.(vw)) v.(va) v.(vseq) v.(vheld) v.(vlive) v.(vhist).
Definition set_held (h : gset Z) (v : view) : view := mk_view v.(vw) v.(va) v.(vseq) h v.(vlive) v.(vhist).
Definition set_live (l : gset Z) (v : view) : view := mk_view v.(vw) v.(va) v.(vseq) v.(vheld) l v.(vhist).
(** A call was made. *)
Definition did (c : mgr_call) (v : view) : view :=
  mk_view v.(vw) v.(va) v.(vseq) v.(vheld) v.(vlive) (v.(vhist) ++ [c]).

Section rules.
Context {W : Type} `{HM : Manager W} {HL : ManagerLaws W}.

Definition pview (s : @pst W) : view :=
  mk_view s.(wk) s.(req_active) s.(seq_no) (held s.(wd)) (live s.(wd)) (history s.(wd)).

Definition wp {A} (m : ST (@pst W) A) (Q : A -> view -> Prop) (v : view) : Prop :=
  triple (fun s => world_ok s.(wd) /\ pview s = v) m (fun r s => world_ok s.(wd) /\ Q r (pview s)).

Lemma wp_ret {A} (r : A) Q v : Q r v -> wp (mret r) Q v.
Proof. intros H s [Hw <-]. done. Qed.

Lemma wp_bind {A B} (m : ST (@pst W) A) (f : A -> ST (@pst W) B) Q v :
  wp m (fun r v' => wp (f r) Q v') v -> wp (m ≫= f) Q v.
Proof.
  intros Hm. apply triple_bind with (R := fun r s => world_ok s.(wd) /\ wp (f r) Q (pview s)); [exact Hm|].
  intros r s [Hw Hs]. exact (Hs s (conj Hw eq_refl)).
Qed.

Lemma wp_mono {A} (m : ST (@pst W) A) (Q Q' : A -> view -> Prop) v :
  wp m Q v -> (forall r v', Q r v' -> Q' r v') -> wp m Q' v.
Proof. intros H HQ s Hs. destruct (H s Hs). auto. Qed.

Lemma wp_upd f (Q : unit -> view -> Prop) v : Q tt (upd_vw f v) -> wp (upd f) Q v.
Proof. intros H s [Hw <-]. done. Qed.

Lemma wp_gets {A} (f : worker -> A) Q v : Q (f v.(vw)) v -> wp (gets f) Q v.
Proof. intros H s [Hw <-]. done. Qed.

(** Reads of the locals and assignments to them. *)
Lemma wp_asks {A} (f : @pst W -> A) (P : A -> view -> Prop) Q v :
  (forall s, P (f s) (pview s)) -> (forall r, P r v -> Q r v) -> wp (asks f) Q v.
Proof. intros HP HQ s [Hw <-]. split; [done|]. apply HQ, HP. Qed.

Lemma wp_modify (f : @pst W -> pst) (g : view -> view) (Q : unit -> view -> Prop) v :
  (forall s, (f s).(wd) = s.(wd) /\ pview (f s) = g (pview s)) -> Q tt (g v) -> wp (modify f) Q v.
Proof. intros Hf HQ s [Hw <-]. destruct (Hf s) as [E1 E2]. simpl. by rewrite E1, E2. Qed.

Lemma set_held_same v : set_held v.(vheld) v = v.
Proof. by destruct v. Qed.

Lemma set_live_same v : set_live v.(vlive) v = v.
Proof. by destruct v. Qed.

(** A call on the world, by its promise. *)
Lemma wp_lift {A} (m : ST W A) pre post (Q : A -> view -> Prop) v :
  promises m pre post ->
  (forall w, held w = v.(vheld) -> live w = v.(vlive) -> pre w) ->
  (forall r w w', held w = v.(vheld) -> live w = v.(vlive) -> history w = v.(vhist) -> post r w w' ->
   Q r (mk_view v.(vw) v.(va) v.(vseq) (held w') (live w') (history w'))) ->
  wp (lift m) Q v.
Proof.
  intros Hm Hp HQ s [Hw <-]. destruct (Hm s.(wd) Hw) as [Hw' Ho]; [by apply Hp|].
  specialize (HQ _ s.(wd) _ eq_refl eq_refl eq_refl Ho). unfold lift. destruct (m s.(wd)) as [r w']. done.
Qed.

Lemma wp_records {A} (m : ST W A) c pre post (Q : A -> view -> Prop) v :
  records m c pre post ->
  (forall w, held w = v.(vheld) -> live w = v.(vlive) -> pre w) ->
  (forall r w w', held w = v.(vheld) -> live w = v.(vlive) -> post r w w' ->
   Q r (did (c r) (set_live (live w') (set_held (held w') v)))) ->
  wp (lift m) Q v.
Proof.
  intros Hm Hp HQ. eapply wp_lift; [exact Hm|exact Hp|]. intros r w w' Hh Hl Hy [E Ho]. rewrite E, Hy. by apply (HQ r w w').
Qed.

Lemma wp_pure {A} (m : ST W A) (Q : A -> view -> Prop) v : pure_call m -> (forall r, Q r v) -> wp (lift m) Q v.
Proof.
  intros Hp HQ. eapply wp_lift; [exact Hp|done|]. intros r w w' Hh Hl Hy (-> & -> & ->). rewrite Hh, Hl, Hy.
  destruct v. apply HQ.
Qed.

Lemma sleep_pure ns : pure_call (W := W) (sleep_ns ns).
Proof. unfold sleep_ns. destruct (_ && _); [apply nanosleep_law|]. by intros w Hw _. Qed.

Lemma wp_now Q v : (forall t, Q t v) -> wp (lift now_ns) Q v.
Proof. apply wp_pure, now_law. Qed.

Lemma wp_acquire (Q : option Z -> view -> Prop) v :
  Q None (did (DidAcquire None) v) ->
  (forall j, j <> 0 -> j ∉ v.(vheld) -> Q (Some j) (did (DidAcquire (Some j)) (set_held ({[j]} ∪ v.(vheld)) v))) ->
  wp (lift AcquireSendLane) Q v.
Proof.
  intros H0 H1. eapply wp_records; [exact acquire_law|done|]. intros [j|] w w' Hh Hl [-> H]; simpl in H.
  - destruct H as (Hj & Hn & ->). rewrite Hh, Hl in *. rewrite (set_live_same (set_held _ v)). auto.
  - rewrite H, Hh, Hl. rewrite (set_live_same (set_held _ v)), set_held_same. auto.
Qed.

Lemma wp_release j (Q : unit -> view -> Prop) v :
  j ∈ v.(vheld) -> Q tt (did (DidRelease j) (set_held (v.(vheld) ∖ {[j]}) v)) -> wp (lift (ReleaseSendLane j)) Q v.
Proof.
  intros Hj HQ. eapply wp_records; [exact (release_law j)|intros w Hh _; simpl; by rewrite Hh|].
  intros [] w w' Hh Hl [-> ->]. rewrite Hh, Hl. by rewrite (set_live_same (set_held _ v)).
Qed.

Lemma wp_post_event (Q : Z * Z -> view -> Prop) v :
  ((256 <= size v.(vlive))%nat -> forall t, Q (0, t) (did (DidPostEvent 0 t) v)) ->
  (forall ue t, ue <> 0 -> token_range t -> t ∉ v.(vlive) ->
   Q (ue, t) (did (DidPostEvent ue t) (set_live ({[t]} ∪ v.(vlive)) v))) ->
  wp (lift PostEvent) Q v.
Proof.
  intros H0 H1. eapply wp_records; [exact post_event_law|done|].
  intros [ue t] w w' Hh Hl [-> H]. rewrite Hh, set_held_same. simpl in *.
  case_decide as Hu; [destruct H as [Ha Hb]|destruct H as (Hr & Ha & Hb)].
  - subst ue. rewrite Ha, Hl, set_live_same. apply H0. by rewrite <- Hl.
  - rewrite Hb, Hl in *. by apply H1.
Qed.

Lemma wp_probe t (Q : Z -> view -> Prop) v :
  token_range t ->
  Q 0 (did (DidProbe t 0) v) ->
  (forall r, r = 1 \/ r = -1 -> t ∈ v.(vlive) -> Q r (did (DidProbe t r) (set_live (v.(vlive) ∖ {[t]}) v))) ->
  wp (lift (ProbeEvent t)) Q v.
Proof.
  intros Ht H0 H1. eapply wp_records; [exact (probe_law t)|done|].
  intros r w w' Hh Hl [-> H]. rewrite Hh, set_held_same.
  destruct H as [[-> ->]|(Hr & Hin & ->)]; rewrite Hl in *; [by rewrite set_live_same|auto].
Qed.

Lemma wp_wait t ms (Q : bool -> view -> Prop) v :
  token_range t ->
  (forall b, (b = true -> t ∈ v.(vlive)) -> Q b (did (DidWait t b) (set_live (v.(vlive) ∖ {[t]}) v))) ->
  wp (lift (WaitEvent t ms)) Q v.
Proof.
  intros Ht H1. eapply wp_records; [exact (wait_law t ms)|done|].
  intros b w w' Hh Hl (-> & -> & Hb). rewrite Hh, set_held_same, Hl in *. auto.
Qed.

Lemma wp_abort t (Q : unit -> view -> Prop) v :
  token_range t -> Q tt (did (DidAbort t) (set_live (v.(vlive) ∖ {[t]}) v)) -> wp (lift (AbortEvent t)) Q v.
Proof.
  intros Ht H1. eapply wp_records; [exact (abort_law t)|done|].
  intros [] w w' Hh Hl [-> ->]. by rewrite Hh, set_held_same, Hl.
Qed.

Lemma wp_post_call d (Q : bool -> view -> Prop) v :
  (forall ok, Q ok (did (DidPost d ok) v)) -> wp (lift (PostWr d)) Q v.
Proof.
  intros H1. eapply wp_records; [exact (post_wr_law d)|done|]. intros ok w w' Hh Hl [-> ->].
  by rewrite Hh, set_held_same, Hl, set_live_same.
Qed.

End rules.
