(* ===== verification/ManagerWorld.v ===== *)
(** * ManagerWorld: the manager that the pipelines run on

    The interface of Pipeline implemented with the components: the lane pool
    of SendLane and the events of UrmaEvents, for one worker, in a scripted
    environment.  The script says, for every reading of the clock, what the
    poll thread delivers before it (any list of completions, computed from the
    user contexts posted so far) and what the clock shows; the answers of the
    post calls are given as well.  The laws of the interface hold for every
    script. *)

From S2P Require Import Prelude EventSlotPool SendLane UrmaEvents Requests Pipeline.
From stdpp Require Import list.
#[local] Open Scope Z_scope.

(** ** The world *)

Definition reading : Type := (list Z -> list urma_cr) * Z.

Record world := mk_world {
  w_events : events;
  w_lanes : lane_pool;
  w_worker : nat;
  w_mine : gset Z;           (* the lanes this worker has taken *)
  w_wire : list Z;           (* user contexts of the posted work requests *)
  w_answers : list bool;     (* results of the next post calls, then [true] *)
  w_script : list reading;
  w_stop : bool;
  w_fatal : bool;
  w_log : list mgr_call;     (* the calls so far *)
}.

Definition with_events (m : events) (w : world) : world :=
  mk_world m w.(w_lanes) w.(w_worker) w.(w_mine) w.(w_wire) w.(w_answers) w.(w_script) w.(w_stop) w.(w_fatal) w.(w_log).
Definition with_script (l : list reading) (w : world) : world :=
  mk_world w.(w_events) w.(w_lanes) w.(w_worker) w.(w_mine) w.(w_wire) w.(w_answers) l w.(w_stop) w.(w_fatal) w.(w_log).
Definition with_lanes (p : lane_pool) (mine : gset Z) (w : world) : world :=
  mk_world w.(w_events) p w.(w_worker) mine w.(w_wire) w.(w_answers) w.(w_script) w.(w_stop) w.(w_fatal) w.(w_log).
Definition with_wire (l : list Z) (ans : list bool) (w : world) : world :=
  mk_world w.(w_events) w.(w_lanes) w.(w_worker) w.(w_mine) l ans w.(w_script) w.(w_stop) w.(w_fatal) w.(w_log).

Definition with_log (l : list mgr_call) (w : world) : world :=
  mk_world w.(w_events) w.(w_lanes) w.(w_worker) w.(w_mine) w.(w_wire) w.(w_answers) w.(w_script) w.(w_stop) w.(w_fatal) l.

(** The end of time, when the script is over. *)
Definition last_ns : Z := 2 ^ 64 - 1.

(** One reading of the clock. *)
Definition tick : ST world Z := fun w =>
  match w.(w_script) with
  | [] => (last_ns, w)
  | (f, now) :: rest => (now, with_script rest (with_events (poll_batch (f w.(w_wire)) w.(w_events)) w))
  end.

Definition wid (w : world) : Z := Z.of_nat w.(w_worker).

(** The live tokens of a pool. *)
Definition live_set (p : event_pool) : gset Z :=
  list_to_set ((fun v => v / 4) <$> filter (fun v => v <> 0) p.(states_)).

Definition live_of (w : world) : gset Z :=
  match GetEventSlots (wid w) w.(w_events) with Some p => live_set p | None => ∅ end.

Definition world_inv (w : world) : Prop :=
  (exists ss, events_ok w.(w_events) ss /\ (w.(w_worker) < length ss)%nat) /\
  (exists ls, implements w.(w_lanes) ls /\ forall j, j ∈ w.(w_mine) -> j ∈ ls.(members) /\ j ∉ ls.(queue)) /\
  Forall is_u64 w.(w_wire) /\
  Forall (fun r : reading => forall l, Forall is_u64 l -> crs_ok (fst r l)) w.(w_script).

(** ** The calls *)

Definition do_acquire : ST world (option Z) := fun w =>
  match PopIdle w.(w_lanes) with
  | Some (Some j, p) => (Some j, with_lanes p ({[j]} ∪ w.(w_mine)) w)
  | Some (None, p) => (None, with_lanes p w.(w_mine) w)
  | None => (None, w)
  end.

Definition do_release (j : Z) : ST world unit := fun w =>
  match SendLane.Release j w.(w_lanes) with
  | Some p => (tt, with_lanes p (w.(w_mine) ∖ {[j]}) w)
  | None => (tt, w)
  end.

Definition do_post_event : ST world (Z * Z) := fun w =>
  let '(ue, t, m) := UrmaEvents.PostEvent (wid w) w.(w_events) in ((ue, t), with_events m w).

Definition do_probe (t : Z) : ST world Z := fun w =>
  let '(r, m) := UrmaEvents.ProbeEvent (wid w) t w.(w_events) in (r, with_events m w).

Definition do_abort (t : Z) : ST world unit := fun w =>
  (tt, with_events (UrmaEvents.AbortEvent (wid w) t w.(w_events)) w).

(** A wait uses the readings up to the one that ends its loop. *)
Definition rounds_of (w : world) : list round :=
  (fun r : reading => (fst r w.(w_wire), snd r)) <$> (w.(w_script) ++ [(fun _ => [], last_ns)]).

Definition rounds_used (t deadline : Z) (w : world) : nat :=
  default 0%nat (head (filter (fun k => is_Some (wait_loop (wid w) t deadline (take k (rounds_of w)) w.(w_events)))
                  (seq 0 (S (length (rounds_of w)))))).

Definition do_wait (t timeout_ms : Z) : ST world bool := fun w =>
  let '(now0, w) := tick w in
    match UrmaEvents.WaitEvent (wid w) t timeout_ms now0 (rounds_of w) [] [] w.(w_events) with
    | Some (b, m) =>
        let k := rounds_used t (now0 +u64 (u64 timeout_ms *u64 1000000)) w in
        (b, with_script (drop k w.(w_script)) (with_events m w))
    | None => (false, w)
    end.

Definition do_post_wr (d : wr_desc) : ST world bool := fun w =>
  match w.(w_answers) with
  | false :: ans => (false, with_wire w.(w_wire) ans w)
  | ans => (true, with_wire (w.(w_wire) ++ [u64 d.(wr_ctx)]) (tail ans) w)
  end.

(** Reading the clock until it shows [t]. *)
Fixpoint spin (fuel : nat) (t : Z) : ST world unit :=
  match fuel with
  | O => mret tt
  | S fuel => n ← tick; if n <? t then spin fuel t else mret tt
  end.

(** A call with its entry in the log. *)
Definition recorded {A} (c : A -> mgr_call) (m : ST world A) : ST world A := fun w =>
  let '(r, w') := m w in (r, with_log (w'.(w_log) ++ [c r]) w').

#[export] Instance world_manager : Manager world := {
  AcquireSendLane := recorded DidAcquire do_acquire;
  ReleaseSendLane := fun j => recorded (fun _ => DidRelease j) (do_release j);
  PostEvent := recorded (fun r => DidPostEvent r.1 r.2) do_post_event;
  ProbeEvent := fun t => recorded (DidProbe t) (do_probe t);
  WaitEvent := fun t ms => recorded (DidWait t) (do_wait t ms);
  AbortEvent := fun t => recorded (fun _ => DidAbort t) (do_abort t);
  PostWr := fun d => recorded (DidPost d) (do_post_wr d);
  now_ns := tick;
  nanosleep := fun _ => mret tt;
  spin_until := fun t w => spin (S (length w.(w_script))) t w;
  stopped := fun w => (w.(w_stop) || w.(w_fatal), w);
  is_fatal := fun w => (w.(w_fatal), w);
  held := w_mine;
  live := live_of;
  world_ok := world_inv;
  history := w_log;
}.

(** ** The laws *)

Lemma live_set_spec p s : refines p s -> live_set p = dom s.(ev).
Proof.
  intros R. apply set_eq. intros t. unfold live_set. rewrite elem_of_list_to_set, list_elem_of_fmap, elem_of_dom.
  rewrite <- (ref_live _ _ R). pose proof (ref_wf _ _ R) as Hwf. pose proof (wf_states _ _ Hwf) as Hl. split.
  - intros (v & -> & Hv). apply list_elem_of_filter in Hv as [Hne Hv]. apply list_elem_of_lookup in Hv as [i Hi].
    pose proof (lookup_lt_Some _ _ _ Hi) as Hlt.
    assert (Hg : get p.(states_) (Z.of_nat i) = v) by (unfold get; by rewrite Nat2Z.id, Hi).
    destruct (wf_live _ _ Hwf (Z.of_nat i)) as (Hgen & s0 & Hs0 & E); [lia|congruence|]. rewrite Hg in E.
    set (g := get (generations_ p) (Z.of_nat i)) in *.
    assert (E4 : v / 4 = g * 256 + Z.of_nat i) by (rewrite E; dlia).
    assert (Em : (v / 4) mod 256 = Z.of_nat i) by (rewrite E4; dlia).
    unfold EventSlotPool.live. destruct (Z.eqb_spec (v / 4) 0); [lia|]. rewrite Em, Hg, Z.eqb_refl. eauto.
  - intros [st Hst]. destruct (live_Some _ _ _ _ Hwf Hst) as (Et & Hg & Ht & Hne & s0 & Hs0 & E & _).
    set (v := get (states_ p) (t mod 256)) in *. exists v. split; [rewrite E; dlia|].
    apply list_elem_of_filter. split; [done|]. unfold v, get in *.
    destruct (states_ p !! Z.to_nat (t mod 256)) eqn:El; simpl in *; [|done]. by eapply list_elem_of_lookup_2.
Qed.

Lemma live_of_spec w ss s :
  events_ok w.(w_events) ss -> ss !! w.(w_worker) = Some s -> live_of w = dom s.(ev).
Proof.
  intros E Hs. destruct (slots_spec _ _ _ _ E Hs) as (p & Hp & R). unfold live_of, wid. rewrite Hp.
  by apply live_set_spec.
Qed.

(** A consistent world, with the worker's events. *)
Lemma world_events w :
  world_inv w -> exists ss s, events_ok w.(w_events) ss /\ ss !! w.(w_worker) = Some s /\ live_of w = dom s.(ev).
Proof.
  intros ((ss & E & Hlt) & _). destruct (lookup_lt_is_Some_2 ss (w_worker w) Hlt) as [s Hs].
  exists ss, s. split; [done|]. split; [done|]. by eapply live_of_spec.
Qed.

(** A step of the events. *)
Lemma events_step w m ss s' :
  world_inv w -> events_ok m ss -> ss !! w.(w_worker) = Some s' ->
  world_inv (with_events m w) /\ live_of (with_events m w) = dom s'.(ev).
Proof.
  intros (_ & H2 & H3 & H4) E Hs. split.
  - split; [|done]. exists ss. split; [done|]. by eapply lookup_lt_Some.
  - by apply (live_of_spec (with_events m w) ss).
Qed.

Lemma script_step w k : world_inv w -> world_inv (with_script (drop k w.(w_script)) w).
Proof. intros (H1 & H2 & H3 & H4). split; [done|]. split; [done|]. split; [done|]. by apply Forall_drop. Qed.

(** What a call of the environment keeps. *)
Definition keeps (w w' : world) : Prop :=
  world_inv w' /\ w_mine w' = w_mine w /\ live_of w' = live_of w /\ w_log w' = w_log w.

Lemma keeps_trans w1 w2 w3 : keeps w1 w2 -> keeps w2 w3 -> keeps w1 w3.
Proof. intros (? & E1 & E2 & E3) (? & F1 & F2 & F3). split; [done|]. by rewrite F1, F2, F3. Qed.

Lemma tick_keeps w : world_inv w -> keeps w (snd (tick w)).
Proof.
  intros Hw. unfold tick. destruct (w_script w) as [|[f now] rest] eqn:Es; [done|]. simpl.
  destruct (world_events w Hw) as (ss & s & E & Hs & Hl). pose proof Hw as (_ & _ & H3 & H4).
  rewrite Es in H4. apply Forall_cons in H4 as [Hf Hrest].
  pose proof (poll_batch_ok (f (w_wire w)) _ _ E (Hf _ H3)) as E'.
  destruct (events_step w _ _ _ Hw E' (poll_lookup _ _ _ _ Hs)) as [Hw' Hl'].
  apply (script_step _ 1) in Hw'. simpl in Hw'. rewrite Es in Hw'. split; [exact Hw'|]. split; [done|].
  split; [|done]. etrans; [exact Hl'|]. rewrite (proj2 (deliver_frame _ _ s)). by rewrite Hl.
Qed.

Lemma spin_keeps t fuel : forall w, world_inv w -> keeps w (snd (spin fuel t w)).
Proof.
  induction fuel as [|fuel IH]; intros w Hw; [done|]. simpl. unfold mbind, ST_bind.
  pose proof (tick_keeps w Hw) as Hk. destruct (tick w) as [n w1]. simpl in Hk. destruct (n <? t); [|done].
  eapply keeps_trans; [exact Hk|]. apply IH. apply Hk.
Qed.

Lemma keeps_pure {A} (m : ST world A) : (forall w, world_inv w -> keeps w (snd (m w))) -> pure_call m.
Proof. intros H w Hw _. by destruct (H w Hw) as (? & ? & ? & ?). Qed.

(** A call that promises something of lanes and events, with its entry. *)
Lemma recorded_law {A} c (m : ST world A) pre (post : A -> world -> world -> Prop) :
  promises m pre post -> (forall w, w_log (snd (m w)) = w_log w) ->
  (forall r w w' l, post r w w' -> post r w (with_log l w')) ->
  records (recorded c m) c pre post.
Proof.
  intros Hm Hl Hp w Hw Hpre. destruct (Hm w Hw Hpre) as [Hw' Ho]. specialize (Hl w). unfold recorded.
  destruct (m w) as [r w']. simpl in *. split; [exact Hw'|]. split; [by rewrite Hl|by apply Hp].
Qed.

Lemma acquire_ok : promises do_acquire (fun _ => True) (fun r w w' =>
  live_of w' = live_of w /\
  match r with
  | None => w_mine w' = w_mine w
  | Some j => j <> 0 /\ j ∉ w_mine w /\ w_mine w' = {[j]} ∪ w_mine w
  end).
Proof.
  intros w (H1 & (ls & Hi & Hm) & H34) _. unfold do_acquire. destruct (PopIdle_implements _ _ Hi) as (p & -> & Hi').
  unfold spec_PopIdle in *. destruct (queue ls) as [|j q] eqn:Eq; simpl in *.
  - split; [|done]. split; [done|]. split; [|done]. exists ls. split; [done|]. by rewrite Eq.
  - assert (Hn : NoDup (j :: q)) by (rewrite <- Eq; by eapply queue_nodup). apply NoDup_cons in Hn as [Hjq Hn].
    assert (Hj : j ∈ members ls) by (eapply queue_member; [done|rewrite Eq; left]). split.
    + split; [done|]. split; [|done]. eexists. split; [exact Hi'|]. simpl. intros i Hx.
      apply elem_of_union in Hx as [->%elem_of_singleton|Hx]; [done|]. apply Hm in Hx as [? Hx].
      split; [done|]. intros ?. apply Hx. by right.
    + split; [done|]. split; [|split; [|done]].
      * intros ->. apply (im_members _ _ Hi) in Hj. by apply (lw_nonnull _ (im_wf _ _ Hi)).
      * intros Hx. apply Hm in Hx as [_ Hx]. apply Hx. left.
Qed.

Lemma release_ok j : promises (do_release j) (fun w => j ∈ w_mine w) (fun _ w w' =>
  live_of w' = live_of w /\ w_mine w' = w_mine w ∖ {[j]}).
Proof.
  intros w (H1 & (ls & Hi & Hm) & H34) Hj. unfold do_release. destruct (Release_implements _ _ j Hi) as (p & -> & Hi').
  simpl. split; [|done]. split; [done|]. split; [|done]. eexists. split; [exact Hi'|]. simpl.
  unfold spec_Release. rewrite decide_True by (by apply Hm). simpl. intros i Hx.
  apply elem_of_difference in Hx as [Hx Hne]. apply Hm in Hx as [? Hx]. split; [done|]. set_solver.
Qed.

Lemma post_event_world : promises do_post_event (fun _ => True) (fun r w w' =>
  w_mine w' = w_mine w /\
  if decide (r.1 = 0) then live_of w' = live_of w /\ (256 <= size (live_of w))%nat
  else token_range r.2 /\ r.2 ∉ live_of w /\ live_of w' = {[r.2]} ∪ live_of w).
Proof.
  intros w Hw _. destruct (world_events w Hw) as (ss & s & E & Hs & Hl). unfold do_post_event, wid.
  pose proof (post_event_ok _ _ _ _ E Hs) as H. destruct (UrmaEvents.PostEvent _ _) as [[ue t] m]. simpl.
  destruct H as [(Hr & -> & -> & E')|(Hr & Ht & Hk & Hn & -> & E')].
  - destruct (events_step w m _ _ Hw E' Hs) as [Hw' Hl']. split; [done|]. split; [done|].
    rewrite decide_True by done. split; [congruence|]. destruct (slots_spec _ _ _ _ E Hs) as (p & _ & R).
    pose proof (ref_size _ _ R) as Hz. rewrite Hl, size_dom. unfold kSlotCount in Hz. lia.
  - pose proof (lookup_lt_Some _ _ _ Hs) as Hlt.
    destruct (events_step w m _ _ Hw E' (list_lookup_insert_eq _ _ _ Hlt)) as [Hw' Hl']. split; [done|].
    split; [done|]. unfold is_token in Hk. rewrite decide_False by lia. split; [done|]. rewrite Hl. split.
    + by apply not_elem_of_dom.
    + rewrite Hl'. simpl. by rewrite dom_insert_L.
Qed.

Lemma probe_world t : promises (do_probe t) (fun _ => token_range t) (fun r w w' =>
  w_mine w' = w_mine w /\
  ((r = 0 /\ live_of w' = live_of w) \/ ((r = 1 \/ r = -1) /\ t ∈ live_of w /\ live_of w' = live_of w ∖ {[t]}))).
Proof.
  intros w Hw Ht. destruct (world_events w Hw) as (ss & s & E & Hs & Hl). unfold do_probe, wid.
  destruct (probe_event_ok _ _ _ _ t E Hs Ht) as [Hr E']. destruct (UrmaEvents.ProbeEvent _ _ _) as [r m]. simpl in *.
  pose proof (lookup_lt_Some _ _ _ Hs) as Hlt.
  destruct (events_step w m _ _ Hw E' (list_lookup_insert_eq _ _ _ Hlt)) as [Hw' Hl']. split; [done|]. split; [done|].
  unfold spec_probe in *. destruct (ev s !! t) as [[|ok]|] eqn:Et; simpl in *; [left; split; congruence| |left; split; congruence].
  right. split; [destruct ok; auto|]. rewrite Hl, Hl'. split; [by apply elem_of_dom_2 in Et|]. simpl. by rewrite dom_delete_L.
Qed.

Lemma abort_world t : promises (do_abort t) (fun _ => token_range t) (fun _ w w' =>
  w_mine w' = w_mine w /\ live_of w' = live_of w ∖ {[t]}).
Proof.
  intros w Hw Ht. destruct (world_events w Hw) as (ss & s & E & Hs & Hl). unfold do_abort, wid. simpl.
  pose proof (abort_event_ok _ _ _ _ t E Hs Ht) as E'. pose proof (lookup_lt_Some _ _ _ Hs) as Hlt.
  destruct (events_step w _ _ _ Hw E' (list_lookup_insert_eq _ _ _ Hlt)) as [Hw' Hl']. split; [done|]. split; [done|].
  rewrite Hl', Hl. unfold spec_abort. destruct (ev s !! t) as [st|] eqn:Et; simpl.
  - by rewrite dom_delete_L.
  - apply not_elem_of_dom in Et. set_solver.
Qed.

Lemma rounds_of_ok w : world_inv w -> rounds_ok (rounds_of w).
Proof.
  intros (_ & _ & H3 & H4). unfold rounds_ok, rounds_of. apply Forall_fmap, Forall_app. split.
  - eapply Forall_impl; [exact H4|]. intros r Hr. by apply Hr.
  - constructor; [|done]. constructor.
Qed.

Lemma rounds_of_expire w deadline : is_u64 deadline -> expires deadline (rounds_of w).
Proof.
  intros Hd. unfold expires, rounds_of. apply Exists_exists. eexists ([], last_ns).
  split; [|unfold last_ns; simpl; unfold is_u64 in Hd; lia]. rewrite fmap_app. apply elem_of_app. right. left.
Qed.

(** After a wait, whether the token was live or not. *)
Lemma waited_dom ss ss' wid t b s :
  waited ss ss' wid t b -> ss !! wid = Some s -> exists s', ss' !! wid = Some s' /\ dom s'.(ev) = dom s.(ev) ∖ {[t]}.
Proof.
  intros [_ H] Hs. destruct (H _ _ Hs) as (s' & Hs' & Hd & _). exists s'. split; [done|].
  by rewrite decide_True in Hd.
Qed.

Lemma wait_world t ms : promises (do_wait t ms) (fun _ => token_range t) (fun b w w' =>
  w_mine w' = w_mine w /\ live_of w' = live_of w ∖ {[t]} /\ (b = true -> t ∈ live_of w)).
Proof.
  intros w0 Hw0 Ht. pose proof (tick_keeps w0 Hw0) as (Hw & Hm & Hlv & _). unfold do_wait.
  destruct (tick w0) as [now0 w]. simpl in Hw, Hm, Hlv. rewrite <- Hm, <- Hlv.
  destruct (world_events w Hw) as (ss & s & E & Hs & Hl). unfold wid.
  set (deadline := now0 +u64 _). pose proof (rounds_of_ok w Hw) as Hok.
  assert (Hx : expires deadline (rounds_of w)) by (apply rounds_of_expire, u64_range).
  assert (H0 : crs_ok []) by constructor.
  assert (Hfin : forall b m ss' f, events_ok m ss' -> waited ss ss' (w_worker w) t f -> (b = true -> t ∈ live_of w) ->
    let w' := with_script (drop (rounds_used t deadline w) (w_script w)) (with_events m w) in
    world_inv w' /\ w_mine w' = w_mine w /\ live_of w' = live_of w ∖ {[t]} /\ (b = true -> t ∈ live_of w)).
  { intros b m ss' f E' Hwt Hb. destruct (waited_dom _ _ _ _ _ _ Hwt Hs) as (s' & Hs' & Hd).
    destruct (events_step w m _ _ Hw E' Hs') as [Hw' Hl'].
    split; [exact (script_step _ _ Hw')|]. split; [done|]. split; [|done]. rewrite Hl, <- Hd. exact Hl'. }
  destruct (ev s !! t) as [st|] eqn:Et.
  - destruct (wait_live_ok _ _ _ _ t st ms now0 _ [] [] E Hs Ht Et Hok H0 H0 Hx) as (m & ss' & -> & E' & Hwt).
    eapply Hfin; [exact E'|exact Hwt|]. intros _. rewrite Hl. by apply elem_of_dom_2 in Et.
  - pose proof (wait_dead_ok _ _ _ _ t ms now0 (rounds_of w) [] [] E Hs Ht Et Hok H0 H0) as HD.
    destruct (UrmaEvents.WaitEvent _ _ _ _ _ _ _ _) as [[b m]|]; [|done].
    destruct HD as (-> & _ & ss' & E' & Hwt). by eapply Hfin.
Qed.

Lemma post_wr_world d : promises (do_post_wr d) (fun _ => True) (fun _ w w' => w_mine w' = w_mine w /\ live_of w' = live_of w).
Proof.
  intros w (H1 & H2 & H3 & H4) _. unfold do_post_wr.
  destruct (w_answers w) as [|[] ans]; (split; [|done]); (split; [done|]); (split; [done|]); (split; [|done]);
    try exact H3; simpl; apply Forall_app; (split; [done|]); constructor; [apply u64_range|done|apply u64_range|done].
Qed.

Lemma tick_log w : w_log (snd (tick w)) = w_log w.
Proof. unfold tick. by destruct (w_script w) as [|[]]. Qed.

(** The components of the program keep the promises the pipelines rely on. *)
#[export] Instance world_laws : ManagerLaws world.
Proof.
  constructor.
  - apply recorded_law; [exact acquire_ok| |done]. intros w. unfold do_acquire. by destruct (PopIdle _) as [[[]]|].
  - intros j. apply recorded_law; [exact (release_ok j)| |done]. intros w. unfold do_release.
    by destruct (SendLane.Release _ _).
  - apply recorded_law; [exact post_event_world| |done]. intros w. unfold do_post_event.
    by destruct (UrmaEvents.PostEvent _ _) as [[]].
  - intros t. apply recorded_law; [exact (probe_world t)| |done]. intros w. unfold do_probe.
    by destruct (UrmaEvents.ProbeEvent _ _ _).
  - intros t ms. apply recorded_law; [exact (wait_world t ms)| |done]. intros w. unfold do_wait.
    pose proof (tick_log w) as Hl. destruct (tick w) as [n w1]. simpl in Hl. rewrite <- Hl.
    by destruct (UrmaEvents.WaitEvent _ _ _ _ _ _ _ _) as [[]|].
  - intros t. by apply recorded_law; [exact (abort_world t)| |].
  - intros d. apply recorded_law; [exact (post_wr_world d)| |done]. intros w. unfold do_post_wr.
    by destruct (w_answers w) as [|[]].
  - by apply keeps_pure, tick_keeps.
  - intros t. by apply keeps_pure.
  - intros t. apply keeps_pure. intros w. by apply spin_keeps.
  - by apply keeps_pure.
  - by apply keeps_pure.
Qed.
