(* ===== verification/PipelineInv.v ===== *)
(** * PipelineInv: lanes, events and slots of the request pipelines

    Resource accounting for the definitions of Pipeline: at every point the
    lanes a worker holds are those of its requests in flight plus the ones
    quarantined after a failed wait, and its live events are among those of
    the work requests not yet done.  The specifications of the posting and
    draining routines are proved here from the laws of the manager; those of
    the loops follow in PipelineThms. *)

From S2P Require Import Prelude Hist Args Affinity Requests Pipeline.
From stdpp Require Import list.
From Stdlib Require Import ZifyNat.
#[local] Open Scope Z_scope.

(** Division and remainder on [nat]. *)
Ltac ndlia := zify; Z.to_euclidean_division_equations; lia.

(** ** Resources *)

Definition shape (sl : wr_slot) : Prop :=
  length sl.(jetty) = 10%nat /\ length sl.(event_token) = 20%nat /\ length sl.(done_) = 20%nat /\
  Forall token_range sl.(event_token).

(** The tokens of the work requests of a slot that are not done. *)
Definition slot_toks (sl : wr_slot) : list Z :=
  fst <$> filter (fun td => snd td = false) (zip sl.(event_token) sl.(done_)).

Definition dones (sl : wr_slot) : Z := Z.of_nat (length (filter (fun d => d = true) sl.(done_))).

(** A slot in flight. *)
Definition slot_ok (sl : wr_slot) : Prop := 0 ∉ sl.(jetty) /\ sl.(done_cnt) = dones sl.

Definition lanes_of (w : worker) (act : list nat) : list Z := act ≫= (fun i => (slot_at w i).(jetty)).
Definition toks_of (w : worker) (act : list nat) : list Z := act ≫= (fun i => slot_toks (slot_at w i)).

(** The slots [act] are in flight; [El] and [Et] are further lanes and tokens
    in hand, [Q] the lanes that were quarantined. *)
Record Res (act : list nat) (El Et : list Z) (Q : gset Z) (v : view) : Prop := {
  r_len : length v.(vw).(wr_slots) = 10%nat;
  r_shape : Forall shape v.(vw).(wr_slots);
  r_nodup : NoDup act;
  r_lt : Forall (fun i => (i < 10)%nat) act;
  r_ok : forall i, i ∈ act -> slot_ok (slot_at v.(vw) i);
  r_lanes : NoDup (lanes_of v.(vw) act ++ El);
  r_quar : forall j, j ∈ lanes_of v.(vw) act ++ El -> j ∉ Q;
  r_held : forall j, j ∈ v.(vheld) <-> j ∈ lanes_of v.(vw) act ++ El \/ j ∈ Q;
  r_live : forall t, t ∈ v.(vlive) -> t ∈ toks_of v.(vw) act ++ Et;
}.

(** Only the lanes and tokens as sets matter. *)
Lemma Res_conv act act' El El' Et Et' Q v v' :
  v'.(vw).(wr_slots) = v.(vw).(wr_slots) -> v'.(vheld) = v.(vheld) -> v'.(vlive) = v.(vlive) ->
  NoDup act' -> Forall (fun i => (i < 10)%nat) act' ->
  (forall i, i ∈ act' -> slot_ok (slot_at v.(vw) i)) ->
  lanes_of v.(vw) act ++ El ≡ₚ lanes_of v.(vw) act' ++ El' ->
  (forall t, t ∈ toks_of v.(vw) act ++ Et -> t ∈ toks_of v.(vw) act' ++ Et') ->
  Res act El Et Q v -> Res act' El' Et' Q v'.
Proof.
  intros Hs Hh Hv Hn Hlt Hok Hl Ht [R1 R2 R3 R4 R5 R6 R7 R8 R9].
  assert (E : forall i, slot_at (vw v') i = slot_at (vw v) i) by (intros i; unfold slot_at; by rewrite Hs).
  assert (E1 : lanes_of (vw v') act' = lanes_of (vw v) act')
    by (unfold lanes_of; apply list_bind_ext; [|done]; intros i; by rewrite E).
  assert (E2 : toks_of (vw v') act' = toks_of (vw v) act')
    by (unfold toks_of; apply list_bind_ext; [|done]; intros i; by rewrite E).
  constructor; rewrite ?Hs, ?Hh, ?Hv, ?E1, ?E2; auto.
  - intros i Hi. rewrite E. auto.
  - by rewrite <- Hl.
  - intros j. rewrite <- Hl. apply R7.
  - intros j. rewrite <- Hl. apply R8.
Qed.

Lemma Res_perm act El El' Et Et' Q v :
  El ≡ₚ El' -> (forall t, t ∈ Et -> t ∈ Et') -> Res act El Et Q v -> Res act El' Et' Q v.
Proof.
  intros Hl Ht R. pose proof R as []. eapply Res_conv; [..|exact R]; auto.
  - by rewrite Hl.
  - intros t. rewrite !elem_of_app. naive_solver.
Qed.

Lemma Res_act_perm act act' El Et Q v : act ≡ₚ act' -> Res act El Et Q v -> Res act' El Et Q v.
Proof.
  intros Hp R. pose proof R as []. eapply Res_conv; [..|exact R]; auto.
  - by rewrite <- Hp.
  - by rewrite <- Hp.
  - intros i Hi. apply r_ok0. by rewrite Hp.
  - unfold lanes_of. by rewrite Hp.
  - intros t. unfold toks_of. by rewrite Hp.
Qed.

(** Changes outside the slots; in particular the record of a call. *)
Lemma Res_frame act El Et Q v v' :
  v'.(vw).(wr_slots) = v.(vw).(wr_slots) -> v'.(vheld) = v.(vheld) -> v'.(vlive) = v.(vlive) ->
  Res act El Et Q v -> Res act El Et Q v'.
Proof. intros Hs Hh Hv R. pose proof R as []. eapply Res_conv; [..|exact R]; auto. Qed.

(** An event is given up, whatever it was; a fresh one comes to hand. *)
Lemma Res_drop_tok act El Et Q t v :
  Res act El Et Q v -> Res act El (filter (fun y => y <> t) Et) Q (set_live (v.(vlive) ∖ {[t]}) v).
Proof.
  intros []. constructor; auto. intros y. simpl. rewrite elem_of_difference, elem_of_singleton.
  intros [Hy Hne]. apply r_live0 in Hy. rewrite !elem_of_app, list_elem_of_filter in *. naive_solver.
Qed.

Lemma Res_give_tok act El Et Q t v :
  Res act El Et Q v -> Res act El (t :: Et) Q (set_live ({[t]} ∪ v.(vlive)) v).
Proof.
  intros []. constructor; auto. intros y. simpl. rewrite elem_of_union, elem_of_singleton.
  rewrite elem_of_app, elem_of_cons. intros [->|Hy]; [by auto|]. apply r_live0 in Hy.
  rewrite elem_of_app in Hy. naive_solver.
Qed.

Lemma lanes_middle w act j El : lanes_of w act ++ j :: El ≡ₚ j :: lanes_of w act ++ El.
Proof. by rewrite Permutation_middle. Qed.

(** A lane given back, quarantined, acquired. *)
Lemma Res_release act El Et Q j v :
  Res act (j :: El) Et Q v -> j ∈ v.(vheld) /\ Res act El Et Q (set_held (v.(vheld) ∖ {[j]}) v).
Proof.
  intros [R1 R2 R3 R4 R5 R6 R7 R8 R9]. pose proof (lanes_middle (vw v) act j El) as Hp.
  rewrite Hp in R6. apply NoDup_cons in R6 as [Hn R6].
  assert (H7 : forall i, i = j \/ i ∈ lanes_of (vw v) act ++ El -> i ∉ Q)
    by (intros i Hi; apply R7; rewrite Hp; by apply elem_of_cons).
  split; [apply R8; left; rewrite Hp; left|]. constructor; auto; simpl.
  intros i. rewrite elem_of_difference, elem_of_singleton, R8, Hp, elem_of_cons.
  split; [naive_solver|]. intros [Hi|Hi]; (split; [naive_solver|]); intros ->; [done|]. by apply (H7 j); [left|].
Qed.

Lemma Res_quarantine act El Et Q j v : Res act (j :: El) Et Q v -> Res act El Et ({[j]} ∪ Q) v.
Proof.
  intros [R1 R2 R3 R4 R5 R6 R7 R8 R9]. pose proof (lanes_middle (vw v) act j El) as Hp.
  rewrite Hp in R6. apply NoDup_cons in R6 as [Hn R6].
  constructor; auto.
  - intros i Hi. rewrite not_elem_of_union, elem_of_singleton. split; [by intros ->|].
    apply R7. rewrite Hp. by right.
  - intros i. rewrite R8, Hp, elem_of_cons, elem_of_union, elem_of_singleton. tauto.
Qed.

Lemma Res_acquire act El Et Q j v :
  Res act El Et Q v -> j ∉ v.(vheld) -> Res act (j :: El) Et Q (set_held ({[j]} ∪ v.(vheld)) v).
Proof.
  intros [R1 R2 R3 R4 R5 R6 R7 R8 R9] Hj. rewrite R8 in Hj. pose proof (lanes_middle (vw v) act j El) as Hp.
  constructor; auto; simpl.
  - rewrite Hp. constructor; tauto.
  - intros i. rewrite Hp, elem_of_cons. intros [->|Hi]; [tauto|auto].
  - intros i. rewrite elem_of_union, elem_of_singleton, R8, Hp, elem_of_cons. tauto.
Qed.

(** ** Writing slots *)

Definition put_slot (x : nat) (sl : wr_slot) (w : worker) : worker := set_wr_slots (<[x := sl]> w.(wr_slots)) w.

Lemma slot_at_put w x sl : (x < length w.(wr_slots))%nat -> slot_at (put_slot x sl w) x = sl.
Proof. intros H. unfold slot_at. simpl. by rewrite list_lookup_insert_eq. Qed.

Lemma slot_at_put_ne w x y sl : x <> y -> slot_at (put_slot x sl w) y = slot_at w y.
Proof. intros H. unfold slot_at. simpl. by rewrite list_lookup_insert_ne. Qed.

Lemma bind_ext_in {A B} (f g : A -> list B) l : (forall x, x ∈ l -> f x = g x) -> l ≫= f = l ≫= g.
Proof.
  induction l as [|y l IH]; intros H; [done|]. csimpl. rewrite H by left. f_equal. apply IH.
  intros z Hz. apply H. by right.
Qed.

(** A slot that is not in flight may be written freely. *)
Lemma Res_put act El Et Q x sl v :
  x ∉ act -> shape sl -> Res act El Et Q v -> Res act El Et Q (upd_vw (put_slot x sl) v).
Proof.
  intros Hx Hsh [].
  assert (Hs : forall i, i ∈ act -> slot_at (put_slot x sl v.(vw)) i = slot_at v.(vw) i)
    by (intros i Hi; apply slot_at_put_ne; intros ->; done).
  assert (Hl : lanes_of (put_slot x sl v.(vw)) act = lanes_of v.(vw) act)
    by (apply bind_ext_in; intros i Hi; by rewrite Hs).
  assert (Ht : toks_of (put_slot x sl v.(vw)) act = toks_of v.(vw) act)
    by (apply bind_ext_in; intros i Hi; by rewrite Hs).
  constructor; simpl; rewrite ?Hl, ?Ht; auto.
  - by rewrite length_insert.
  - by apply Forall_insert.
  - intros i Hi. rewrite Hs by done. auto.
Qed.

(** A slot leaves flight with its lanes and tokens, or enters it. *)
Lemma Res_detach x act El Et Q v :
  Res (x :: act) El Et Q v ->
  Res act ((slot_at v.(vw) x).(jetty) ++ El) (slot_toks (slot_at v.(vw) x) ++ Et) Q v /\
  x ∉ act /\ (x < 10)%nat /\ slot_ok (slot_at v.(vw) x).
Proof.
  intros R. pose proof R as []. apply NoDup_cons in r_nodup0 as [Hx Hn]. apply Forall_cons in r_lt0 as [Hlt Hl].
  split; [|split_and!; auto; apply r_ok0; left]. eapply Res_conv; [..|exact R]; auto.
  - intros i Hi. apply r_ok0. by right.
  - unfold lanes_of. csimpl. rewrite <- !app_assoc. apply Permutation_app_swap_app.
  - intros t. unfold toks_of. csimpl. rewrite !elem_of_app. naive_solver.
Qed.

Lemma Res_attach x act El Et Q v :
  Res act ((slot_at v.(vw) x).(jetty) ++ El) (slot_toks (slot_at v.(vw) x) ++ Et) Q v ->
  x ∉ act -> (x < 10)%nat -> slot_ok (slot_at v.(vw) x) -> Res (x :: act) El Et Q v.
Proof.
  intros R Hx Hlt Hok. pose proof R as []. eapply Res_conv; [..|exact R]; auto.
  - by constructor.
  - intros i [->|Hi]%elem_of_cons; auto.
  - unfold lanes_of. csimpl. rewrite <- !app_assoc. apply Permutation_app_swap_app.
  - intros t. unfold toks_of. csimpl. rewrite !elem_of_app. naive_solver.
Qed.

Lemma Res_did act El Et Q c v : Res act El Et Q v -> Res act El Et Q (did c v).
Proof. by apply Res_frame. Qed.

(** ** What a call adds to the readings of the history *)

Lemma account_snoc h c : account_of (h ++ [c]) = note (account_of h) c.
Proof. unfold account_of. by rewrite foldl_app. Qed.

Lemma refusals_snoc h c : refusals (h ++ [c]) = (refusals h + if refused c then 1 else 0)%nat.
Proof. unfold refusals. rewrite filter_app, length_app, filter_cons. by destruct (refused c). Qed.

Lemma bad_probes_snoc h c : bad_probes (h ++ [c]) = (bad_probes h + if bad_probe c then 1 else 0)%nat.
Proof. unfold bad_probes. rewrite filter_app, length_app, filter_cons. by destruct (bad_probe c). Qed.

(** The lane on which a token of the history was posted. *)
Definition posted_on (v : view) (t : Z) : option Z := (account_of v.(vhist)).(lane_of) !! t.

(** ** One slot in hand

    The counters of the worker, of the loop and of the history, which the
    routines that work on one slot leave alone. *)

Record counts := mk_counts {
  c_active : list nat; c_free : list nat; c_ops : Z; c_bytes : Z; c_errors : Z; c_va : Z; c_seq : Z;
  c_lost : gset Z; c_refused : nat; c_bad : nat }.

Definition counts_of (v : view) : counts :=
  mk_counts v.(vw).(active_slots) v.(vw).(free_slots) v.(vw).(w_ops) v.(vw).(w_bytes) v.(vw).(w_errors)
    v.(va) v.(vseq) (lost_lanes v.(vhist)) (refusals v.(vhist)) (bad_probes v.(vhist)).

(** Lanes were lost, a call was refused, a completion reported an error. *)
Definition with_lost (l : gset Z) (c : counts) : counts :=
  mk_counts c.(c_active) c.(c_free) c.(c_ops) c.(c_bytes) c.(c_errors) c.(c_va) c.(c_seq) l c.(c_refused) c.(c_bad).
Definition count_refused (c : counts) : counts :=
  mk_counts c.(c_active) c.(c_free) c.(c_ops) c.(c_bytes) c.(c_errors) c.(c_va) c.(c_seq) c.(c_lost)
    (c.(c_refused) + 1) c.(c_bad).
Definition count_bad (c : counts) : counts :=
  mk_counts c.(c_active) c.(c_free) c.(c_ops) c.(c_bytes) c.(c_errors) c.(c_va) c.(c_seq) c.(c_lost) c.(c_refused)
    (c.(c_bad) + 1).

(** Calls that change none of the three. *)
Definition quiet (c : mgr_call) : bool :=
  negb (refused c || bad_probe c || match c with DidWait _ false => true | _ => false end).

Lemma counts_quiet c v : quiet c = true -> counts_of (did c v) = counts_of v.
Proof.
  unfold counts_of, lost_lanes, quiet. simpl. rewrite account_snoc, refusals_snoc, bad_probes_snoc.
  intros H. apply negb_true_iff in H. apply orb_false_iff in H as [H Hw]. apply orb_false_iff in H as [-> ->].
  rewrite !Nat.add_0_r. by destruct c as [| | | |? []| |? []].
Qed.

Lemma counts_refused c v : refused c = true -> counts_of (did c v) = count_refused (counts_of v).
Proof.
  unfold counts_of, count_refused, lost_lanes. simpl. rewrite account_snoc, refusals_snoc, bad_probes_snoc. intros H.
  rewrite H. by destruct c as [[]| | | | | |? []]; simpl in *; rewrite ?Nat.add_0_r.
Qed.

Lemma counts_bad t v : counts_of (did (DidProbe t (-1)) v) = count_bad (counts_of v).
Proof.
  unfold counts_of, count_bad, lost_lanes. simpl. rewrite account_snoc, refusals_snoc, bad_probes_snoc. simpl.
  by rewrite Nat.add_0_r.
Qed.

Lemma counts_lost t v :
  counts_of (did (DidWait t false) v) =
  with_lost (from_option singleton ∅ (posted_on v t) ∪ lost_lanes v.(vhist)) (counts_of v).
Proof.
  unfold counts_of, with_lost, lost_lanes. simpl. rewrite account_snoc, refusals_snoc, bad_probes_snoc. simpl.
  by rewrite !Nat.add_0_r.
Qed.

(** Only posts change where tokens are. *)
Lemma posted_on_did c v t :
  match c with DidPost _ true => False | _ => True end -> posted_on (did c v) t = posted_on v t.
Proof. unfold posted_on. simpl. rewrite account_snoc. by destruct c as [| | | |? []| |? []]. Qed.

(** Slot [x] is out of flight and holds [sl]. *)
Record RX (c : counts) (x : nat) (sl : wr_slot) (act : list nat) (El Et : list Z) (Q : gset Z) (v : view)
    : Prop := {
  rx_res : Res act El Et Q v;
  rx_out : x ∉ act;
  rx_lt : (x < 10)%nat;
  rx_slot : slot_at v.(vw) x = sl;
  rx_counts : counts_of v = c;
}.

Lemma RX_shape c x sl act El Et Q v : RX c x sl act El Et Q v -> shape sl.
Proof.
  intros [[] _ Hlt <- _]. unfold slot_at. destruct (lookup_lt_is_Some_2 (wr_slots (vw v)) x) as [s Hs]; [lia|].
  rewrite Hs. simpl. by eapply Forall_lookup_1.
Qed.

Lemma RX_perm c x sl act El El' Et Et' Q v :
  El ≡ₚ El' -> (forall t, t ∈ Et -> t ∈ Et') -> RX c x sl act El Et Q v -> RX c x sl act El' Et' Q v.
Proof. intros Hl Ht []. constructor; auto. by eapply Res_perm. Qed.

(** Changes outside slots and counters. *)
Lemma RX_upd_other c x sl act El Et Q f v :
  (forall w, (f w).(wr_slots) = w.(wr_slots)) ->
  (forall v, counts_of (upd_vw f v) = counts_of v) ->
  RX c x sl act El Et Q v -> RX c x sl act El Et Q (upd_vw f v).
Proof.
  intros Hs Hc []. constructor; auto.
  - eapply Res_frame; [..|exact rx_res0]; simpl; auto.
  - unfold slot_at in *. simpl. by rewrite Hs.
  - by rewrite Hc.
Qed.

(** Writing the slot. *)
Lemma RX_upd_slot c x sl act El Et Q f v :
  shape (f sl) -> RX c x sl act El Et Q v ->
  RX c x (f sl) act El Et Q
     (upd_vw (fun w => set_wr_slots (<[x := f (slot_at w x)]> w.(wr_slots)) w) v).
Proof.
  intros Hsh []. replace (upd_vw _ v) with (upd_vw (put_slot x (f sl)) v)
    by (unfold upd_vw, put_slot; by rewrite rx_slot0).
  constructor; auto.
  - by apply Res_put.
  - simpl. apply slot_at_put. rewrite (r_len _ _ _ _ _ rx_res0). lia.
Qed.

Lemma RX_set_live c x sl act El Et Et' Q l v :
  RX c x sl act El Et Q v -> Res act El Et' Q (set_live l v) -> RX c x sl act El Et' Q (set_live l v).
Proof. intros [] R. by constructor. Qed.

Lemma RX_set_held c x sl act El El' Et Q h v :
  RX c x sl act El Et Q v -> Res act El' Et Q (set_held h v) -> RX c x sl act El' Et Q (set_held h v).
Proof. intros [] R. by constructor. Qed.

Lemma RX_did c x sl act El Et Q k v : quiet k = true -> RX c x sl act El Et Q v -> RX c x sl act El Et Q (did k v).
Proof. intros Hk []. constructor; auto; [by apply Res_did|by rewrite counts_quiet]. Qed.

Lemma RX_refused c x sl act El Et Q k v :
  refused k = true -> RX c x sl act El Et Q v -> RX (count_refused c) x sl act El Et Q (did k v).
Proof. intros Hk []. constructor; auto; [by apply Res_did|rewrite counts_refused by done; by f_equal]. Qed.

Lemma RX_bad c x sl act El Et Q t v :
  RX c x sl act El Et Q v -> RX (count_bad c) x sl act El Et Q (did (DidProbe t (-1)) v).
Proof. intros []. constructor; auto; [by apply Res_did|rewrite counts_bad; by f_equal]. Qed.

Lemma RX_lost c x sl act El Et Q t v :
  RX c x sl act El Et Q v ->
  RX (with_lost (from_option singleton ∅ (posted_on v t) ∪ c.(c_lost)) c) x sl act El Et Q (did (DidWait t false) v).
Proof. intros [? ? ? ? <-]. constructor; auto; [by apply Res_did|by rewrite counts_lost]. Qed.

Lemma with_lost_same c : with_lost c.(c_lost) c = c.
Proof. by destruct c. Qed.

Lemma token_at_range sl i : shape sl -> token_range (token_at sl i).
Proof.
  intros (_ & _ & _ & Ht). unfold token_at. destruct (event_token sl !! i) eqn:E; simpl.
  - by eapply Forall_lookup_1.
  - unfold token_range. lia.
Qed.

Lemma shape_put_jetty i j sl : shape sl -> shape (put_jetty i j sl).
Proof. intros (?&?&?&?). unfold shape. simpl. by rewrite length_insert. Qed.

Lemma shape_put_done i b sl : shape sl -> shape (put_done i b sl).
Proof. intros (?&?&?&?). unfold shape. simpl. by rewrite length_insert. Qed.

Lemma shape_put_token i t sl : token_range t -> shape sl -> shape (put_token i t sl).
Proof. intros Ht (?&?&?&?). unfold shape. simpl. rewrite length_insert. split_and!; auto. by apply Forall_insert. Qed.

(** ** Specifications *)

Create HintDb pipe.
#[export] Hint Resolve RX_shape token_at_range shape_put_jetty shape_put_done shape_put_token : pipe.

Section specs.
Context {W : Type} `{HM : Manager W} {HL : ManagerLaws W}.
Context (a : argument) (mch : machine) (kind : pipe_kind) (client_data rva : Z).

#[local] Abbreviation wp := (wp (W := W)).

Lemma wp_if {A} (b : bool) (m1 m2 : ST (@pst W) A) Q v :
  (b = true -> wp m1 Q v) -> (b = false -> wp m2 Q v) -> wp (if b then m1 else m2) Q v.
Proof. destruct b; auto. Qed.

(** Nothing happened to events, and no call was made. *)
Definition same_calls (v v' : view) : Prop := v'.(vhist) = v.(vhist) /\ v'.(vlive) = v.(vlive).

Lemma wp_upd_slot_same c x sl act El Et Q f (P : unit -> view -> Prop) v :
  RX c x sl act El Et Q v -> shape (f sl) ->
  (forall v', RX c x (f sl) act El Et Q v' -> same_calls v v' -> P tt v') -> wp (upd_slot x f) P v.
Proof. intros R Hs HP. apply wp_upd, HP; [by apply RX_upd_slot|done]. Qed.

Lemma wp_upd_slot c x sl act El Et Q f (P : unit -> view -> Prop) v :
  RX c x sl act El Et Q v -> shape (f sl) ->
  (forall v', RX c x (f sl) act El Et Q v' -> P tt v') -> wp (upd_slot x f) P v.
Proof. intros R Hs HP. eapply wp_upd_slot_same; eauto. Qed.

Lemma wp_upd_other c x sl act El Et Q f (P : unit -> view -> Prop) v :
  RX c x sl act El Et Q v ->
  (forall w, (f w).(wr_slots) = w.(wr_slots)) -> (forall v, counts_of (upd_vw f v) = counts_of v) ->
  (forall v', RX c x sl act El Et Q v' -> P tt v') -> wp (upd f) P v.
Proof. intros R H1 H2 HP. apply wp_upd, HP. by apply RX_upd_other. Qed.

Lemma wp_slot_get {A} c x sl act El Et Q (f : wr_slot -> A) (P : A -> view -> Prop) v :
  RX c x sl act El Et Q v -> P (f sl) v -> wp (slot_get x f) P v.
Proof. intros R HP. apply wp_gets. by rewrite (rx_slot _ _ _ _ _ _ _ _ R). Qed.

Lemma wp_record_wr c x sl act El Et Q wr (P : unit -> view -> Prop) v :
  RX c x sl act El Et Q v -> (forall v', RX c x sl act El Et Q v' -> P tt v') -> wp (record_wr x wr) P v.
Proof. intros R HP. apply wp_bind, wp_now. intros t. eapply wp_upd_other; eauto. Qed.

Lemma wp_record_req c x sl act El Et Q (P : unit -> view -> Prop) v :
  RX c x sl act El Et Q v -> (forall v', RX c x sl act El Et Q v' -> P tt v') -> wp (record_req x) P v.
Proof. intros R HP. apply wp_bind, wp_now. intros t. eapply wp_upd_other; eauto. Qed.

Lemma wp_record_post c x sl act El Et Q t0 (P : unit -> view -> Prop) v :
  RX c x sl act El Et Q v -> (forall v', RX c x sl act El Et Q v' -> same_calls v v' -> P tt v') ->
  wp (record_post t0) P v.
Proof. intros R HP. apply wp_bind, wp_now. intros t. apply wp_upd, HP; [by apply RX_upd_other|done]. Qed.

(** A wait takes the token out of hand, if it was there; when it fails its lane
    is lost. *)
Lemma wp_wait_tok c x sl act El Et Q t ms (P : bool -> view -> Prop) v :
  RX c x sl act El Et Q v -> token_range t ->
  (forall (b : bool) v',
     RX (if b then c else with_lost (from_option singleton ∅ (posted_on v t) ∪ c.(c_lost)) c)
       x sl act El (filter (fun y => y <> t) Et) Q v' ->
     (forall y, posted_on v' y = posted_on v y) -> P b v') ->
  wp (lift (WaitEvent t ms)) P v.
Proof.
  intros R Ht HP. apply wp_wait; [done|]. intros b _.
  assert (R1 := RX_set_live _ _ _ _ _ _ _ _ _ _ R (Res_drop_tok _ _ _ _ t _ (rx_res _ _ _ _ _ _ _ _ R))).
  destruct b; apply HP; [by apply RX_did|intros y; by etrans; [apply posted_on_did|]| |intros y; by etrans; [apply posted_on_did|]].
  by apply (RX_lost _ _ _ _ _ _ _ t) in R1.
Qed.

Lemma wp_release_lane_same c x sl act El Et Q i (P : unit -> view -> Prop) v :
  RX c x sl act (jetty_at sl i :: El) Et Q v ->
  (forall v', RX c x sl act El Et Q v' -> (forall y, posted_on v' y = posted_on v y) -> P tt v') ->
  wp (release_lane x i) P v.
Proof.
  intros R HP. apply wp_bind. eapply wp_slot_get; [exact R|].
  destruct (Res_release _ _ _ _ _ _ (rx_res _ _ _ _ _ _ _ _ R)) as [Hj R'].
  apply wp_release; [done|]. apply HP; [|intros y; by etrans; [apply posted_on_did|]].
  apply RX_did; [done|]. eapply RX_set_held; [exact R|exact R'].
Qed.

Lemma wp_release_lane c x sl act El Et Q i (P : unit -> view -> Prop) v :
  RX c x sl act (jetty_at sl i :: El) Et Q v ->
  (forall v', RX c x sl act El Et Q v' -> P tt v') -> wp (release_lane x i) P v.
Proof. intros R HP. eapply wp_release_lane_same; eauto. Qed.

Lemma RX_quarantine c x sl act j El Et Q v :
  RX c x sl act (j :: El) Et Q v -> RX c x sl act El Et ({[j]} ∪ Q) v.
Proof. intros []. constructor; auto. by apply Res_quarantine. Qed.

(** The tokens [Et] in hand that do not belong to [wrs] are among [Et']. *)
Definition covers (sl : wr_slot) (wrs : list nat) (Et Et' : list Z) : Prop :=
  forall t, t ∈ Et -> t ∈ Et' \/ exists wr, wr ∈ wrs /\ t = token_at sl wr.

Lemma covers_step sl wr wrs Et Et' :
  covers sl (wr :: wrs) Et Et' -> covers sl wrs (filter (fun y => y <> token_at sl wr) Et) Et'.
Proof.
  intros H t Ht. apply list_elem_of_filter in Ht as [Hne Ht]. destruct (H t Ht) as [?|(k & Hk & E)]; [by left|].
  apply elem_of_cons in Hk as [->|Hk]; [done|]. right. by exists k.
Qed.

Lemma covers_nil sl Et Et' : covers sl [] Et Et' -> forall t, t ∈ Et -> t ∈ Et'.
Proof. intros H t Ht. destruct (H t Ht) as [?|(k & Hk & _)]; [done|]. by apply not_elem_of_nil in Hk. Qed.

(** What the waits [wrs] do to the lanes lost: nothing when all complete; when
    one fails and all were posted on lane [j], [j] is lost. *)
Definition waits_lose (v : view) (sl : wr_slot) (wrs : list nat) (b : bool) (L0 L : gset Z) : Prop :=
  (b = true -> L = L0) /\
  (b = false -> forall j, Forall (fun wr => posted_on v (token_at sl wr) = Some j) wrs -> L = {[j]} ∪ L0).

Lemma wp_wait_wrs x sl act El Et' Q ms wrs : forall c Et (P : bool -> view -> Prop) v,
  RX c x sl act El Et Q v -> covers sl wrs Et Et' ->
  (forall b L v', RX (with_lost L c) x sl act El Et' Q v' -> (forall y, posted_on v' y = posted_on v y) ->
     waits_lose v sl wrs b c.(c_lost) L -> P b v') ->
  wp (wait_wrs x wrs ms) P v.
Proof.
  induction wrs as [|wr wrs IH]; intros c Et P v R Hc HP; simpl.
  - apply wp_ret, (HP true c.(c_lost)); [|done|by split].
    rewrite with_lost_same. eapply RX_perm; [done|by eapply covers_nil|done].
  - apply wp_bind. eapply wp_slot_get; [exact R|]. apply wp_bind.
    eapply wp_wait_tok; [exact R|eauto with pipe|]. intros b v1 R1 E1.
    set (c1 := if (b : bool) then c else with_lost _ c) in R1.
    assert (Hrest : forall v2, RX c1 x sl act El (filter (fun y => y <> token_at sl wr) Et) Q v2 ->
      (forall y, posted_on v2 y = posted_on v y) -> wp (rest ← wait_wrs x wrs ms; mret (b && rest)) P v2).
    { intros v2 R2 E2. apply wp_bind. eapply IH; [exact R2|by apply covers_step|].
      intros b' L v3 R3 E3 [Hl1 Hl2]. apply wp_ret, (HP _ L).
      - by destruct b.
      - intros y. by rewrite E3.
      - split; [intros [-> ->]%andb_true_iff; by apply Hl1|]. intros Hbb j HF. apply Forall_cons in HF as [Hj HF].
        assert (HF2 : Forall (fun wr => posted_on v2 (token_at sl wr) = Some j) wrs)
          by (eapply Forall_impl; [exact HF|]; intros y Hy; simpl in *; by rewrite E2).
        subst c1. destruct b; simpl in *; [by apply Hl2|]. rewrite Hj in *. simpl in *.
        destruct b'; [by apply Hl1|]. rewrite (Hl2 eq_refl j HF2). set_solver. }
    apply wp_bind, wp_if; intros _; [|by apply wp_ret, Hrest].
    apply wp_bind, wp_now. intros t. apply wp_upd, Hrest; [by apply RX_upd_other|done].
Qed.

(** Failure leaves the slot with nothing in hand; the lanes [D] of failed waits,
    and no others, have been quarantined. *)
Definition cleared (c : counts) (x : nat) (act : list nat) (Q : gset Z) (v : view) : Prop :=
  exists sl' D, RX (with_lost (D ∪ c.(c_lost)) c) x sl' act [] [] (D ∪ Q) v.

Lemma wp_drain_send c x sl act El Et Et' Q i wrs ms (P : unit -> view -> Prop) v :
  RX c x sl act (jetty_at sl i :: El) Et Q v -> covers sl wrs Et Et' ->
  Forall (fun wr => posted_on v (token_at sl wr) = Some (jetty_at sl i)) wrs ->
  (forall D v', RX (with_lost (D ∪ c.(c_lost)) c) x (put_jetty i 0 sl) act El Et' (D ∪ Q) v' ->
     (forall y, posted_on v' y = posted_on v y) -> P tt v') ->
  wp (drain_send x i wrs ms) P v.
Proof.
  intros R Hc Ho HP. apply wp_bind. eapply wp_wait_wrs; [exact R|exact Hc|]. intros b L v1 R1 E1 [Hl1 Hl2].
  apply wp_bind, wp_if; intros ->.
  - rewrite Hl1, with_lost_same in R1 by done. eapply wp_release_lane_same; [exact R1|]. intros v2 R2 E2.
    eapply wp_upd_slot_same; [exact R2|eauto with pipe|]. intros v3 R3 [E3 _]. apply (HP ∅).
    + by rewrite !(left_id_L ∅ (∪)), with_lost_same.
    + intros y. rewrite <- E1, <- E2. unfold posted_on. by rewrite E3.
  - rewrite (Hl2 eq_refl _ Ho) in R1. apply wp_ret.
    eapply wp_upd_slot_same; [exact (RX_quarantine _ _ _ _ _ _ _ _ _ R1)|eauto with pipe|].
    intros v3 R3 [E3 _]. apply (HP {[jetty_at sl i]}); [done|]. intros y. rewrite <- E1. unfold posted_on. by rewrite E3.
Qed.

Lemma jetty_at_put_ne sl i k j : i <> k -> jetty_at (put_jetty i j sl) k = jetty_at sl k.
Proof. intros H. unfold jetty_at. simpl. by rewrite list_lookup_insert_ne. Qed.

Lemma jetty_at_put sl i j : shape sl -> (i < 10)%nat -> jetty_at (put_jetty i j sl) i = j.
Proof. intros (H & _) Hi. unfold jetty_at. simpl. rewrite list_lookup_insert_eq; [done|lia]. Qed.

Lemma lanes_put_ne sl i j (l : list nat) : i ∉ l -> jetty_at (put_jetty i j sl) <$> l = jetty_at sl <$> l.
Proof.
  intros H. apply list_fmap_ext. intros k y Hk. apply jetty_at_put_ne. intros ->.
  apply H. by eapply list_elem_of_lookup_2.
Qed.

Lemma wp_drain_sends x act count ms sends : forall c sl Et Q (P : unit -> view -> Prop) v,
  RX c x sl act (jetty_at sl <$> sends) Et Q v -> NoDup sends ->
  covers sl (sends ≫= (fun i => posted_of i count)) Et [] ->
  Forall (fun i => Forall (fun wr => posted_on v (token_at sl wr) = Some (jetty_at sl i)) (posted_of i count)) sends ->
  (forall v', cleared c x act Q v' -> P tt v') -> wp (drain_sends x sends count ms) P v.
Proof.
  induction sends as [|i sends IH]; intros c sl Et Q P v R Hn Hc Ho HP; cbn [drain_sends].
  - apply wp_ret, HP. exists sl, ∅. rewrite !(left_id_L ∅ (∪)), with_lost_same.
    eapply RX_perm; [done|by eapply covers_nil|done].
  - apply NoDup_cons in Hn as [Hi Hn]. csimpl in R. csimpl in Hc. apply Forall_cons in Ho as [Hoi Ho].
    set (Et1 := filter (fun t => Exists (fun wr => t = token_at sl wr) (sends ≫= (fun i => posted_of i count))) Et).
    apply wp_bind. eapply (wp_drain_send _ _ _ _ _ _ Et1); [exact R| |exact Hoi|].
    { intros t Ht. destruct (Hc t Ht) as [Hx|(wr & Hw & E)]; [by apply not_elem_of_nil in Hx|].
      apply elem_of_app in Hw as [Hw|Hw]; [right; by exists wr|left]. apply list_elem_of_filter. split; [|done].
      apply Exists_exists. by exists wr. }
    intros D1 v1 R1 E1. eapply (IH _ (put_jetty i 0 sl)); [by rewrite lanes_put_ne|done| | |].
    { intros t Ht. apply list_elem_of_filter in Ht as [Hx _]. apply Exists_exists in Hx as (wr & ? & ?).
      right. by exists wr. }
    { rewrite Forall_forall in *. intros k Hk. rewrite jetty_at_put_ne by (by intros ->). specialize (Ho k Hk).
      rewrite Forall_forall in *. intros wr Hw. rewrite E1. by apply Ho. }
    intros v2 (sl2 & D2 & R2). apply HP. exists sl2, (D2 ∪ D1). simpl in R2. by rewrite !(assoc_L (∪)) in R2.
Qed.

Lemma posted_cover count wr :
  (wr < count)%nat -> wr ∈ (seq 0 ((count + 2 - 1) / 2)) ≫= (fun i => posted_of i count).
Proof.
  intros H. apply list_elem_of_bind. exists (wr / 2)%nat. pose proof (Nat.div_mod wr 2).
  pose proof (Nat.mod_upper_bound wr 2). split.
  - unfold posted_of. apply elem_of_seq. lia.
  - apply elem_of_seq. split; [lia|].
    pose proof (Nat.div_mod (count + 2 - 1) 2). pose proof (Nat.mod_upper_bound (count + 2 - 1) 2). lia.
Qed.

(** The first [n] work requests of the slot were posted on its lanes, and their
    events are live. *)
Definition owns (n : nat) (sl : wr_slot) (v : view) : Prop :=
  forall wr, (wr < n)%nat ->
    posted_on v (token_at sl wr) = Some (jetty_at sl (wr / 2)) /\ token_at sl wr ∈ v.(vlive).

Lemma owns_same n sl sl' v v' :
  owns n sl v -> same_calls v v' ->
  (forall wr, (wr < n)%nat -> token_at sl' wr = token_at sl wr /\ jetty_at sl' (wr / 2) = jetty_at sl (wr / 2)) ->
  owns n sl' v'.
Proof.
  intros Ho [Eh El] Hs wr Hw. destruct (Hs wr Hw) as [-> ->]. unfold posted_on. rewrite Eh, El. by apply Ho.
Qed.

(** What the drain needs of it. *)
Definition posted_here (n : nat) (sl : wr_slot) (v : view) : Prop :=
  forall wr, (wr < n)%nat -> posted_on v (token_at sl wr) = Some (jetty_at sl (wr / 2)).

Lemma posted_of_half i count wr : wr ∈ posted_of i count -> (wr < count)%nat /\ (wr / 2)%nat = i.
Proof. unfold posted_of. rewrite elem_of_seq. intros H. split; [lia|]. ndlia. Qed.

Lemma wp_drain_posted_wrs c x sl act count Q (P : unit -> view -> Prop) v :
  RX c x sl act (jetty_at sl <$> seq 0 ((count + 2 - 1) / 2)) (token_at sl <$> seq 0 count) Q v ->
  posted_here count sl v ->
  (forall v', cleared c x act Q v' -> P tt v') -> wp (drain_posted_wrs a x count) P v.
Proof.
  intros R Ho HP. eapply wp_drain_sends; [exact R|apply NoDup_seq| | |done].
  - intros t Ht. right. apply list_elem_of_fmap in Ht as (wr & -> & Hw). exists wr. split; [|done].
    apply posted_cover. apply elem_of_seq in Hw. lia.
  - apply Forall_forall. intros i _. apply Forall_forall. intros wr Hw. apply posted_of_half in Hw as [Hw <-].
    by apply Ho.
Qed.

(** ** Posting *)

Lemma lanes_snoc sl n : jetty_at sl <$> seq 0 (n + 1) ≡ₚ jetty_at sl n :: (jetty_at sl <$> seq 0 n).
Proof. rewrite seq_app, fmap_app. simpl. by rewrite Permutation_app_comm. Qed.

Lemma half_odd wr : (wr mod 2 <> 0 -> (wr + 2 - 1) / 2 = wr / 2 + 1)%nat.
Proof. intros H. ndlia. Qed.

Lemma half_even wr : (wr mod 2 = 0 -> (wr + 2 - 1) / 2 = wr / 2)%nat.
Proof. intros H. ndlia. Qed.

Lemma cleared_active c x act Q b (P : unit -> view -> Prop) v :
  cleared c x act Q v -> (forall v', cleared c x act Q v' -> P tt v') -> wp (upd_slot x (set_active_ b)) P v.
Proof.
  intros (sl & D & R) HP. eapply wp_upd_slot; [exact R| |].
  - apply RX_shape in R. exact R.
  - intros v' R'. apply HP. by eexists _, D.
Qed.

Lemma wp_fail_wr c x sl act wr Q (P : unit -> view -> Prop) v :
  RX c x sl act (jetty_at sl <$> seq 0 (wr / 2 + 1)) (token_at sl <$> seq 0 wr) Q v -> (wr < 20)%nat ->
  posted_here wr sl v ->
  (forall v', cleared c x act Q v' -> P tt v') -> wp (fail_wr a x wr) P v.
Proof.
  intros R Hwr Ho HP.
  assert (Hrest : forall sl' v', RX c x sl' act (jetty_at sl' <$> seq 0 ((wr + 2 - 1) / 2)) (token_at sl' <$> seq 0 wr) Q v' ->
    posted_here wr sl' v' ->
    wp (drain_posted_wrs a x wr ;; upd_slot x (set_active_ false)) P v').
  { intros sl' v' R' Ho'. apply wp_bind. eapply wp_drain_posted_wrs; [exact R'|exact Ho'|].
    intros v2 H2. by eapply cleared_active. }
  unfold fail_wr. apply wp_bind. case_decide as Hm.
  - apply wp_bind. eapply wp_release_lane_same.
    { eapply RX_perm; [apply lanes_snoc|intros t Ht; exact Ht|exact R]. }
    intros v1 R1 E1. eapply wp_upd_slot_same; [exact R1|eauto with pipe|]. intros v2 R2 [E2 _].
    apply (Hrest (put_jetty (wr / 2) 0 sl)).
    + rewrite half_even by done. rewrite lanes_put_ne; [done|]. rewrite elem_of_seq. lia.
    + intros k Hk. rewrite jetty_at_put_ne by (revert Hm Hk; ndlia). rewrite <- (Ho k Hk), <- E1.
      unfold posted_on. by rewrite E2.
  - apply wp_ret, (Hrest sl); [by rewrite half_odd|done].
Qed.

(** The first [n] work requests of a slot are posted. *)
Record posted (n : nat) (sl : wr_slot) : Prop := {
  p_lanes : forall i, (i < (n + 1) / 2)%nat -> jetty_at sl i <> 0;
  p_done : forall i, (i < n)%nat -> done_at sl i = false;
  p_cnt : sl.(done_cnt) = 0;
}.

(** A posting pass that has posted [n] work requests. *)
Definition posting (c : counts) (x : nat) (act : list nat) (Q : gset Z) (n : nat) (v : view) : Prop :=
  exists sl, posted n sl /\ owns n sl v /\
    RX c x sl act (jetty_at sl <$> seq 0 ((n + 1) / 2)) (token_at sl <$> seq 0 n) Q v.

Lemma tokens_put sl n t :
  shape sl -> (n < 20)%nat ->
  token_at (put_token n t sl) <$> seq 0 (n + 1) ≡ₚ t :: (token_at sl <$> seq 0 n).
Proof.
  intros (_ & H & _) Hn. rewrite seq_app, fmap_app. simpl. rewrite Permutation_app_comm. simpl.
  unfold token_at at 1. simpl. rewrite list_lookup_insert_eq by lia. simpl. apply Permutation_skip.
  erewrite list_fmap_ext; [reflexivity|]. intros k y Hk. apply lookup_seq in Hk as [-> ?]. unfold token_at. simpl.
  by rewrite list_lookup_insert_ne by lia.
Qed.

Lemma posted_step sl n t :
  shape sl -> (n < 20)%nat -> (forall i, (i < n / 2 + 1)%nat -> jetty_at sl i <> 0) ->
  (forall i, (i < n)%nat -> done_at sl i = false) -> sl.(done_cnt) = 0 ->
  posted (n + 1) (put_done n false (put_token n t sl)).
Proof.
  intros (_ & _ & Hd & _) Hn Hj Hp Hc. constructor; [|intros i Hi|done].
  - intros i Hi. apply Hj. revert Hi. ndlia.
  - unfold done_at. simpl. destruct (decide (i = n)) as [->|Hne].
    + by rewrite list_lookup_insert_eq by lia.
    + rewrite list_lookup_insert_ne by done. apply Hp. lia.
Qed.

(** The live events in a posting pass fit the pool of a worker. *)
Lemma slot_toks_length sl : (length (slot_toks sl) <= length sl.(event_token))%nat.
Proof.
  unfold slot_toks. rewrite length_fmap. etrans; [apply length_filter|]. rewrite length_zip. lia.
Qed.

Lemma toks_length w act :
  length w.(wr_slots) = 10%nat -> Forall shape w.(wr_slots) -> Forall (fun i => (i < 10)%nat) act ->
  (length (toks_of w act) <= 20 * length act)%nat.
Proof.
  intros Hl HF. unfold toks_of. induction 1 as [|i act Hi Hlt IH]; [done|]. csimpl. rewrite length_app.
  destruct (lookup_lt_is_Some_2 (wr_slots w) i) as [s Hs]; [lia|]. rewrite Forall_lookup in HF.
  destruct (HF _ _ Hs) as (_ & Ht & _). pose proof (slot_toks_length s). unfold slot_at at 1. rewrite Hs. simpl. lia.
Qed.

Lemma set_size_length (l : list Z) : (size (list_to_set l : gset Z) <= length l)%nat.
Proof.
  induction l as [|x l IH]; [done|]. simpl. rewrite size_union_alt, size_singleton.
  pose proof (subseteq_size (list_to_set (C := gset Z) l ∖ {[x]}) (list_to_set l)) as H.
  specialize (H ltac:(set_solver)). lia.
Qed.

Lemma live_bound act El Et Q v :
  Res act El Et Q v -> (size v.(vlive) <= 20 * length act + length Et)%nat.
Proof.
  intros []. etrans; [apply (subseteq_size _ (list_to_set (toks_of (vw v) act ++ Et)))|].
  { intros t Ht. apply elem_of_list_to_set. auto. }
  etrans; [apply set_size_length|]. rewrite length_app. pose proof (toks_length (vw v) act). intuition lia.
Qed.

(** The event [t] of work request [n] is posted on the lane of its send. *)
Lemma owns_step n sl v t d :
  shape sl -> (n < 20)%nat -> owns n sl v -> t ∉ v.(vlive) -> d.(wr_jetty) = jetty_at sl (n / 2) ->
  owns (n + 1) (put_done n false (put_token n t sl))
    (did (DidPost d true) (did (DidPostEvent d.(wr_ctx) t) (set_live ({[t]} ∪ v.(vlive)) v))).
Proof.
  intros (_ & Hl & _) Hn Ho Ht Hd wr Hw. unfold posted_on. simpl. rewrite !account_snoc. simpl.
  unfold token_at, jetty_at in *. simpl. destruct (decide (wr = n)) as [->|Hne].
  - rewrite list_lookup_insert_eq by lia. simpl. rewrite lookup_insert_eq, Hd. split; [done|set_solver].
  - rewrite list_lookup_insert_ne by done. destruct (Ho wr ltac:(lia)) as [E Hin]. unfold token_at, jetty_at in *.
    rewrite lookup_insert_ne by (by intros ->). split; [exact E|set_solver].
Qed.

Lemma wp_post_wr_on c x sl act wr j src dst Q (P : bool -> view -> Prop) v :
  RX c x sl act (jetty_at sl <$> seq 0 (wr / 2 + 1)) (token_at sl <$> seq 0 wr) Q v -> (wr < 20)%nat ->
  (forall i, (i < wr / 2 + 1)%nat -> jetty_at sl i <> 0) ->
  (forall i, (i < wr)%nat -> done_at sl i = false) -> sl.(done_cnt) = 0 ->
  (length act <= 9)%nat -> owns wr sl v -> j = jetty_at sl (wr / 2) ->
  (forall v', posting c x act Q (wr + 1) v' -> P true v') ->
  (forall v', cleared (count_refused c) x act Q v' -> P false v') ->
  wp (post_wr_on a kind client_data rva x wr j src dst) P v.
Proof.
  intros R Hwr Hj Hd Hc Ha Ho -> HP HF. unfold post_wr_on. apply wp_bind, wp_post_event.
  { intros Hfull. pose proof (live_bound _ _ _ _ _ (rx_res _ _ _ _ _ _ _ _ R)) as Hb.
    rewrite length_fmap, length_seq in Hb. lia. }
  intros ue t Hue Ht Hn. rewrite decide_False by done.
  assert (R0 := RX_set_live _ _ _ _ _ _ _ _ _ _ R (Res_give_tok _ _ _ _ t _ (rx_res _ _ _ _ _ _ _ _ R))).
  apply (RX_did _ _ _ _ _ _ _ (DidPostEvent ue t)) in R0; [|done]. set (v0 := did _ _) in *.
  apply wp_bind, wp_now. intros t_wr. apply wp_bind.
  eapply wp_upd_slot_same; [exact R0|exact (RX_shape _ _ _ _ _ _ _ _ R)|].
  set (sl1 := put_post_ns wr t_wr sl). intros v1 R1 S1.
  apply wp_bind, wp_now. intros t0. apply wp_bind, wp_gets, wp_bind, wp_post_call. intros ok.
  set (d := wr_descriptor _ _ _ _ _ _ _ _ _ _ _).
  assert (Hs1 := RX_shape _ _ _ _ _ _ _ _ R1).
  assert (Hd1 : wr_jetty d = jetty_at sl1 (wr / 2)) by (subst d; unfold wr_descriptor; by destruct kind).
  assert (Hd2 : wr_ctx d = ue) by (subst d; unfold wr_descriptor; by destruct kind).
  apply wp_bind. destruct ok.
  - apply (RX_did _ _ _ _ _ _ _ (DidPost d true)) in R1; [|done].
    eapply wp_record_post; [exact R1|]. intros v2 R2 S2.
    apply wp_bind. eapply wp_upd_slot_same; [exact R2|eauto with pipe|]. intros v3 R3 S3.
    apply wp_bind. eapply wp_upd_slot_same; [exact R3|eauto with pipe|]. intros v4 R4 S4.
    apply wp_ret, HP. eexists. split; [by apply posted_step|]. split.
    + pose proof (owns_step wr sl1 v t d Hs1 Hwr Ho Hn Hd1) as Hw. rewrite Hd2 in Hw.
      eapply owns_same; [exact Hw| |by split]. unfold same_calls in *. simpl in *.
      destruct S1 as [S1 S1'], S2 as [S2 S2'], S3 as [S3 S3'], S4 as [S4 S4']. split.
      * by rewrite S4, S3, S2, S1.
      * by rewrite S4', S3', S2', S1'.
    + replace ((wr + 1 + 1) / 2)%nat with (wr / 2 + 1)%nat by ndlia.
      eapply RX_perm; [done| |exact R4]. intros y Hy.
      change (token_at (put_done wr false (put_token wr t sl1))) with (token_at (put_token wr t sl1)).
      by rewrite tokens_put.
  - apply (RX_refused _ _ _ _ _ _ _ (DidPost d false)) in R1; [|done].
    eapply wp_record_post; [exact R1|]. intros v2 R2 S2.
    apply wp_bind, wp_abort; [done|]. apply wp_bind.
    assert (R3 := RX_set_live _ _ _ _ _ _ _ _ _ _ R2 (Res_drop_tok _ _ _ _ t _ (rx_res _ _ _ _ _ _ _ _ R2))).
    apply (RX_did _ _ _ _ _ _ _ (DidAbort t)) in R3; [|done].
    eapply (wp_fail_wr _ _ sl1); [|done| |intros v4 H4; by apply wp_ret, HF].
    + eapply RX_perm; [done| |exact R3]. intros y Hy. apply list_elem_of_filter in Hy as [Hne Hy].
      apply elem_of_cons in Hy as [?|?]; done.
    + intros k Hk. rewrite posted_on_did by done. destruct (Ho k Hk) as [E _]. refine (eq_trans _ E). unfold posted_on. simpl.
      destruct S1 as [S1 _], S2 as [S2 _]. rewrite S2. simpl. rewrite S1. subst v0. simpl. by rewrite !account_snoc.
Qed.

Lemma wp_choose_chips c x act Q n i (P : Z * Z -> view -> Prop) v :
  posting c x act Q n v -> (forall p v', posting c x act Q n v' -> P p v') -> wp (choose_chips a mch i) P v.
Proof.
  intros Hp HP s [Hw <-]. unfold choose_chips.
  destruct (pick_send_chip _ _ _ _ _) as [[[src dst] rng]|]; simpl; (split; [done|]); apply HP; [|done].
  destruct Hp as (sl & Hp & Ho & R). exists sl. split; [done|]. split; [exact Ho|].
  apply (RX_upd_other _ _ _ _ _ _ _ (set_w_rng rng) (pview s)); done.
Qed.

Lemma wp_post_wr c x act Q wr (P : bool -> view -> Prop) v :
  posting c x act Q wr v -> (wr < 20)%nat ->
  (length act <= 9)%nat ->
  (forall v', posting c x act Q (wr + 1) v' -> P true v') ->
  (forall v', cleared (count_refused c) x act Q v' -> P false v') ->
  wp (post_wr a mch kind client_data rva x wr) P v.
Proof.
  intros Hp Hwr Ha HP HF. unfold post_wr. apply wp_bind. eapply wp_choose_chips; [exact Hp|].
  clear Hp. intros [src dst] v0 (sl & Hp & Ho & R). pose proof (RX_shape _ _ _ _ _ _ _ _ R) as Hs. destruct Hp as [H1 H2 H3].
  case_decide as Hm.
  - apply wp_bind, wp_acquire.
    + apply (RX_refused _ _ _ _ _ _ _ (DidAcquire None)) in R; [|done].
      apply wp_bind. eapply wp_drain_posted_wrs.
      { replace (wr + 2 - 1)%nat with (wr + 1)%nat by lia. exact R. }
      { intros k Hk. rewrite posted_on_did by done. by apply Ho. }
      intros v1 C1. apply wp_bind. eapply cleared_active; [exact C1|]. intros v2 C2. by apply wp_ret, HF.
    + intros j Hj Hn. apply wp_bind.
      assert (R0 := RX_set_held _ _ _ _ _ _ _ _ _ _ R (Res_acquire _ _ _ _ j _ (rx_res _ _ _ _ _ _ _ _ R) Hn)).
      apply (RX_did _ _ _ _ _ _ _ (DidAcquire (Some j))) in R0; [|done].
      eapply wp_upd_slot_same; [exact R0|eauto with pipe|]. intros v1 R1 S1.
      assert (E : ((wr + 1) / 2 = wr / 2)%nat) by (revert Hm; ndlia). rewrite E in *.
      assert (Hlt : (wr / 2 < 10)%nat) by (revert Hwr; ndlia).
      eapply (wp_post_wr_on _ _ (put_jetty (wr / 2) j sl));
        [|done| |exact H2|exact H3|exact Ha| |by rewrite jetty_at_put|exact HP|exact HF].
      * eapply RX_perm; [|intros t Ht; exact Ht|exact R1]. rewrite lanes_snoc, lanes_put_ne.
        -- by rewrite jetty_at_put.
        -- rewrite elem_of_seq. lia.
      * intros i Hi. destruct (decide (i = wr / 2)%nat) as [->|Hne].
        -- by rewrite jetty_at_put.
        -- rewrite jetty_at_put_ne by done. apply H1. lia.
      * intros k Hk. rewrite jetty_at_put_ne by (revert Hm Hk; ndlia). destruct (Ho k Hk) as [E1 E2].
        destruct S1 as [S1 S1']. unfold posted_on in *. rewrite S1, S1'. simpl. by rewrite account_snoc.
  - apply wp_bind. eapply wp_slot_get; [exact R|].
    assert (E : ((wr + 1) / 2 = wr / 2 + 1)%nat) by (revert Hm; ndlia). rewrite E in *.
    by eapply wp_post_wr_on.
Qed.

Lemma wp_post_wrs c x act Q n : forall k (P : bool -> view -> Prop) v,
  posting c x act Q k v -> (k + n <= 20)%nat ->
  (length act <= 9)%nat ->
  (forall v', posting c x act Q (k + n) v' -> P true v') -> (forall v', cleared (count_refused c) x act Q v' -> P false v') ->
  wp (post_wrs a mch kind client_data rva x (seq k n)) P v.
Proof.
  induction n as [|n IH]; intros k P v Hp Hk Ha HP HF; cbn [seq post_wrs].
  - apply wp_ret, HP. by rewrite Nat.add_0_r.
  - apply wp_bind. eapply wp_post_wr; [exact Hp|lia|done| |].
    + intros v1 H1. replace (S k) with (k + 1)%nat by lia. eapply IH; [exact H1|lia|done| |exact HF].
      intros v2 H2. apply HP. by replace (k + S n)%nat with (k + 1 + n)%nat by lia.
    + intros v1 H1. apply wp_ret. by apply HF.
Qed.

End specs.
