(* ===== verification/PipelineThms.v ===== *)
(** * PipelineThms: the loops of the request pipelines

    From the specifications of PipelineInv, those of one request ([post_one]),
    of the collecting and the sending loop, of the final drain and of the main
    loop, with the invariant [inv] that the main loop keeps; for every manager
    that obeys its laws. *)

From S2P Require Import Prelude Hist Args Affinity Requests Pipeline PipelineInv.
From stdpp Require Import list.
#[local] Open Scope Z_scope.

(** ** Slots *)

Lemma lookup_default_seq {A} (d : A) (l : list A) :
  (fun i => default d (l !! i)) <$> seq 0 (length l) = l.
Proof.
  apply list_eq. intros i. rewrite list_lookup_fmap. destruct (decide (i < length l)%nat) as [H|H].
  - rewrite lookup_seq_lt by done. simpl. by destruct (lookup_lt_is_Some_2 l i H) as [x ->].
  - rewrite lookup_seq_ge, lookup_ge_None_2 by lia. done.
Qed.

Lemma jettys_at sl : shape sl -> jetty_at sl <$> seq 0 10 = sl.(jetty).
Proof. intros (H & _). rewrite <- H. apply (lookup_default_seq 0). Qed.

Lemma tokens_at sl : shape sl -> token_at sl <$> seq 0 20 = sl.(event_token).
Proof. intros (_ & H & _). rewrite <- H. apply (lookup_default_seq 0). Qed.

Lemma slot_toks_spec sl t :
  shape sl -> t ∈ slot_toks sl <-> exists wr, (wr < 20)%nat /\ done_at sl wr = false /\ t = token_at sl wr.
Proof.
  intros (_ & H1 & H2 & _). unfold slot_toks, done_at, token_at. rewrite list_elem_of_fmap. split.
  - intros ([t' d] & -> & Hf). apply list_elem_of_filter in Hf as [Hd Hz]. simpl in Hd. subst d.
    apply list_elem_of_lookup in Hz as [i Hi]. apply lookup_zip_Some in Hi as [Hi Hj]. exists i.
    pose proof (lookup_lt_Some _ _ _ Hi). rewrite Hi, Hj. split; [lia|done].
  - intros (wr & Hw & Hd & ->). destruct (lookup_lt_is_Some_2 (event_token sl) wr) as [t Ht]; [lia|].
    destruct (lookup_lt_is_Some_2 (done_ sl) wr) as [d Hdd]; [lia|]. rewrite Ht, Hdd in *. simpl in *. subst d.
    exists (t, false). split; [done|]. apply list_elem_of_filter. split; [done|].
    apply list_elem_of_lookup. exists wr. by apply lookup_zip_Some.
Qed.

Lemma dones_bound sl : shape sl -> 0 <= dones sl <= 20.
Proof. intros (_ & _ & H & _). unfold dones. pose proof (length_filter (fun d => d = true) (done_ sl)). lia. Qed.

Lemma filter_full {A} (P : A -> Prop) `{forall x, Decision (P x)} l :
  length (filter P l) = length l -> Forall P l.
Proof.
  induction l as [|x l IH]; intros Hl; [done|]. rewrite filter_cons in Hl. case_decide; simpl in Hl.
  - constructor; [done|]. apply IH. lia.
  - pose proof (length_filter P l). lia.
Qed.

Lemma all_done sl : shape sl -> 20 <= dones sl -> slot_toks sl = [].
Proof.
  intros Hs Hd. pose proof Hs as (_ & _ & H & _).
  assert (HF : Forall (fun d => d = true) (done_ sl)).
  { refine (filter_full (fun d => d = true) (done_ sl) _). unfold dones in Hd. pose proof (length_filter (fun d => d = true) (done_ sl)). lia. }
  destruct (slot_toks sl) as [|t l] eqn:E; [done|]. exfalso.
  assert (Ht : t ∈ slot_toks sl) by (rewrite E; left). apply slot_toks_spec in Ht as (wr & Hw & Hx & _); [|done].
  unfold done_at in Hx. destruct (lookup_lt_is_Some_2 (done_ sl) wr) as [d Hdd]; [lia|]. rewrite Hdd in Hx.
  simpl in Hx. rewrite Forall_lookup in HF. specialize (HF _ _ Hdd). congruence.
Qed.

Lemma dones_put sl i : shape sl -> (i < 20)%nat -> done_at sl i = false -> dones (put_done i true sl) = dones sl + 1.
Proof.
  intros (_ & _ & H & _) Hi Hd. unfold dones, done_at in *. simpl.
  destruct (lookup_lt_is_Some_2 (done_ sl) i) as [d Hdd]; [lia|]. rewrite Hdd in Hd. simpl in Hd. subst d.
  rewrite insert_take_drop by lia. rewrite <- (take_drop_middle _ _ _ Hdd) at 3.
  rewrite !filter_app, filter_cons_True, filter_cons_False, !length_app by done. simpl. lia.
Qed.

(** A freshly posted slot. *)
Lemma posted_slot_ok sl : shape sl -> posted 20 sl -> slot_ok sl.
Proof.
  intros Hs [H1 H2 H3]. pose proof Hs as (Hj & _ & Hd & _). split.
  - intros H0. apply list_elem_of_lookup in H0 as [i Hi]. apply (H1 i).
    + apply lookup_lt_Some in Hi. change ((20 + 1) / 2)%nat with 10%nat. lia.
    + unfold jetty_at. by rewrite Hi.
  - rewrite H3. unfold dones.
    destruct (filter (fun d => d = true) (done_ sl)) as [|b l] eqn:E; [done|]. exfalso.
    assert (Hb : b ∈ filter (fun d => d = true) (done_ sl)) by (rewrite E; left).
    apply list_elem_of_filter in Hb as [-> Hb]. apply list_elem_of_lookup in Hb as [i Hi].
    specialize (H2 i). unfold done_at in H2. rewrite Hi in H2. apply lookup_lt_Some in Hi. simpl in H2.
    assert (true = false) by (apply H2; lia). done.
Qed.

Lemma posted_toks sl t : shape sl -> posted 20 sl -> t ∈ sl.(event_token) -> t ∈ slot_toks sl.
Proof.
  intros Hs [_ H2 _] Ht. rewrite <- tokens_at in Ht by done. apply list_elem_of_fmap in Ht as (wr & -> & Hw).
  apply elem_of_seq in Hw. apply slot_toks_spec; [done|]. exists wr. split; [lia|]. split; [apply H2; lia|done].
Qed.

(** ** A slot in flight, in hand *)

Definition flying (c : counts) (x : nat) (act : list nat) (Q : gset Z) (v : view) : Prop :=
  exists sl, slot_ok sl /\ RX c x sl act sl.(jetty) (slot_toks sl) Q v.

Lemma flying_detach x act Q v :
  Res (x :: act) [] [] Q v -> flying (counts_of v) x act Q v.
Proof.
  intros R. destruct (Res_detach _ _ _ _ _ _ R) as (R' & Hx & Hlt & Hok). rewrite !app_nil_r in R'.
  eexists. split; [exact Hok|]. by constructor.
Qed.

Lemma flying_attach c x act Q v : flying c x act Q v -> Res (x :: act) [] [] Q v /\ counts_of v = c.
Proof.
  intros (sl & Hok & []). split; [|done]. subst sl. apply Res_attach; auto. by rewrite !app_nil_r.
Qed.

(** ** Removing a slot from the list of slots in flight *)

Definition swap_remove (k : nat) (A : list nat) : list nat :=
  let n := (length A - 1)%nat in take n (<[k := default O (A !! n)]> A).

Lemma swap_remove_perm k A x : A !! k = Some x -> A ≡ₚ x :: swap_remove k A.
Proof.
  intros Hk. pose proof (lookup_lt_Some _ _ _ Hk) as Hl. unfold swap_remove.
  set (n := (length A - 1)%nat). destruct (lookup_lt_is_Some_2 A n) as [y Hy]; [lia|]. rewrite Hy. simpl.
  destruct (decide (k = n)) as [->|Hne].
  - assert (y = x) as -> by congruence. rewrite list_insert_id by done.
    rewrite <- (take_drop_middle _ _ _ Hk) at 1. rewrite drop_ge by lia.
    by rewrite Permutation_app_comm.
  - rewrite <- (take_drop_middle _ _ _ Hy) at 1. rewrite drop_ge by lia.
    rewrite take_insert_lt by lia. rewrite Permutation_app_comm. simpl.
    assert (Hk' : take n A !! k = Some x) by (rewrite lookup_take_lt; [done|lia]).
    rewrite <- (take_drop_middle _ _ _ Hk') at 1. rewrite insert_take_drop by (rewrite length_take; lia).
    rewrite <- !Permutation_middle. apply Permutation_swap.
Qed.

Lemma swap_remove_length k A x : A !! k = Some x -> (length (swap_remove k A) + 1 = length A)%nat.
Proof. intros H. apply swap_remove_perm in H. apply Permutation_length in H. simpl in H. lia. Qed.

Definition with_active (l : list nat) (c : counts) : counts :=
  mk_counts l c.(c_free) c.(c_ops) c.(c_bytes) c.(c_errors) c.(c_va) c.(c_seq) c.(c_lost) c.(c_refused) c.(c_bad).

Lemma max_inflight_range a : 1 <= max_inflight a <= 10.
Proof.
  unfold max_inflight, KV_MAX_CONCURRENCY. destruct (Z.leb_spec 1 (concurrency a));
  [destruct (Z.ltb_spec 10 (concurrency a))|]; simpl; lia.
Qed.

Section specs.
Context {W : Type} `{HM : Manager W} {HL : ManagerLaws W}.
Context (a : argument) (mch : machine) (kind : pipe_kind) (client_data rva : Z).

#[local] Abbreviation wp := (wp (W := W)).

(** ** Probing *)

Lemma toks_drop sl i t :
  shape sl -> (i < 20)%nat -> t ∈ slot_toks sl -> t <> token_at sl i -> t ∈ slot_toks (put_done i true sl).
Proof.
  intros Hs Hi Ht Hne. apply slot_toks_spec in Ht as (wr & Hw & Hd & ->); [|done].
  apply slot_toks_spec; [eauto with pipe|]. exists wr. split; [done|]. split; [|done].
  unfold done_at in *. simpl. rewrite list_lookup_insert_ne; [done|]. by intros ->.
Qed.

Lemma wp_probe_wrs c x act Q wrs : forall (P : bool -> view -> Prop) v,
  flying c x act Q v -> Forall (fun i => (i < 20)%nat) wrs ->
  (forall (b : bool) v', flying (if b then c else count_bad c) x act Q v' -> P b v') -> wp (probe_wrs x wrs) P v.
Proof.
  induction wrs as [|i wrs IH]; intros P v Hf HF HP; cbn [probe_wrs].
  - by apply wp_ret, HP.
  - apply Forall_cons in HF as [Hi HF]. destruct Hf as (sl & [Hl Hc] & R). pose proof (RX_shape _ _ _ _ _ _ _ _ R) as Hs.
    apply wp_bind. eapply wp_slot_get; [exact R|]. apply wp_if; intros Hd.
    { apply IH; [|done|done]. exists sl. done. }
    apply wp_bind. eapply wp_slot_get; [exact R|]. apply wp_bind, wp_probe; [eauto with pipe| |].
    + cbn. apply wp_bind, wp_ret, IH; [|done|done]. exists sl. split; [done|]. by apply RX_did.
    + intros r Hr Ht.
      assert (R1 := RX_set_live _ _ _ _ _ _ _ _ _ _ R (Res_drop_tok _ _ _ _ (token_at sl i) _ (rx_res _ _ _ _ _ _ _ _ R))).
      destruct Hr as [-> | ->]; cbn.
      * apply (RX_did _ _ _ _ _ _ _ (DidProbe (token_at sl i) 1)) in R1; [|done].
        apply wp_bind, wp_bind. eapply (wp_upd_slot _ _ sl); [exact R1|exact (shape_put_done i true sl Hs)|].
        intros v2 R2. eapply wp_record_wr; [exact R2|]. intros v3 R3. apply IH; [|done|done].
        eexists. split; [|eapply RX_perm; [done| |exact R3]].
        -- split; [done|]. simpl. rewrite Hc. transitivity (dones (put_done i true sl)); [|done].
           rewrite dones_put by done. pose proof (dones_bound sl Hs). unfold u8. rewrite Z.mod_small; lia.
        -- intros t Hy. apply list_elem_of_filter in Hy as [Hne Hy].
           exact (toks_drop sl i t Hs Hi Hy Hne).
      * apply (RX_bad _ _ _ _ _ _ _ (token_at sl i)) in R1.
        apply wp_ret, HP. exists sl. split; [done|]. eapply RX_perm; [done| |exact R1].
        intros t Hy. by apply list_elem_of_filter in Hy as [_ Hy].
Qed.

(** ** Releasing the lanes of a finished request *)

Lemma wp_release_sends c x act Et Q sends : forall sl (P : unit -> view -> Prop) v,
  RX c x sl act (jetty_at sl <$> sends) Et Q v -> NoDup sends ->
  (forall sl' v', RX c x sl' act [] Et Q v' -> P tt v') -> wp (release_sends x sends) P v.
Proof.
  induction sends as [|i sends IH]; intros sl P v R Hn HP; cbn [release_sends].
  - by eapply wp_ret, HP.
  - apply NoDup_cons in Hn as [Hi Hn]. csimpl in R. apply wp_bind. eapply wp_release_lane; [exact R|].
    intros v1 R1. apply wp_bind. eapply wp_upd_slot; [exact R1|eauto with pipe|]. intros v2 R2.
    eapply (IH (put_jetty i 0 sl)); [by rewrite lanes_put_ne|done|done].
Qed.

(** An update of the counters. *)
Lemma wp_upd_counts c x sl act El Et Q f (g : counts -> counts) (P : unit -> view -> Prop) v :
  RX c x sl act El Et Q v ->
  (forall w, (f w).(wr_slots) = w.(wr_slots)) -> (forall v, counts_of (upd_vw f v) = g (counts_of v)) ->
  (forall v', RX (g c) x sl act El Et Q v' -> P tt v') -> wp (upd f) P v.
Proof.
  intros [] H1 H2 HP. apply wp_upd, HP. constructor; auto.
  - eapply Res_frame; [..|exact rx_res]; simpl; auto.
  - unfold slot_at in *. simpl. by rewrite H1.
  - rewrite H2. by f_equal.
Qed.

Definition count_op (c : counts) : counts :=
  mk_counts c.(c_active) c.(c_free) (c.(c_ops) +u64 1) (c.(c_bytes) +u64 req_bytes a kind) c.(c_errors)
    c.(c_va) c.(c_seq) c.(c_lost) c.(c_refused) c.(c_bad).

Definition count_retire (k x : nat) (c : counts) : counts :=
  mk_counts (swap_remove k c.(c_active)) (x :: c.(c_free)) c.(c_ops) c.(c_bytes) c.(c_errors) c.(c_va) c.(c_seq)
    c.(c_lost) c.(c_refused) c.(c_bad).

Definition count_done (c : counts) : counts :=
  mk_counts c.(c_active) c.(c_free) c.(c_ops) c.(c_bytes) c.(c_errors)
    (if 0 <? c.(c_va) then c.(c_va) - 1 else c.(c_va)) c.(c_seq) c.(c_lost) c.(c_refused) c.(c_bad).

(** The slot is put back. *)
Lemma wp_retire c k x sl act Et Q (P : unit -> view -> Prop) v :
  RX c x sl act [] Et Q v ->
  (forall v', Res act [] Et Q v' -> counts_of v' = count_retire k x c -> P tt v') -> wp (upd (retire k x)) P v.
Proof.
  intros R HP. eapply (wp_upd_counts _ _ _ _ _ _ _ _ (count_retire k x)); [exact R|done|done|].
  intros v' [R' _ _ _ Hc]. by apply HP.
Qed.

Lemma wp_finish_req c k x act Q (P : unit -> view -> Prop) v :
  flying c x act Q v -> 20 <= (slot_at v.(vw) x).(done_cnt) ->
  (forall v', Res act [] [] Q v' -> counts_of v' = count_retire k x (count_done (count_op c)) -> P tt v') ->
  wp (finish_req a kind k x) P v.
Proof.
  intros (sl & [_ Hc] & R) Hd HP. rewrite (rx_slot _ _ _ _ _ _ _ _ R), Hc in Hd.
  pose proof (RX_shape _ _ _ _ _ _ _ _ R) as Hs. rewrite (all_done sl Hs Hd), <- (jettys_at sl Hs) in R.
  unfold finish_req. apply wp_bind.
  eapply (wp_upd_counts _ _ _ _ _ _ _ _ (fun c => mk_counts c.(c_active) c.(c_free) c.(c_ops)
    (c.(c_bytes) +u64 req_bytes a kind) c.(c_errors) c.(c_va) c.(c_seq) c.(c_lost) c.(c_refused) c.(c_bad))); [exact R|done|done|]. intros v1 R1.
  apply wp_bind. eapply wp_release_sends; [exact R1|apply NoDup_seq|]. intros sl2 v2 R2.
  apply wp_bind. eapply wp_upd_slot; [exact R2|exact (RX_shape _ _ _ _ _ _ _ _ R2)|]. intros v3 R3.
  apply wp_bind. eapply wp_record_req; [exact R3|]. intros v4 R4. apply wp_bind.
  eapply (wp_upd_counts _ _ _ _ _ _ _ _ (fun c => mk_counts c.(c_active) c.(c_free) (c.(c_ops) +u64 1)
    c.(c_bytes) c.(c_errors) c.(c_va) c.(c_seq) c.(c_lost) c.(c_refused) c.(c_bad))); [exact R4|done|done|]. intros v5 R5.
  apply wp_bind. eapply (wp_modify _ (fun v => mk_view v.(vw) (if 0 <? v.(va) then v.(va) - 1 else v.(va)) v.(vseq)
    v.(vheld) v.(vlive) v.(vhist))); [done|].
  eapply wp_retire; [|exact HP]. destruct R5 as [R5 Hx Hlt Hsl Hcc]. constructor; auto.
  - eapply Res_frame; [..|exact R5]; done.
  - change (count_done (counts_of v5) = count_done (count_op c)). by rewrite Hcc.
Qed.

(** ** The state between requests *)

Context (cap : nat) (o0 b0 e0 : Z).

(** The slots are shared out between flight and the free stack, and the
    counters agree with the number of requests posted ([c_seq]): all those not
    in flight, but for [lost] ones, are counted. *)
Record okc (lost : Z) (c : counts) : Prop := {
  o_part : c.(c_active) ++ c.(c_free) ≡ₚ seq 0 cap;
  o_ops : c.(c_ops) = u64 (o0 + (c.(c_seq) - Z.of_nat (length c.(c_active)) - lost));
  o_bytes : c.(c_bytes) =
    u64 (b0 + req_bytes a kind * (c.(c_seq) - Z.of_nat (length c.(c_active)) - lost));
  o_err : c.(c_errors) = e0;
}.

Record loopc (c : counts) : Prop := {
  l_ok : okc 0 c;
  l_va : c.(c_va) = Z.of_nat (length c.(c_active));
  l_max : Z.of_nat (length c.(c_active)) <= max_inflight a;
}.

Lemma u64_cong x y k : x = y + k * 2 ^ 64 -> u64 x = u64 y.
Proof. intros ->. unfold u64. apply Z.mod_add. lia. Qed.

Lemma u64_unfold x : u64 x = x + - (x / 2 ^ 64) * 2 ^ 64.
Proof. unfold u64. rewrite Z.mod_eq by lia. lia. Qed.

Lemma part_retire c k x :
  c.(c_active) !! k = Some x -> c.(c_active) ++ c.(c_free) ≡ₚ seq 0 cap ->
  swap_remove k c.(c_active) ++ x :: c.(c_free) ≡ₚ seq 0 cap.
Proof. intros Hk <-. rewrite (swap_remove_perm _ _ _ Hk) at 2. simpl. by rewrite Permutation_middle. Qed.

Lemma okc_lose lost c k x :
  okc lost c -> c.(c_active) !! k = Some x -> okc (lost + 1) (count_retire k x c).
Proof.
  intros [H1 H2 H3 H4] Hk. pose proof (swap_remove_length _ _ _ Hk) as Hl. constructor; simpl; auto.
  - by apply part_retire.
  - rewrite H2. f_equal. lia.
  - rewrite H3. do 3 f_equal. lia.
Qed.

Lemma okc_finish lost c k x :
  okc lost c -> c.(c_active) !! k = Some x -> okc lost (count_retire k x (count_op c)).
Proof.
  intros [H1 H2 H3 H4] Hk. pose proof (swap_remove_length _ _ _ Hk) as Hl. constructor; simpl; auto.
  - by apply part_retire.
  - rewrite H2, (u64_unfold (o0 + _)). set (q := (o0 + _) / _). apply u64_cong with (k := - q).
    replace (Z.of_nat (length (c_active c))) with (Z.of_nat (length (swap_remove k (c_active c))) + 1) by lia. lia.
  - rewrite H3, (u64_unfold (b0 + _)). set (q := (b0 + _) / _). apply u64_cong with (k := - q).
    replace (Z.of_nat (length (c_active c))) with (Z.of_nat (length (swap_remove k (c_active c))) + 1) by lia. lia.
Qed.

Lemma loopc_finish c k x :
  loopc c -> c.(c_active) !! k = Some x -> loopc (count_retire k x (count_done (count_op c))).
Proof.
  intros [H1 H2 H3] Hk. pose proof (swap_remove_length _ _ _ Hk) as Hl.
  destruct (okc_finish _ _ _ _ H1 Hk) as [O1 O2 O3 O4]. constructor; [by constructor| |].
  - simpl. rewrite H2. destruct (Z.ltb_spec 0 (Z.of_nat (length (c_active c)))); lia.
  - simpl. lia.
Qed.

Definition inv (Q : gset Z) (v : view) : Prop :=
  Res v.(vw).(active_slots) [] [] Q v /\ loopc (counts_of v).

(** ** Collecting *)

Lemma inv_flying Q v k idx :
  inv Q v -> v.(vw).(active_slots) !! k = Some idx ->
  flying (counts_of v) idx (swap_remove k v.(vw).(active_slots)) Q v.
Proof.
  intros [R _] Hk. apply flying_detach. eapply Res_act_perm; [by apply swap_remove_perm|done].
Qed.

Lemma flying_inv Q v v' c k idx :
  inv Q v -> v.(vw).(active_slots) !! k = Some idx -> c.(c_active) = v.(vw).(active_slots) -> loopc c ->
  flying c idx (swap_remove k v.(vw).(active_slots)) Q v' -> inv Q v' /\ counts_of v' = c.
Proof.
  intros [_ L] Hk Hca Hlc Hf. apply flying_attach in Hf as [R Hc]. split; [|done]. split; [|by rewrite Hc].
  assert (E : active_slots (vw v') = active_slots (vw v)) by (rewrite <- Hca; by rewrite <- Hc).
  rewrite E. eapply Res_act_perm; [|exact R]. symmetry. by apply swap_remove_perm.
Qed.

(** What the history says happened between two states: lanes [D] were lost,
    [r] calls were refused and [b] completions reported an error. *)
Record since (v v' : view) (D : gset Z) (r b : nat) : Prop := {
  si_lost : lost_lanes v'.(vhist) = D ∪ lost_lanes v.(vhist);
  si_refused : refusals v'.(vhist) = (refusals v.(vhist) + r)%nat;
  si_bad : bad_probes v'.(vhist) = (bad_probes v.(vhist) + b)%nat;
}.

Lemma since_trans v1 v2 v3 D1 D2 r1 r2 b1 b2 :
  since v1 v2 D1 r1 b1 -> since v2 v3 D2 r2 b2 -> since v1 v3 (D2 ∪ D1) (r1 + r2) (b1 + b2).
Proof. intros [E1 E2 E3] [F1 F2 F3]. constructor; [|lia..]. by rewrite F1, E1, (assoc_L (∪)). Qed.

(** ... in terms of the counters. *)
Lemma since_counts v v' D r b :
  (counts_of v').(c_lost) = D ∪ (counts_of v).(c_lost) -> (counts_of v').(c_refused) = ((counts_of v).(c_refused) + r)%nat ->
  (counts_of v').(c_bad) = ((counts_of v).(c_bad) + b)%nat -> since v v' D r b.
Proof. by constructor. Qed.

Lemma since_same v v' :
  (counts_of v').(c_lost) = (counts_of v).(c_lost) -> (counts_of v').(c_refused) = (counts_of v).(c_refused) ->
  (counts_of v').(c_bad) = (counts_of v).(c_bad) -> since v v' ∅ 0 0.
Proof. intros E1 E2 E3. apply since_counts; [by rewrite E1, (left_id_L ∅ (∪))|lia..]. Qed.

Lemma since_empty_l v1 v2 v3 D r b : since v1 v2 ∅ 0 0 -> since v2 v3 D r b -> since v1 v3 D r b.
Proof. intros H1 H2. pose proof (since_trans _ _ _ _ _ _ _ _ _ H1 H2) as H. by rewrite (right_id_L ∅ (∪)) in H. Qed.

Lemma since_refl v : since v v ∅ 0 0.
Proof. by apply since_same. Qed.

Lemma loopc_count_bad c : loopc c -> loopc (count_bad c).
Proof. intros [[] ? ?]. by constructor. Qed.

Lemma wp_collect fuel : forall k Q (P : option bool -> view -> Prop) v,
  inv Q v -> (length v.(vw).(active_slots) - k < fuel)%nat ->
  (forall (b : bool) v', inv Q v' -> since v v' ∅ 0 (if b then 0 else 1) -> P (Some b) v') -> wp (collect a kind fuel k) P v.
Proof.
  induction fuel as [|fuel IH]; intros k Q P v HI Hk HP; cbn [collect]; [lia|].
  apply wp_bind, wp_gets. destruct (active_slots (vw v) !! k) as [idx|] eqn:Ek; [|by apply wp_ret, HP, since_refl].
  pose proof (lookup_lt_Some _ _ _ Ek) as Hlt. pose proof (swap_remove_length _ _ _ Ek) as Hl.
  apply wp_bind. eapply wp_probe_wrs; [by eapply inv_flying| |].
  { apply Forall_forall. intros i Hi. apply elem_of_seq in Hi. lia. }
  intros b v1 F1. assert (L := proj2 HI).
  assert (H1 : inv Q v1 /\ counts_of v1 = (if b then counts_of v else count_bad (counts_of v))).
  { eapply flying_inv; [exact HI|exact Ek|by destruct b|destruct b; [done|by apply loopc_count_bad]|exact F1]. }
  destruct H1 as [HI1 Hc1].
  assert (E1 : active_slots (vw v1) = active_slots (vw v)) by (change (c_active (counts_of v1) = active_slots (vw v)); rewrite Hc1; by destruct b).
  destruct b; [|apply wp_ret, HP; [done|]; apply since_counts; rewrite Hc1; simpl; [by rewrite (left_id_L ∅ (∪))|lia|done]].
  assert (S1 : since v v1 ∅ 0 0) by (apply since_same; by rewrite Hc1).
  simpl. apply wp_bind, wp_gets. apply wp_if; intros Hd.
  - apply (IH _ Q); [done|rewrite E1; lia|]. intros b v2 HI2 S2. apply HP; [done|by eapply since_empty_l].
  - apply wp_bind. eapply wp_finish_req; [exact F1|apply Z.ltb_ge in Hd; exact Hd|].
    intros v2 R2 Hc2. assert (E2 : active_slots (vw v2) = swap_remove k (active_slots (vw v))) by (by injection Hc2).
    assert (S2 : since v v2 ∅ 0 0) by (apply since_same; by rewrite Hc2).
    apply (IH _ Q); [|rewrite E2; lia|].
    + split; [by rewrite E2|]. rewrite Hc2. apply loopc_finish; [apply HI|done].
    + intros b v3 HI3 S3. apply HP; [done|by eapply since_empty_l].
Qed.

(** ** Draining *)

(** The work requests of a list that are not done. *)
Definition undone (sl : wr_slot) (wrs : list nat) : list nat := filter (fun wr => done_at sl wr = false) wrs.

Lemma with_lost_twice L1 L2 c : with_lost L1 (with_lost L2 c) = with_lost L1 c.
Proof. done. Qed.

Lemma wp_drain_wr c x sl act El Et Et' Q wr wrs deadline (P : Z -> view -> Prop) v :
  RX c x sl act El Et Q v -> covers sl (undone sl (wr :: wrs)) Et Et' ->
  (forall f L Et1 v', f = 0 \/ f = 1 -> RX (with_lost L c) x sl act El Et1 Q v' -> covers sl (undone sl wrs) Et1 Et' -> P f v') ->
  wp (drain_wr x wr deadline) P v.
Proof.
  intros R Hc HP. unfold drain_wr, undone in *. rewrite filter_cons in Hc.
  assert (R0 : RX (with_lost c.(c_lost) c) x sl act El Et Q v) by (by rewrite with_lost_same).
  apply wp_bind. eapply wp_slot_get; [exact R|]. apply wp_if; intros Hd.
  { rewrite decide_False in Hc by congruence. eapply wp_ret, HP; [by left|exact R0|done]. }
  rewrite decide_True in Hc by done. apply covers_step in Hc.
  apply wp_bind. unfold remaining_ms. apply wp_bind, wp_now. intros n. apply wp_ret.
  apply wp_bind. eapply wp_slot_get; [exact R|]. apply wp_bind.
  eapply wp_wait_tok; [exact R|eauto with pipe|]. intros b v1 R1 _. destruct b.
  - rewrite <- (with_lost_same c) in R1. apply wp_bind. eapply wp_record_wr; [exact R1|]. intros v2 R2.
    by eapply wp_ret, HP; [left| |].
  - by eapply wp_ret, HP; [right| |].
Qed.

Definition wrs_of (sends : list nat) : list nat := sends ≫= (fun i => [i * 2; i * 2 + 1]%nat).

Lemma wp_drain_write_sends x act deadline sends : forall c sl Et Q (P : Z -> view -> Prop) v,
  RX c x sl act (jetty_at sl <$> sends) Et Q v -> NoDup sends ->
  covers sl (undone sl (wrs_of sends)) Et [] ->
  (forall f L sl' Q' v', 0 <= f <= 2 * Z.of_nat (length sends) -> Q ⊆ Q' -> (f = 0 -> Q' = Q) ->
     RX (with_lost L c) x sl' act [] [] Q' v' -> P f v') ->
  wp (drain_write_sends x sends deadline) P v.
Proof.
  induction sends as [|i sends IH]; intros c sl Et Q P v R Hn Hc HP; cbn [drain_write_sends].
  { apply wp_ret. eapply (HP 0 c.(c_lost) sl Q); [simpl; lia|done|done|]. rewrite with_lost_same.
    eapply RX_perm; [done|by eapply covers_nil|done]. }
  apply NoDup_cons in Hn as [Hi Hn]. csimpl in R. unfold wrs_of in Hc. csimpl in Hc. fold (wrs_of sends) in Hc.
  apply wp_bind. eapply wp_drain_wr; [exact R|exact Hc|]. clear v R Hc Et. intros f0 L0 Et v Hf0 R Hc.
  apply wp_bind. eapply wp_drain_wr; [exact R|exact Hc|]. clear v R Hc Et. intros f1 L1 Et v Hf1 R Hc.
  rewrite with_lost_twice in R.
  assert (Hrest : forall Q1 v1, Q ⊆ Q1 -> (f0 + f1 = 0 -> Q1 = Q) ->
    RX (with_lost L1 c) x sl act (jetty_at sl <$> sends) Et Q1 v1 ->
    wp (upd_slot x (put_jetty i 0) ;; f ← drain_write_sends x sends deadline; mret (f0 + f1 + f)) P v1).
  { intros Q1 v1 HQ HQ0 R1. apply wp_bind. eapply wp_upd_slot; [exact R1|eauto with pipe|]. intros v2 R2.
    apply wp_bind. eapply (IH _ (put_jetty i 0 sl)); [by rewrite lanes_put_ne|done|exact Hc|].
    intros f L2 sl' Q' v3 Hf HQ' HQ0' R3. apply wp_ret. apply (HP _ L2 sl' Q'); [|set_solver| |done].
    - rewrite length_cons, Nat2Z.inj_succ. lia.
    - intros H0. rewrite HQ0' by lia. apply HQ0. lia. }
  apply wp_bind, wp_if; intros Hf.
  - apply Z.eqb_eq in Hf. eapply wp_release_lane; [exact R|]. intros v1 R1. by apply (Hrest Q).
  - apply Z.eqb_neq in Hf. apply wp_ret, (Hrest ({[jetty_at sl i]} ∪ Q)); [set_solver|done|].
    by apply RX_quarantine.
Qed.

(** What draining one slot leaves. *)
Definition drained (c : counts) (x : nat) (act : list nat) (Q : gset Z) (f : Z) (v : view) : Prop :=
  exists sl' Q' L, 0 <= f <= 20 /\ Q ⊆ Q' /\ (f = 0 -> Q' = Q) /\
    RX (with_lost L (if f =? 0 then count_op c else c)) x sl' act [] [] Q' v.

Lemma wp_count_op c x sl act El Et Q (P : unit -> view -> Prop) v :
  RX c x sl act El Et Q v -> (forall v', RX (count_op c) x sl act El Et Q v' -> P tt v') ->
  wp (record_req x ;; add_op ;; add_bytes a kind) P v.
Proof.
  intros R HP. apply wp_bind. eapply wp_record_req; [exact R|]. intros v1 R1. apply wp_bind.
  eapply (wp_upd_counts _ _ _ _ _ _ _ _ (fun c => mk_counts c.(c_active) c.(c_free) (c.(c_ops) +u64 1)
    c.(c_bytes) c.(c_errors) c.(c_va) c.(c_seq) c.(c_lost) c.(c_refused) c.(c_bad))); [exact R1|done|done|]. intros v2 R2.
  eapply (wp_upd_counts _ _ _ _ _ _ _ _ (fun c => mk_counts c.(c_active) c.(c_free) c.(c_ops)
    (c.(c_bytes) +u64 req_bytes a kind) c.(c_errors) c.(c_va) c.(c_seq) c.(c_lost) c.(c_refused) c.(c_bad)));
    [exact R2|done|done|]. exact HP.
Qed.

Lemma undone_all sl : shape sl -> covers sl (undone sl (wrs_of (seq 0 10))) (slot_toks sl) [].
Proof.
  intros Hs t Ht. right. apply slot_toks_spec in Ht as (wr & Hw & Hd & ->); [|done]. exists wr. split; [|done].
  apply list_elem_of_filter. split; [done|]. change (wrs_of (seq 0 10)) with (seq 0 20). apply elem_of_seq. lia.
Qed.

Lemma wp_drain_write_slot c x act Q deadline (P : Z -> view -> Prop) v :
  flying c x act Q v -> (forall f v', drained c x act Q f v' -> P f v') ->
  wp (drain_write_slot a kind x deadline) P v.
Proof.
  intros (sl & _ & R) HP. pose proof (RX_shape _ _ _ _ _ _ _ _ R) as Hs. rewrite <- (jettys_at sl Hs) in R.
  unfold drain_write_slot. apply wp_bind.
  eapply wp_drain_write_sends; [exact R|apply NoDup_seq|by apply undone_all|].
  intros f L sl' Q' v1 Hf HQ HQ0 R1. rewrite length_seq in Hf. apply wp_bind, wp_if; intros E.
  - eapply wp_count_op; [exact R1|]. intros v2 R2. apply wp_ret, HP. exists sl', Q', L. rewrite E. split; [lia|done].
  - apply wp_ret, wp_ret, HP. exists sl', Q', L. rewrite E. split; [lia|done].
Qed.

Lemma RX_quarantine_all c x sl act Et Q El v :
  RX c x sl act El Et Q v -> exists Q', Q ⊆ Q' /\ RX c x sl act [] Et Q' v.
Proof.
  revert Q. induction El as [|j El IH]; intros Q R; [by exists Q|].
  destruct (IH _ (RX_quarantine _ _ _ _ _ _ _ _ _ R)) as (Q' & HQ & R'). exists Q'. split; [set_solver|done].
Qed.

Lemma wp_drain_get_slot c x act Q deadline (P : Z -> view -> Prop) v :
  flying c x act Q v -> (forall f v', drained c x act Q f v' -> P f v') ->
  wp (drain_get_slot a kind x deadline) P v.
Proof.
  intros (sl & _ & R) HP. pose proof (RX_shape _ _ _ _ _ _ _ _ R) as Hs.
  unfold drain_get_slot. apply wp_bind. unfold remaining_ms. apply wp_bind, wp_now. intros n. apply wp_ret.
  apply wp_bind. eapply (wp_wait_wrs _ _ _ _ []); [exact R| |].
  { intros t Ht. right. apply slot_toks_spec in Ht as (wr & Hw & _ & ->); [|done]. exists wr.
    split; [apply elem_of_seq; lia|done]. }
  assert (Hreset : forall sl', shape sl' -> shape (set_jetty (replicate 10 0) sl')) by (by intros sl' (?&?&?&?)).
  intros b L v1 R1 _ _. apply wp_bind, wp_if; intros ->.
  - apply wp_bind. eapply wp_record_req; [exact R1|]. intros v2 R2. apply wp_bind.
    eapply (wp_upd_counts _ _ _ _ _ _ _ _ (fun c => mk_counts c.(c_active) c.(c_free) (c.(c_ops) +u64 1)
      c.(c_bytes) c.(c_errors) c.(c_va) c.(c_seq) c.(c_lost) c.(c_refused) c.(c_bad))); [exact R2|done|done|]. intros v3 R3. apply wp_bind.
    eapply (wp_upd_counts _ _ _ _ _ _ _ _ (fun c => mk_counts c.(c_active) c.(c_free) c.(c_ops)
      (c.(c_bytes) +u64 req_bytes a kind) c.(c_errors) c.(c_va) c.(c_seq) c.(c_lost) c.(c_refused) c.(c_bad))); [exact R3|done|done|]. intros v4 R4.
    rewrite <- (jettys_at sl Hs) in R4. eapply wp_release_sends; [exact R4|apply NoDup_seq|]. intros sl5 v5 R5.
    apply wp_bind. eapply wp_upd_slot; [exact R5|apply Hreset; eauto with pipe|]. intros v6 R6.
    apply wp_ret, HP. by eexists _, Q, L.
  - apply wp_ret. destruct (RX_quarantine_all _ _ _ _ _ _ _ _ R1) as (Q' & HQ & R2).
    apply wp_bind. eapply wp_upd_slot; [exact R2|by apply Hreset|]. intros v6 R6.
    apply wp_ret, HP. by eexists _, Q', L.
Qed.

Definition dinv (lost : Z) (Q : gset Z) (v : view) : Prop :=
  Res v.(vw).(active_slots) [] [] Q v /\ okc lost (counts_of v).

Lemma wp_drain_all deadline fuel : forall failures lost Q (P : option Z -> view -> Prop) v,
  dinv lost Q v -> (length v.(vw).(active_slots) < fuel)%nat ->
  0 <= lost <= failures -> failures + 20 * Z.of_nat (length v.(vw).(active_slots)) < 2 ^ 64 ->
  (forall f lost' Q' v', dinv lost' Q' v' -> v'.(vw).(active_slots) = [] -> 0 <= lost' <= f ->
     failures <= f <= failures + 20 * Z.of_nat (length v.(vw).(active_slots)) ->
     Q ⊆ Q' -> (f = failures -> Q' = Q) -> P (Some f) v') ->
  wp (drain_all a kind fuel deadline failures) P v.
Proof.
  induction fuel as [|fuel IH]; intros failures lost Q P v [R Oc] Hfu Hl Hb HP; cbn [drain_all]; [lia|].
  apply wp_bind, wp_gets. destruct (active_slots (vw v)) as [|idx rest] eqn:Ea; cbn [lookup list_lookup].
  { apply wp_ret. eapply HP; [split; [by rewrite Ea|exact Oc]|done|lia|simpl; lia|done|done]. }
  assert (E0 : active_slots (vw v) !! 0%nat = Some idx) by (by rewrite Ea).
  pose proof (swap_remove_length _ _ _ E0) as Hlen. rewrite Ea in Hlen.
  set (act := swap_remove 0 (idx :: rest)) in *.
  assert (Hf : flying (counts_of v) idx act Q v).
  { apply flying_detach. eapply Res_act_perm; [by apply (swap_remove_perm 0)|done]. }
  assert (Hnext : forall f v1, drained (counts_of v) idx act Q f v1 ->
    wp (upd_slot idx (set_active_ false) ;; upd (retire 0 idx) ;; drain_all a kind fuel deadline (failures +u64 f)) P v1).
  { intros f v1 (sl & Q1 & L1 & Hf1 & HQ & HQ0 & R1). apply wp_bind.
    eapply wp_upd_slot; [exact R1|exact (RX_shape _ _ _ _ _ _ _ _ R1)|]. intros v2 R2.
    apply wp_bind. eapply (wp_retire _ 0); [exact R2|]. intros v3 R3 Hc3.
    assert (Ea3 : active_slots (vw v3) = act).
    { change (c_active (counts_of v3) = act). rewrite Hc3. destruct (f =? 0); simpl; by rewrite Ea. }
    rewrite length_cons, Nat2Z.inj_succ in Hb. simpl in Hlen, Hfu.
    rewrite u64_small by lia.
    eapply (IH _ (if f =? 0 then lost else lost + 1) Q1); rewrite ?Ea3; [|lia| |lia|].
    - split; [by rewrite Ea3|]. rewrite Hc3. assert (Hol : forall c l, okc l c -> okc l (with_lost L1 c)) by (intros ? ? []; by constructor).
      destruct (f =? 0) eqn:Ef; [by apply (Hol (count_retire 0 idx (count_op (counts_of v)))), okc_finish|].
      by apply (Hol (count_retire 0 idx (counts_of v))), okc_lose.
    - destruct (Z.eqb_spec f 0); lia.
    - intros f' lost' Q' v4 D4 A4 L4 B4 HQ4 HE4. eapply HP; [exact D4|done|done| |set_solver|].
      + rewrite length_cons, Nat2Z.inj_succ. lia.
      + intros H'. rewrite HE4 by lia. apply HQ0. lia. }
  pose proof (wp_drain_write_slot _ _ _ _ deadline _ _ Hf Hnext) as H1.
  pose proof (wp_drain_get_slot _ _ _ _ deadline _ _ Hf Hnext) as H2.
  apply wp_bind. destruct kind; [exact H1|exact H2].
Qed.

(** ** One request *)

Lemma cleared_Res c x act Q v :
  cleared c x act Q v -> exists D, Res act [] [] (D ∪ Q) v /\ counts_of v = with_lost (D ∪ c.(c_lost)) c.
Proof. intros (sl & D & []). by exists D. Qed.

Lemma wp_post_one x act seqno Q (P : bool -> view -> Prop) v :
  Res act [] [] Q v -> x ∉ act -> (x < 10)%nat -> (length act <= 9)%nat ->
  (forall v', Res (x :: act) [] [] Q v' ->
     counts_of v' = with_active (v.(vw).(active_slots) ++ [x]) (counts_of v) -> P true v') ->
  (forall D v', Res act [] [] (D ∪ Q) v' ->
     counts_of v' = with_lost (D ∪ lost_lanes v.(vhist)) (count_refused (counts_of v)) -> P false v') ->
  wp (post_one a mch kind client_data rva x seqno) P v.
Proof.
  intros R Hx Hlt Ha HP HF. assert (R0 : RX (counts_of v) x (slot_at v.(vw) x) act [] [] Q v) by done.
  pose proof (RX_shape _ _ _ _ _ _ _ _ R0) as Hs.
  unfold post_one. apply wp_bind. eapply wp_upd_slot; [exact R0|exact Hs|]. intros v1 R1.
  apply wp_bind, wp_now. intros t. apply wp_bind. eapply wp_upd_slot; [exact R1|exact Hs|]. intros v2 R2.
  apply wp_bind. eapply (wp_post_wrs a mch kind client_data rva _ _ _ _ 20 0); [|lia|done| |].
  { eexists. split; [|split; [|exact R2]].
    - constructor; [intros i Hi; simpl in Hi; lia|intros i Hi; lia|done].
    - intros wr Hw. lia. }
  - intros v3 (sl & Hp & _ & R3). change ((0 + 20 + 1) / 2)%nat with 10%nat in R3. simpl Nat.add in *.
    assert (Hs3 := RX_shape _ _ _ _ _ _ _ _ R3). rewrite jettys_at, tokens_at in R3 by done.
    assert (Hf : flying (counts_of v) x act Q v3).
    { exists sl. split; [by apply posted_slot_ok|].
      eapply RX_perm; [done| |exact R3]. intros y Hy. by apply posted_toks. }
    apply flying_attach in Hf as [R4 Hc]. apply wp_bind, wp_upd, wp_ret, HP.
    + eapply Res_frame; [..|exact R4]; done.
    + injection Hc as E1 E2 E3 E4 E5 E6 E7 E8 E9 E10. unfold counts_of, with_active. simpl.
      by rewrite E1, E2, E3, E4, E5, E6, E7, E8, E9, E10.
  - intros v3 C. apply cleared_Res in C as (D & R3 & Hc). apply wp_ret. by eapply HF.
Qed.

(** ** Sending *)

Context (Hcap : (cap <= 10)%nat).

Lemma wp_pace interval (P : unit -> view -> Prop) v : P tt v -> wp (pace interval) P v.
Proof.
  intros HP. unfold pace. apply wp_if; intros _; [|by apply wp_ret].
  apply wp_bind, wp_now. intros n. apply wp_bind. apply (wp_asks _ (fun _ _ => True)); [done|]. intros next _.
  assert (Hset : wp (n0 ← lift now_ns; modify (fun s => mk_pst s.(wk) s.(wd) s.(req_active) s.(seq_no) (n0 +u64 interval))) P v).
  { apply wp_bind, wp_now. intros n0. by apply (wp_modify _ id). }
  apply wp_bind, wp_if; intros _; [|by apply wp_ret].
  apply wp_bind, wp_now. intros n1.
  assert (Hspin : wp (lift (spin_until next)) (fun _ v' => wp (n0 ← lift now_ns; modify (fun s => mk_pst s.(wk) s.(wd) s.(req_active) s.(seq_no) (n0 +u64 interval))) P v') v)
    by (apply wp_pure; [apply spin_law|done]).
  apply wp_bind, wp_if; intros _; [|by apply wp_ret]. by apply wp_pure; [apply sleep_pure|].
Qed.

(** The top of the free stack. *)
Lemma free_slot Q v x rest :
  inv Q v -> v.(vw).(free_slots) = x :: rest -> x ∉ v.(vw).(active_slots) /\ (x < 10)%nat.
Proof.
  intros [_ [[Hp _ _ _] _ _]] Hf. simpl in Hp. rewrite Hf in Hp. split.
  - assert (Hn : NoDup (active_slots (vw v) ++ x :: rest)) by (rewrite Hp; apply NoDup_seq).
    apply NoDup_app in Hn as (_ & Hd & _). intros Hx. apply (Hd x Hx). left.
  - assert (Hx : x ∈ seq 0 cap) by (rewrite <- Hp; apply elem_of_app; right; left). apply elem_of_seq in Hx. lia.
Qed.

(** The counters after a request was posted. *)
Lemma loopc_post c x rest :
  loopc c -> c.(c_free) = x :: rest -> c.(c_va) < max_inflight a ->
  loopc (mk_counts (c.(c_active) ++ [x]) rest c.(c_ops) c.(c_bytes) c.(c_errors) (u32 (c.(c_va) + 1)) (c.(c_seq) +u64 1)
    c.(c_lost) c.(c_refused) c.(c_bad)).
Proof.
  intros [[H1 H2 H3 H4] H5 H6] Hf Hva. pose proof (max_inflight_range a).
  constructor; [constructor|..]; simpl; rewrite ?length_app; simpl; auto.
  - rewrite <- app_assoc. simpl. by rewrite <- Hf.
  - rewrite H2, (u64_unfold (c_seq c + 1)). set (q := _ / _). symmetry. apply u64_cong with (k := - q). lia.
  - rewrite H3, (u64_unfold (c_seq c + 1)). set (q := _ / _). symmetry.
    apply u64_cong with (k := - q * req_bytes a kind). lia.
  - rewrite u32_small; lia.
  - lia.
Qed.

Lemma wp_send deadline interval fuel : forall Q (P : option bool -> view -> Prop) v,
  inv Q v -> max_inflight a - v.(va) < Z.of_nat fuel ->
  (forall v', inv Q v' -> since v v' ∅ 0 0 -> P (Some true) v') ->
  (forall D v', inv (D ∪ Q) v' -> since v v' D 1 0 -> P (Some false) v') ->
  wp (send a mch kind client_data rva fuel deadline (max_inflight a) interval) P v.
Proof.
  induction fuel as [|fuel IH]; intros Q P v HI Hfu HP HF; cbn [send].
  { exfalso. destruct HI as [_ [_ Hva Hm]]. simpl in *. lia. }
  pose proof (HP v HI (since_refl v)) as HP0.
  apply wp_bind, wp_now. intros n. apply wp_bind.
  apply wp_mono with (Q := fun _ v' => v' = v).
  { apply wp_if; intros _; [apply wp_bind, wp_pure; [apply fatal_law|]; intros b|]; by apply wp_ret. }
  intros go ? ->. apply wp_if; intros _; [by apply wp_ret|].
  apply wp_bind. apply (wp_asks _ (fun r v => r = v.(va))); [done|]. intros ra ->.
  apply wp_if; intros Hra; [by apply wp_ret|]. apply Z.leb_gt in Hra.
  apply wp_bind, wp_pace. apply wp_bind, wp_gets.
  destruct (free_slots (vw v)) as [|x rest] eqn:Hf; [by apply wp_ret|].
  destruct (free_slot _ _ _ _ HI Hf) as [Hx Hlt]. apply wp_bind, wp_upd, wp_bind.
  apply (wp_asks _ (fun _ _ => True)); [done|]. intros seqno _. destruct HI as [R L]. apply wp_bind.
  eapply (wp_post_one x (active_slots (vw v)) seqno Q); [|done|done| |..].
  { eapply Res_frame; [..|exact R]; done. }
  { destruct L as [_ Hva Hm]. simpl in *. pose proof (max_inflight_range a). lia. }
  - intros v1 R1 Hc1. apply wp_bind. eapply (wp_modify _ (fun v => mk_view v.(vw) (u32 (v.(va) + 1)) (v.(vseq) +u64 1)
      v.(vheld) v.(vlive) v.(vhist))); [done|]. injection Hc1 as E1 E2 E3 E4 E5 E6 E7 E8 E9 E10. simpl in *.
    pose proof (loopc_post (counts_of v) x rest L Hf Hra) as L'.
    match goal with |- wp _ _ ?w => set (v2 := w) end.
    assert (S2 : since v v2 ∅ 0 0) by (by apply since_same).
    eapply (IH Q).
    + split; [simpl; rewrite E1|].
      * eapply Res_act_perm; [|eapply Res_frame; [..|exact R1]; done]. by rewrite Permutation_app_comm.
      * unfold counts_of. simpl. rewrite E1, E2, E3, E4, E5, E6, E7, E8, E9, E10. exact L'.
    + simpl. rewrite E6. destruct L as [_ Hva Hm]. simpl in *. pose proof (max_inflight_range a). rewrite u32_small; lia.
    + intros v3 HI3 S3. apply HP; [done|by eapply since_empty_l].
    + intros D v3 HI3 S3. eapply HF; [done|by eapply since_empty_l].
  - intros D v1 R1 Hc1. apply wp_bind, wp_upd, wp_ret.
    injection Hc1 as E1 E2 E3 E4 E5 E6 E7 E8 E9 E10. simpl in *. apply (HF D).
    + split; simpl.
      * rewrite E1. eapply Res_frame; [..|exact R1]; done.
      * unfold counts_of in *. simpl. rewrite E1, E2, E3, E4, E5, E6, E7, E8, E9, E10, <- Hf.
        destruct L as [[] ? ?]. by constructor.
    + apply since_counts; simpl; [done|done|lia].
Qed.

(** ** The main loop *)

Lemma wp_main_loop deadline fuel : forall Q (P : option bool -> view -> Prop) v,
  inv Q v -> (forall v', P None v') -> (forall v', inv Q v' -> since v v' ∅ 0 0 -> P (Some true) v') ->
  (forall D r b v', inv (D ∪ Q) v' -> since v v' D r b -> (r + b = 1)%nat -> P (Some false) v') ->
  wp (main_loop a mch kind client_data rva fuel deadline) P v.
Proof.
  induction fuel as [|fuel IH]; intros Q P v HI HN HP HF; cbn [main_loop]; [by apply wp_ret|].
  apply wp_bind, wp_pure; [apply stopped_law|]. intros stop. apply wp_bind.
  apply wp_mono with (Q := fun _ v' => v' = v).
  { apply wp_if; intros _; [|apply wp_bind, wp_now; intros n]; by apply wp_ret. }
  intros go ? ->. apply wp_if; intros _; [by apply wp_ret, HP, since_refl|].
  apply wp_bind, wp_gets, wp_bind. eapply wp_collect; [exact HI|lia|]. intros b v1 HI1 S1.
  destruct b; [|apply wp_ret, (HF ∅ 0%nat 1%nat); [by rewrite (left_id_L ∅ (∪))|done|done]].
  apply wp_bind. eapply wp_send; [exact HI1| | |].
  - destruct HI1 as [_ [_ Hva _]]. simpl in Hva. pose proof (max_inflight_range a). lia.
  - intros v2 HI2 S2. assert (S12 := since_empty_l _ _ _ _ _ _ S1 S2). apply (IH Q); [done|done| |].
    + intros v3 HI3 S3. apply HP; [done|by eapply since_empty_l].
    + intros D r b v3 HI3 S3. eapply HF; [done|by eapply since_empty_l].
  - intros D v2 HI2 S2. apply wp_ret. eapply (HF D 1%nat 0%nat); [done|by eapply since_empty_l|done].
Qed.

End specs.
