(* ===== verification/PipelineProps.v ===== *)
(** * PipelineProps: theorems about the request pipelines

    The properties of [post_one], of the sending loop and of whole pipelines
    for every manager that keeps the laws, termination for every manager whose
    clock reaches the deadline, and their instances on the world built from the
    lane pool and the event pools. *)

From S2P Require Import Prelude Hist Args EventSlotPool SendLane UrmaEvents Affinity Requests Pipeline.
From S2P Require Import ManagerWorld PipelineInv PipelineThms.
From stdpp Require Import list.
#[local] Open Scope Z_scope.

(** ** Accounts of a whole pipeline *)

(** A worker with no request in flight and [cap] free slots. *)
Record ready (cap : nat) (w : worker) : Prop := {
  rd_len : length w.(wr_slots) = 10%nat;
  rd_shape : Forall shape w.(wr_slots);
  rd_active : w.(active_slots) = [];
  rd_free : w.(free_slots) ≡ₚ seq 0 cap;
  rd_ops : is_u64 w.(w_ops);
  rd_bytes : is_u64 w.(w_bytes);
}.

(** The slots of a worker: as many as may be in flight. *)
Definition slot_cap (a : argument) : nat := Z.to_nat (max_inflight a).

Section accounts.
Context {W : Type} `{HM : Manager W} {HL : ManagerLaws W}.
Context (a : argument) (mch : machine) (kind : pipe_kind) (client_data rva : Z).

#[local] Abbreviation pipeline := (client_pipeline a mch kind client_data rva).
#[local] Abbreviation inv' w0 := (inv a kind (slot_cap a) w0.(w_ops) w0.(w_bytes) w0.(w_errors)).

Definition idle (s : @pst W) : Prop :=
  ready (slot_cap a) s.(wk) /\ world_ok s.(wd) /\ held s.(wd) = ∅ /\ live s.(wd) = ∅.

(** The counters at the end: [f] waits failed in the final drain, [lost]
    requests are not counted. *)
Record drained_counts (w0 : worker) (v : view) (f lost : Z) : Prop := {
  dc_bound : 0 <= lost <= f;
  dc_max : f <= 20 * max_inflight a;
  dc_errors : v.(vw).(w_errors) = (if 0 <? f then w0.(w_errors) +u64 f else w0.(w_errors));
  dc_ops : v.(vw).(w_ops) = u64 (w0.(w_ops) + (v.(vseq) - lost));
  dc_bytes : v.(vw).(w_bytes) = u64 (w0.(w_bytes) + req_bytes a kind * (v.(vseq) - lost));
  dc_held : f = 0 -> v.(vheld) = ∅;
}.

Record ended (w0 : worker) (v : view) : Prop := {
  en_active : v.(vw).(active_slots) = [];
  en_free : v.(vw).(free_slots) ≡ₚ seq 0 (slot_cap a);
  en_live : v.(vlive) = ∅;
  en_counts : exists f lost, drained_counts w0 v f lost;
}.

(** How a pipeline gives up: exactly one lane or post was refused or one
    completion reported an error in the run; the lanes quarantined are those
    of failed waits. *)
Definition gave_up (s : @pst W) (v : view) : Prop :=
  exists D r b, inv' s.(wk) D v /\ since (pview s) v D r b /\ (r + b = 1)%nat.

Lemma slot_cap_le : (slot_cap a <= 10)%nat.
Proof. unfold slot_cap. pose proof (max_inflight_range a). lia. Qed.

Lemma ready_Res s v :
  idle s -> v = mk_view s.(wk) 0 0 (held s.(wd)) (live s.(wd)) (history s.(wd)) -> inv' s.(wk) ∅ v.
Proof.
  intros ([R1 R2 R3 R4 R5 R6] & Hw & Hh & Hl) ->. split; simpl.
  - rewrite R3. constructor; simpl; auto.
    + apply NoDup_nil_2.
    + intros i Hi. by apply not_elem_of_nil in Hi.
    + apply NoDup_nil_2.
    + set_solver.
    + intros j. rewrite Hh. set_solver.
    + intros t. rewrite Hl. set_solver.
  - pose proof (max_inflight_range a). constructor; [constructor|..]; simpl; rewrite ?R3; simpl; auto; try lia.
    + by rewrite Z.add_0_r, u64_small.
    + by rewrite Z.mul_0_r, Z.add_0_r, u64_small.
Qed.

(** The end of the drain. *)
Lemma drain_ended w0 f lost Q v :
  dinv a kind (slot_cap a) w0.(w_ops) w0.(w_bytes) w0.(w_errors) lost Q v -> v.(vw).(active_slots) = [] ->
  0 <= lost <= f -> f <= 20 * max_inflight a -> (f = 0 -> Q = ∅) ->
  ended w0 (if 0 <? f then upd_vw (fun w => set_w_errors (w.(w_errors) +u64 f) w) v else v).
Proof.
  intros [R [O1 O2 O3 O4]] Ha Hl Hf HQ. simpl in *. rewrite Ha in *. rewrite app_nil_l in O1. simpl in *.
  assert (Hlive : vlive v = ∅).
  { apply set_eq. intros t. split; [|set_solver]. intros Ht. apply R in Ht. simpl in Ht. by apply not_elem_of_nil in Ht. }
  assert (Hheld : f = 0 -> vheld v = ∅).
  { intros Hf0. apply set_eq. intros j. rewrite (r_held _ _ _ _ _ R), HQ by done. simpl. set_solver. }
  constructor; [by destruct (0 <? f)..|]. exists f, lost.
  destruct (0 <? f) eqn:E; constructor; simpl; rewrite ?E; auto.
  - by rewrite O4.
  - rewrite O2. f_equal. lia.
  - rewrite O3. do 3 f_equal. lia.
  - rewrite O2. f_equal. lia.
  - rewrite O3. do 3 f_equal. lia.
Qed.

Lemma wp_client_pipeline fuel deadline s :
  idle s ->
  wp (pipeline fuel deadline) (fun r v =>
    match r with
    | None => True
    | Some r => (r = 0 /\ ended s.(wk) v) \/ (r = -1 /\ gave_up s v)
    end) (pview s).
Proof.
  intros Hi. unfold client_pipeline. apply wp_bind, wp_now. intros n.
  apply wp_bind. apply (wp_modify _ (fun v => mk_view v.(vw) 0 0 v.(vheld) v.(vlive) v.(vhist))); [done|].
  assert (HI := ready_Res s _ Hi eq_refl). apply wp_bind.
  eapply (wp_main_loop a mch kind client_data rva _ _ _ _ slot_cap_le); [exact HI|..].
  - intros v'. by apply wp_ret.
  - intros v1 [R1 L1] _. apply wp_bind, wp_now. intros n1. apply wp_bind, wp_gets, wp_bind.
    pose proof (l_max _ _ _ _ _ _ _ L1) as Hm. simpl in Hm. pose proof (max_inflight_range a) as Hmx.
    eapply wp_drain_all; [split; [exact R1|exact (l_ok _ _ _ _ _ _ _ L1)]|lia|lia|lia|].
    intros f lost Q' v2 D2 A2 Hl Hf HQ HE. simpl in Hf.
    assert (E := drain_ended s.(wk) f lost Q' v2 D2 A2 Hl ltac:(lia) HE).
    apply wp_bind. destruct (0 <? f); [apply wp_upd|apply wp_ret]; apply wp_ret; by left.
  - intros D r b v1 HI1 S1 Hrb. apply wp_ret. right. split; [done|]. rewrite (right_id_L ∅ (∪)) in HI1.
    exists D, r, b. split; [exact HI1|]. split; [destruct S1; by constructor|exact Hrb].
Qed.

End accounts.

(** ** Time *)

(** A clock that is read below [deadline] only a bounded number of times. *)
Class ManagerClock (W : Type) `{Manager W} := {
  budget : Z -> W -> nat;
  time_passes {A} (m : ST W A) : Prop := forall d w, (budget d (snd (m w)) <= budget d w)%nat;
  acquire_time : time_passes AcquireSendLane;
  release_time : forall j, time_passes (ReleaseSendLane j);
  post_event_time : time_passes PostEvent;
  probe_time : forall t, time_passes (ProbeEvent t);
  wait_time : forall t ms, time_passes (WaitEvent t ms);
  abort_time : forall t, time_passes (AbortEvent t);
  post_wr_time : forall d, time_passes (PostWr d);
  now_time : time_passes now_ns;
  nanosleep_time : forall t, time_passes (nanosleep t);
  spin_time : forall t, time_passes (spin_until t);
  stopped_time : time_passes stopped;
  fatal_time : time_passes is_fatal;
  now_budget : forall d w, d < 2 ^ 64 -> fst (now_ns w) < d -> (budget d (snd (now_ns w)) < budget d w)%nat;
}.

Section time.
Context {W : Type} `{HC : ManagerClock W}.
Context (a : argument) (mch : machine) (kind : pipe_kind) (client_data rva : Z).

Definition mono {A} (m : ST (@pst W) A) : Prop :=
  forall d, shrinks (fun s => budget d s.(wd)) m.

Lemma mono_ret {A} (r : A) : mono (mret r).
Proof. intros d. apply shrinks_ret. Qed.

Lemma mono_bind {A B} (m : ST (@pst W) A) (f : A -> ST (@pst W) B) :
  mono m -> (forall r, mono (f r)) -> mono (m ≫= f).
Proof. intros Hm Hf d. apply shrinks_bind; [apply Hm|]. intros r. apply Hf. Qed.

Lemma mono_upd f : mono (upd f).
Proof. intros d s. apply Nat.le_refl. Qed.

Lemma mono_gets {A} (f : worker -> A) : mono (gets f).
Proof. intros d s. apply Nat.le_refl. Qed.

Lemma mono_asks {A} (f : @pst W -> A) : mono (asks f).
Proof. intros d s. apply Nat.le_refl. Qed.

Lemma mono_lift {A} (m : ST W A) : time_passes m -> mono (lift m).
Proof. intros Hm d s. specialize (Hm d s.(wd)). unfold lift. by destruct (m s.(wd)). Qed.

Lemma mono_modify f : (forall s : @pst W, (f s).(wd) = s.(wd)) -> mono (modify f).
Proof. intros Hf d s. simpl. by rewrite Hf. Qed.

Create HintDb time.
#[local] Hint Resolve mono_ret mono_upd mono_gets mono_asks mono_lift mono_modify acquire_time release_time
  post_event_time probe_time wait_time abort_time post_wr_time now_time nanosleep_time spin_time stopped_time
  fatal_time : time.

(** Every routine, by its structure. *)
Ltac mono_tac :=
  repeat (intros; first
    [ solve [eauto 3 with time]
    | apply mono_bind; [|intros]
    | match goal with
      | |- mono (if ?b then _ else _) => destruct b
      | |- mono (match ?x with _ => _ end) => destruct x
      end ]).

Lemma mono_slot_get {A} x (f : wr_slot -> A) : mono (slot_get x f).
Proof. apply mono_gets. Qed.

Lemma mono_upd_slot x f : mono (upd_slot x f).
Proof. apply mono_upd. Qed.
#[local] Hint Resolve mono_slot_get mono_upd_slot : time.

Lemma mono_sleep ns : mono (lift (sleep_ns ns)).
Proof. apply mono_lift. unfold sleep_ns. destruct (_ && _); [apply nanosleep_time|]. intros d w. apply Nat.le_refl. Qed.
#[local] Hint Resolve mono_sleep : time.

Lemma mono_choose_chips i : mono (choose_chips a mch i).
Proof. intros d s. unfold choose_chips. by destruct (pick_send_chip _ _ _ _ _) as [[[]]|]. Qed.
#[local] Hint Resolve mono_choose_chips : time.

Lemma mono_wait_wrs x wrs ms : mono (wait_wrs x wrs ms).
Proof. induction wrs; cbn [wait_wrs]; unfold record_wr; mono_tac. Qed.
#[local] Hint Resolve mono_wait_wrs : time.

Lemma mono_drain_sends x sends n ms : mono (drain_sends x sends n ms).
Proof. induction sends; cbn [drain_sends]; unfold drain_send, release_lane; mono_tac. Qed.
#[local] Hint Resolve mono_drain_sends : time.

Lemma mono_drain_posted_wrs x n : mono (drain_posted_wrs a x n).
Proof. apply mono_drain_sends. Qed.
#[local] Hint Resolve mono_drain_posted_wrs : time.

Lemma mono_fail_wr x wr : mono (fail_wr a x wr).
Proof. unfold fail_wr, release_lane; mono_tac. Qed.
#[local] Hint Resolve mono_fail_wr : time.

Lemma mono_post_wrs x wrs : mono (post_wrs a mch kind client_data rva x wrs).
Proof.
  induction wrs; cbn [post_wrs]; unfold post_wr, post_wr_on, record_post; mono_tac.
Qed.
#[local] Hint Resolve mono_post_wrs : time.

Lemma mono_probe_wrs x wrs : mono (probe_wrs x wrs).
Proof. induction wrs; cbn [probe_wrs]; unfold record_wr; mono_tac. Qed.
#[local] Hint Resolve mono_probe_wrs : time.

Lemma mono_release_sends x sends : mono (release_sends x sends).
Proof. induction sends; cbn [release_sends]; unfold release_lane; mono_tac. Qed.
#[local] Hint Resolve mono_release_sends : time.

Lemma mono_collect fuel : forall k, mono (collect a kind fuel k).
Proof.
  induction fuel; intros k; cbn [collect]; unfold finish_req, add_bytes, add_op, record_req; mono_tac.
Qed.

Lemma mono_send dl mx iv fuel : mono (send a mch kind client_data rva fuel dl mx iv).
Proof. induction fuel; cbn [send]; unfold pace, post_one; mono_tac. Qed.

(** ** The main loop ends *)

Context {HL : ManagerLaws W}.
Context (o0 b0 e0 : Z) (deadline : Z) (Hd : deadline < 2 ^ 64).

#[local] Abbreviation inv' := (inv a kind (slot_cap a) o0 b0 e0).

(** A consistent state with at most [n] readings left. *)
Definition timed (n : nat) (s : @pst W) : Prop :=
  world_ok s.(wd) /\ (exists Q, inv' Q (pview s)) /\ (budget deadline s.(wd) <= n)%nat.

Lemma wp_timed {A} (m : ST (@pst W) A) (R : A -> Prop) n :
  mono m -> (forall Q v, inv' Q v -> wp m (fun r v' => R r /\ exists Q', inv' Q' v') v) ->
  triple (timed n) m (fun r s => R r /\ timed n s).
Proof.
  intros Hm Hwp s (Hw & (Q & HI) & Hb). destruct (Hwp Q _ HI s (conj Hw eq_refl)) as (Hw' & HR & HI').
  split; [done|]. split; [done|]. split; [done|]. etrans; [apply Hm|done].
Qed.

Lemma read_clock n :
  triple (timed n) (t ← lift now_ns; mret (t <? deadline))
    (fun go s => timed n s /\ (go = true -> exists n', (n' < n)%nat /\ timed n' s)).
Proof.
  intros s (Hw & HI & Hb). destruct (now_law s.(wd) Hw I) as (Hw' & Hh & Hl & Hy).
  pose proof (now_time deadline s.(wd)) as Ht. pose proof (now_budget deadline s.(wd) Hd) as Hn.
  unfold mbind, ST_bind, lift, mret, ST_ret. destruct (now_ns s.(wd)) as [t w'] eqn:E. simpl in *.
  assert (HI' : exists Q, inv' Q (pview (mk_pst s.(wk) w' s.(req_active) s.(seq_no) s.(next_req_ns)))).
  { unfold pview in *. simpl. by rewrite Hh, Hl, Hy. }
  split; [split; [done|]; split; [done|]; simpl; lia|].
  intros Hlt. apply Z.ltb_lt, Hn in Hlt. exists (budget deadline w'). split; [lia|].
  split; [done|]. split; [done|]. simpl. lia.
Qed.

Lemma collect_timed n k :
  triple (fun s => timed n s /\ k = length s.(wk).(active_slots)) (collect a kind (S k) 0)
    (fun r s => r <> None /\ timed n s).
Proof.
  intros s [(Hw & (Q & HI) & Hb) ->].
  destruct (wp_collect a kind (slot_cap a) o0 b0 e0 (S (length s.(wk).(active_slots))) 0 Q
    (fun r v => r <> None /\ exists Q', inv' Q' v) (pview s) HI ltac:(simpl; lia)) with (s := s) as (Hw' & HR & HI').
  - intros b v' HI' _. split; [done|]. eauto.
  - done.
  - split; [done|]. split; [done|]. split; [done|]. etrans; [apply mono_collect|done].
Qed.

Lemma send_timed n :
  triple (timed n) (send a mch kind client_data rva 11 deadline (max_inflight a) (interval_ns a))
    (fun r s => r <> None /\ timed n s).
Proof.
  apply wp_timed; [apply mono_send|]. intros Q v HI.
  eapply (wp_send a mch kind client_data rva _ _ _ _ (slot_cap_le a)); [exact HI| | |].
  - destruct HI as [_ [_ Hva _]]. simpl in Hva. pose proof (max_inflight_range a). lia.
  - intros v' HI' _. eauto.
  - intros D v' HI' _. eauto.
Qed.

Lemma stopped_timed n : triple (timed n) (lift stopped) (fun _ => timed n).
Proof.
  eapply triple_weaken; [apply (wp_timed _ (fun _ => True) n)|done|by intros ? ? []].
  - apply mono_lift, stopped_time.
  - intros Q v HI. apply wp_pure; [apply stopped_law|]. eauto.
Qed.

(** A pass with fewer readings left. *)
Lemma triple_fewer {A} n (m : ST (@pst W) A) Q :
  (forall n', (n' < n)%nat -> triple (timed n') m Q) ->
  triple (fun s => timed n s /\ (true = true -> exists n', (n' < n)%nat /\ timed n' s)) m Q.
Proof. intros Hm s [_ Hs]. destruct (Hs eq_refl) as (n' & Hn' & Ht). by apply (Hm n'). Qed.

Lemma main_loop_returns fuel : forall n,
  (n < fuel)%nat ->
  triple (timed n) (main_loop a mch kind client_data rva fuel deadline) (fun r _ => r <> None).
Proof.
  induction fuel as [|fuel IH]; intros n Hn; [lia|]. cbn [main_loop].
  apply triple_bind with (R := fun _ => timed n); [apply stopped_timed|]. intros stop.
  apply triple_bind with (R := fun go s => timed n s /\ (go = true -> exists n', (n' < n)%nat /\ timed n' s)).
  { destruct stop; [by apply triple_ret|apply read_clock]. }
  intros [|]; cbn [negb]; [|by apply triple_ret].
  apply triple_fewer. intros n' Hn'.
  apply triple_bind with (R := fun k s => timed n' s /\ k = length s.(wk).(active_slots)); [by intros s Hs|].
  intros k. apply triple_bind with (R := fun r s => r <> None /\ timed n' s); [apply collect_timed|].
  intros [[|]|]; [|by intros s [? _]|by intros s [? _]].
  apply triple_bind with (R := fun r s => r <> None /\ timed n' s).
  { eapply triple_weaken; [apply send_timed|by intros s [_ Hs]|done]. }
  intros [[|]|]; [|by intros s [? _]|by intros s [? _]].
  eapply triple_weaken; [apply (IH n'); lia|by intros s [_ Hs]|done].
Qed.

End time.

(** ** Whole pipelines *)

Section whole.
Context {W : Type} `{HM : Manager W} {HL : ManagerLaws W}.
Context (a : argument) (mch : machine) (kind : pipe_kind) (client_data rva : Z).

#[local] Abbreviation pipeline := (client_pipeline a mch kind client_data rva).

(** The drain always ends. *)
Lemma drain_returns Q w0 dl v :
  inv a kind (slot_cap a) w0.(w_ops) w0.(w_bytes) w0.(w_errors) Q v ->
  wp (W := W) (drain_all a kind (S (length v.(vw).(active_slots))) dl 0) (fun r _ => r <> None) v.
Proof.
  intros [R L]. pose proof (l_max _ _ _ _ _ _ _ L) as Hm. simpl in Hm. pose proof (max_inflight_range a) as Hmx.
  eapply wp_drain_all; [split; [exact R|exact (l_ok _ _ _ _ _ _ _ L)]|lia|lia|lia|done].
Qed.

Lemma pipeline_returns {HC : ManagerClock W} fuel deadline s :
  deadline < 2 ^ 64 -> idle a s -> (budget deadline s.(wd) < fuel)%nat ->
  fst (pipeline fuel deadline s) <> None.
Proof.
  intros Hd Hi Hb. set (w0 := s.(wk)).
  set (tm := timed a kind w0.(w_ops) w0.(w_bytes) w0.(w_errors) deadline (budget deadline s.(wd))).
  assert (H : triple (fun s' => s' = s) (pipeline fuel deadline) (fun r _ => r <> None)); [|by apply H].
  unfold client_pipeline.
  apply triple_bind with (R := fun _ s' => idle a s' /\ s'.(wk) = w0 /\ (budget deadline s'.(wd) <= budget deadline s.(wd))%nat).
  { intros s' ->. pose proof (now_time deadline s.(wd)) as Ht. destruct Hi as (Hr & Hw & Hh & Hl).
    destruct (now_law s.(wd) Hw I) as (Hw' & Eh & El & _). unfold lift. destruct (now_ns s.(wd)) as [t w']. simpl in *.
    unfold idle. simpl. by rewrite Eh, El. }
  intros n. apply triple_bind with (R := fun _ => tm).
  { intros s' (Hi' & Ew & Hb'). split; [apply Hi'|]. split; [|done]. exists ∅. rewrite <- Ew.
    by apply (ready_Res a kind s'). }
  intros []. apply triple_bind with (R := fun r s' => r <> None /\ world_ok s'.(wd) /\
    (r = Some true -> exists Q, inv a kind (slot_cap a) w0.(w_ops) w0.(w_bytes) w0.(w_errors) Q (pview s'))).
  { intros s' Hs'. split; [exact (main_loop_returns a mch kind client_data rva _ _ _ deadline Hd fuel _ Hb s' Hs')|].
    destruct Hs' as (Hw & (Q & HI) & _).
    apply (wp_main_loop a mch kind client_data rva _ w0.(w_ops) w0.(w_bytes) w0.(w_errors) (slot_cap_le a) deadline fuel Q
      (fun r v => r = Some true -> exists Q, inv a kind (slot_cap a) w0.(w_ops) w0.(w_bytes) w0.(w_errors) Q v) (pview s'));
      [done|done|eauto|done|done]. }
  intros [[|]|]; [|by intros s' _|by intros s' [? _]]. intros s' (_ & Hw & HQ). destruct (HQ eq_refl) as [Q HI].
  refine (proj2 (_ : world_ok _ /\ _)). refine ((_ : wp _ (fun r _ => r <> None) (pview s')) s' (conj Hw eq_refl)).
  apply wp_bind, wp_now. intros n1. apply wp_bind, wp_gets, wp_bind. eapply wp_mono; [by eapply drain_returns|].
  intros [f|] v' Hr; [|done]. apply wp_bind, wp_if; intros _; [apply wp_upd|apply wp_ret]; by apply wp_ret.
Qed.



(** C2: a pipeline that returns 0 leaves nothing behind.  No request is in
    flight, all slots are free again, no event is live (every token the worker
    ever took was consumed), every posted request is either counted in [ops] and
    [bytes] exactly once or is one of the [lost] ones whose final wait failed,
    [errors] grew by the number [f] of failed waits, and when there was none,
    every send lane is back in the pool. *)
Theorem pipeline_drains fuel deadline s s' :
  idle a s -> client_pipeline a mch kind client_data rva fuel deadline s = (Some 0, s') -> ended a kind s.(wk) (pview s').
Proof.
  intros Hi E. destruct (wp_client_pipeline a mch kind client_data rva fuel deadline s Hi s) as [_ H].
  { split; [apply Hi|done]. }
  rewrite E in H. simpl in H. destruct H as [[_ H]|[H _]]; [done|lia].
Qed.

(** C29: a pipeline that gives up (-1) still keeps its accounts.  Exactly one
    fault was seen in the whole run: a lane or a post was refused, or a
    completion reported an error.  The slots are shared out between flight and
    the free stack, at most [--concurrency] requests are in flight, each has ten
    lanes of its own, the lanes the worker holds are exactly those and the ones
    on which a wait failed during the run ([lost_lanes] of its record), its live
    events belong to work requests in flight, and [ops] and [bytes] count
    exactly the requests that completed. *)
Theorem pipeline_gives_up fuel deadline s s' r :
  idle a s -> history s.(wd) = [] ->
  client_pipeline a mch kind client_data rva fuel deadline s = (Some r, s') -> r <> 0 ->
  let h := history s'.(wd) in
  r = -1 /\ (refusals h + bad_probes h = 1)%nat /\
  inv a kind (slot_cap a) s.(wk).(w_ops) s.(wk).(w_bytes) s.(wk).(w_errors) (lost_lanes h) (pview s').
Proof.
  intros Hi Hy E Hr h. destruct (wp_client_pipeline a mch kind client_data rva fuel deadline s Hi s) as [_ H].
  { split; [apply Hi|done]. }
  rewrite E in H. simpl in H. destruct H as [[? _]|(Er & D & nr & nb & HI & [S1 S2 S3] & Hn)]; [done|].
  simpl in *. rewrite Hy in *. subst h. split; [done|]. rewrite S2, S3, S1. split; [exact Hn|].
  change (lost_lanes []) with (∅ : gset Z). by rewrite (right_id_L ∅ (∪)).
Qed.

(** C16: a pipeline returns.  When the clock shows a time before the deadline
    only a bounded number of times ([budget]), that many passes of the main
    loop and one more are enough, whatever completions arrive; the inner loops
    (collecting, sending, draining) never run out of passes. *)
Theorem pipeline_terminates {HC : ManagerClock W} fuel deadline s :
  deadline < 2 ^ 64 -> idle a s -> (budget deadline s.(wd) < fuel)%nat ->
  exists r s', client_pipeline a mch kind client_data rva fuel deadline s = (Some r, s').
Proof.
  intros Hd Hi Hb. pose proof (pipeline_returns fuel deadline s Hd Hi Hb) as H.
  destruct (pipeline fuel deadline s) as [[r|] s']; [eauto|done].
Qed.

End whole.

(** ** Workers as they are created *)

Lemma empty_slot_shape : shape empty_slot.
Proof. split; [done|]. split; [done|]. split; [done|]. apply Forall_replicate. unfold token_range. lia. Qed.

(** The slots of a new worker are those of [max_inflight]. *)
Lemma slot_count_cap a :
  is_u32 (Z.max 0 a.(concurrency)) -> slot_count a = max_inflight a.
Proof.
  unfold is_u32, max_inflight, slot_count. intros H. cbv zeta. destruct (Z.leb_spec 1 (concurrency a)); [|done].
  by rewrite u32_small by lia.
Qed.

Lemma create_worker_ready a id i ok w :
  is_u32 (Z.max 0 a.(concurrency)) -> create_worker a id i ok = Some w -> ready (slot_cap a) w.
Proof.
  intros Hc H. unfold create_worker in H. rewrite (slot_count_cap a Hc) in H. fold (slot_cap a) in H.
  destruct (kv_hist_init _ _ _ _) as [[r h]|]; simpl in H; [|done]. destruct (negb (r =? 0)); simplify_eq.
  constructor; simpl; auto.
  - apply (Forall_replicate shape 10), empty_slot_shape.
  - symmetry. apply Permutation_rev.
  - unfold is_u64. lia.
  - unfold is_u64. lia.
Qed.

(** ** The drain of the get pipeline *)

Section get_drain.
Context {W : Type} `{HM : Manager W} {HL : ManagerLaws W}.
Context (a : argument).

(** Slot [x] is [sl], and the lanes are [h]; token [t] is not live. *)
Definition spent (x : nat) (sl : wr_slot) (h : gset Z) (t : Z) (v : view) : Prop :=
  slot_at v.(vw) x = sl /\ v.(vheld) = h /\ t ∉ v.(vlive).

Lemma wp_wait_spent x sl h t ms wrs : forall (P : bool -> view -> Prop) v,
  shape sl -> spent x sl h t v ->
  (forall b v', spent x sl h t v' -> (b = true -> Forall (fun wr => token_at sl wr <> t) wrs) -> P b v') ->
  wp (W := W) (wait_wrs x wrs ms) P v.
Proof.
  induction wrs as [|wr wrs IH]; intros P v Hs Hv HP; cbn [wait_wrs].
  - apply wp_ret, HP; [done|]. constructor.
  - apply wp_bind, wp_gets. pose proof Hv as (Esl & Eh & Ht). rewrite Esl.
    apply wp_bind, wp_wait; [by apply token_at_range|]. intros b Hb.
    set (v1 := set_live (vlive v ∖ {[token_at sl wr]}) v).
    assert (Hv1 : spent x sl h t v1) by (split; [done|]; split; [done|]; simpl; set_solver).
    assert (Hrest : forall v2, spent x sl h t v2 -> wp (W := W) (rest ← wait_wrs x wrs ms; mret (b && rest)) P v2).
    { intros v2 Hv2. apply wp_bind, IH; [done|done|]. intros b' v3 Hv3 HF. apply wp_ret, HP; [done|].
      intros Hbb. apply andb_true_iff in Hbb as [Hb1 Hb2]. constructor; [|auto].
      intros Heq. apply Ht. rewrite <- Heq. auto. }
    apply wp_bind. apply wp_if; intros _; [|by apply wp_ret, Hrest].
    apply wp_bind, wp_now. intros n. by apply wp_upd, Hrest.
Qed.

(** Work request [wr] of slot [x] was collected: its event is consumed. *)
Definition collected (x wr : nat) (s : @pst W) : Prop :=
  done_at (slot_at s.(wk) x) wr = true /\ token_at (slot_at s.(wk) x) wr ∉ live s.(wd).

(** C40: the drain of the get pipeline waits again for work requests that are
    already done.  When one of the twenty has been collected by the main loop
    (its event is consumed, so its token is not live), the request is reported
    as failed whatever happens to the others, and none of its ten lanes goes
    back to the pool. *)
Theorem get_drain_spurious x wr deadline s :
  shape (slot_at s.(wk) x) -> world_ok s.(wd) -> (wr < 20)%nat -> collected x wr s ->
  let '(f, s') := drain_get_slot a PGet x deadline s in f = 1 /\ held s'.(wd) = held s.(wd).
Proof.
  intros Hs Hw Hwr [_ Ht]. set (sl := slot_at s.(wk) x) in *.
  assert (H : wp (drain_get_slot a PGet x deadline) (fun f v' => f = 1 /\ v'.(vheld) = held s.(wd)) (pview s)).
  { unfold drain_get_slot. apply wp_bind. unfold remaining_ms. apply wp_bind, wp_now. intros n. apply wp_ret, wp_bind.
    apply (wp_wait_spent x sl (held s.(wd)) (token_at sl wr)); [done|done|]. intros b v1 (_ & Eh & _) HF.
    apply wp_bind, wp_if; intros ->.
    - exfalso. specialize (HF eq_refl). rewrite Forall_forall in HF. apply (HF wr); [|done]. apply elem_of_seq. lia.
    - by apply wp_ret, wp_bind, wp_upd, wp_ret. }
  destruct (H s (conj Hw eq_refl)) as [_ HP].
  by destruct (drain_get_slot a PGet x deadline s).
Qed.

End get_drain.

(** ** On the world of the components *)

Lemma tick_time d w : (length (snd (tick w)).(w_script) <= length w.(w_script))%nat /\
  (d < 2 ^ 64 -> fst (tick w) < d -> (length (snd (tick w)).(w_script) < length w.(w_script))%nat).
Proof. unfold tick. destruct (w_script w) as [|[f now] rest] eqn:E; simpl; rewrite ?E; unfold last_ns; split; simpl; intros; lia. Qed.

Lemma spin_length t fuel : forall w, (length (snd (spin fuel t w)).(w_script) <= length w.(w_script))%nat.
Proof.
  induction fuel as [|fuel IH]; intros w; [done|]. simpl. unfold mbind, ST_bind.
  destruct (tick_time 0 w) as [Ht _]. destruct (tick w) as [n w1]. destruct (n <? t); [|done].
  etrans; [apply IH|done].
Qed.

Lemma recorded_script {A} c (m : ST world A) w : w_script (snd (recorded c m w)) = w_script (snd (m w)).
Proof. unfold recorded. by destruct (m w). Qed.

#[export] Instance world_clock : ManagerClock world.
Proof.
  refine {| budget := fun _ w => length w.(w_script) |}.
  - intros d w. simpl. rewrite recorded_script. unfold do_acquire. by destruct (PopIdle _) as [[[]]|].
  - intros j d w. simpl. rewrite recorded_script. unfold do_release. by destruct (SendLane.Release _ _).
  - intros d w. simpl. rewrite recorded_script. unfold do_post_event. by destruct (UrmaEvents.PostEvent _ _) as [[]].
  - intros t d w. simpl. rewrite recorded_script. unfold do_probe. by destruct (UrmaEvents.ProbeEvent _ _ _).
  - intros t ms d w. simpl. rewrite recorded_script. unfold do_wait.
    destruct (tick_time 0 w) as [Ht _]. destruct (tick w) as [n w1].
    simpl in Ht. destruct (UrmaEvents.WaitEvent _ _ _ _ _ _ _ _) as [[b m]|]; simpl; [|done].
    rewrite length_drop. lia.
  - done.
  - intros d0 d w. simpl. rewrite recorded_script. unfold do_post_wr. by destruct (w_answers w) as [|[]].
  - intros d w. apply tick_time. exact 0.
  - done.
  - intros t d w. apply spin_length.
  - done.
  - done.
  - intros d w. apply tick_time.
Defined.

(** ** Witnesses *)

Definition demo_pipe : argument := set_concurrency 2 demo_write.

Definition demo_hist : kv_hist := default zeroed_hist (snd <$> kv_hist_init 1 1000 3 true).

Definition demo_worker : worker :=
  mk_worker 0 7 demo_hist demo_hist demo_hist 5 0 0 (replicate 10 empty_slot) [] [1; 0]%nat.

(** The poll thread has delivered everything posted so far; the clock shows
    [now]. *)
Definition all_done (now : Z) : reading := (fun wire => (fun c => mk_cr c true) <$> wire, now).

(** Nothing is delivered. *)
Definition silent (now : Z) : reading := (fun _ => [], now).

Definition demo_world (lanes : list Z) (answers : list bool) (script : list reading) : world :=
  mk_world (snd (RegisterWorker true no_events)) (foldr SendLane.Add empty_lanes lanes) 0 ∅ [] answers script false false [].

Definition demo_state (lanes : list Z) (answers : list bool) (script : list reading) : @pst world :=
  mk_pst demo_worker (demo_world lanes answers script) 0 0 0.

Definition demo_lanes : list Z := Z.of_nat <$> seq 1 20.

#[local] Abbreviation demo_run answers := (client_pipeline demo_pipe demo_machine PWrite 4096 8192 200 1000
  (demo_state demo_lanes answers (replicate 150 (all_done 10)))).

Lemma run_pair {A B} (p : A * B) a : fst p = a -> p = (a, snd p).
Proof. intros <-. apply surjective_pairing. Qed.

Lemma demo_lanes_ok l : NoDup l -> 0 ∉ l -> implements (foldr SendLane.Add empty_lanes l) (mk_lspec (rev l) (list_to_set l)).
Proof.
  induction 1 as [|j l Hj Hn IH]; intros H0; [apply empty_implements|]. apply not_elem_of_cons in H0 as [Hne H0].
  apply (Add_implements _ _ j (IH H0)); [unfold nullptr; congruence|]. simpl. by rewrite elem_of_list_to_set.
Qed.

Lemma all_done_ok now l : Forall is_u64 l -> crs_ok (fst (all_done now) l).
Proof. intros H. apply Forall_fmap. eapply Forall_impl; [exact H|]. done. Qed.

Lemma demo_events : exists p, snd (RegisterWorker true no_events) = mk_events (<[0%nat := Some p]> no_events.(workerSlots_)) 1 true
  /\ p = new_pool.
Proof. by exists new_pool. Qed.

(** The script delivers completions of posted work requests. *)
Definition script_ok (script : list reading) : Prop :=
  Forall (fun r : reading => forall l, Forall is_u64 l -> crs_ok (fst r l)) script.

Lemma script_all_done n : script_ok (replicate n (all_done 10)).
Proof. apply Forall_replicate. intros l. apply all_done_ok. Qed.


Lemma demo_script_ok answers script : script_ok script -> world_inv (demo_world demo_lanes answers script).
Proof.
  split; [|split; [|split]].
  - exists [mk_espec ∅ kSlotCount]. split; [|simpl; lia]. unfold demo_world. cbn [w_events].
    destruct demo_events as (p & -> & ->). constructor; [cbn [workerSlots_]; by rewrite length_insert|done|done|].
    intros [|i] s Hs; simplify_eq/=. exists new_pool. split; [done|apply new_pool_refines].
  - eexists. split; [apply demo_lanes_ok|].
    + apply NoDup_fmap_2; [apply _|apply NoDup_seq].
    + intros H'. apply list_elem_of_fmap in H' as (k & Hk & Hin). apply elem_of_seq in Hin. lia.
    + intros j Hj. by apply not_elem_of_empty in Hj.
  - constructor.
  - done.
Qed.

Lemma demo_world_ok answers n : world_inv (demo_world demo_lanes answers (replicate n (all_done 10))).
Proof. apply demo_script_ok, script_all_done. Qed.

Lemma demo_script_idle answers script : script_ok script -> idle demo_pipe (demo_state demo_lanes answers script).
Proof.
  intros Hs. split; [|split; [by apply demo_script_ok|split; [done|]]].
  - constructor; try done.
    + apply (Forall_replicate shape 10), empty_slot_shape.
    + symmetry. apply (Permutation_rev [0; 1]%nat).
  - vm_compute. reflexivity.
Qed.

Lemma demo_idle answers n : idle demo_pipe (demo_state demo_lanes answers (replicate n (all_done 10))).
Proof. apply demo_script_idle, script_all_done. Qed.

Lemma demo_run_ok : fst (demo_run []) = Some 0.
Proof. vm_compute. reflexivity. Qed.

Lemma demo_run_refused : fst (demo_run [true; true; false]) = Some (-1).
Proof. vm_compute. reflexivity. Qed.

Lemma pipeline_drains_witness : ended demo_pipe PWrite demo_worker (pview (snd (demo_run []))).
Proof.
  exact (pipeline_drains demo_pipe demo_machine PWrite 4096 8192 200 1000 _ _ (demo_idle _ _) (run_pair _ _ demo_run_ok)).
Defined.

Lemma pipeline_gives_up_witness :
  let s' := snd (demo_run [true; true; false]) in let h := history s'.(wd) in
  -1 = -1 /\ (refusals h + bad_probes h = 1)%nat /\ inv demo_pipe PWrite (slot_cap demo_pipe) 5 0 0 (lost_lanes h) (pview s').
Proof.
  exact (pipeline_gives_up demo_pipe demo_machine PWrite 4096 8192 200 1000 _ _ (-1) (demo_idle _ _) eq_refl
    (run_pair _ _ demo_run_refused) ltac:(lia)).
Defined.

Lemma pipeline_terminates_witness :
  exists r s', client_get_pipeline demo_pipe demo_machine 4096 8192 151 1000
    (demo_state demo_lanes [] (replicate 150 (all_done 10))) = (Some r, s').
Proof.
  apply (pipeline_terminates demo_pipe demo_machine PGet 4096 8192 151 1000); [lia|apply demo_idle|].
  simpl. lia.
Defined.





(** A request posted in slot 0 of which work request [wr] was probed. *)
Definition post_probe {W} `{Manager W} (a : argument) (wr : nat) (s : @pst W) : pst :=
  snd (probe_wrs 0 [wr] (snd (post_one a demo_machine PGet 4096 8192 0 0 s))).

Lemma post_probe_ok {W} `{HM : Manager W} {HL : ManagerLaws W} a wr (s : @pst W) :
  Res [] [] [] ∅ (pview s) -> world_ok s.(wd) -> (wr < 20)%nat ->
  fst (post_one a demo_machine PGet 4096 8192 0 0 s) = true ->
  world_ok (post_probe a wr s).(wd) /\ shape (slot_at (post_probe a wr s).(wk) 0).
Proof.
  intros R Hw Hwr Hok. unfold post_probe.
  assert (H1 : wp (post_one a demo_machine PGet 4096 8192 0 0) (fun ok v => ok = true -> Res [0%nat] [] [] ∅ v) (pview s)).
  { eapply wp_post_one; [exact R|apply not_elem_of_nil|lia|simpl; lia|by intros|by intros]. }
  destruct (H1 s (conj Hw eq_refl)) as [Hw1 R1]. specialize (R1 Hok).
  assert (H2 : wp (probe_wrs 0 [wr]) (fun _ v => shape (slot_at v.(vw) 0))
    (pview (snd (post_one a demo_machine PGet 4096 8192 0 0 s)))).
  { eapply wp_probe_wrs; [by apply flying_detach|by constructor|].
    intros b v2 (sl & _ & R2). rewrite (rx_slot _ _ _ _ _ _ _ _ R2). by eapply RX_shape. }
  exact (H2 _ (conj Hw1 eq_refl)).
Qed.

(** A get request of which the main loop has collected work request 3. *)
Definition demo_collected : @pst world :=
  post_probe demo_pipe 3 (demo_state demo_lanes [] (replicate 150 (all_done 10))).

Lemma demo_posted :
  fst (post_one demo_pipe demo_machine PGet 4096 8192 0 0 (demo_state demo_lanes [] (replicate 150 (all_done 10)))) = true.
Proof. vm_compute. reflexivity. Qed.

Lemma demo_Res answers n : Res [] [] [] ∅ (pview (demo_state demo_lanes answers (replicate n (all_done 10)))).
Proof. apply (ready_Res demo_pipe PGet _ _ (demo_idle answers n) eq_refl). Qed.

Lemma demo_collected_ok : world_ok demo_collected.(wd) /\ shape (slot_at demo_collected.(wk) 0).
Proof.
  exact (post_probe_ok demo_pipe 3 _ (demo_Res _ _) (demo_world_ok _ _) ltac:(lia) demo_posted).
Qed.

Lemma demo_collected_spent : collected 0 3 demo_collected.
Proof. split; [vm_compute; reflexivity|]. apply (bool_decide_eq_true_1 _). vm_compute. reflexivity. Qed.

Lemma get_drain_spurious_witness :
  let '(f, s') := drain_get_slot demo_pipe PGet 0 1000 demo_collected in
  f = 1 /\ held s'.(wd) = held demo_collected.(wd).
Proof.
  exact (get_drain_spurious demo_pipe 0 3 1000 demo_collected (proj2 demo_collected_ok) (proj1 demo_collected_ok)
    ltac:(lia) demo_collected_spent).
Defined.

(** ** Pacing *)

(** Waiting for the time [next] when the clock shows [n]: sleep until 50
    microseconds before it if that is in the future and less than a second
    away, spin for the rest, and set the time after it. *)
Definition pace_wait {W} `{Manager W} (n next interval : Z) : ST (@pst W) unit :=
  (if decide (50000 < next - n < 50000 + 1000000000) then lift (nanosleep (next - n - 50000)) else mret tt) ;;
  lift (spin_until next) ;;
  n ← lift now_ns;
  modify (fun s => mk_pst s.(wk) s.(wd) s.(req_active) s.(seq_no) (n +u64 interval)).

(** The [tv_nsec] computed from the difference. *)
Lemma pace_nsec nx n1 :
  0 <= nx < 2 ^ 63 -> 0 <= n1 < 2 ^ 63 -> 50000 < nx -u64 n1 ->
  let tv_nsec := (nx -u64 n1 - 50000 + 2 ^ 63) mod 2 ^ 64 - 2 ^ 63 in
  (50000 < nx - n1 < 50000 + 1000000000 /\ tv_nsec = nx - n1 - 50000) \/
  (~ 50000 < nx - n1 < 50000 + 1000000000 /\ ~ 0 <= tv_nsec < 1000000000).
Proof. unfold u64. cbv zeta. intros H0 H1. dlia. Qed.

Lemma pace_sleep {W} `{Manager W} nx n1 (s : @pst W) :
  0 <= nx < 2 ^ 63 -> 0 <= n1 < 2 ^ 63 ->
  (if 50000 <? nx -u64 n1 then lift (sleep_ns ((nx -u64 n1) - 50000)) else mret tt) s =
  (if decide (50000 < nx - n1 < 50000 + 1000000000) then lift (nanosleep (nx - n1 - 50000)) else mret tt) s.
Proof.
  intros H0 H1. destruct s. destruct (Z.ltb_spec 50000 (nx -u64 n1)) as [Hl|Hl].
  - unfold sleep_ns. destruct (pace_nsec nx n1 H0 H1 Hl) as [[Hd ->]|[Hd Hn]].
    + rewrite decide_True by done.
      by replace ((0 <=? nx - n1 - 50000) && (nx - n1 - 50000 <? 1000000000)) with true by lia.
    + rewrite decide_False by done. set (t := _ - 2 ^ 63) in *.
      by replace ((0 <=? t) && (t <? 1000000000)) with false by lia.
  - rewrite decide_False; [done|]. intros Hd. rewrite u64_small in Hl; lia.
Qed.

(** the rate limiter.  It reads the clock twice, to decide whether to wait
    and to compute the time left, and the unsigned difference wraps when the
    time slot falls between the two readings; but then the [long] given to
    [nanosleep] is negative and is refused.  So for any two readings below 2^63
    it behaves as if it had computed with integers: it never sleeps past the
    slot and never for a second or more. *)
Theorem pace_is_integer_pace {W} `{Manager W} interval (s : @pst W) n0 w1 n1 w2 :
  0 < interval -> now_ns s.(wd) = (n0, w1) -> now_ns w1 = (n1, w2) ->
  n0 < s.(next_req_ns) -> 0 <= s.(next_req_ns) < 2 ^ 63 -> 0 <= n1 < 2 ^ 63 ->
  pace interval s =
    pace_wait n1 s.(next_req_ns) interval (mk_pst s.(wk) w2 s.(req_active) s.(seq_no) s.(next_req_ns)).
Proof.
  intros Hi E0 E1 H0 Hn H1. unfold pace, pace_wait. apply Z.ltb_lt in Hi. rewrite Hi. unfold mbind, ST_bind, asks.
  unfold lift at 1. rewrite E0. cbn [next_req_ns]. assert (H0' : (n0 <? s.(next_req_ns)) = true) by lia. rewrite H0'.
  unfold lift at 1. cbn [wd]. rewrite E1. cbn [wk req_active seq_no next_req_ns]. rewrite pace_sleep by done.
  match goal with |- context [(if decide ?P then ?m else ?m') ?st] =>
    destruct ((if decide P then m else m') st) as [[] s3] end.
  by destruct (lift (spin_until _) s3) as [[] s4].
Qed.

(** Two readings around the time 1000. *)
Definition demo_pace : @pst world :=
  mk_pst demo_worker (demo_world demo_lanes [] [silent 999; silent 1001; silent 1002]) 0 0 1000.

Lemma pace_is_integer_pace_witness :
  pace 10 demo_pace =
    pace_wait 1001 1000 10 (mk_pst demo_worker (demo_world demo_lanes [] [silent 1002]) 0 0 1000).
Proof.
  exact (pace_is_integer_pace 10 demo_pace 999 (demo_world demo_lanes [] [silent 1001; silent 1002]) 1001
    (demo_world demo_lanes [] [silent 1002]) ltac:(lia) eq_refl eq_refl ltac:(reflexivity)
    ltac:(split; [discriminate|reflexivity]) ltac:(lia)).
Defined.
