(* ===== verification/Mixed.v ===== *)
(** * Mixed: the synchronous rounds of a mixed-mode worker in
      [src/kv_bench.cpp]

    [client_do_write] (two writes on one lane), [client_do_get] (one read) and
    the loop of [client_worker_main] that runs them, on the same interface of
    the manager as the pipelines.  [ctx->fatal] is a field here because a
    worker that sets it stops at once; the setting of other workers is seen
    through [stopped]. *)

From S2P Require Import Prelude Hist Args Affinity Requests Pipeline.
From stdpp Require Import list.
#[local] Open Scope Z_scope.

(** ** State *)

Record mworker := mk_mworker {
  m_id : Z;
  m_rng : Z;
  m_off : Z;
  m_hist : kv_hist;
  m_hist_wr : kv_hist;
  m_hist_post : kv_hist;
  m_ops : Z;
  m_bytes : Z;
  m_errors : Z;
  next_post_ns : Z;
  fatal : bool;
}.

Definition set_m_rng (x : Z) (w : mworker) : mworker :=
  mk_mworker w.(m_id) x w.(m_off) w.(m_hist) w.(m_hist_wr) w.(m_hist_post) w.(m_ops) w.(m_bytes)
    w.(m_errors) w.(next_post_ns) w.(fatal).
Definition set_m_off (x : Z) (w : mworker) : mworker :=
  mk_mworker w.(m_id) w.(m_rng) x w.(m_hist) w.(m_hist_wr) w.(m_hist_post) w.(m_ops) w.(m_bytes)
    w.(m_errors) w.(next_post_ns) w.(fatal).
Definition set_m_hist_wr (x : kv_hist) (w : mworker) : mworker :=
  mk_mworker w.(m_id) w.(m_rng) w.(m_off) w.(m_hist) x w.(m_hist_post) w.(m_ops) w.(m_bytes)
    w.(m_errors) w.(next_post_ns) w.(fatal).
Definition set_m_hist_post (x : kv_hist) (w : mworker) : mworker :=
  mk_mworker w.(m_id) w.(m_rng) w.(m_off) w.(m_hist) w.(m_hist_wr) x w.(m_ops) w.(m_bytes)
    w.(m_errors) w.(next_post_ns) w.(fatal).
Definition set_next_post_ns (x : Z) (w : mworker) : mworker :=
  mk_mworker w.(m_id) w.(m_rng) w.(m_off) w.(m_hist) w.(m_hist_wr) w.(m_hist_post) w.(m_ops) w.(m_bytes)
    w.(m_errors) x w.(fatal).

(** A round that succeeded, and the first that failed. *)
Definition count_round (lat bytes : Z) (w : mworker) : mworker :=
  mk_mworker w.(m_id) w.(m_rng) w.(m_off) (kv_hist_record w.(m_hist) lat) w.(m_hist_wr) w.(m_hist_post)
    (w.(m_ops) +u64 1) (w.(m_bytes) +u64 bytes) w.(m_errors) w.(next_post_ns) w.(fatal).
Definition count_failure (w : mworker) : mworker :=
  mk_mworker w.(m_id) w.(m_rng) w.(m_off) w.(m_hist) w.(m_hist_wr) w.(m_hist_post) w.(m_ops) w.(m_bytes)
    (w.(m_errors) +u64 1) w.(next_post_ns) true.

Section mixed.
Context {W : Type} `{Manager W}.
Context (a : argument) (mch : machine) (client_data rva : Z).
Context (peer_chip : option Z).   (* [ctx->conn->peer.dstChip], when connected *)

Record mst := mk_mst { mw : mworker; mwd : W }.

Definition mlift {A} (m : ST W A) : ST mst A :=
  fun s => let '(r, w') := m s.(mwd) in (r, mk_mst s.(mw) w').
Definition mupd (f : mworker -> mworker) : ST mst unit := fun s => (tt, mk_mst (f s.(mw)) s.(mwd)).
Definition mgets {A} (f : mworker -> A) : ST mst A := fun s => (f s.(mw), s).

Definition m_record_wr (t0 : Z) : ST mst unit :=
  t ← mlift now_ns; mupd (fun w => set_m_hist_wr (kv_hist_record w.(m_hist_wr) (t -u64 t0)) w).
Definition m_record_post (t0 : Z) : ST mst unit :=
  t ← mlift now_ns; mupd (fun w => set_m_hist_post (kv_hist_record w.(m_hist_post) (t -u64 t0)) w).

(** A wait with its sample. *)
Definition wait_record (t t0 : Z) : ST mst bool :=
  ok ← mlift (WaitEvent t a.(timeout_ms));
  (if ok : bool then m_record_wr t0 else mret tt) ;;
  mret ok.

(** ** Rounds *)

(** After both posts: the lane goes back when both writes completed. *)
Definition write_finish (j ta tb post_a post_b : Z) : ST mst Z :=
  ok_a ← wait_record ta post_a;
  ok_b ← wait_record tb post_b;
  if (ok_a : bool) && (ok_b : bool) then mlift (ReleaseSendLane j) ;; mret 0 else mret (-1).

(** After the first post: the second one; when it is refused the first is
    waited for. *)
Definition write_second (j src_b dst ta tb ub post_a off : Z) : ST mst Z :=
  post_b ← mlift now_ns;
  pb_t0 ← mlift now_ns;
  let '(l, r) := mixed_write_b a client_data rva off in
  ok ← mlift (PostWr (mk_wr false j l r (u32 a.(value_size)) (u32 src_b) (u32 dst) ub));
  m_record_post pb_t0 ;;
  if negb ok then
    mlift (AbortEvent tb) ;;
    done ← wait_record ta post_a;
    (if done : bool then mlift (ReleaseSendLane j) else mret tt) ;;
    mret (-1)
  else write_finish j ta tb post_a post_b.

Definition write_first (j src_a src_b dst ta ua tb ub off : Z) : ST mst Z :=
  post_a ← mlift now_ns;
  pa_t0 ← mlift now_ns;
  let '(l, r) := mixed_write_a a client_data rva off in
  ok ← mlift (PostWr (mk_wr false j l r (u32 a.(value_size)) (u32 src_a) (u32 dst) ua));
  m_record_post pa_t0 ;;
  if negb ok then
    mlift (AbortEvent ta) ;;
    mlift (AbortEvent tb) ;;
    mlift (ReleaseSendLane j) ;;
    mret (-1)
  else write_second j src_b dst ta tb ub post_a off.

Definition client_do_write (src_a src_b dst : Z) : ST mst Z :=
  off ← mgets m_off;
  lane ← mlift AcquireSendLane;
  match lane with
  | None => mret (-1)
  | Some j =>
      '(ua, ta) ← mlift PostEvent;
      if decide (ua = 0) then mlift (ReleaseSendLane j) ;; mret (-1)
      else
        '(ub, tb) ← mlift PostEvent;
        if decide (ub = 0) then
          mlift (AbortEvent ta) ;; mlift (ReleaseSendLane j) ;; mret (-1)
        else write_first j src_a src_b dst ta ua tb ub off
  end.

Definition client_do_get (src_a dst : Z) : ST mst Z :=
  off ← mgets m_off;
  lane ← mlift AcquireSendLane;
  match lane with
  | None => mret (-1)
  | Some j =>
      '(ue, t) ← mlift PostEvent;
      if decide (ue = 0) then mlift (ReleaseSendLane j) ;; mret (-1)
      else
        post_ns ← mlift now_ns;
        let '(l, r) := mixed_read a client_data rva off in
        ok ← mlift (PostWr (mk_wr true j l r (u32 a.(value_size)) (u32 src_a) (u32 dst) ue));
        if negb ok then
          mlift (AbortEvent t) ;; mlift (ReleaseSendLane j) ;; mret (-1)
        else
          ok ← wait_record t post_ns;
          if ok : bool then mlift (ReleaseSendLane j) ;; mret 0 else mret (-1)
  end.

(** ** The worker *)

(** The time slot of the rate, with one reading of the clock. *)
Definition m_pace (interval now : Z) : ST mst unit :=
  next ← mgets next_post_ns;
  if (0 <? interval) && (now <? next) then
    (if 50000 <? next -u64 now then mlift (sleep_ns ((next -u64 now) - 50000)) else mret tt) ;;
    mlift (spin_until next)
  else mret tt.

(** Chips of the round; the server's announcement overrides the destination,
    and without [--drv-ext] no chip is named.  [pick_round_chips] has a result
    on every machine with a CPU. *)
Definition round_chips : ST mst (Z * Z * Z) :=
  fun s =>
    let '(src_a, src_b, dst, rng) :=
      default (INVALID_CHIP, INVALID_CHIP, INVALID_CHIP, s.(mw).(m_rng))
        (pick_round_chips a mch true s.(mw).(m_id) s.(mw).(m_rng)) in
    let dst := match peer_chip with
               | Some p => if a.(drv_ext) && negb (p =? INVALID_CHIP) then i32 p else dst
               | None => dst
               end in
    let chips := if a.(drv_ext) then (src_a, src_b, dst) else (INVALID_CHIP, INVALID_CHIP, INVALID_CHIP) in
    (chips, mk_mst (set_m_rng rng s.(mw)) s.(mwd)).

(** [rng_next(&w->rng) % 100 < args->mixed_ratio] *)
Definition draw_write : ST mst bool :=
  fun s => let x := rng_next s.(mw).(m_rng) in
           ((x mod 100 <? a.(mixed_ratio)), mk_mst (set_m_rng x s.(mw)) s.(mwd)).

Definition do_round (src_a src_b dst : Z) : ST mst Z :=
  if a.(op) =? OP_GET then client_do_get src_a dst
  else
    wr ← draw_write;
    if wr : bool then client_do_write src_a src_b dst else client_do_get src_a dst.

Definition round_bytes : Z := if a.(op) =? OP_GET then a.(value_size) else 2 *u64 a.(value_size).

(** The body of the loop: [false] is [break]. *)
Definition mixed_round (interval : Z) : ST mst bool :=
  now ← mlift now_ns;
  m_pace interval now ;;
  '(src_a, src_b, dst) ← round_chips;
  t0 ← mlift now_ns;
  rc ← do_round src_a src_b dst;
  t1 ← mlift now_ns;
  if rc =? 0 then
    mupd (count_round (t1 -u64 t0) round_bytes) ;;
    mupd (fun w => set_m_off (mixed_off_next a w.(m_off)) w) ;;
    mupd (set_next_post_ns (t0 +u64 interval)) ;;
    mret true
  else mupd count_failure ;; mret false.

(** [true] when the loop has ended within [fuel] passes. *)
Fixpoint mixed_loop (fuel : nat) (interval deadline : Z) : ST mst bool :=
  match fuel with
  | O => mret false
  | S fuel =>
      stop ← mlift stopped;
      go ← (if (stop : bool) then mret false else n ← mlift now_ns; mret (n <? deadline));
      if negb go then mret true
      else
        more ← mixed_round interval;
        if (more : bool) then mixed_loop fuel interval deadline else mret true
  end.

(** [client_worker_main] for mixed mode, from the computation of the rate
    on; the CPU binding before it does not touch this state. *)
Definition mixed_worker_main (fuel : nat) : ST mst bool :=
  n ← mlift now_ns;
  let deadline := n +u64 (a.(duration_sec) *u64 1000000000) in
  n ← mlift now_ns;
  mupd (set_next_post_ns n) ;;
  mupd (fun w => set_m_off (mixed_off0 a w.(m_id)) w) ;;
  mixed_loop fuel (interval_ns a) deadline.

End mixed.
