(* ===== verification/MixedProps.v ===== *)
(** * MixedProps: what the rounds of a mixed-mode worker guarantee

    For every manager with the laws of Pipeline: a round consumes the events it
    posted and gives its lane back, or quarantines it when a work request did
    not complete; the counters of the worker are those of its rounds; and the
    worker stops at its deadline. *)

From S2P Require Import Prelude Hist Args EventSlotPool SendLane UrmaEvents Affinity Requests Pipeline.
From S2P Require Import ManagerWorld PipelineInv PipelineThms PipelineProps Mixed.
From stdpp Require Import list.
#[local] Open Scope Z_scope.

Section rules.
Context {W : Type} `{HM : Manager W} {HL : ManagerLaws W}.

(** The worker, its lanes and events, and the record of its calls. *)
Record mview := mk_mview { vm : mworker; vh : gset Z; vl : gset Z; vy : list mgr_call }.

Definition view_of (s : @mst W) : mview := mk_mview s.(mw) (held s.(mwd)) (live s.(mwd)) (history s.(mwd)).

Definition wpm {A} (m : ST (@mst W) A) (Q : A -> mview -> Prop) (v : mview) : Prop :=
  triple (fun s => world_ok s.(mwd) /\ view_of s = v) m (fun r s => world_ok s.(mwd) /\ Q r (view_of s)).

Lemma wpm_ret {A} (r : A) Q v : Q r v -> wpm (mret r) Q v.
Proof. intros H s [Hw <-]. done. Qed.

Lemma wpm_bind {A B} (m : ST (@mst W) A) (f : A -> ST (@mst W) B) Q v :
  wpm m (fun r v' => wpm (f r) Q v') v -> wpm (m ≫= f) Q v.
Proof.
  intros Hm. apply triple_bind with (R := fun r s => world_ok s.(mwd) /\ wpm (f r) Q (view_of s)); [exact Hm|].
  intros r s [Hw Hs]. exact (Hs s (conj Hw eq_refl)).
Qed.

Lemma wpm_if {A} (b : bool) (m1 m2 : ST (@mst W) A) Q v :
  (b = true -> wpm m1 Q v) -> (b = false -> wpm m2 Q v) -> wpm (if b then m1 else m2) Q v.
Proof. destruct b; auto. Qed.

Lemma wpm_upd f (Q : unit -> mview -> Prop) v : Q tt (mk_mview (f v.(vm)) v.(vh) v.(vl) v.(vy)) -> wpm (mupd f) Q v.
Proof. intros H s [Hw <-]. done. Qed.

Lemma wpm_gets {A} (f : mworker -> A) Q v : Q (f v.(vm)) v -> wpm (mgets f) Q v.
Proof. intros H s [Hw <-]. done. Qed.

Lemma wpm_lift {A} (m : ST W A) pre post (Q : A -> mview -> Prop) v :
  promises m pre post ->
  (forall w, held w = v.(vh) -> live w = v.(vl) -> pre w) ->
  (forall r w w', held w = v.(vh) -> live w = v.(vl) -> history w = v.(vy) -> post r w w' ->
   Q r (mk_mview v.(vm) (held w') (live w') (history w'))) ->
  wpm (mlift m) Q v.
Proof.
  intros Hm Hp HQ s [Hw <-]. destruct (Hm s.(mwd) Hw) as [Hw' Ho]; [by apply Hp|].
  specialize (HQ _ s.(mwd) _ eq_refl eq_refl eq_refl Ho). unfold mlift.
  destruct (m s.(mwd)) as [r w']. done.
Qed.

Lemma wpm_pure {A} (m : ST W A) (Q : A -> mview -> Prop) v : pure_call m -> (forall r, Q r v) -> wpm (mlift m) Q v.
Proof.
  intros Hp HQ. eapply wpm_lift; [exact Hp|done|]. intros r w w' Hh Hl Hy (-> & -> & ->). rewrite Hh, Hl, Hy.
  destruct v. apply HQ.
Qed.

Lemma wpm_now Q v : (forall t, Q t v) -> wpm (mlift now_ns) Q v.
Proof. apply wpm_pure, now_law. Qed.

(** Posting an event; the worker has room or not. *)
Lemma wpm_post_event (Q : Z * Z -> mview -> Prop) v :
  (forall t, Q (0, t) (mk_mview v.(vm) v.(vh) v.(vl) (v.(vy) ++ [DidPostEvent 0 t]))) ->
  (forall ue t, ue <> 0 -> token_range t -> t ∉ v.(vl) ->
   Q (ue, t) (mk_mview v.(vm) v.(vh) ({[t]} ∪ v.(vl)) (v.(vy) ++ [DidPostEvent ue t]))) ->
  wpm (mlift PostEvent) Q v.
Proof.
  intros H0 H1. eapply wpm_lift; [exact post_event_law|done|]. intros [ue t] w w' Hh Hl Hy (-> & -> & H). rewrite Hh, Hy.
  simpl in *. case_decide as Hu; [destruct H as [-> _]|destruct H as (Hr & Ha & ->)]; rewrite Hl in *.
  - subst ue. apply H0.
  - by apply H1.
Qed.

Lemma wpm_acquire (Q : option Z -> mview -> Prop) v :
  Q None (mk_mview v.(vm) v.(vh) v.(vl) (v.(vy) ++ [DidAcquire None])) ->
  (forall j, j ∉ v.(vh) -> Q (Some j) (mk_mview v.(vm) ({[j]} ∪ v.(vh)) v.(vl) (v.(vy) ++ [DidAcquire (Some j)]))) ->
  wpm (mlift AcquireSendLane) Q v.
Proof.
  intros H0 H1. eapply wpm_lift; [exact acquire_law|done|]. intros [j|] w w' Hh Hl Hy (-> & -> & H); simpl in H.
  - destruct H as (_ & Hn & ->). rewrite Hh, Hl, Hy in *. auto.
  - by rewrite H, Hh, Hl, Hy.
Qed.

Lemma wpm_release j (Q : unit -> mview -> Prop) v :
  j ∈ v.(vh) -> Q tt (mk_mview v.(vm) (v.(vh) ∖ {[j]}) v.(vl) (v.(vy) ++ [DidRelease j])) ->
  wpm (mlift (ReleaseSendLane j)) Q v.
Proof.
  intros Hj HQ. eapply wpm_lift; [exact (release_law j)|intros w Hh _; simpl; by rewrite Hh|].
  intros [] w w' Hh Hl Hy (-> & -> & ->). by rewrite Hh, Hl, Hy.
Qed.

Lemma wpm_abort t (Q : unit -> mview -> Prop) v :
  token_range t -> Q tt (mk_mview v.(vm) v.(vh) (v.(vl) ∖ {[t]}) (v.(vy) ++ [DidAbort t])) ->
  wpm (mlift (AbortEvent t)) Q v.
Proof.
  intros Ht HQ. eapply wpm_lift; [exact (abort_law t)|done|]. intros [] w w' Hh Hl Hy (-> & -> & ->). by rewrite Hh, Hl, Hy.
Qed.

Lemma wpm_post_call d (Q : bool -> mview -> Prop) v :
  (forall ok, Q ok (mk_mview v.(vm) v.(vh) v.(vl) (v.(vy) ++ [DidPost d ok]))) -> wpm (mlift (PostWr d)) Q v.
Proof.
  intros HQ. eapply wpm_lift; [exact (post_wr_law d)|done|]. intros ok w w' Hh Hl Hy (-> & -> & ->). by rewrite Hh, Hl, Hy.
Qed.

Context (a : argument) (mch : machine) (client_data rva : Z) (peer_chip : option Z).

(** What a round leaves alone of the worker. *)
Record kept (w w' : mworker) : Prop := {
  k_id : w'.(m_id) = w.(m_id);
  k_off : w'.(m_off) = w.(m_off);
  k_ops : w'.(m_ops) = w.(m_ops);
  k_bytes : w'.(m_bytes) = w.(m_bytes);
  k_errors : w'.(m_errors) = w.(m_errors);
  k_fatal : w'.(fatal) = w.(fatal);
}.

Lemma kept_refl w : kept w w.
Proof. by constructor. Qed.

(** In the middle of a round: the lanes are [h], the events [l], the tally of the
    calls is [T], and the worker is [w] but for its histograms and generator. *)
Definition mid (w : mworker) (h l : gset Z) (T : tally) (v : mview) : Prop :=
  kept w v.(vm) /\ v.(vh) = h /\ v.(vl) = l /\ tally_of v.(vy) = T.

Lemma mid_upd w h l T f v :
  mid w h l T v -> (forall w', kept w w' -> kept w (f w')) -> mid w h l T (mk_mview (f v.(vm)) v.(vh) v.(vl) v.(vy)).
Proof. intros (Hk & Eh & El & Et) Hf. split; [by apply Hf|done]. Qed.

(** After a call. *)
Lemma mid_call w h l T h' l' k v :
  mid w h l T v -> mid w h' l' (round_note T k) (mk_mview v.(vm) h' l' (v.(vy) ++ [k])).
Proof. intros (Hk & _ & _ & Et). split; [done|]. split; [done|]. split; [done|]. simpl. by rewrite tally_snoc, Et. Qed.

Lemma mid_live w h l l' T v : mid w h l T v -> l = l' -> mid w h l' T v.
Proof. by intros ? <-. Qed.

Lemma wpm_record_post w h l T t0 (Q : unit -> mview -> Prop) v :
  mid w h l T v -> (forall v', mid w h l T v' -> Q tt v') -> wpm (m_record_post t0) Q v.
Proof.
  intros Hm HQ. apply wpm_bind, wpm_now. intros t. apply wpm_upd, HQ. apply mid_upd; [done|].
  by intros w' []; constructor.
Qed.

(** A wait consumes its event. *)
Lemma wpm_wait_record w h l T t t0 (Q : bool -> mview -> Prop) v :
  mid w h l T v -> token_range t ->
  (forall b v', mid w h (l ∖ {[t]}) (round_note T (DidWait t b)) v' -> Q b v') -> wpm (wait_record a t t0) Q v.
Proof.
  intros Hm Ht HQ. unfold wait_record. apply wpm_bind.
  eapply wpm_lift; [exact (wait_law t _)|done|]. intros b w0 w' Hh Hl Hy (-> & -> & -> & _).
  pose proof (mid_call _ _ _ _ h (l ∖ {[t]}) (DidWait t b) _ Hm) as Hm1. destruct Hm as (_ & Eh & El & _).
  rewrite Hh, Hl, Hy, Eh, El.
  apply wpm_bind, wpm_if; intros _; [|by apply wpm_ret, wpm_ret, HQ].
  apply wpm_bind, wpm_now. intros n. apply wpm_upd, wpm_ret, HQ.
  apply (mid_upd _ _ _ _ (fun w => set_m_hist_wr _ w) _ Hm1). by intros w1 []; constructor.
Qed.

(** The end of a round that began with lanes [h] and events [l], after [n]
    complete rounds and [f] failed waits: a round that returns 0 is one more
    complete round, and its lane is back unless one of its waits failed. *)
Record round_end (w : mworker) (h l : gset Z) (n f : nat) (rc : Z) (v : mview) : Prop := {
  re_kept : kept w v.(vm);
  re_rc : rc = 0 \/ rc = -1;
  re_live : v.(vl) = l;
  re_count : complete_rounds v.(vy) = (if rc =? 0 then S n else n);
  re_held : (failed_waits v.(vy) = f /\ v.(vh) = h) \/
            (rc = -1 /\ (f < failed_waits v.(vy))%nat /\ exists j, j ∉ h /\ v.(vh) = {[j]} ∪ h);
}.

Lemma release_end w h l T n f j rc v :
  mid w ({[j]} ∪ h) l T v -> j ∉ h -> rc = 0 \/ rc = -1 ->
  (round_note T (DidRelease j)).(r_count) = (if rc =? 0 then S n else n) -> T.(r_failed) = f ->
  wpm (mlift (ReleaseSendLane j)) (fun _ v' => wpm (mret rc) (round_end w h l n f) v') v.
Proof.
  intros (Hk & Eh & El & Et) Hj Hrc Hn Hf. apply wpm_release; [rewrite Eh; set_solver|]. apply wpm_ret.
  assert (Er : ({[j]} ∪ h) ∖ {[j]} = h) by set_solver.
  constructor; simpl; auto; unfold complete_rounds, failed_waits; rewrite tally_snoc, Et; [done|].
  left. by rewrite Eh.
Qed.

Lemma round_release w h l T n f j rc v :
  mid w ({[j]} ∪ h) l T v -> j ∉ h -> rc = 0 \/ rc = -1 ->
  (round_note T (DidRelease j)).(r_count) = (if rc =? 0 then S n else n) -> T.(r_failed) = f ->
  wpm (mlift (ReleaseSendLane j) ;; mret rc) (round_end w h l n f) v.
Proof. intros. apply wpm_bind. by eapply release_end. Qed.

Lemma round_quarantine w h l T n f j v :
  mid w ({[j]} ∪ h) l T v -> j ∉ h -> T.(r_count) = n -> (f < T.(r_failed))%nat ->
  wpm (mret (-1)) (round_end w h l n f) v.
Proof.
  intros (Hk & Eh & El & Et) Hj Hn Hf. apply wpm_ret. constructor; auto; unfold complete_rounds, failed_waits; rewrite Et; [done|].
  right. eauto.
Qed.

(** A round starts by acquiring a lane. *)
Lemma wpm_start w h l T (Q : option Z -> mview -> Prop) v :
  mid w h l T v ->
  (forall v', round_end w h l T.(r_count) T.(r_failed) (-1) v' -> Q None v') ->
  (forall j v', j ∉ h -> mid w ({[j]} ∪ h) l (mk_tally true 0 0 T.(r_count) T.(r_failed)) v' -> Q (Some j) v') ->
  wpm (mlift AcquireSendLane) Q v.
Proof.
  intros Hm H0 H1. pose proof Hm as (Hk & Eh & El & Et). apply wpm_acquire.
  - apply H0. constructor; simpl; auto; unfold complete_rounds, failed_waits; rewrite tally_snoc, Et; [done|by left].
  - intros j Hj. rewrite Eh in *. apply H1; [done|]. rewrite El. by apply (mid_call _ _ _ _ _ _ (DidAcquire (Some j)) _ Hm).
Qed.

(** The calls of a round. *)
Lemma wpm_event w h l T (Q : Z * Z -> mview -> Prop) v :
  mid w h l T v -> T.(r_good) = true ->
  (forall t v', mid w h l (round_note T (DidPostEvent 0 t)) v' -> Q (0, t) v') ->
  (forall ue t v', ue <> 0 -> token_range t -> t ∉ l -> mid w h ({[t]} ∪ l) T v' -> Q (ue, t) v') ->
  wpm (mlift PostEvent) Q v.
Proof.
  intros Hm Hg H0 H1. pose proof Hm as (_ & <- & <- & _). apply wpm_post_event.
  - intros t. apply H0. by eapply mid_call.
  - intros ue t Hue Ht Hn. apply H1; [done..|].
    pose proof (mid_call _ _ _ _ (vh v) ({[t]} ∪ vl v) (DidPostEvent ue t) _ Hm) as H. apply Z.eqb_neq in Hue.
    destruct T as [g p w0 c f]. simpl in *. subst g. rewrite Hue in H. exact H.
Qed.

Lemma wpm_post w h l T d (Q : bool -> mview -> Prop) v :
  mid w h l T v -> (forall ok v', mid w h l (round_note T (DidPost d ok)) v' -> Q ok v') -> wpm (mlift (PostWr d)) Q v.
Proof. intros Hm HQ. pose proof Hm as (_ & <- & <- & _). apply wpm_post_call. intros ok. apply HQ. by eapply mid_call. Qed.

Lemma wpm_give_up w h l T t (Q : unit -> mview -> Prop) v :
  mid w h l T v -> token_range t -> (forall v', mid w h (l ∖ {[t]}) (round_note T (DidAbort t)) v' -> Q tt v') ->
  wpm (mlift (AbortEvent t)) Q v.
Proof. intros Hm Ht HQ. pose proof Hm as (_ & <- & <- & _). apply wpm_abort; [done|]. apply HQ. by eapply mid_call. Qed.

Lemma wpm_do_get w h l T src dst v :
  mid w h l T v -> wpm (client_do_get a client_data rva src dst) (round_end w h l T.(r_count) T.(r_failed)) v.
Proof.
  intros Hm. unfold client_do_get. apply wpm_bind, wpm_gets, wpm_bind. eapply wpm_start; [exact Hm|by intros; apply wpm_ret|].
  intros j v1 Hj H1. apply wpm_bind. eapply wpm_event; [exact H1|done| |].
  { intros t v2 H2. eapply round_release; [exact H2|done|by right|done|done]. }
  intros ue t v2 Hue Ht Hn H2. rewrite decide_False by done. apply wpm_bind, wpm_now. intros n.
  destruct (mixed_read a client_data rva _) as [lo re]. apply wpm_bind. eapply wpm_post; [exact H2|]. intros ok v3 H3.
  apply wpm_if; intros Hok.
  - apply wpm_bind. eapply wpm_give_up; [exact H3|done|]. intros v4 H4. apply (mid_live _ _ _ l) in H4; [|set_solver].
    eapply round_release; [exact H4|done|by right|done|done].
  - apply negb_false_iff in Hok as ->. apply wpm_bind. eapply wpm_wait_record; [exact H3|done|]. intros b v4 H4.
    apply (mid_live _ _ _ l) in H4; [|set_solver].
    apply wpm_if; intros ->; [by eapply round_release; [exact H4|done|left|..]|].
    eapply round_quarantine; [exact H4|done|done|simpl; lia].
Qed.

(** Both events of a write round are posted; the tally after [p] posts. *)
Definition good (T : tally) (p : nat) : tally := mk_tally true p 0 T.(r_count) T.(r_failed).

Lemma wpm_write_finish w h l T j ta tb pa pb v :
  mid w ({[j]} ∪ h) ({[tb]} ∪ ({[ta]} ∪ l)) (good T 2) v -> j ∉ h -> ta ∉ l -> tb ∉ l -> token_range ta -> token_range tb ->
  wpm (write_finish a j ta tb pa pb) (round_end w h l T.(r_count) T.(r_failed)) v.
Proof.
  intros Hm Hj Ha Hb Hta Htb. unfold write_finish. apply wpm_bind. eapply wpm_wait_record; [exact Hm|done|].
  intros b1 v1 H1. apply wpm_bind. eapply wpm_wait_record; [exact H1|done|]. intros b2 v2 H2.
  apply (mid_live _ _ _ l) in H2; [|set_solver]. apply wpm_if; intros Hb12.
  - apply andb_true_iff in Hb12 as [-> ->]. eapply round_release; [exact H2|done|by left|done|done].
  - eapply round_quarantine; [exact H2|done|done|]. destruct b1, b2; simpl; try done; lia.
Qed.

Lemma wpm_write_second w h l T j src dst ta tb ub pa off v :
  mid w ({[j]} ∪ h) ({[tb]} ∪ ({[ta]} ∪ l)) (good T 1) v -> j ∉ h -> ta ∉ l -> tb ∉ l -> ta <> tb -> token_range ta -> token_range tb ->
  wpm (write_second a client_data rva j src dst ta tb ub pa off) (round_end w h l T.(r_count) T.(r_failed)) v.
Proof.
  intros Hm Hj Ha Hb Hab Hta Htb. unfold write_second. apply wpm_bind, wpm_now. intros pb. apply wpm_bind, wpm_now.
  intros pb_t0. destruct (mixed_write_b _ _ _ _) as [lo re]. apply wpm_bind. eapply wpm_post; [exact Hm|]. intros ok v0 H0.
  apply wpm_bind. eapply wpm_record_post; [exact H0|]. intros v1 H1. apply wpm_if; intros Hok;
    [apply negb_true_iff in Hok as ->|apply negb_false_iff in Hok as ->; by apply wpm_write_finish].
  apply wpm_bind. eapply wpm_give_up; [exact H1|done|]. intros v2 H2. apply (mid_live _ _ _ ({[ta]} ∪ l)) in H2; [|set_solver].
  apply wpm_bind. eapply wpm_wait_record; [exact H2|done|]. intros b v3 H3.
  apply (mid_live _ _ _ l) in H3; [|set_solver]. apply wpm_bind, wpm_if; intros ->.
  - eapply release_end; [exact H3|done|by right|done|done].
  - eapply wpm_ret, round_quarantine; [exact H3|done|done|simpl; lia].
Qed.

Lemma wpm_write_first w h l T j sa sb dst ta ua tb ub off v :
  mid w ({[j]} ∪ h) ({[tb]} ∪ ({[ta]} ∪ l)) (good T 0) v -> j ∉ h -> ta ∉ l -> tb ∉ l -> ta <> tb -> token_range ta -> token_range tb ->
  wpm (write_first a client_data rva j sa sb dst ta ua tb ub off) (round_end w h l T.(r_count) T.(r_failed)) v.
Proof.
  intros Hm Hj Ha Hb Hab Hta Htb. unfold write_first. apply wpm_bind, wpm_now. intros pa. apply wpm_bind, wpm_now.
  intros pa_t0. destruct (mixed_write_a _ _ _ _) as [lo re]. apply wpm_bind. eapply wpm_post; [exact Hm|]. intros ok v0 H0.
  apply wpm_bind. eapply wpm_record_post; [exact H0|]. intros v1 H1. apply wpm_if; intros Hok;
    [apply negb_true_iff in Hok as ->|apply negb_false_iff in Hok as ->; by apply wpm_write_second].
  apply wpm_bind. eapply wpm_give_up; [exact H1|done|]. intros v2 H2.
  apply wpm_bind. eapply wpm_give_up; [exact H2|done|]. intros v3 H3. apply (mid_live _ _ _ l) in H3; [|set_solver].
  eapply round_release; [exact H3|done|by right|done|done].
Qed.

Lemma wpm_do_write w h l T sa sb dst v :
  mid w h l T v -> wpm (client_do_write a client_data rva sa sb dst) (round_end w h l T.(r_count) T.(r_failed)) v.
Proof.
  intros Hm. unfold client_do_write. apply wpm_bind, wpm_gets, wpm_bind. eapply wpm_start; [exact Hm|by intros; apply wpm_ret|].
  intros j v1 Hj H1. apply wpm_bind. eapply wpm_event; [exact H1|done| |].
  { intros t v2 H2. eapply round_release; [exact H2|done|by right|done|done]. }
  intros ua ta v2 Hua Hta Hna H2. rewrite decide_False by done. apply wpm_bind. eapply wpm_event; [exact H2|done| |].
  { intros t v3 H3. simpl. apply wpm_bind. eapply wpm_give_up; [exact H3|done|]. intros v4 H4.
    apply (mid_live _ _ _ l) in H4; [|set_solver]. eapply round_release; [exact H4|done|by right|done|done]. }
  intros ub tb v3 Hub Htb Hnb H3. rewrite decide_False by done.
  apply wpm_write_first; [exact H3|done|done|set_solver|set_solver|done|done].
Qed.

(** ** Rounds and the loop *)

Lemma kept_trans w1 w2 w3 : kept w1 w2 -> kept w2 w3 -> kept w1 w3.
Proof. intros [] []. constructor; congruence. Qed.

Lemma wpm_do_round w h l T sa sb dst v :
  mid w h l T v -> wpm (do_round a client_data rva sa sb dst) (round_end w h l T.(r_count) T.(r_failed)) v.
Proof.
  intros Hm. unfold do_round. apply wpm_if; intros _; [by apply wpm_do_get|]. apply wpm_bind.
  assert (Hd : forall (Q : bool -> mview -> Prop), (forall b v', mid w h l T v' -> Q b v') -> wpm (draw_write a) Q v).
  { intros Q HQ s [Hw <-]. split; [done|]. apply HQ. apply (mid_upd w h l T (set_m_rng _) (view_of s)); [done|].
    by intros w' []; constructor. }
  apply Hd. intros b v1 H1. apply wpm_if; intros _; [by apply wpm_do_write|by apply wpm_do_get].
Qed.

(** The worker after [n] rounds from [w0]. *)
Record after_rounds (w0 : mworker) (n : nat) (w : mworker) : Prop := {
  ar_id : w.(m_id) = w0.(m_id);
  ar_off : w.(m_off) = Nat.iter n (mixed_off_next a) w0.(m_off);
  ar_ops : w.(m_ops) = u64 (w0.(m_ops) + Z.of_nat n);
  ar_bytes : w.(m_bytes) = u64 (w0.(m_bytes) + Z.of_nat n * round_bytes a);
}.

Lemma after_round w0 n w lat t :
  after_rounds w0 n w ->
  after_rounds w0 (S n) (set_next_post_ns t (set_m_off (mixed_off_next a (count_round lat (round_bytes a) w).(m_off))
                          (count_round lat (round_bytes a) w))).
Proof.
  intros [H1 H2 H3 H4]. constructor; simpl; auto.
  - by rewrite H2.
  - rewrite H3, (u64_unfold (m_ops w0 + Z.of_nat n)). set (q := _ / _). apply u64_cong with (k := - q). lia.
  - rewrite H4, (u64_unfold (m_bytes w0 + _)). set (q := _ / _). apply u64_cong with (k := - q). lia.
Qed.

(** Between rounds, of which [n] are complete, as the record of calls tells
    ([c0] were complete and [f0] waits had failed at the start). *)
Definition between (w0 : mworker) (h l : gset Z) (c0 f0 n : nat) (v : mview) : Prop :=
  after_rounds w0 n v.(vm) /\ v.(vm).(m_errors) = w0.(m_errors) /\ v.(vm).(fatal) = w0.(fatal) /\
  v.(vh) = h /\ v.(vl) = l /\ complete_rounds v.(vy) = (c0 + n)%nat /\ failed_waits v.(vy) = f0.

(** After the round that failed: one error, and its lane is kept exactly when
    one of its waits failed. *)
Definition failed (w0 : mworker) (h l : gset Z) (c0 f0 n : nat) (v : mview) : Prop :=
  after_rounds w0 n v.(vm) /\ v.(vm).(m_errors) = w0.(m_errors) +u64 1 /\ v.(vm).(fatal) = true /\
  v.(vl) = l /\ complete_rounds v.(vy) = (c0 + n)%nat /\
  ((failed_waits v.(vy) = f0 /\ v.(vh) = h) \/
   ((f0 < failed_waits v.(vy))%nat /\ exists j, j ∉ h /\ v.(vh) = {[j]} ∪ h)).

Lemma wpm_m_pace interval now (Q : unit -> mview -> Prop) v : Q tt v -> wpm (m_pace interval now) Q v.
Proof.
  intros HQ. unfold m_pace. apply wpm_bind, wpm_gets. apply wpm_if; intros _; [|by apply wpm_ret].
  assert (Hs : wpm (mlift (spin_until (next_post_ns (vm v)))) Q v) by (apply wpm_pure; [apply spin_law|by intros []]).
  apply wpm_bind, wpm_if; intros _; [|by apply wpm_ret]. by apply wpm_pure; [apply sleep_pure|].
Qed.

Lemma wpm_round_chips w h l T (Q : Z * Z * Z -> mview -> Prop) v :
  mid w h l T v -> (forall c v', mid w h l T v' -> Q c v') -> wpm (round_chips a mch peer_chip) Q v.
Proof.
  intros Hm HQ s [Hw <-]. unfold round_chips.
  destruct (default _ (pick_round_chips _ _ _ _ _)) as [[[sa sb] dst] rng]. split; [done|]. apply HQ.
  apply (mid_upd w h l T (set_m_rng rng) (view_of s)); [done|]. by intros w' []; constructor.
Qed.

Lemma wpm_mixed_round w0 h l c0 f0 n interval (Q : bool -> mview -> Prop) v :
  between w0 h l c0 f0 n v -> (forall v', between w0 h l c0 f0 (S n) v' -> Q true v') ->
  (forall v', failed w0 h l c0 f0 n v' -> Q false v') ->
  wpm (mixed_round a mch client_data rva peer_chip interval) Q v.
Proof.
  intros (Ha & He & Hf & Eh & El & Ec & Ef) HT HF. unfold mixed_round. apply wpm_bind, wpm_now. intros now.
  apply wpm_bind, wpm_m_pace, wpm_bind.
  assert (Hm : mid (vm v) h l (tally_of v.(vy)) v) by (split; [apply kept_refl|done]).
  eapply wpm_round_chips; [exact Hm|]. intros [[sa sb] dst] v1 H1. apply wpm_bind, wpm_now. intros t0. apply wpm_bind.
  intros s Hs. destruct (wpm_do_round _ _ _ _ sa sb dst _ H1 s Hs) as [Hw2 [Hk Hrc Hl2 Hc2 Hh2]].
  change (r_count _) with (complete_rounds v.(vy)) in Hc2. change (r_failed _) with (failed_waits v.(vy)) in Hh2.
  rewrite Ec in Hc2. rewrite Ef in Hh2.
  destruct (do_round a client_data rva sa sb dst s) as [rc s2]. simpl in *. split; [done|].
  assert (Ha2 : after_rounds w0 n s2.(mw)).
  { destruct Ha, Hk. constructor; congruence. }
  apply wpm_bind, wpm_now. intros t1. apply wpm_if; intros Hz; rewrite Hz in Hc2.
  - apply Z.eqb_eq in Hz. assert (Hheld : failed_waits (history (mwd s2)) = f0 /\ held (mwd s2) = h) by (destruct Hh2 as [?|[? _]]; [done|lia]).
    destruct Hheld as [Hfw Hheld].
    apply wpm_bind, wpm_upd, wpm_bind, wpm_upd, wpm_bind, wpm_upd, wpm_ret, HT.
    split; [by apply after_round|]. destruct Hk. simpl in *. split; [congruence|]. split; [congruence|].
    split; [done|]. split; [done|]. split; [lia|done].
  - apply wpm_bind, wpm_upd, wpm_ret, HF. destruct Hk. split; [destruct Ha2; by constructor|]. simpl in *.
    split; [by f_equal; f_equal; congruence|]. split; [done|]. split; [done|]. split; [done|].
    destruct Hh2 as [?|[_ ?]]; [by left|by right].
Qed.

Lemma wpm_mixed_loop w0 h l c0 f0 interval deadline fuel : forall n (Q : bool -> mview -> Prop) v,
  between w0 h l c0 f0 n v -> (forall v', Q false v') ->
  (forall n' v', between w0 h l c0 f0 n' v' \/ failed w0 h l c0 f0 n' v' -> Q true v') ->
  wpm (mixed_loop a mch client_data rva peer_chip fuel interval deadline) Q v.
Proof.
  induction fuel as [|fuel IH]; intros n Q v Hb HN HQ; cbn [mixed_loop]; [by apply wpm_ret|].
  apply wpm_bind, wpm_pure; [apply stopped_law|]. intros stop. apply wpm_bind.
  assert (Hgo : forall go, wpm (if negb go then mret true else
    more ← mixed_round a mch client_data rva peer_chip interval;
    if (more : bool) then mixed_loop a mch client_data rva peer_chip fuel interval deadline else mret true) Q v).
  { intros go. apply wpm_if; intros _; [apply wpm_ret, (HQ n); by left|]. apply wpm_bind.
    eapply wpm_mixed_round; [exact Hb| |].
    - intros v1 H1. by apply (IH (S n)).
    - intros v1 H1. apply wpm_ret, (HQ n). by right. }
  apply wpm_if; intros _; [apply wpm_ret, Hgo|]. apply wpm_bind, wpm_now. intros t. apply wpm_ret, Hgo.
Qed.

End rules.

(** ** Time *)

Section time.
Context {W : Type} `{HM : Manager W} {HL : ManagerLaws W} {HC : ManagerClock W}.
Context (a : argument) (mch : machine) (client_data rva : Z) (peer_chip : option Z).

Definition passes {A} (m : ST (@mst W) A) : Prop :=
  forall d, shrinks (fun s => budget d s.(mwd)) m.

Lemma passes_ret {A} (r : A) : passes (mret r).
Proof. intros d. apply shrinks_ret. Qed.

Lemma passes_bind {A B} (m : ST (@mst W) A) (f : A -> ST (@mst W) B) :
  passes m -> (forall r, passes (f r)) -> passes (m ≫= f).
Proof. intros Hm Hf d. apply shrinks_bind; [apply Hm|]. intros r. apply Hf. Qed.

Lemma passes_upd f : passes (mupd f).
Proof. intros d s. apply Nat.le_refl. Qed.

Lemma passes_gets {A} (f : mworker -> A) : passes (mgets f).
Proof. intros d s. apply Nat.le_refl. Qed.

Lemma passes_lift {A} (m : ST W A) : time_passes m -> passes (mlift m).
Proof. intros Hm d s. specialize (Hm d s.(mwd)). unfold mlift. by destruct (m s.(mwd)). Qed.

Lemma passes_sleep ns : passes (mlift (sleep_ns ns)).
Proof. apply passes_lift. unfold sleep_ns. destruct (_ && _); [apply nanosleep_time|]. intros d w. apply Nat.le_refl. Qed.

Lemma passes_chips : passes (round_chips a mch peer_chip).
Proof. intros d s. unfold round_chips. by destruct (default _ _) as [[[]]]. Qed.

Lemma passes_draw : passes (draw_write a).
Proof. intros d s. apply Nat.le_refl. Qed.

Create HintDb passes.
#[local] Hint Resolve passes_ret passes_upd passes_gets passes_lift passes_sleep passes_chips passes_draw acquire_time
  release_time post_event_time wait_time abort_time post_wr_time now_time spin_time stopped_time : passes.

Ltac passes_tac :=
  repeat (intros; first
    [ solve [eauto 3 with passes]
    | apply passes_bind; [|intros]
    | match goal with
      | |- passes (if ?b then _ else _) => destruct b
      | |- passes (match ?x with _ => _ end) => destruct x
      end ]).

Lemma passes_do_round sa sb dst : passes (do_round a client_data rva sa sb dst).
Proof.
  unfold do_round, client_do_get, client_do_write, write_first, write_second, write_finish, wait_record, m_record_wr,
    m_record_post. passes_tac.
Qed.
#[local] Hint Resolve passes_do_round : passes.

Lemma passes_round interval : passes (mixed_round a mch client_data rva peer_chip interval).
Proof. unfold mixed_round, m_pace. passes_tac. Qed.

(** The loop ends when the readings before the deadline are used up. *)
Lemma mixed_loop_ends interval deadline fuel : deadline < 2 ^ 64 -> forall s,
  (budget deadline s.(mwd) < fuel)%nat ->
  fst (mixed_loop a mch client_data rva peer_chip fuel interval deadline s) = true.
Proof.
  intros Hd. induction fuel as [|fuel IH]; intros s Hb; [lia|]. cbn [mixed_loop].
  unfold mbind, ST_bind, mlift at 1. pose proof (stopped_time deadline s.(mwd)) as Hst.
  destruct (stopped s.(mwd)) as [stop w1]. cbn [fst snd] in Hst. destruct stop; [done|]. unfold mlift at 1. cbn [mwd mw].
  pose proof (now_time deadline w1) as Hnt. pose proof (now_budget deadline w1 Hd) as Hnb.
  destruct (now_ns w1) as [n w2]. cbn [fst snd] in Hnt, Hnb. unfold mret, ST_ret.
  destruct (Z.ltb_spec n deadline) as [Hlt|Hge]; [|done]. cbn [negb]. specialize (Hnb Hlt).
  pose proof (passes_round interval deadline (mk_mst s.(mw) w2)) as Hp.
  destruct (mixed_round _ _ _ _ _ _ _) as [[|] s3]; [|done]. apply IH. cbn [mwd snd] in Hp. lia.
Qed.

End time.

(** ** Theorems *)

Section theorems.
Context {W : Type} `{HM : Manager W} {HL : ManagerLaws W}.
Context (a : argument) (mch : machine) (client_data rva : Z) (peer_chip : option Z).

(** The state at the end of a worker that did [n] rounds. *)
Record mixed_accounts (s s' : @mst W) (n : nat) : Prop := {
  ma_off : s'.(mw).(m_off) = mixed_off a s.(mw).(m_id) n;
  ma_ops : s'.(mw).(m_ops) = u64 (s.(mw).(m_ops) + Z.of_nat n);
  ma_bytes : s'.(mw).(m_bytes) = u64 (s.(mw).(m_bytes) + Z.of_nat n * round_bytes a);
  ma_live : live s'.(mwd) = live s.(mwd);
  ma_good : s'.(mw).(fatal) = false ->
    s'.(mw).(m_errors) = s.(mw).(m_errors) /\ held s'.(mwd) = held s.(mwd) /\ failed_waits (history s'.(mwd)) = 0%nat;
  ma_bad : s'.(mw).(fatal) = true ->
    s'.(mw).(m_errors) = s.(mw).(m_errors) +u64 1 /\
    if decide (failed_waits (history s'.(mwd)) = 0%nat) then held s'.(mwd) = held s.(mwd)
    else exists j, j ∉ held s.(mwd) /\ held s'.(mwd) = {[j]} ∪ held s.(mwd);
}.

(** C30: a mixed-mode worker counts exactly the rounds it completed.  When its
    loop has ended, no event of any round is live, and [ops], [bytes] and the
    offset are those of [n] rounds, where [n] is the number of complete rounds
    in the record of its calls: a lane was acquired, work requests were posted
    on it, each of them completed, and the lane was given back.  Without a
    failure [errors] is unchanged and every lane is back; the first failure
    ends the loop and is counted once, and the lane of that round is kept
    exactly when one of its waits failed. *)
Theorem mixed_worker_accounts fuel s s' :
  world_ok s.(mwd) -> s.(mw).(fatal) = false -> is_u64 s.(mw).(m_ops) -> is_u64 s.(mw).(m_bytes) ->
  history s.(mwd) = [] ->
  mixed_worker_main a mch client_data rva peer_chip fuel s = (true, s') ->
  mixed_accounts s s' (complete_rounds (history s'.(mwd))).
Proof.
  intros Hw Hf Ho Hb Hy E. set (w0 := s.(mw)) in *. set (off := mixed_off0 a w0.(m_id)).
  assert (H : wpm (mixed_worker_main a mch client_data rva peer_chip fuel) (fun r v => r = true -> exists n,
    between a (set_m_off off w0) (held s.(mwd)) (live s.(mwd)) 0 0 n v \/ failed a (set_m_off off w0) (held s.(mwd)) (live s.(mwd)) 0 0 n v)
    (view_of s)).
  { unfold mixed_worker_main. apply wpm_bind, wpm_now. intros n. apply wpm_bind, wpm_now. intros n1.
    apply wpm_bind, wpm_upd, wpm_bind, wpm_upd. eapply (wpm_mixed_loop _ _ _ _ _ _ _ _ _ _ _ _ _ 0); [|done|eauto].
    split; [|split_and!; try done; simpl; by rewrite Hy].
    constructor; simpl; [done|done|by rewrite Z.add_0_r, u64_small|by rewrite Z.add_0_r, u64_small]. }
  destruct (H s (conj Hw eq_refl)) as [_ HQ]. rewrite E in HQ. destruct (HQ eq_refl) as (n & HR).
  destruct HR as [([A1 A2 A3 A4] & He & Hfa & Hh & Hl & Hc & Hfw)|([A1 A2 A3 A4] & He & Hfa & Hl & Hc & Hh)]; simpl in *; rewrite Hc.
  - constructor; auto. intros Ht. congruence.
  - constructor; auto; [intros Ht; congruence|]. intros _. split; [done|].
    destruct Hh as [[-> ?]|[Hlt ?]]; [by rewrite decide_True|rewrite decide_False by lia; done].
Qed.

(** The deadline of a worker whose first reading of the clock is [n]. *)
Definition mixed_deadline (n : Z) : Z := n +u64 (a.(duration_sec) *u64 1000000000).

(** a mixed-mode worker stops.  The deadline is [--duration] seconds after
    the first reading of the clock; when at most [budget] further readings are
    before it, so many passes and one more are enough. *)
Theorem mixed_worker_stops {HC : ManagerClock W} fuel s n w1 :
  now_ns s.(mwd) = (n, w1) ->
  (budget (mixed_deadline n) w1 < fuel)%nat ->
  fst (mixed_worker_main a mch client_data rva peer_chip fuel s) = true.
Proof.
  intros E Hb. unfold mixed_worker_main, mbind, ST_bind, mlift. rewrite E. cbn [mwd mw].
  fold (mixed_deadline n). set (deadline := mixed_deadline n) in *. pose proof (now_time deadline w1) as Ht. destruct (now_ns w1) as [n1 w2].
  cbn [fst snd] in Ht. unfold mupd. cbn [mw mwd]. apply mixed_loop_ends; [apply u64_range|]. cbn [mwd]. lia.
Qed.

End theorems.

(** ** Witnesses *)

Definition demo_mix : argument := set_concurrency 2 demo_mixed.

Definition demo_mst (answers : list bool) (n : nat) : @mst world :=
  mk_mst (mk_mworker 1 7 0 demo_hist demo_hist demo_hist 3 0 0 0 false)
    (demo_world demo_lanes answers (replicate n (all_done 10))).

Lemma demo_mixed_run : fst (mixed_worker_main demo_mix demo_machine 4096 8192 None 41 (demo_mst [] 40)) = true.
Proof. vm_compute. reflexivity. Qed.

Lemma mixed_worker_accounts_witness :
  let s' := snd (mixed_worker_main demo_mix demo_machine 4096 8192 None 41 (demo_mst [] 40)) in
  complete_rounds (history s'.(mwd)) = 3%nat /\
  mixed_accounts demo_mix (demo_mst [] 40) s' (complete_rounds (history s'.(mwd))).
Proof.
  split; [vm_compute; reflexivity|].
  exact (mixed_worker_accounts demo_mix demo_machine 4096 8192 None 41 (demo_mst [] 40) _ (demo_world_ok [] 40) eq_refl
    ltac:(unfold is_u64; simpl; lia) ltac:(unfold is_u64; simpl; lia) eq_refl (run_pair _ _ demo_mixed_run)).
Defined.

Lemma demo_first_reading : fst (now_ns (W := world) (demo_mst [true; false] 40).(mwd)) = 10.
Proof. vm_compute. reflexivity. Qed.

Lemma mixed_worker_stops_witness :
  fst (mixed_worker_main demo_mix demo_machine 4096 8192 (Some 1) 41 (demo_mst [true; false] 40)) = true.
Proof.
  apply (mixed_worker_stops (W := world) demo_mix demo_machine 4096 8192 (Some 1) 41 (demo_mst [true; false] 40) 10 _
    (run_pair _ _ demo_first_reading)).
  apply Nat.ltb_lt. vm_compute. reflexivity.
Defined.
