(* ===== verification/Liburma.v ===== *)
(** * Liburma: the calls of liburma that the program makes

    liburma is not part of the repository.  What it answers is a parameter
    ([Liburma]): [answer] gives the result of a call after a history of calls
    (an address or 0 for a call that creates, a status with 0 for success for
    the others), the other members read the structures behind a handle.  The
    structures that the program fills in for a call are records with the
    members it sets.

    Every call is recorded.  [audit] replays a history and keeps the live
    handles with the handles they were made from; it rejects a call on a dead
    handle, a second delete, and the delete of a handle that a live one was
    made from.

    Objects behind [std::shared_ptr] live in one heap per class with their
    reference counts ([cell]); the destructor runs when the count reaches 0. *)

From S2P Require Import Prelude.
From Stdlib Require Import String.
From stdpp Require Import list strings.
#[local] Open Scope Z_scope.
#[local] Open Scope list_scope.

(** ** Values of the interface *)

Inductive urma_transport_mode := URMA_TM_RM | URMA_TM_RC | URMA_TM_UM.
Inductive urma_tp_type := URMA_RTP | URMA_CTP.
Inductive urma_target_type := URMA_JETTY.
Inductive urma_tag_matching := URMA_NO_TAG_MATCHING.
Inductive urma_rnr := URMA_TYPICAL_MIN_RNR_TIMER | URMA_TYPICAL_RNR_RETRY.
Inductive urma_token_policy := URMA_TOKEN_NONE.
Inductive urma_cacheable := URMA_CACHEABLE | URMA_NON_CACHEABLE.
Inductive urma_access := URMA_ACCESS_READ | URMA_ACCESS_WRITE | URMA_ACCESS_ATOMIC.
Inductive urma_mapping := URMA_SEG_NOMAP.
Inductive urma_opcode := URMA_OPC_WRITE | URMA_OPC_READ.

(** [urma_eid_t] and [urma_jetty_id_t] are the bytes they consist of. *)
Definition urma_eid := list Z.
Definition urma_jetty_id := list Z.

Record urma_device_attr := mk_dev_attr { max_jfc_depth : Z; max_write_size : Z }.

Record urma_jfc_cfg := mk_jfc_cfg { jfc_depth : Z; jfc_jfce : Z; jfc_user_ctx : Z }.

Record urma_jfr_cfg := mk_jfr_cfg {
  jfr_depth : Z;
  jfr_tag_matching : urma_tag_matching;
  jfr_order_type : Z;
  jfr_trans_mode : urma_transport_mode;
  jfr_min_rnr_timer : urma_rnr;
  jfr_jfc : Z;
  jfr_token_value : Z;
  jfr_id : Z;
  jfr_max_sge : Z;
  jfr_user_ctx : Z;
}.

Record urma_jfs_cfg := mk_jfs_cfg {
  jfs_depth : Z;
  jfs_order_type : Z;
  jfs_multi_path : Z;
  jfs_trans_mode : urma_transport_mode;
  jfs_priority : Z;
  jfs_max_sge : Z;
  jfs_max_inline_data : Z;
  jfs_rnr_retry : urma_rnr;
  jfs_err_timeout : Z;
  jfs_jfc : Z;
  jfs_user_ctx : Z;
}.

Record urma_jetty_cfg := mk_jetty_cfg {
  jt_share_jfr : Z;
  jt_jfs_cfg : urma_jfs_cfg;
  jt_shared_jfr : Z;
  jt_shared_jfc : Z;
  jt_user_ctx : Z;
}.

(** [urma_rjetty_t], alone or as the base of a [bondp_rjetty_t] whose [jetty]
    is null. *)
Record urma_rjetty := mk_rjetty {
  rj_jetty_id : urma_jetty_id;
  rj_trans_mode : urma_transport_mode;
  rj_type : urma_target_type;
  rj_tp_type : urma_tp_type;
  rj_order_type : Z;
  rj_share_tp : Z;
  rj_has_drv_ext : Z;
}.

Record urma_reg_seg_flag := mk_reg_flag {
  rf_token_policy : urma_token_policy;
  rf_cacheable : urma_cacheable;
  rf_access : list urma_access;
  rf_token_id_valid : Z;
  rf_reserved : Z;
}.

Record urma_seg_cfg := mk_seg_cfg {
  sc_va : Z;
  sc_len : Z;
  sc_token_id : Z;
  sc_token_value : Z;
  sc_flag : urma_reg_seg_flag;
  sc_user_ctx : Z;
  sc_iova : Z;
}.

Record urma_import_seg_flag := mk_import_flag {
  if_cacheable : urma_cacheable;
  if_access : list urma_access;
  if_mapping : urma_mapping;
  if_reserved : Z;
}.

(** [urma_seg_t]: [ubva] is [eid], [uasid] and [va]. *)
Record urma_seg := mk_seg {
  ubva_eid : urma_eid;
  ubva_uasid : Z;
  ubva_va : Z;
  seg_length : Z;
  seg_attr : Z;
  seg_token : Z;
}.

Record urma_sge := mk_sge { sge_addr : Z; sge_len : Z; sge_tseg : Z; sge_user_tseg : Z }.

(** [bondp_jfs_wr_t]: the base work request and the chips. *)
Record bondp_jfs_wr := mk_bondp_wr {
  bw_opcode : urma_opcode;
  bw_complete_enable : Z;
  bw_inline_flag : Z;
  bw_fence : Z;
  bw_has_drv_ext : Z;
  bw_tjetty : Z;
  bw_user_ctx : Z;
  bw_src : list urma_sge;
  bw_dst : list urma_sge;
  bw_next : Z;
  bw_src_chip_id : Z;
  bw_dst_chip_id : Z;
}.

(** ** Calls *)

Inductive lib_call :=
| urma_init (uasid : Z)
| urma_uninit
| urma_get_device_by_name (name : string)
| urma_get_eid_list (dev : Z)
| urma_free_eid_list (l : Z)
| urma_query_device (dev : Z)
| urma_create_context (dev eidIndex : Z)
| urma_delete_context (ctx : Z)
| urma_user_ctl (ctx : Z)
| urma_create_jfce (ctx : Z)
| urma_delete_jfce (jfce : Z)
| urma_create_jfc (ctx : Z) (cfg : urma_jfc_cfg)
| urma_delete_jfc (jfc : Z)
| urma_rearm_jfc (jfc : Z) (solicited_only : bool)
| urma_create_jfr (ctx : Z) (cfg : urma_jfr_cfg)
| urma_delete_jfr (jfr : Z)
| urma_create_jetty (ctx : Z) (cfg : urma_jetty_cfg)
| urma_delete_jetty (jetty : Z)
| urma_import_jetty (ctx : Z) (rjetty : urma_rjetty) (token : Z)
| urma_unimport_jetty (tjetty : Z)
| urma_bind_jetty (jetty tjetty : Z)
| urma_register_seg (ctx : Z) (cfg : urma_seg_cfg)
| urma_unregister_seg (seg : Z)
| urma_import_seg (ctx : Z) (seg : urma_seg) (token addr : Z) (flag : urma_import_seg_flag)
| urma_unimport_seg (seg : Z)
| urma_post_jetty_send_wr (jetty : Z) (wr : bondp_jfs_wr).

Definition lib_event : Type := lib_call * Z.

Definition URMA_SUCCESS : Z := 0.

(** What the library answers and the members of its structures that the
    program reads.  [sizeof_*] are the sizes of its plain-data types. *)
Class Liburma := {
  answer : list lib_event -> lib_call -> Z;
  device_name : Z -> string;
  device_attr : list lib_event -> Z -> urma_device_attr;
  eid_list_len : list lib_event -> Z -> Z;     (* the count next to an eid list *)
  eid_list_index : list lib_event -> Z -> nat -> Z;  (* [eidList[i].eid_index] *)
  ctx_eid : list lib_event -> Z -> urma_eid;
  ctx_uasid : list lib_event -> Z -> Z;
  jetty_id_of : list lib_event -> Z -> urma_jetty_id;
  jetty_id_id : urma_jetty_id -> Z;            (* member [id] of a jetty id *)
  tseg_seg : list lib_event -> Z -> urma_seg;  (* member [seg] of a target segment *)
  sizeof_eid : nat;
  sizeof_jetty_id : nat;
  URMA_EINVAL : Z;
}.

(** ** Handles and their dependencies *)

Inductive kind := KContext | KJfce | KJfc | KJfr | KJetty | KTarget | KSeg | KRemote.

#[export] Instance kind_eq_dec : EqDecision kind.
Proof. solve_decision. Defined.

Abbreviation live_map := (gmap Z (kind * list Z)).

(** A call that makes a handle: its kind and the handles it is made from. *)
Definition created (c : lib_call) : option (kind * list Z) :=
  match c with
  | urma_create_context _ _ => Some (KContext, [])
  | urma_create_jfce ctx => Some (KJfce, [ctx])
  | urma_create_jfc ctx cfg =>
      Some (KJfc, ctx :: (if cfg.(jfc_jfce) =? 0 then [] else [cfg.(jfc_jfce)]))
  | urma_create_jfr ctx cfg => Some (KJfr, [ctx; cfg.(jfr_jfc)])
  | urma_create_jetty ctx cfg =>
      Some (KJetty, [ctx; cfg.(jt_jfs_cfg).(jfs_jfc); cfg.(jt_shared_jfc); cfg.(jt_shared_jfr)])
  | urma_import_jetty ctx _ _ => Some (KTarget, [ctx])
  | urma_register_seg ctx _ => Some (KSeg, [ctx])
  | urma_import_seg ctx _ _ _ _ => Some (KRemote, [ctx])
  | _ => None
  end.

(** A call that deletes a handle. *)
Definition deleted (c : lib_call) : option (kind * Z) :=
  match c with
  | urma_delete_context h => Some (KContext, h)
  | urma_delete_jfce h => Some (KJfce, h)
  | urma_delete_jfc h => Some (KJfc, h)
  | urma_delete_jfr h => Some (KJfr, h)
  | urma_delete_jetty h => Some (KJetty, h)
  | urma_unimport_jetty h => Some (KTarget, h)
  | urma_unregister_seg h => Some (KSeg, h)
  | urma_unimport_seg h => Some (KRemote, h)
  | _ => None
  end.

(** The handles, with their kinds, that any other call is given. *)
Definition touches (c : lib_call) : list (Z * kind) :=
  match c with
  | urma_user_ctl ctx => [(ctx, KContext)]
  | urma_rearm_jfc jfc _ => [(jfc, KJfc)]
  | urma_bind_jetty j t => [(j, KJetty); (t, KTarget)]
  | urma_post_jetty_send_wr j wr =>
      (j, KJetty) :: (wr.(bw_tjetty), KTarget) ::
      match wr.(bw_opcode) with
      | URMA_OPC_WRITE => ((fun s => (s.(sge_tseg), KSeg)) <$> wr.(bw_src)) ++
                          ((fun s => (s.(sge_tseg), KRemote)) <$> wr.(bw_dst))
      | URMA_OPC_READ => ((fun s => (s.(sge_tseg), KRemote)) <$> wr.(bw_src)) ++
                         ((fun s => (s.(sge_tseg), KSeg)) <$> wr.(bw_dst))
      end
  | _ => []
  end.

(** ** The audit of a history *)

Definition is_live (m : live_map) (h : Z) : bool := bool_decide (is_Some (m !! h)).

Definition has_kind (m : live_map) (hk : Z * kind) : bool :=
  match (m !! fst hk : option (kind * list Z)) with
  | Some (k, _) => bool_decide (k = snd hk) | None => false end.

Definition childless (m : live_map) (h : Z) : Prop := map_Forall (fun _ r => h ∉ snd r) m.

#[export] Instance childless_dec m h : Decision (childless m h).
Proof. unfold childless. apply _. Defined.

Definition audit_step (m : live_map) (e : lib_event) : option live_map :=
  match created (fst e) with
  | Some (k, deps) =>
      if forallb (is_live m) deps then
        if snd e =? 0 then Some m
        else if is_live m (snd e) then None else Some (<[snd e := (k, deps)]> m)
      else None
  | None =>
      match deleted (fst e) with
      | Some (k, h) =>
          if has_kind m (h, k) && bool_decide (childless m h) then Some (delete h m) else None
      | None => if forallb (has_kind m) (touches (fst e)) then Some m else None
      end
  end.

Fixpoint audit_from (m : live_map) (tr : list lib_event) : option live_map :=
  match tr with
  | [] => Some m
  | e :: tr => m' ← audit_step m e; audit_from m' tr
  end.

Definition audit (tr : list lib_event) : option live_map := audit_from ∅ tr.

Lemma audit_from_app tr1 : forall m tr2,
  audit_from m (tr1 ++ tr2) = audit_from m tr1 ≫= fun m' => audit_from m' tr2.
Proof. induction tr1 as [|e tr1 IH]; intros m tr2; [done|]. simpl. by destruct (audit_step m e); simpl. Qed.

Lemma audit_snoc tr e m : audit tr = Some m -> audit (tr ++ [e]) = audit_step m e.
Proof.
  intros H. unfold audit in *. rewrite audit_from_app, H. simpl. by destruct (audit_step m e).
Qed.

(** An address that a create call returns is not that of a live handle, as for
    any allocator. *)
Definition fresh_handles `{Liburma} : Prop := forall tr m c r,
  audit tr = Some m -> created c = Some r -> answer tr c <> 0 -> m !! answer tr c = None.

(** ** The process: history and shared objects *)

Record cell (A : Type) := mk_cell { refs : nat; obj : A }.
Arguments mk_cell {A}.
Arguments refs {A}.
Arguments obj {A}.

(** Locations of shared objects; 0 is the empty [shared_ptr].  A [UrmaJetty]
    has its handle and the location of its [UrmaJfr]; the other objects have a
    handle. *)
Record sys := mk_sys {
  trace : list lib_event;
  jfrs : gmap Z (cell Z);
  jetty_objs : gmap Z (cell (Z * Z));
  lsegs : gmap Z (cell Z);
  rsegs : gmap Z (cell Z);
  next_loc : Z;
}.

Definition empty_sys : sys := mk_sys [] ∅ ∅ ∅ ∅ 1.

Definition with_trace (tr : list lib_event) (s : sys) : sys :=
  mk_sys tr s.(jfrs) s.(jetty_objs) s.(lsegs) s.(rsegs) s.(next_loc).
Definition with_jfrs (h : gmap Z (cell Z)) (s : sys) : sys :=
  mk_sys s.(trace) h s.(jetty_objs) s.(lsegs) s.(rsegs) s.(next_loc).
Definition with_jettys (h : gmap Z (cell (Z * Z))) (s : sys) : sys :=
  mk_sys s.(trace) s.(jfrs) h s.(lsegs) s.(rsegs) s.(next_loc).
Definition with_lsegs (h : gmap Z (cell Z)) (s : sys) : sys :=
  mk_sys s.(trace) s.(jfrs) s.(jetty_objs) h s.(rsegs) s.(next_loc).
Definition with_rsegs (h : gmap Z (cell Z)) (s : sys) : sys :=
  mk_sys s.(trace) s.(jfrs) s.(jetty_objs) s.(lsegs) h s.(next_loc).
Definition with_next (n : Z) (s : sys) : sys :=
  mk_sys s.(trace) s.(jfrs) s.(jetty_objs) s.(lsegs) s.(rsegs) n.

(** A call of the library. *)
Definition call `{Liburma} (c : lib_call) : ST sys Z := fun s =>
  let r := answer s.(trace) c in (r, with_trace (s.(trace) ++ [(c, r)]) s).

(** A member read from a structure of the library. *)
Definition peek `{Liburma} {A} (f : list lib_event -> A) : ST sys A := fun s => (f s.(trace), s).

(** ** Reference counts *)

Section Heap.
Context {A : Type}.
Implicit Types (h : gmap Z (cell A)) (l : Z).

(** Copy of a [shared_ptr]. *)
Definition incref (l : Z) (h : gmap Z (cell A)) : gmap Z (cell A) :=
  alter (fun c => mk_cell (S c.(refs)) c.(obj)) l h.

(** End of a [shared_ptr]: the object whose destructor has to run, if any. *)
Definition decref (l : Z) (h : gmap Z (cell A)) : option A * gmap Z (cell A) :=
  match (h !! l : option (cell A)) with
  | None => (None, h)
  | Some c =>
      match c.(refs) with
      | O | S O => (Some c.(obj), delete l h)
      | S n => (None, <[l := mk_cell n c.(obj)]> h)
      end
  end.

(** The counts are those of a list of owners. *)
Definition count (l : Z) (owners : list Z) : nat := length (filter (fun x => x = l) owners).

Record refs_ok (h : gmap Z (cell A)) (owners : list Z) : Prop := {
  ro_count : forall l c, h !! l = Some c -> c.(refs) = count l owners /\ (0 < count l owners)%nat;
  ro_none : forall l, h !! l = None -> l <> 0 -> count l owners = 0%nat;
  ro_null : h !! 0 = None;
}.

Lemma count_cons l x owners : count l (x :: owners) = ((if decide (x = l) then 1 else 0) + count l owners)%nat.
Proof. unfold count. rewrite filter_cons. by destruct (decide (x = l)). Qed.

Lemma count_app l o1 o2 : count l (o1 ++ o2) = (count l o1 + count l o2)%nat.
Proof. unfold count. by rewrite filter_app, length_app. Qed.

Lemma refs_ok_count h o1 o2 :
  (forall l, l <> 0 -> count l o1 = count l o2) -> refs_ok h o1 -> refs_ok h o2.
Proof.
  intros E [H1 H2 H3]. split; [|intros l Hl Hn; rewrite <- E by done; by apply H2|done].
  intros l c Hl. rewrite <- E; [by apply H1|]. intros ->. congruence.
Qed.

Lemma refs_ok_empty : refs_ok (∅ : gmap Z (cell A)) [].
Proof. split; [intros l c Hl; by rewrite lookup_empty in Hl|done|apply lookup_empty]. Qed.

Lemma refs_ok_null h owners : refs_ok h (0 :: owners) <-> refs_ok h owners.
Proof.
  split; apply refs_ok_count; intros l Hl; rewrite count_cons; destruct (decide (0 = l)); congruence || done.
Qed.

Lemma refs_ok_owner h owners l : refs_ok h (l :: owners) -> l <> 0 -> exists c, h !! l = Some c.
Proof.
  intros H Hl. destruct (h !! l) as [c|] eqn:E; [by eauto|]. apply (ro_none _ _ H) in E; [|done].
  rewrite count_cons, decide_True in E by done. lia.
Qed.

Lemma refs_ok_alloc h owners l a :
  refs_ok h owners -> h !! l = None -> l <> 0 -> refs_ok (<[l := mk_cell 1 a]> h) (l :: owners).
Proof.
  intros H Hl Hn. split.
  - intros l' c Hl'. rewrite count_cons. destruct (decide (l = l')) as [->|Hne].
    + rewrite lookup_insert_eq in Hl'. injection Hl' as <-. rewrite (ro_none _ _ H) by done. simpl. lia.
    + rewrite lookup_insert_ne in Hl' by done. simpl. by apply (ro_count _ _ H).
  - intros l' Hl' Hn'. apply lookup_insert_None in Hl' as [Hl' Hne]. rewrite count_cons, decide_False by done.
    simpl. by apply (ro_none _ _ H).
  - rewrite lookup_insert_ne by done. apply H.
Qed.

Lemma refs_ok_incref h owners l :
  refs_ok h owners -> (l <> 0 -> is_Some (h !! l)) -> refs_ok (incref l h) (l :: owners).
Proof.
  intros H Hl. unfold incref. split.
  - intros l' c Hl'. rewrite count_cons. destruct (decide (l = l')) as [->|Hne].
    + rewrite lookup_alter_eq in Hl'. destruct (h !! l') as [c'|] eqn:E; [|done]. simpl in Hl'. injection Hl' as <-.
      simpl. destruct (ro_count _ _ H _ _ E). lia.
    + rewrite lookup_alter_ne in Hl' by done. simpl. by apply (ro_count _ _ H).
  - intros l' Hl' Hn'. apply lookup_alter_None in Hl'. rewrite count_cons.
    destruct (decide (l = l')) as [->|Hne]; [|by apply (ro_none _ _ H)].
    destruct (Hl Hn') as [c E]. congruence.
  - apply lookup_alter_None. apply H.
Qed.

(** Dropping one reference; the object dies with the last. *)
Lemma refs_ok_decref h owners l :
  refs_ok h (l :: owners) ->
  refs_ok (snd (decref l h)) owners /\
  match fst (decref l h) with
  | None => forall l', obj <$> snd (decref l h) !! l' = obj <$> h !! l'
  | Some a => exists c, h !! l = Some c /\ a = c.(obj) /\ snd (decref l h) = delete l h /\ count l owners = 0%nat
  end.
Proof.
  intros H. unfold decref. destruct (h !! l) as [c|] eqn:E.
  - destruct (ro_count _ _ H _ _ E) as [Hc _]. rewrite count_cons, decide_True in Hc by done.
    assert (Hl0 : l <> 0) by (intros ->; by rewrite (ro_null _ _ H) in E).
    assert (Hrest : forall l', l <> l' -> count l' (l :: owners) = count l' owners)
      by (intros l' Hne; by rewrite count_cons, decide_False).
    destruct (refs c) as [|[|n]] eqn:En; [lia|..]; simpl.
    + split; [split|].
      * intros l' c' Hl'. apply lookup_delete_Some in Hl' as [Hne Hl']. rewrite <- Hrest by done. by apply (ro_count _ _ H).
      * intros l' Hl' Hn'. destruct (decide (l = l')) as [->|Hne]; [lia|].
        rewrite lookup_delete_ne in Hl' by done. rewrite <- Hrest by done. by apply (ro_none _ _ H).
      * rewrite lookup_delete_ne by done. apply H.
      * exists c. repeat split; [done..|lia].
    + split; [split|].
      * intros l' c' Hl'. destruct (decide (l = l')) as [->|Hne].
        -- rewrite lookup_insert_eq in Hl'. injection Hl' as <-. simpl. lia.
        -- rewrite lookup_insert_ne in Hl' by done. rewrite <- Hrest by done. by apply (ro_count _ _ H).
      * intros l' Hl' Hn'. apply lookup_insert_None in Hl' as [Hl' Hne]. rewrite <- Hrest by done. by apply (ro_none _ _ H).
      * rewrite lookup_insert_ne by done. apply H.
      * intros l'. destruct (decide (l = l')) as [->|Hne]; [by rewrite lookup_insert_eq, E|].
        by rewrite lookup_insert_ne.
  - destruct (decide (l = 0)) as [->|Hn].
    + simpl. split; [by apply refs_ok_null|done].
    + apply (ro_none _ _ H) in E; [|done]. rewrite count_cons, decide_True in E by done. lia.
Qed.

Lemma incref_obj h l l' : obj <$> incref l h !! l' = obj <$> h !! l'.
Proof.
  unfold incref. destruct (decide (l = l')) as [->|Hne]; [|by rewrite lookup_alter_ne].
  rewrite lookup_alter_eq. by destruct (h !! l').
Qed.

Lemma refs_ok_no_owner h : refs_ok h [] -> h = ∅.
Proof.
  intros H. apply map_eq. intros l. rewrite lookup_empty. destruct (h !! l) as [c|] eqn:E; [|done].
  destruct (ro_count _ _ H _ _ E) as [_ Hlt]. unfold count in Hlt. simpl in Hlt. lia.
Qed.

End Heap.

(** ** An example of a library

    Addresses count upwards; the create calls at the positions [fail_at] of
    the history fail, and so do the other calls at the positions [refuse_at].
    It shows that [fresh_handles] can hold, and runs in the examples. *)

Definition fresh_addr (tr : list lib_event) : Z := 1 + foldr Z.max 0 (snd <$> tr).

Definition demo_lib (fail_at refuse_at : list nat) : Liburma := {|
  answer := fun tr c =>
    match created c with
    | Some _ => if bool_decide (length tr ∈ fail_at) then 0 else fresh_addr tr
    | None =>
        match c with
        | urma_get_device_by_name _ | urma_get_eid_list _ => if bool_decide (length tr ∈ fail_at) then 0 else 1000
        | _ => if bool_decide (length tr ∈ refuse_at) then 22 else URMA_SUCCESS
        end
    end;
  device_name := fun _ => "bonding_dev_0"%string;
  device_attr := fun _ _ => mk_dev_attr 4096 65536;
  eid_list_len := fun _ _ => 1;
  eid_list_index := fun _ _ i => 3 + Z.of_nat i;
  ctx_eid := fun _ h => replicate 16 (h mod 256);
  ctx_uasid := fun _ _ => 9;
  jetty_id_of := fun _ h => replicate 20 (h mod 256);
  jetty_id_id := fun l => default 0 (last l);
  tseg_seg := fun tr h =>
    match (list_find (fun e => snd e = h) tr : option (nat * lib_event)) with
    | Some (_, (urma_register_seg ctx cfg, _)) => mk_seg (replicate 16 (ctx mod 256)) 9 cfg.(sc_va) cfg.(sc_len) 7 0
    | Some (_, (urma_import_seg _ seg _ _ _, _)) => seg
    | _ => mk_seg [] 0 0 0 0 0
    end;
  sizeof_eid := 16;
  sizeof_jetty_id := 20;
  URMA_EINVAL := 22;
|}.

Lemma audit_from_bound tr : forall m m' h r,
  audit_from m tr = Some m' -> m' !! h = Some r -> m !! h = Some r \/ h ∈ (snd <$> tr).
Proof.
  induction tr as [|[c a] tr IH]; intros m m' h r; simpl; [intros [= ->]; by left|].
  destruct (audit_step m (c, a)) as [m1|] eqn:E; simpl; [|done]. intros Ha Hh.
  destruct (IH _ _ _ _ Ha Hh) as [Hm|Hin]; [|right; by apply elem_of_cons; right].
  unfold audit_step in E. simpl in E. destruct (created c) as [[k deps]|].
  - destruct (forallb _ _); [|done]. destruct (a =? 0); [left; by simplify_eq|]. destruct (is_live m a); simplify_eq.
    apply lookup_insert_Some in Hm as [[<- _]|[_ Hm]]; [right; apply elem_of_cons|]; by left.
  - destruct (deleted c) as [[k h']|].
    + destruct (_ && _); simplify_eq. apply lookup_delete_Some in Hm as [_ Hm]. by left.
    + destruct (forallb _ _); simplify_eq. by left.
Qed.

Lemma max_elem (l : list Z) x : x ∈ l -> x <= foldr Z.max 0 l.
Proof. induction 1; simpl; lia. Qed.

Lemma demo_fresh fail_at refuse_at : @fresh_handles (demo_lib fail_at refuse_at).
Proof.
  intros tr m c r Ha Hc. simpl. rewrite Hc. case_bool_decide; [done|]. intros _.
  destruct (m !! fresh_addr tr) as [r'|] eqn:E; [|done]. exfalso.
  destruct (audit_from_bound tr ∅ m _ _ Ha E) as [Hm|Hin]; [by rewrite lookup_empty in Hm|].
  apply max_elem in Hin. unfold fresh_addr in Hin. lia.
Qed.
