(* ===== verification/UrmaResource.v ===== *)
(** * UrmaResource: the handles of [src/urma/urma_resource.cpp]

    A [std::unique_ptr] to a wrapper is the handle in it ([None] when empty);
    a [std::shared_ptr] is a location of Liburma's heaps.  The operations of
    [UrmaResource] take the record of its members and return the new one; the
    calls of the library and the objects are the state they run in.  An output
    parameter that is a [shared_ptr] is a result here: the reference returned
    is the caller's. *)

From S2P Require Import Prelude SendLane Liburma.
From Stdlib Require Import String.
From stdpp Require Import list strings.
#[local] Open Scope Z_scope.
#[local] Open Scope list_scope.

Definition kUrmaJettySize : Z := 256.
Definition kSharedJfrDepth : Z := 32.
Definition kUrmaMaxSge : Z := 2.
Definition kInvalidChip : Z := 255.

(** 0=RM 1=RC 2=UM 3=RS *)
Definition ResolveTransMode (mode : Z) : urma_transport_mode :=
  if (mode =? 1) || (mode =? 3) then URMA_TM_RC
  else if mode =? 2 then URMA_TM_UM
  else URMA_TM_RM.

Definition all_access : list urma_access := [URMA_ACCESS_READ; URMA_ACCESS_WRITE; URMA_ACCESS_ATOMIC].

Definition cache_flag (cacheable : bool) : urma_cacheable :=
  if cacheable then URMA_CACHEABLE else URMA_NON_CACHEABLE.

(** ** Members of [UrmaResource] *)

Record resource := mk_res {
  context_ : option Z;
  jfce_ : option Z;
  jfc_ : option Z;
  sharedJettyJfr_ : Z;
  sendJettyPool_ : lane_pool;
  sharedRecvJetty_ : Z;
  token_ : Z;
  devAttr_ : urma_device_attr;
  maxWriteSize_ : Z;
  transMode_ : Z;
  cacheable_ : bool;
  localSeg_ : Z;
}.

Definition empty_resource : resource :=
  mk_res None None None 0 empty_lanes 0 0 (mk_dev_attr 0 0) 0 0 false 0.

Definition set_context (c : option Z) (r : resource) : resource :=
  mk_res c r.(jfce_) r.(jfc_) r.(sharedJettyJfr_) r.(sendJettyPool_) r.(sharedRecvJetty_) r.(token_)
    r.(devAttr_) r.(maxWriteSize_) r.(transMode_) r.(cacheable_) r.(localSeg_).
Definition set_jfce (c : option Z) (r : resource) : resource :=
  mk_res r.(context_) c r.(jfc_) r.(sharedJettyJfr_) r.(sendJettyPool_) r.(sharedRecvJetty_) r.(token_)
    r.(devAttr_) r.(maxWriteSize_) r.(transMode_) r.(cacheable_) r.(localSeg_).
Definition set_jfc (c : option Z) (r : resource) : resource :=
  mk_res r.(context_) r.(jfce_) c r.(sharedJettyJfr_) r.(sendJettyPool_) r.(sharedRecvJetty_) r.(token_)
    r.(devAttr_) r.(maxWriteSize_) r.(transMode_) r.(cacheable_) r.(localSeg_).
Definition set_shared_jfr (l : Z) (r : resource) : resource :=
  mk_res r.(context_) r.(jfce_) r.(jfc_) l r.(sendJettyPool_) r.(sharedRecvJetty_) r.(token_)
    r.(devAttr_) r.(maxWriteSize_) r.(transMode_) r.(cacheable_) r.(localSeg_).
Definition set_pool (p : lane_pool) (r : resource) : resource :=
  mk_res r.(context_) r.(jfce_) r.(jfc_) r.(sharedJettyJfr_) p r.(sharedRecvJetty_) r.(token_)
    r.(devAttr_) r.(maxWriteSize_) r.(transMode_) r.(cacheable_) r.(localSeg_).
Definition set_recv (l : Z) (r : resource) : resource :=
  mk_res r.(context_) r.(jfce_) r.(jfc_) r.(sharedJettyJfr_) r.(sendJettyPool_) l r.(token_)
    r.(devAttr_) r.(maxWriteSize_) r.(transMode_) r.(cacheable_) r.(localSeg_).
Definition set_seg (l : Z) (r : resource) : resource :=
  mk_res r.(context_) r.(jfce_) r.(jfc_) r.(sharedJettyJfr_) r.(sendJettyPool_) r.(sharedRecvJetty_) r.(token_)
    r.(devAttr_) r.(maxWriteSize_) r.(transMode_) r.(cacheable_) l.
Definition set_plain (tok : Z) (attr : urma_device_attr) (mw tm : Z) (ca : bool) (r : resource) : resource :=
  mk_res r.(context_) r.(jfce_) r.(jfc_) r.(sharedJettyJfr_) r.(sendJettyPool_) r.(sharedRecvJetty_) tok
    attr mw tm ca r.(localSeg_).

Definition Ctx (r : resource) : Z := default nullptr r.(context_).
Definition Jfce (r : resource) : Z := default nullptr r.(jfce_).
Definition Jfc (r : resource) : Z := default nullptr r.(jfc_).
Definition MaxWriteSize (r : resource) : Z := r.(maxWriteSize_).
Definition SendJettyPoolStats (r : resource) : Stats := GetStats r.(sendJettyPool_).

Section Resource.
Context `{Liburma}.
(** [KV_BENCH_BONDP_CTL] of the build. *)
Context (bondp_ctl : bool).

(** ** Wrappers *)

Definition UrmaContext_Create (dev eidIndex : Z) : ST sys (option Z) :=
  if dev =? nullptr then mret None
  else
    raw ← call (urma_create_context dev eidIndex);
    mret (if raw =? nullptr then None else Some raw).

Definition UrmaJfce_Create (ctx : Z) : ST sys (option Z) :=
  if ctx =? nullptr then mret None
  else
    raw ← call (urma_create_jfce ctx);
    mret (if raw =? nullptr then None else Some raw).

Definition UrmaJfc_Create (ctx : Z) (devAttr : urma_device_attr) (jfce : Z) : ST sys (option Z) :=
  if ctx =? nullptr then mret None
  else
    let cfg := mk_jfc_cfg devAttr.(max_jfc_depth) jfce 0 in
    raw ← call (urma_create_jfc ctx cfg);
    mret (if raw =? nullptr then None else Some raw).

(** The destructors of the wrappers behind a [unique_ptr]: [reset()]. *)
Definition del_context (c : option Z) : ST sys unit :=
  match c with Some raw => call (urma_delete_context raw);; mret tt | None => mret tt end.
Definition del_jfce (c : option Z) : ST sys unit :=
  match c with Some raw => call (urma_delete_jfce raw);; mret tt | None => mret tt end.
Definition del_jfc (c : option Z) : ST sys unit :=
  match c with Some raw => call (urma_delete_jfc raw);; mret tt | None => mret tt end.
Definition del_target (c : option Z) : ST sys unit :=
  match c with Some raw => call (urma_unimport_jetty raw);; mret tt | None => mret tt end.

Definition UrmaJfc_Rearm (raw : Z) : ST sys bool :=
  if raw =? nullptr then mret false
  else rc ← call (urma_rearm_jfc raw false); mret (rc =? URMA_SUCCESS).

(** Objects behind a [shared_ptr]: [new] and the end of a reference. *)
Definition new_jfr (raw : Z) : ST sys Z := fun s =>
  (s.(next_loc), with_next (s.(next_loc) + 1) (with_jfrs (<[s.(next_loc) := mk_cell 1 raw]> s.(jfrs)) s)).
Definition new_jetty (raw jfr : Z) : ST sys Z := fun s =>
  (s.(next_loc), with_next (s.(next_loc) + 1) (with_jettys (<[s.(next_loc) := mk_cell 1 (raw, jfr)]> s.(jetty_objs)) s)).
Definition new_lseg (raw : Z) : ST sys Z := fun s =>
  (s.(next_loc), with_next (s.(next_loc) + 1) (with_lsegs (<[s.(next_loc) := mk_cell 1 raw]> s.(lsegs)) s)).
Definition new_rseg (raw : Z) : ST sys Z := fun s =>
  (s.(next_loc), with_next (s.(next_loc) + 1) (with_rsegs (<[s.(next_loc) := mk_cell 1 raw]> s.(rsegs)) s)).

Definition drop_jfr (l : Z) : ST sys unit := fun s =>
  let '(dead, h) := decref l s.(jfrs) in
  match dead with
  | Some raw => (call (urma_delete_jfr raw);; mret tt) (with_jfrs h s)
  | None => (tt, with_jfrs h s)
  end.

(** [~UrmaJetty] deletes the jetty, then the member [jfr_] ends. *)
Definition drop_jetty (l : Z) : ST sys unit := fun s =>
  let '(dead, h) := decref l s.(jetty_objs) in
  match dead with
  | Some (raw, jfr) => (call (urma_delete_jetty raw);; drop_jfr jfr) (with_jettys h s)
  | None => (tt, with_jettys h s)
  end.

Definition drop_lseg (l : Z) : ST sys unit := fun s =>
  let '(dead, h) := decref l s.(lsegs) in
  match dead with
  | Some raw => (call (urma_unregister_seg raw);; mret tt) (with_lsegs h s)
  | None => (tt, with_lsegs h s)
  end.

Definition drop_rseg (l : Z) : ST sys unit := fun s =>
  let '(dead, h) := decref l s.(rsegs) in
  match dead with
  | Some raw => (call (urma_unimport_seg raw);; mret tt) (with_rsegs h s)
  | None => (tt, with_rsegs h s)
  end.

Definition share_jfr (l : Z) : ST sys unit := fun s => (tt, with_jfrs (incref l s.(jfrs)) s).
Definition share_jetty (l : Z) : ST sys unit := fun s => (tt, with_jettys (incref l s.(jetty_objs)) s).
Definition share_lseg (l : Z) : ST sys unit := fun s => (tt, with_lsegs (incref l s.(lsegs)) s).

(** [Raw()] through a [shared_ptr]. *)
Definition jfr_raw (l : Z) : ST sys Z := fun s => (from_option obj 0 (s.(jfrs) !! l), s).
Definition jetty_raw (l : Z) : ST sys Z := fun s => (from_option (fun c => fst c.(obj)) 0 (s.(jetty_objs) !! l), s).
Definition lseg_raw (l : Z) : ST sys Z := fun s => (from_option obj 0 (s.(lsegs) !! l), s).
Definition rseg_raw (l : Z) : ST sys Z := fun s => (from_option obj 0 (s.(rsegs) !! l), s).

Definition UrmaJfr_Create (ctx depth token jfc transMode : Z) : ST sys (option Z) :=
  if (ctx =? nullptr) || (jfc =? nullptr) then mret None
  else
    let cfg := mk_jfr_cfg depth URMA_NO_TAG_MATCHING (if transMode =? 3 then 1 else 0)
                 (ResolveTransMode transMode) URMA_TYPICAL_MIN_RNR_TIMER jfc token 0 1 0 in
    raw ← call (urma_create_jfr ctx cfg);
    if raw =? nullptr then mret None else l ← new_jfr raw; mret (Some l).

(** The receive queue of a new jetty: the shared one for sending, made on
    first use, or its own.  A reference to it and the members. *)
Definition jetty_jfr (r : resource) (isSend : bool) : ST sys (option Z * resource) :=
  if isSend then
    mr ← (if r.(sharedJettyJfr_) =? nullptr then
            o ← UrmaJfr_Create (Ctx r) kSharedJfrDepth r.(token_) (Jfc r) r.(transMode_);
            mret (match o with Some l => Some (set_shared_jfr l r) | None => None end)
          else mret (Some r));
    match mr with
    | None => mret (None, r)
    | Some r => share_jfr r.(sharedJettyJfr_);; mret (Some r.(sharedJettyJfr_), r)
    end
  else
    o ← UrmaJfr_Create (Ctx r) kUrmaJettySize r.(token_) (Jfc r) r.(transMode_);
    mret (o, r).

Definition jetty_cfg (r : resource) (jfr : Z) : urma_jetty_cfg :=
  let jfsCfg := mk_jfs_cfg kUrmaJettySize (if r.(transMode_) =? 3 then 1 else 0) 1
                  (ResolveTransMode r.(transMode_)) 4 kUrmaMaxSge 0 URMA_TYPICAL_RNR_RETRY 0 (Jfc r) 0 in
  mk_jetty_cfg 1 jfsCfg jfr (Jfc r) 0.

Definition UrmaJetty_Create (r : resource) (isSend : bool) : ST sys (option Z * resource) :=
  if (Ctx r =? nullptr) || (Jfc r =? nullptr) then mret (None, r)
  else
    '(jfr, r) ← jetty_jfr r isSend;
    match jfr with
    | None => mret (None, r)
    | Some jfr =>
        jraw ← jfr_raw jfr;
        raw ← call (urma_create_jetty (Ctx r) (jetty_cfg r jraw));
        if raw =? nullptr then drop_jfr jfr;; mret (None, r)
        else l ← new_jetty raw jfr; mret (Some l, r)
    end.

Definition UrmaTargetJetty_Import (ctx : Z) (remoteJetty : urma_rjetty) (token : Z) : ST sys (option Z) :=
  if ctx =? nullptr then mret None
  else
    raw ← call (urma_import_jetty ctx remoteJetty token);
    mret (if raw =? nullptr then None else Some raw).

Definition UrmaLocalSegment_Register (ctx va len token : Z) (cacheable : bool) : ST sys (option Z) :=
  if ctx =? nullptr then mret None
  else
    let flag := mk_reg_flag URMA_TOKEN_NONE (cache_flag cacheable) all_access 0 0 in
    let cfg := mk_seg_cfg va len nullptr token flag 0 0 in
    raw ← call (urma_register_seg ctx cfg);
    if raw =? nullptr then mret None else l ← new_lseg raw; mret (Some l).

Definition UrmaLocalSegment_Va (raw : Z) : ST sys Z :=
  if raw =? nullptr then mret 0 else peek (fun tr => (tseg_seg tr raw).(ubva_va)).

Definition UrmaLocalSegment_Len (raw : Z) : ST sys Z :=
  if raw =? nullptr then mret 0 else peek (fun tr => (tseg_seg tr raw).(seg_length)).

Definition UrmaRemoteSegment_Import (ctx : Z) (seg : urma_seg) (token : Z) (cacheable : bool) : ST sys (option Z) :=
  if ctx =? nullptr then mret None
  else
    let flag := mk_import_flag (cache_flag cacheable) all_access URMA_SEG_NOMAP 0 in
    raw ← call (urma_import_seg ctx seg token 0 flag);
    if raw =? nullptr then mret None else l ← new_rseg raw; mret (Some l).

Definition UrmaRemoteSegment_Va (raw : Z) : ST sys Z :=
  if raw =? nullptr then mret 0 else peek (fun tr => (tseg_seg tr raw).(ubva_va)).

(** ** [UrmaResource] *)

Fixpoint drop_jettys (ls : list Z) : ST sys unit :=
  match ls with
  | [] => mret tt
  | l :: ls => drop_jetty l;; drop_jettys ls
  end.

(** [Clear] up to the context, member by member. *)
Definition clear_members (r : resource) : ST sys unit :=
  drop_lseg r.(localSeg_);;
  drop_jettys r.(sendJettyPool_).(jettys_);;
  drop_jetty r.(sharedRecvJetty_);;
  drop_jfr r.(sharedJettyJfr_);;
  del_jfc r.(jfc_);;
  del_jfce r.(jfce_).

(** All pointers are reset, the pool is emptied, the plain members stay. *)
Definition cleared (r : resource) : resource :=
  mk_res None None None nullptr (SendLane.Clear r.(sendJettyPool_)) nullptr r.(token_) r.(devAttr_)
    r.(maxWriteSize_) r.(transMode_) r.(cacheable_) nullptr.

Definition Clear (r : resource) : ST sys resource :=
  clear_members r;;
  del_context r.(context_);;
  mret (cleared r).

Definition RearmJfc (r : resource) : ST sys bool :=
  match r.(jfc_) with Some raw => UrmaJfc_Rearm raw | None => mret false end.

Definition RegisterSegment (va len : Z) (r : resource) : ST sys (option Z * resource) :=
  if Ctx r =? nullptr then mret (None, r)
  else
    o ← UrmaLocalSegment_Register (Ctx r) va len r.(token_) r.(cacheable_);
    match o with
    | None => mret (None, r)
    | Some l =>
        drop_lseg r.(localSeg_);;
        let r := set_seg l r in
        share_lseg l;;
        mret (Some l, r)
    end.

Definition CreateSendJetty (r : resource) : ST sys (option Z * resource) := UrmaJetty_Create r true.

Definition GetOrCreateSharedRecvJetty (r : resource) : ST sys (option Z * resource) :=
  mr ← (if r.(sharedRecvJetty_) =? nullptr then
          '(o, r) ← UrmaJetty_Create r false;
          mret (match o with Some l => (true, set_recv l r) | None => (false, r) end)
        else mret (true, r));
  if (mr : bool * resource).1 then
    share_jetty mr.2.(sharedRecvJetty_);; mret (Some mr.2.(sharedRecvJetty_), mr.2)
  else mret (None, mr.2).

Definition SendJettyCount (r : resource) : Z := u32 (Z.of_nat (GetStats r.(sendJettyPool_)).(poolSize)).

Definition JettyAt (index : Z) (r : resource) : ST sys Z :=
  let l := At (Z.to_nat index) r.(sendJettyPool_) in share_jetty l;; mret l.

(** [PopIdle] copies the [shared_ptr]; [Release] is called with the one the
    caller holds. *)
Definition AcquireSendJetty (r : resource) : ST sys (option Z * resource) :=
  match PopIdle r.(sendJettyPool_) with
  | Some (Some l, p) => share_jetty l;; mret (Some l, set_pool p r)
  | Some (None, p) => mret (None, set_pool p r)
  | None => mret (None, r)
  end.

Definition ReleaseSendJetty (jetty : Z) (r : resource) : resource :=
  match Release jetty r.(sendJettyPool_) with Some p => set_pool p r | None => r end.

Definition ImportTargetJetty (remoteJetty : urma_rjetty) (r : resource) : ST sys (option Z) :=
  UrmaTargetJetty_Import (Ctx r) remoteJetty r.(token_).

Definition ImportSegment (seg : urma_seg) (r : resource) : ST sys (option Z) :=
  UrmaRemoteSegment_Import (Ctx r) seg r.(token_) r.(cacheable_).

(** The value-initialised [urma_eid_t] has zero bytes. *)
Definition Eid (r : resource) : ST sys urma_eid :=
  match r.(context_) with
  | Some raw => peek (fun tr => ctx_eid tr raw)
  | None => mret (replicate sizeof_eid 0)
  end.

Definition Uasid (r : resource) : ST sys Z :=
  match r.(context_) with Some raw => peek (fun tr => ctx_uasid tr raw) | None => mret 0 end.

Definition RecvJetty (r : resource) : ST sys Z := share_jetty r.(sharedRecvJetty_);; mret r.(sharedRecvJetty_).

Definition PublishedJettyId (r : resource) : ST sys Z :=
  if r.(sharedRecvJetty_) =? nullptr then mret 0
  else raw ← jetty_raw r.(sharedRecvJetty_); peek (fun tr => jetty_id_id (jetty_id_of tr raw)).

(** The loop of [PreFillSendJettyPool], [count] rounds to go. *)
Fixpoint PreFillSendJettyPool (count : nat) (r : resource) : ST sys (bool * resource) :=
  match count with
  | O => mret (true, r)
  | S n =>
      '(o, r) ← CreateSendJetty r;
      match o with
      | None => mret (false, r)
      | Some jetty => PreFillSendJettyPool n (set_pool (SendLane.Add jetty r.(sendJettyPool_)) r)
      end
  end.

(** [Init] after [Clear] and the checks: queues, pool and receive jetty. *)
Definition init_queues (jettyCount minJettys : Z) (eventMode : bool) (r : resource) : ST sys (bool * resource) :=
  jfce ← UrmaJfce_Create (Ctx r);
  match jfce with
  | None => mret (false, r)
  | Some _ =>
      let r := set_jfce jfce r in
      jfc ← UrmaJfc_Create (Ctx r) r.(devAttr_) (if eventMode then Jfce r else nullptr);
      match jfc with
      | None => mret (false, r)
      | Some _ =>
          let r := set_jfc jfc r in
          let count := if jettyCount >? minJettys then jettyCount else minJettys in
          let count := if count <? 1 then 1 else count in
          '(ok, r) ← PreFillSendJettyPool (Z.to_nat count) r;
          if negb ok then mret (false, r)
          else
            '(recv, r) ← GetOrCreateSharedRecvJetty r;
            match recv with
            | None => mret (false, r)
            | Some l => drop_jetty l;; mret (true, r)
            end
      end
  end.

(** The balance mode of a bonding device, in builds that have it. *)
Definition set_balance_mode (device : Z) (r : resource) : ST sys unit :=
  if String.prefix "bonding" (device_name device) && bondp_ctl
  then call (urma_user_ctl (Ctx r));; mret tt else mret tt.

Definition Init (device eidIndex : Z) (cacheable : bool) (jettyCount minJettys : Z) (eventMode : bool)
    (transMode : Z) (r : resource) : ST sys (bool * resource) :=
  r ← Clear r;
  if device =? nullptr then mret (false, r)
  else
    let r := set_plain r.(token_) r.(devAttr_) r.(maxWriteSize_) transMode cacheable r in
    rc ← call (urma_query_device device);
    if negb (rc =? URMA_SUCCESS) then mret (false, r)
    else
      attr ← peek (fun tr => device_attr tr device);
      let r := set_plain r.(token_) attr attr.(max_write_size) transMode cacheable r in
      ctx ← UrmaContext_Create device eidIndex;
      match ctx with
      | None => mret (false, r)
      | Some _ =>
          let r := set_context ctx r in
          let r := set_plain 0xACFE attr attr.(max_write_size) transMode cacheable r in
          set_balance_mode device r;;
          init_queues jettyCount minJettys eventMode r
      end.

End Resource.
