(* ===== verification/UrmaResourceInv.v ===== *)
(** * UrmaResourceInv: who owns which handle

    The invariant of the handles of one context.  Every live handle has
    exactly one owner: a member of the resource behind a [unique_ptr], a shared
    object, or a target jetty of a connection.  The reference counts of the
    shared objects are the numbers of [shared_ptr]s to them.  The lemmas say
    how each primitive of UrmaResource changes the owners; in particular that
    the calls it makes pass the audit. *)

From S2P Require Import Prelude SendLane Liburma UrmaResource.
From stdpp Require Import list.
#[local] Open Scope Z_scope.
#[local] Open Scope list_scope.

(** ** Owners *)

(** The [unique_ptr] members, and whether the completion queue was made with
    the event channel. *)
Record base := mk_base { b_ctx : option Z; b_jfce : option Z; b_jfc : option Z; b_bound : bool }.

(** The [shared_ptr]s there are, by class, and the target jettys. *)
Record refs_of := mk_refs {
  p_jfr : list Z;
  p_jetty : list Z;
  p_lseg : list Z;
  p_rseg : list Z;
  p_target : list Z;
}.

Inductive owner :=
| OCtx | OJfce | OJfc
| OJfr (l : Z) | OJetty (l : Z) | OLseg (l : Z) | ORseg (l : Z) | OTarget (h : Z).

Abbreviation handle_rec := (kind * list Z)%type.

Definition ptr (o : option Z) : Z := default nullptr o.

Definition jfr_handle (s : sys) (l : Z) : Z := from_option obj 0 (s.(jfrs) !! l).

(** What an owner holds: a handle, its kind and what it was made from. *)
Definition owned (b : base) (p : refs_of) (s : sys) (o : owner) : option (Z * handle_rec) :=
  let ctx := ptr b.(b_ctx) in
  let jfc := ptr b.(b_jfc) in
  match o with
  | OCtx => (fun h => (h, (KContext, []))) <$> b.(b_ctx)
  | OJfce => (fun h => (h, (KJfce, [ctx]))) <$> b.(b_jfce)
  | OJfc => (fun h => (h, (KJfc, ctx :: (if b.(b_bound) then [ptr b.(b_jfce)] else [])))) <$> b.(b_jfc)
  | OJfr l => (fun h => (h, (KJfr, [ctx; jfc]))) <$> (obj <$> s.(jfrs) !! l)
  | OJetty l => (fun j => (fst j, (KJetty, [ctx; jfc; jfc; jfr_handle s (snd j)]))) <$> (obj <$> s.(jetty_objs) !! l)
  | OLseg l => (fun h => (h, (KSeg, [ctx]))) <$> (obj <$> s.(lsegs) !! l)
  | ORseg l => (fun h => (h, (KRemote, [ctx]))) <$> (obj <$> s.(rsegs) !! l)
  | OTarget h => if decide (h ∈ p.(p_target)) then Some (h, (KTarget, [ctx])) else None
  end.

(** The owners a handle was made from. *)
Definition parents (b : base) (s : sys) (o : owner) : list owner :=
  match o with
  | OCtx => []
  | OJfc => OCtx :: (if b.(b_bound) then [OJfce] else [])
  | OJfr _ => [OCtx; OJfc]
  | OJetty l => OCtx :: OJfc :: from_option (fun c => [OJfr (snd c.(obj))]) [] (s.(jetty_objs) !! l)
  | _ => [OCtx]
  end.

(** Live handles and owners correspond one to one. *)
Record matches (own : owner -> option (Z * handle_rec)) (m : live_map) : Prop := {
  ma_live : forall h r, m !! h = Some r <-> exists o, own o = Some (h, r);
  ma_inj : forall o1 o2 h r1 r2, own o1 = Some (h, r1) -> own o2 = Some (h, r2) -> o1 = o2;
}.

Lemma matches_ext own own' m : (forall o, own' o = own o) -> matches own m -> matches own' m.
Proof.
  intros E [H1 H2]. split.
  - intros h r. rewrite H1. by setoid_rewrite E.
  - intros o1 o2 h r1 r2. rewrite !E. apply H2.
Qed.

Lemma matches_add own own' m o h r :
  matches own m -> m !! h = None -> own o = None -> own' o = Some (h, r) ->
  (forall o', o' <> o -> own' o' = own o') -> matches own' (<[h := r]> m).
Proof.
  intros [H1 H2] Hh Ho Ho' E.
  assert (Hold : forall o' r', o' <> o -> own' o' <> Some (h, r')).
  { intros o' r' Hne Hr. rewrite E in Hr by done. assert (m !! h = Some r') by (apply H1; eauto). congruence. }
  assert (Heq : forall o', {o' = o} + {o' <> o}) by (intros o'; repeat decide equality).
  split.
  - intros h' r'. destruct (decide (h = h')) as [<-|Hne].
    + rewrite lookup_insert_eq. split; [intros [= <-]; eauto|]. intros [o' Hr]. destruct (Heq o') as [->|Hn].
      * rewrite Ho' in Hr. by simplify_eq.
      * by destruct (Hold _ _ Hn Hr).
    + rewrite lookup_insert_ne by done. rewrite H1. split; intros [o' Hr]; exists o'.
      * rewrite E; [done|]. intros ->. congruence.
      * rewrite <- E; [done|]. intros ->. congruence.
  - intros o1 o2 h' r1 r2 Hr1 Hr2. destruct (Heq o1) as [->|N1], (Heq o2) as [->|N2].
    + done.
    + assert (h' = h) as -> by congruence. by destruct (Hold _ _ N2 Hr2).
    + assert (h' = h) as -> by congruence. by destruct (Hold _ _ N1 Hr1).
    + rewrite E in Hr1, Hr2 by done. eauto.
Qed.

Lemma matches_del own own' m o h r :
  matches own m -> own o = Some (h, r) -> own' o = None ->
  (forall o', o' <> o -> own' o' = own o') -> matches own' (delete h m).
Proof.
  intros [H1 H2] Ho Ho' E. assert (Heq : forall o', {o' = o} + {o' <> o}) by (intros o'; repeat decide equality).
  split.
  - intros h' r'. rewrite lookup_delete_Some, H1. split.
    + intros [Hne [o' Hr]]. exists o'. rewrite E; [done|]. intros ->. congruence.
    + intros [o' Hr]. destruct (Heq o') as [->|Hn]; [congruence|]. rewrite E in Hr by done. split; [|eauto].
      intros <-. by apply Hn, (H2 _ _ _ _ _ Hr Ho).
  - intros o1 o2 h' r1 r2 Hr1 Hr2. destruct (Heq o1) as [->|N1]; [congruence|].
    destruct (Heq o2) as [->|N2]; [congruence|]. rewrite E in Hr1, Hr2 by done. eauto.
Qed.

(** ** The invariant *)

(** The receive queues named by the jettys. *)
Definition jfr_fields (h : gmap Z (cell (Z * Z))) : list Z := (fun e => snd (snd e)) <$> map_to_list (obj <$> h).

Record wf (b : base) (p : refs_of) (s : sys) : Prop := {
  wf_audit : exists m, audit s.(trace) = Some m /\ matches (owned b p s) m /\ m !! 0 = None;
  wf_jfr : refs_ok s.(jfrs) (p.(p_jfr) ++ jfr_fields s.(jetty_objs));
  wf_jetty : refs_ok s.(jetty_objs) p.(p_jetty);
  wf_lseg : refs_ok s.(lsegs) p.(p_lseg);
  wf_rseg : refs_ok s.(rsegs) p.(p_rseg);
  wf_target : NoDup p.(p_target);
  wf_ctx : forall o, is_Some (owned b p s o) -> is_Some b.(b_ctx);
  wf_jfc : forall l, is_Some (s.(jfrs) !! l) \/ is_Some (s.(jetty_objs) !! l) -> is_Some b.(b_jfc);
  wf_fields : forall l c, s.(jetty_objs) !! l = Some c -> snd c.(obj) <> 0;
  wf_next : 0 < s.(next_loc) /\ forall l, s.(next_loc) <= l ->
    s.(jfrs) !! l = None /\ s.(jetty_objs) !! l = None /\ s.(lsegs) !! l = None /\ s.(rsegs) !! l = None;
}.

Lemma wf_empty : wf (mk_base None None None false) (mk_refs [] [] [] [] []) empty_sys.
Proof.
  assert (Hn : forall o, owned (mk_base None None None false) (mk_refs [] [] [] [] []) empty_sys o = None).
  { intros []; simpl; rewrite ?lookup_empty; try done; by rewrite decide_False by apply not_elem_of_nil. }
  split; simpl; try apply refs_ok_empty; try apply NoDup_nil_2.
  - exists ∅. split; [done|]. split; [|apply lookup_empty]. split.
    + intros h r. rewrite lookup_empty. split; [done|]. intros [o Ho]. by rewrite Hn in Ho.
    + intros o1 o2 h r1 r2 Ho. by rewrite Hn in Ho.
  - intros o [x Ho]. by rewrite Hn in Ho.
  - intros l [[c Hc]|[c Hc]]; by rewrite lookup_empty in Hc.
  - intros l c Hc. by rewrite lookup_empty in Hc.
  - split; [lia|]. intros l _. by rewrite !lookup_empty.
Qed.

(** Only the numbers of references matter. *)
Definition same_refs (l l' : list Z) : Prop := forall x, x <> 0 -> count x l = count x l'.

#[export] Instance same_refs_equiv : Equivalence same_refs.
Proof.
  split; [by intros l x|by intros l l' E x Hx; rewrite E|].
  intros l1 l2 l3 E1 E2 x Hx. by rewrite E1, E2.
Qed.

#[export] Instance same_refs_cons : Proper (eq ==> same_refs ==> same_refs) (@cons Z).
Proof. intros a ? <- l l' E x Hx. by rewrite !count_cons, E. Qed.

#[export] Instance same_refs_app : Proper (same_refs ==> same_refs ==> same_refs) (@app Z).
Proof. intros l1 l1' E1 l2 l2' E2 x Hx. by rewrite !count_app, E1, E2. Qed.

Lemma same_refs_perm l l' : Permutation l l' -> same_refs l l'.
Proof. intros E x _. unfold count. by rewrite E. Qed.

Lemma same_refs_null l : same_refs (0 :: l) l.
Proof. intros x Hx. rewrite count_cons. by rewrite decide_False by congruence. Qed.

Record same_owners (p p' : refs_of) : Prop := {
  so_jfr : same_refs p.(p_jfr) p'.(p_jfr);
  so_jetty : same_refs p.(p_jetty) p'.(p_jetty);
  so_lseg : same_refs p.(p_lseg) p'.(p_lseg);
  so_rseg : same_refs p.(p_rseg) p'.(p_rseg);
  so_target : Permutation p.(p_target) p'.(p_target);
}.

Lemma owned_target b p p' s o :
  (forall h, h ∈ p.(p_target) <-> h ∈ p'.(p_target)) -> owned b p s o = owned b p' s o.
Proof. intros E. destruct o; try done. simpl. by rewrite (decide_ext _ _ _ _ (E h)). Qed.

Lemma wf_same b p p' s : same_owners p p' -> wf b p s -> wf b p' s.
Proof.
  intros [E1 E2 E3 E4 E5] W.
  assert (Eo : forall o, owned b p' s o = owned b p s o) by (intros o; apply owned_target; intros h; by rewrite E5).
  split; try apply W.
  - destruct (wf_audit _ _ _ W) as (m & Ha & Hm & Hn). exists m. split; [done|]. split; [|done].
    by apply (matches_ext (owned b p s)).
  - eapply refs_ok_count; [|apply W]. by apply same_refs_app.
  - eapply refs_ok_count; [|apply W]. done.
  - eapply refs_ok_count; [|apply W]. done.
  - eapply refs_ok_count; [|apply W]. done.
  - rewrite <- E5. apply W.
  - intros o. rewrite Eo. apply W.
Qed.

(** ** Deletes are in order *)

(** What a handle was made from belongs to its owner's parents. *)
Lemma deps_parents b p s o h r d :
  wf b p s -> owned b p s o = Some (h, r) -> d ∈ snd r -> d <> 0 ->
  exists o' r', o' ∈ parents b s o /\ owned b p s o' = Some (d, r').
Proof.
  intros W Ho Hd Hn.
  assert (Hptr : forall c : option Z, d = ptr c -> c = Some d).
  { intros [c|] E; unfold ptr in E; simpl in E; [by subst|done]. }
  assert (Hctx : d = ptr (b_ctx b) -> owned b p s OCtx = Some (d, (KContext, []))).
  { intros E. simpl. by rewrite (Hptr _ E). }
  assert (Hjfc : d = ptr (b_jfc b) -> exists r', owned b p s OJfc = Some (d, r')).
  { intros E. simpl. rewrite (Hptr _ E). simpl. eauto. }
  destruct o; simpl in Ho.
  - destruct (b_ctx b); simplify_eq/=. by apply not_elem_of_nil in Hd.
  - destruct (b_jfce b); simplify_eq/=. apply list_elem_of_singleton in Hd. exists OCtx. eexists. split; [set_solver|auto].
  - destruct (b_jfc b); simplify_eq/=. apply elem_of_cons in Hd as [Hd|Hd].
    + exists OCtx. eexists. split; [simpl; set_solver|auto].
    + destruct (b_bound b) eqn:Eb; [|by apply not_elem_of_nil in Hd]. apply list_elem_of_singleton in Hd.
      exists OJfce. simpl. rewrite (Hptr _ Hd). eexists. split; [set_solver|done].
  - destruct (jfrs s !! l); simplify_eq/=. apply elem_of_cons in Hd as [Hd|Hd%list_elem_of_singleton].
    + exists OCtx. eexists. split; [set_solver|auto].
    + destruct (Hjfc Hd) as [r' Hr]. exists OJfc, r'. split; [set_solver|done].
  - destruct (jetty_objs s !! l) as [c|] eqn:El; simplify_eq/=.
    assert (Hd' : d = ptr (b_ctx b) \/ d = ptr (b_jfc b) \/ d = jfr_handle s (snd (obj c))) by set_solver.
    destruct Hd' as [Hd'|[Hd'|Hd']].
    + exists OCtx. eexists. split; [set_solver|auto].
    + destruct (Hjfc Hd') as [r' Hr]. exists OJfc, r'. split; [set_solver|done].
    + exists (OJfr (snd (obj c))). simpl. rewrite El. unfold jfr_handle in Hd'.
      destruct (jfrs s !! snd (obj c)); simpl in *; [|done]. subst d. eexists. split; [set_solver|done].
  - destruct (lsegs s !! l); simplify_eq/=. apply list_elem_of_singleton in Hd. exists OCtx. eexists. split; [set_solver|auto].
  - destruct (rsegs s !! l); simplify_eq/=. apply list_elem_of_singleton in Hd. exists OCtx. eexists. split; [set_solver|auto].
  - destruct (decide _); simplify_eq/=. apply list_elem_of_singleton in Hd. exists OCtx. eexists. split; [set_solver|auto].
Qed.

(** A handle whose owner is nobody's parent may be deleted. *)
Lemma owner_childless b p s m o h r :
  wf b p s -> matches (owned b p s) m -> owned b p s o = Some (h, r) -> h <> 0 ->
  (forall o', is_Some (owned b p s o') -> o ∉ parents b s o') -> childless m h.
Proof.
  intros W Hm Ho Hn Hp h' r' Hr Hin. apply (ma_live _ _ Hm) in Hr as [o' Ho'].
  destruct (deps_parents _ _ _ _ _ _ _ W Ho' Hin Hn) as (o'' & r'' & Hpar & Ho'').
  rewrite (ma_inj _ _ Hm _ _ _ _ _ Ho Ho'') in Hp. apply (Hp o'); [eauto|done].
Qed.

(** ** The library's side of a call *)

Lemma audit_created tr m c r k deps :
  audit tr = Some m -> created c = Some (k, deps) -> Forall (fun d => is_Some (m !! d)) deps ->
  (r <> 0 -> m !! r = None) ->
  audit (tr ++ [(c, r)]) = Some (if r =? 0 then m else <[r := (k, deps)]> m).
Proof.
  intros Ha Hc Hd Hr. rewrite (audit_snoc _ _ _ Ha). unfold audit_step. simpl. rewrite Hc.
  assert (forallb (is_live m) deps = true) as ->.
  { apply Is_true_true, forallb_True. eapply Forall_impl; [exact Hd|]. intros d H. by apply bool_decide_spec. }
  destruct (Z.eqb_spec r 0); [done|]. unfold is_live. rewrite bool_decide_false; [done|].
  rewrite Hr by done. by intros [? ?].
Qed.

Lemma audit_deleted tr m c r k h deps :
  audit tr = Some m -> created c = None -> deleted c = Some (k, h) -> m !! h = Some (k, deps) -> childless m h ->
  audit (tr ++ [(c, r)]) = Some (delete h m).
Proof.
  intros Ha Hc Hd Hh Hl. rewrite (audit_snoc _ _ _ Ha). unfold audit_step. simpl. rewrite Hc, Hd.
  unfold has_kind. simpl. rewrite Hh. by rewrite !bool_decide_true by done.
Qed.

Lemma audit_touched tr m c r :
  audit tr = Some m -> created c = None -> deleted c = None ->
  Forall (fun hk => exists deps, m !! fst hk = Some (snd hk, deps)) (touches c) ->
  audit (tr ++ [(c, r)]) = Some m.
Proof.
  intros Ha Hc Hd Ht. rewrite (audit_snoc _ _ _ Ha). unfold audit_step. simpl. rewrite Hc, Hd.
  assert (forallb (has_kind m) (touches c) = true) as ->; [|done].
  apply Is_true_true, forallb_True. eapply Forall_impl; [exact Ht|]. intros hk [deps E]. unfold has_kind. rewrite E.
  by apply bool_decide_spec.
Qed.

(** ** Consequences of the invariant *)

Lemma count_elem x l : x ∈ l -> (0 < count x l)%nat.
Proof.
  intros H. unfold count. destruct (filter (fun y => y = x) l) eqn:E; [|simpl; lia].
  assert (Hf : x ∈ filter (fun y => y = x) l) by by apply list_elem_of_filter. rewrite E in Hf.
  by apply not_elem_of_nil in Hf.
Qed.

Lemma objs_eq {A} (h h' : gmap Z (cell A)) :
  (forall l, obj <$> h' !! l = obj <$> h !! l) -> obj <$> h' = obj <$> h.
Proof. intros E. apply map_eq. intros l. by rewrite !lookup_fmap. Qed.

Lemma jfr_fields_elem h l c : h !! l = Some c -> snd c.(obj) ∈ jfr_fields h.
Proof.
  intros E. unfold jfr_fields. apply list_elem_of_fmap. exists (l, obj c). split; [done|].
  apply elem_of_map_to_list. by rewrite lookup_fmap, E.
Qed.

Lemma jfr_fields_insert h l c :
  h !! l = None -> Permutation (jfr_fields (<[l := c]> h)) (snd c.(obj) :: jfr_fields h).
Proof.
  intros E. unfold jfr_fields. rewrite fmap_insert, map_to_list_insert; [done|]. by rewrite lookup_fmap, E.
Qed.

Lemma jfr_fields_delete h l c :
  h !! l = Some c -> Permutation (jfr_fields h) (snd c.(obj) :: jfr_fields (delete l h)).
Proof.
  intros E. unfold jfr_fields. rewrite fmap_delete.
  rewrite <- (map_to_list_delete (obj <$> h) l (obj c)) by (by rewrite lookup_fmap, E). done.
Qed.

Section Wf.
Context {b : base} {p : refs_of} {s : sys}.
Hypothesis W : wf b p s.

Lemma handle_nonnull o h r : owned b p s o = Some (h, r) -> h <> 0.
Proof.
  intros Ho ->. destruct (wf_audit _ _ _ W) as (m & _ & Hm & Hn).
  assert (m !! 0 = Some r) by (apply (ma_live _ _ Hm); eauto). congruence.
Qed.

Lemma ctx_nonnull c : b.(b_ctx) = Some c -> c <> 0.
Proof. intros E. apply (handle_nonnull OCtx _ (KContext, [])). simpl. by rewrite E. Qed.

Lemma jfc_nonnull c : b.(b_jfc) = Some c -> c <> 0.
Proof. intros E. eapply (handle_nonnull OJfc). simpl. by rewrite E. Qed.

Lemma jfr_field_live l c : s.(jetty_objs) !! l = Some c -> is_Some (s.(jfrs) !! snd c.(obj)).
Proof.
  intros E. destruct (jfrs s !! snd (obj c)) eqn:Ej; [by eauto|]. exfalso.
  apply (ro_none _ _ (wf_jfr _ _ _ W)) in Ej; [|by apply (wf_fields _ _ _ W l)].
  rewrite count_app in Ej. pose proof (count_elem _ _ (jfr_fields_elem _ _ _ E)). lia.
Qed.

End Wf.

(** A state in which only counts differ. *)
Lemma wf_same_objs b p p' s s' :
  wf b p s -> s'.(trace) = s.(trace) -> s'.(next_loc) = s.(next_loc) -> p'.(p_target) = p.(p_target) ->
  (forall l, obj <$> s'.(jfrs) !! l = obj <$> s.(jfrs) !! l) ->
  (forall l, obj <$> s'.(jetty_objs) !! l = obj <$> s.(jetty_objs) !! l) ->
  (forall l, obj <$> s'.(lsegs) !! l = obj <$> s.(lsegs) !! l) ->
  (forall l, obj <$> s'.(rsegs) !! l = obj <$> s.(rsegs) !! l) ->
  refs_ok s'.(jfrs) (p'.(p_jfr) ++ jfr_fields s.(jetty_objs)) -> refs_ok s'.(jetty_objs) p'.(p_jetty) ->
  refs_ok s'.(lsegs) p'.(p_lseg) -> refs_ok s'.(rsegs) p'.(p_rseg) -> wf b p' s'.
Proof.
  intros W Et En Eg E1 E2 E3 E4 R1 R2 R3 R4.
  assert (Ej : forall l, jfr_handle s' l = jfr_handle s l).
  { intros l. unfold jfr_handle. specialize (E1 l). destruct (jfrs s' !! l), (jfrs s !! l); simplify_eq/=; congruence. }
  assert (Eo : forall o, owned b p' s' o = owned b p s o).
  { intros []; simpl; rewrite ?E1, ?E2, ?E3, ?E4, ?Eg; try done.
    destruct (obj <$> jetty_objs s !! l); simpl; [|done]. by rewrite Ej. }
  assert (Hsome : forall A (h h' : gmap Z (cell A)) l, obj <$> h' !! l = obj <$> h !! l -> is_Some (h' !! l) -> is_Some (h !! l)).
  { intros A h h' l E [c Hc]. rewrite Hc in E. destruct (h !! l); [by eauto|done]. }
  assert (Hnone : forall A (h h' : gmap Z (cell A)) l, obj <$> h' !! l = obj <$> h !! l -> h !! l = None -> h' !! l = None).
  { intros A h h' l E Hc. rewrite Hc in E. by destruct (h' !! l). }
  split; try done.
  - rewrite Et. destruct (wf_audit _ _ _ W) as (m & Ha & Hm & Hn). exists m. split; [done|]. split; [|done].
    by apply (matches_ext (owned b p s)).
  - unfold jfr_fields. by rewrite (objs_eq _ _ E2).
  - rewrite Eg. apply W.
  - intros o. rewrite Eo. apply W.
  - intros l Hl. apply (wf_jfc _ _ _ W l). destruct Hl; [left|right]; eauto.
  - intros l c Hc. specialize (E2 l). rewrite Hc in E2. destruct (jetty_objs s !! l) as [c'|] eqn:E; [|done].
    simpl in E2. injection E2 as E2. rewrite E2. by apply (wf_fields _ _ _ W l).
  - rewrite En. destruct (wf_next _ _ _ W) as [Hp Hl]. split; [done|]. intros l Hle.
    destruct (Hl l Hle) as (? & ? & ? & ?). eauto 10.
Qed.

Lemma wf_trace b p s tr : audit tr = audit s.(trace) -> wf b p s -> wf b p (with_trace tr s).
Proof. intros E W. split; simpl; try apply W. rewrite E. apply W. Qed.

(** ** Making and deleting handles *)

Definition has_owner (b : base) (p : refs_of) (s : sys) (d : Z) : Prop := exists o r, owned b p s o = Some (d, r).

(** The library's half of a state in which a new handle has got an owner. *)
Lemma wf_created `{Liburma} b p s b' p' s' c o k deps :
  fresh_handles -> wf b p s -> created c = Some (k, deps) -> Forall (has_owner b p s) deps ->
  answer s.(trace) c <> 0 -> s'.(trace) = s.(trace) ++ [(c, answer s.(trace) c)] ->
  owned b p s o = None -> owned b' p' s' o = Some (answer s.(trace) c, (k, deps)) ->
  (forall o', o' <> o -> owned b' p' s' o' = owned b p s o') ->
  exists m, audit s'.(trace) = Some m /\ matches (owned b' p' s') m /\ m !! 0 = None.
Proof.
  intros Hf W Hc Hd Hr Et Ho Ho' E. destruct (wf_audit _ _ _ W) as (m & Ha & Hm & Hn).
  pose proof (Hf _ _ _ _ Ha Hc Hr) as Hnew. exists (<[answer (trace s) c := (k, deps)]> m).
  split; [|split; [by eapply matches_add|by rewrite lookup_insert_ne]].
  rewrite Et, (audit_created _ m c _ k deps); try done; [by destruct (Z.eqb_spec (answer (trace s) c) 0)|].
  eapply Forall_impl; [exact Hd|]. intros d (o' & r & Hr'). exists r. apply (ma_live _ _ Hm). eauto.
Qed.

(** A create call that returned null. *)
Lemma wf_not_created `{Liburma} b p s c k deps :
  wf b p s -> created c = Some (k, deps) -> Forall (has_owner b p s) deps -> answer s.(trace) c = 0 ->
  wf b p (with_trace (s.(trace) ++ [(c, answer s.(trace) c)]) s).
Proof.
  intros W Hc Hd Hr. apply wf_trace; [|done]. destruct (wf_audit _ _ _ W) as (m & Ha & Hm & Hn). rewrite Ha, Hr.
  rewrite (audit_created _ m c _ k deps); try done.
  eapply Forall_impl; [exact Hd|]. intros d (o' & r & Hr'). exists r. apply (ma_live _ _ Hm). eauto.
Qed.

(** The library's half of a state in which an owner has given up its handle. *)
Lemma wf_deleted b p s b' p' s' c r o k h deps :
  wf b p s -> created c = None -> deleted c = Some (k, h) -> owned b p s o = Some (h, (k, deps)) ->
  (forall o', is_Some (owned b p s o') -> o ∉ parents b s o') ->
  s'.(trace) = s.(trace) ++ [(c, r)] ->
  owned b' p' s' o = None -> (forall o', o' <> o -> owned b' p' s' o' = owned b p s o') ->
  exists m, audit s'.(trace) = Some m /\ matches (owned b' p' s') m /\ m !! 0 = None.
Proof.
  intros W Hc Hd Ho Hp Et Ho' E. destruct (wf_audit _ _ _ W) as (m & Ha & Hm & Hn). exists (delete h m).
  split; [|split; [by eapply matches_del|by rewrite lookup_delete_None; right]].
  rewrite Et. eapply audit_deleted; [done|done|done| |].
  - apply (ma_live _ _ Hm). eauto.
  - eapply owner_childless; [done..|by eapply handle_nonnull|done].
Qed.

(** A call on live handles. *)
Lemma wf_touched b p s c r :
  wf b p s -> created c = None -> deleted c = None ->
  Forall (fun hk => exists o deps, owned b p s o = Some (fst hk, (snd hk, deps))) (touches c) ->
  wf b p (with_trace (s.(trace) ++ [(c, r)]) s).
Proof.
  intros W Hc Hd Ht. apply wf_trace; [|done]. destruct (wf_audit _ _ _ W) as (m & Ha & Hm & Hn). rewrite Ha.
  apply audit_touched; [done..|]. eapply Forall_impl; [exact Ht|]. intros hk (o & deps & Ho). exists deps.
  apply (ma_live _ _ Hm). eauto.
Qed.

(** ** References *)

Definition add_jfr (l : Z) (p : refs_of) : refs_of :=
  mk_refs (l :: p.(p_jfr)) p.(p_jetty) p.(p_lseg) p.(p_rseg) p.(p_target).
Definition add_jetty (l : Z) (p : refs_of) : refs_of :=
  mk_refs p.(p_jfr) (l :: p.(p_jetty)) p.(p_lseg) p.(p_rseg) p.(p_target).
Definition add_lseg (l : Z) (p : refs_of) : refs_of :=
  mk_refs p.(p_jfr) p.(p_jetty) (l :: p.(p_lseg)) p.(p_rseg) p.(p_target).
Definition add_rseg (l : Z) (p : refs_of) : refs_of :=
  mk_refs p.(p_jfr) p.(p_jetty) p.(p_lseg) (l :: p.(p_rseg)) p.(p_target).
Definition add_target (h : Z) (p : refs_of) : refs_of :=
  mk_refs p.(p_jfr) p.(p_jetty) p.(p_lseg) p.(p_rseg) (h :: p.(p_target)).

(** A proof that an owner other than the changed one holds what it held. *)
Ltac other_owner :=
  let o := fresh "o" in let Hne := fresh "Hne" in
  intros o Hne; destruct o; simpl; try done;
  first [ rewrite lookup_insert_ne by congruence; done
        | rewrite lookup_delete_ne by congruence; done
        | idtac ].

Lemma owner_elem {A} (h : gmap Z (cell A)) owners l : refs_ok h owners -> l ∈ owners -> l <> 0 -> is_Some (h !! l).
Proof.
  intros R Hl Hn. destruct (h !! l) eqn:E; [by eauto|]. apply (ro_none _ _ R) in E; [|done].
  pose proof (count_elem _ _ Hl). lia.
Qed.

Lemma share_jfr_wf b p l :
  (l ∈ p.(p_jfr)) -> triple (wf b p) (share_jfr l) (fun _ => wf b (add_jfr l p)).
Proof.
  intros Hl s W. simpl. eapply wf_same_objs; [exact W|..]; simpl; try done; try apply W.
  - intros l'. apply incref_obj.
  - apply refs_ok_incref; [apply W|]. intros Hn. eapply owner_elem; [apply W|set_solver|done].
Qed.

Lemma share_jetty_wf b p l :
  (l ∈ p.(p_jetty) \/ l = 0) -> triple (wf b p) (share_jetty l) (fun _ => wf b (add_jetty l p)).
Proof.
  intros Hl s W. simpl. eapply wf_same_objs; [exact W|..]; simpl; try done; try apply W.
  - intros l'. apply incref_obj.
  - apply refs_ok_incref; [apply W|]. intros Hn. destruct Hl as [Hl|]; [|done]. eapply owner_elem; [apply W|done..].
Qed.

Lemma share_lseg_wf b p l :
  (l ∈ p.(p_lseg)) -> triple (wf b p) (share_lseg l) (fun _ => wf b (add_lseg l p)).
Proof.
  intros Hl s W. simpl. eapply wf_same_objs; [exact W|..]; simpl; try done; try apply W.
  - intros l'. apply incref_obj.
  - apply refs_ok_incref; [apply W|]. intros Hn. eapply owner_elem; [apply W|done..].
Qed.

Section Drops.
Context `{Liburma}.
Context (b : base) (p : refs_of) (l : Z).

Lemma drop_jfr_wf : triple (wf b (add_jfr l p)) (drop_jfr l) (fun _ => wf b p).
Proof.
  intros s W. unfold drop_jfr. destruct (refs_ok_decref _ _ _ (wf_jfr _ _ _ W)) as [R D].
  destruct (decref l (jfrs s)) as [[raw|] h] eqn:Ed; simpl in *.
  - destruct D as (c & Hc & -> & -> & Hcount). rewrite count_app in Hcount.
    assert (Hfield : forall l' c', jetty_objs s !! l' = Some c' -> snd (obj c') <> l).
    { intros l' c' Hl' Heq. pose proof (jfr_fields_elem _ _ _ Hl') as He. rewrite Heq in He. apply count_elem in He. lia. }
    assert (Hown : owned b (add_jfr l p) s (OJfr l) = Some (obj c, (KJfr, [ptr (b_ctx b); ptr (b_jfc b)])))
      by (simpl; by rewrite Hc).
    split; [|simpl; try (by apply W); try done..].
    + eapply (wf_deleted b _ s _ _ _ (urma_delete_jfr (obj c)) _ (OJfr l)); [exact W|done|done|exact Hown|..]; simpl; try done.
      * intros o' Ho' Hin. destruct o'; simpl in Hin; try set_solver.
        -- destruct (b_bound b); set_solver.
        -- destruct (jetty_objs s !! l0) as [c'|] eqn:E; simpl in Hin; [|set_solver]. pose proof (Hfield _ _ E). set_solver.
      * by rewrite lookup_delete_eq.
      * other_owner. destruct (jetty_objs s !! l0) as [c'|] eqn:E; simpl; [|done]. unfold jfr_handle. simpl.
        by rewrite lookup_delete_ne by (intros Heq; by apply (Hfield _ _ E)).
    + intros o [x Ho]. apply (wf_ctx _ _ _ W (OJfr l)). by rewrite Hown.
    + intros l' [[c' Hl']|Hl']; apply (wf_jfc _ _ _ W l'); [left|by right]. apply lookup_delete_Some in Hl' as [_ ?]. eauto.
    + destruct (wf_next _ _ _ W) as [Hp Hl]. split; [done|]. intros l' Hle. destruct (Hl l' Hle) as (? & ?).
      split; [by apply lookup_delete_None; right|done].
  - eapply wf_same_objs; [exact W|..]; simpl; try done; try apply W.
Qed.

Lemma drop_lseg_wf : triple (wf b (add_lseg l p)) (drop_lseg l) (fun _ => wf b p).
Proof.
  intros s W. unfold drop_lseg. destruct (refs_ok_decref _ _ _ (wf_lseg _ _ _ W)) as [R D].
  destruct (decref l (lsegs s)) as [[raw|] h] eqn:Ed; simpl in *.
  - destruct D as (c & Hc & -> & -> & Hcount).
    assert (Hown : owned b (add_lseg l p) s (OLseg l) = Some (obj c, (KSeg, [ptr (b_ctx b)]))) by (simpl; by rewrite Hc).
    split; [|simpl; try (by apply W); try done..].
    + eapply (wf_deleted b _ s _ _ _ (urma_unregister_seg (obj c)) _ (OLseg l)); [exact W|done|done|exact Hown|..]; simpl; try done.
      * intros o' Ho' Hin. destruct o'; simpl in Hin; try set_solver.
        -- destruct (b_bound b); set_solver.
        -- destruct (jetty_objs s !! l0); simpl in Hin; set_solver.
      * by rewrite lookup_delete_eq.
      * other_owner.
    + intros o [x Ho]. apply (wf_ctx _ _ _ W (OLseg l)). by rewrite Hown.
    + destruct (wf_next _ _ _ W) as [Hp Hl]. split; [done|]. intros l' Hle. destruct (Hl l' Hle) as (? & ? & ? & ?).
      repeat split; try done. by apply lookup_delete_None; right.
  - eapply wf_same_objs; [exact W|..]; simpl; try done; try apply W.
Qed.

Lemma drop_rseg_wf : triple (wf b (add_rseg l p)) (drop_rseg l) (fun _ => wf b p).
Proof.
  intros s W. unfold drop_rseg. destruct (refs_ok_decref _ _ _ (wf_rseg _ _ _ W)) as [R D].
  destruct (decref l (rsegs s)) as [[raw|] h] eqn:Ed; simpl in *.
  - destruct D as (c & Hc & -> & -> & Hcount).
    assert (Hown : owned b (add_rseg l p) s (ORseg l) = Some (obj c, (KRemote, [ptr (b_ctx b)]))) by (simpl; by rewrite Hc).
    split; [|simpl; try (by apply W); try done..].
    + eapply (wf_deleted b _ s _ _ _ (urma_unimport_seg (obj c)) _ (ORseg l)); [exact W|done|done|exact Hown|..]; simpl; try done.
      * intros o' Ho' Hin. destruct o'; simpl in Hin; try set_solver.
        -- destruct (b_bound b); set_solver.
        -- destruct (jetty_objs s !! l0); simpl in Hin; set_solver.
      * by rewrite lookup_delete_eq.
      * other_owner.
    + intros o [x Ho]. apply (wf_ctx _ _ _ W (ORseg l)). by rewrite Hown.
    + destruct (wf_next _ _ _ W) as [Hp Hl]. split; [done|]. intros l' Hle. destruct (Hl l' Hle) as (? & ? & ? & ?).
      repeat split; try done. by apply lookup_delete_None; right.
  - eapply wf_same_objs; [exact W|..]; simpl; try done; try apply W.
Qed.

End Drops.

Lemma drop_jetty_wf `{Liburma} b p l : triple (wf b (add_jetty l p)) (drop_jetty l) (fun _ => wf b p).
Proof.
  intros s W. unfold drop_jetty. destruct (refs_ok_decref _ _ _ (wf_jetty _ _ _ W)) as [R D].
  destruct (decref l (jetty_objs s)) as [[[raw jfr]|] h] eqn:Ed; simpl in R, D.
  - destruct D as (c & Hc & Hobj & -> & Hcount).
    assert (Hown : owned b (add_jetty l p) s (OJetty l) =
      Some (raw, (KJetty, [ptr (b_ctx b); ptr (b_jfc b); ptr (b_jfc b); jfr_handle s jfr]))).
    { simpl. rewrite Hc. simpl. by rewrite <- Hobj. }
    assert (Hfields : Permutation (jfr_fields (jetty_objs s)) (jfr :: jfr_fields (delete l (jetty_objs s)))).
    { rewrite (jfr_fields_delete _ _ _ Hc). by rewrite <- Hobj. }
    enough (W' : wf b (add_jfr jfr p) (snd (call (urma_delete_jetty raw) (with_jettys (delete l (jetty_objs s)) s))))
      by exact (drop_jfr_wf b p jfr _ W').
    split; [|simpl; try (by apply W); try done..].
    + eapply (wf_deleted b _ s _ _ _ (urma_delete_jetty raw) _ (OJetty l)); [exact W|done|done|exact Hown|..]; simpl; try done.
      * intros o' Ho' Hin. destruct o'; simpl in Hin; try set_solver.
        -- destruct (b_bound b); set_solver.
        -- destruct (jetty_objs s !! l0); simpl in Hin; set_solver.
      * by rewrite lookup_delete_eq.
      * other_owner.
    + eapply refs_ok_count; [|apply W]. intros x Hx. unfold count. simpl. rewrite Hfields. by rewrite <- Permutation_middle.
    + intros o [x Ho]. apply (wf_ctx _ _ _ W (OJetty l)). by rewrite Hown.
    + intros l' [Hl'|[c' Hl']]; apply (wf_jfc _ _ _ W l'); [by left|right]. apply lookup_delete_Some in Hl' as [_ ?]. eauto.
    + intros l' c' Hl'. apply lookup_delete_Some in Hl' as [_ Hl']. by apply (wf_fields _ _ _ W l').
    + destruct (wf_next _ _ _ W) as [Hp Hl]. split; [done|]. intros l' Hle. destruct (Hl l' Hle) as (? & ? & ? & ?).
      repeat split; try done. by apply lookup_delete_None; right.
  - simpl. eapply wf_same_objs; [exact W|..]; simpl; try done; try apply W.
Qed.

(** ** New objects *)

Section Creates.
Context `{Liburma}.
Hypothesis Hfresh : fresh_handles.
Context (b : base) (p : refs_of).

Lemma call_bind {A} c (f : Z -> ST sys A) s :
  (call c ≫= f) s = f (answer s.(trace) c) (with_trace (s.(trace) ++ [(c, answer s.(trace) c)]) s).
Proof. done. Qed.

Lemma ctx_owner s c : b.(b_ctx) = Some c -> has_owner b p s c.
Proof. intros E. exists OCtx. simpl. rewrite E. eexists. done. Qed.

Lemma jfc_owner s c : b.(b_jfc) = Some c -> has_owner b p s c.
Proof. intros E. exists OJfc. simpl. rewrite E. eexists. done. Qed.

(** Locations from [next_loc] on are free. *)
Lemma next_free s : wf b p s ->
  next_loc s <> 0 /\ s.(jfrs) !! next_loc s = None /\ s.(jetty_objs) !! next_loc s = None /\
  s.(lsegs) !! next_loc s = None /\ s.(rsegs) !! next_loc s = None.
Proof. intros W. destruct (wf_next _ _ _ W) as [Hp Hl]. split; [lia|]. apply Hl. lia. Qed.

Ltac next_ok W := destruct (wf_next _ _ _ W) as [? Hnext]; split; [lia|]; intros l' Hle;
  destruct (Hnext l') as (? & ? & ? & ?); [lia|]; repeat split; try done;
  rewrite lookup_insert_ne by lia; done.

Lemma UrmaJfr_Create_wf ctx jfc depth token tm :
  b.(b_ctx) = Some ctx -> b.(b_jfc) = Some jfc ->
  triple (wf b p) (UrmaJfr_Create ctx depth token jfc tm)
    (fun o => match o with None => wf b p | Some l => fun s => l <> 0 /\ wf b (add_jfr l p) s end).
Proof.
  intros Ec Ej s W. unfold UrmaJfr_Create. pose proof (ctx_nonnull W _ Ec). pose proof (jfc_nonnull W _ Ej).
  destruct (Z.eqb_spec ctx nullptr); [done|]. destruct (Z.eqb_spec jfc nullptr); [done|]. simpl.
  set (c := urma_create_jfr ctx _). rewrite call_bind.
  assert (Hd : Forall (has_owner b p s) [ctx; jfc]) by (repeat constructor; [by apply ctx_owner|by apply jfc_owner]).
  destruct (Z.eqb_spec (answer (trace s) c) nullptr) as [E|E]; simpl.
  - by eapply (wf_not_created b p s c).
  - destruct (next_free s W) as (Hn0 & Hn1 & _). split; [done|]. split; [|simpl; try (by apply W); try done; try (intros; by rewrite ?Ec, ?Ej)..].
    + eapply (wf_created b p s _ _ _ c (OJfr (next_loc s))); [done..| | |]; simpl.
      * by rewrite Hn1.
      * rewrite lookup_insert_eq. simpl. by rewrite Ec, Ej.
      * other_owner. destruct (jetty_objs s !! l) as [c'|] eqn:El; simpl; [|done]. unfold jfr_handle. simpl.
        rewrite lookup_insert_ne; [done|]. intros E'. destruct (jfr_field_live W _ _ El) as [? E'']. congruence.
    + apply refs_ok_alloc; [apply W|done|done].
    + next_ok W.
Qed.

(** The jetty takes over the reference to its receive queue. *)
Lemma new_jetty_wf r ctx jfc jfr s :
  b.(b_ctx) = Some ctx -> b.(b_jfc) = Some jfc -> Ctx r = ctx -> Jfc r = jfc -> jfr <> 0 ->
  wf b (add_jfr jfr p) s ->
  let c := urma_create_jetty ctx (jetty_cfg r (jfr_handle s jfr)) in
  let raw := answer s.(trace) c in
  if raw =? 0 then wf b (add_jfr jfr p) (with_trace (s.(trace) ++ [(c, raw)]) s)
  else wf b (add_jetty s.(next_loc) p) (snd (new_jetty raw jfr (with_trace (s.(trace) ++ [(c, raw)]) s))).
Proof.
  intros Ec Ej Ecr Ejr Hj W c raw.
  destruct (refs_ok_owner _ _ _ (wf_jfr _ _ _ W) Hj) as [cj Hcj].
  assert (Hd : Forall (has_owner b (add_jfr jfr p) s) [ctx; jfc; jfc; jfr_handle s jfr]).
  { assert (has_owner b (add_jfr jfr p) s jfc) by (exists OJfc; simpl; rewrite Ej; eexists; done).
    repeat constructor; try done; [exists OCtx; simpl; rewrite Ec; eexists; done|].
    exists (OJfr jfr). unfold jfr_handle. simpl. rewrite Hcj. simpl. eauto. }
  assert (Hcr : created c = Some (KJetty, [ctx; jfc; jfc; jfr_handle s jfr])) by (simpl; by rewrite Ejr).
  destruct (Z.eqb_spec raw 0) as [E|E]; [by eapply (wf_not_created b _ s c)|].
  destruct (wf_next _ _ _ W) as [Hn0 Hn1]. destruct (Hn1 (next_loc s)) as (_ & Hn2 & _); [lia|].
  split; [|simpl; try (by apply W); try done; try (intros; by rewrite ?Ec, ?Ej)..].
  - eapply (wf_created b _ s _ _ _ c (OJetty (next_loc s))); [exact Hfresh|exact W|exact Hcr|exact Hd|done|done|..]; simpl.
    + by rewrite Hn2.
    + rewrite lookup_insert_eq. simpl. by rewrite Ec, Ej.
    + other_owner.
  - eapply refs_ok_count; [|apply W]. intros x Hx. unfold count. rewrite (jfr_fields_insert _ _ _ Hn2).
    simpl. by rewrite <- Permutation_middle.
  - apply refs_ok_alloc; [apply W|done|lia].
  - intros l c' Hl. apply lookup_insert_Some in Hl as [[_ <-]|[_ Hl]]; [done|]. by apply (wf_fields _ _ _ W l).
  - split; [lia|]. intros l' Hle. destruct (Hn1 l') as (? & ? & ? & ?); [lia|]. repeat split; try done.
    by rewrite lookup_insert_ne by lia.
Qed.

Lemma UrmaLocalSegment_Register_wf ctx va len token ca :
  b.(b_ctx) = Some ctx ->
  triple (wf b p) (UrmaLocalSegment_Register ctx va len token ca)
    (fun o => match o with None => wf b p | Some l => fun s => l <> 0 /\ wf b (add_lseg l p) s end).
Proof.
  intros Ec s W. unfold UrmaLocalSegment_Register. pose proof (ctx_nonnull W _ Ec).
  destruct (Z.eqb_spec ctx nullptr); [done|]. simpl. set (c := urma_register_seg ctx _). rewrite call_bind.
  assert (Hd : Forall (has_owner b p s) [ctx]) by (repeat constructor; by apply ctx_owner).
  destruct (Z.eqb_spec (answer (trace s) c) nullptr) as [E|E]; simpl; [by eapply (wf_not_created b p s c)|].
  destruct (next_free s W) as (Hn0 & _ & _ & Hn1 & _). split; [done|]. split; [|simpl; try (by apply W); try done; try (intros; by rewrite ?Ec, ?Ej)..].
  - eapply (wf_created b p s _ _ _ c (OLseg (next_loc s))); [done..| | |]; simpl.
    + by rewrite Hn1.
    + rewrite lookup_insert_eq. simpl. by rewrite Ec.
    + other_owner.
  - apply refs_ok_alloc; [apply W|done|done].
  - next_ok W.
Qed.

Lemma UrmaRemoteSegment_Import_wf ctx seg token ca :
  b.(b_ctx) = Some ctx ->
  triple (wf b p) (UrmaRemoteSegment_Import ctx seg token ca)
    (fun o => match o with None => wf b p | Some l => fun s => l <> 0 /\ wf b (add_rseg l p) s end).
Proof.
  intros Ec s W. unfold UrmaRemoteSegment_Import. pose proof (ctx_nonnull W _ Ec).
  destruct (Z.eqb_spec ctx nullptr); [done|]. simpl. set (c := urma_import_seg ctx _ _ _ _). rewrite call_bind.
  assert (Hd : Forall (has_owner b p s) [ctx]) by (repeat constructor; by apply ctx_owner).
  destruct (Z.eqb_spec (answer (trace s) c) nullptr) as [E|E]; simpl; [by eapply (wf_not_created b p s c)|].
  destruct (next_free s W) as (Hn0 & _ & _ & _ & Hn1). split; [done|]. split; [|simpl; try (by apply W); try done; try (intros; by rewrite ?Ec, ?Ej)..].
  - eapply (wf_created b p s _ _ _ c (ORseg (next_loc s))); [done..| | |]; simpl.
    + by rewrite Hn1.
    + rewrite lookup_insert_eq. simpl. by rewrite Ec.
    + other_owner.
  - apply refs_ok_alloc; [apply W|done|done].
  - next_ok W.
Qed.

Lemma UrmaTargetJetty_Import_wf ctx rj token :
  b.(b_ctx) = Some ctx ->
  triple (wf b p) (UrmaTargetJetty_Import ctx rj token)
    (fun o => match o with None => wf b p | Some h => fun s => h <> 0 /\ wf b (add_target h p) s end).
Proof.
  intros Ec s W. unfold UrmaTargetJetty_Import. pose proof (ctx_nonnull W _ Ec).
  destruct (Z.eqb_spec ctx nullptr); [done|]. simpl. set (c := urma_import_jetty ctx _ _).
  assert (Hd : Forall (has_owner b p s) [ctx]) by (repeat constructor; by apply ctx_owner).
  destruct (Z.eqb_spec (answer (trace s) c) nullptr) as [E|E]; simpl; [by eapply (wf_not_created b p s c)|].
  assert (Hnew : answer (trace s) c ∉ p_target p).
  { intros Hin. destruct (wf_audit _ _ _ W) as (m & Ha & Hm & _). pose proof (Hfresh _ _ c (KTarget, [ctx]) Ha eq_refl E) as Hn.
    assert (m !! answer (trace s) c = Some (KTarget, [ptr (b_ctx b)])); [|congruence].
    apply (ma_live _ _ Hm). exists (OTarget (answer (trace s) c)). simpl. by rewrite decide_True. }
  split; [done|]. split; [|simpl; try (by apply W); try done; try (intros; by rewrite ?Ec, ?Ej)..].
  - eapply (wf_created b p s _ _ _ c (OTarget (answer (trace s) c))); [done..| | |]; simpl.
    + by rewrite decide_False.
    + rewrite decide_True by set_solver. by rewrite Ec.
    + other_owner. apply decide_ext. split; [|set_solver]. intros [->|]%elem_of_cons; [done|done].
  - constructor; [done|apply W].
Qed.

Lemma del_target_wf h :
  triple (wf b (add_target h p)) (del_target (Some h)) (fun _ => wf b p).
Proof.
  intros s W. simpl. pose proof (wf_target _ _ _ W) as Hnd. simpl in Hnd. apply NoDup_cons in Hnd as [Hni Hnd].
  assert (Hown : owned b (add_target h p) s (OTarget h) = Some (h, (KTarget, [ptr (b_ctx b)])))
    by (simpl; rewrite decide_True by set_solver; done).
  split; [|simpl; try (by apply W); try done; try (intros; by rewrite ?Ec, ?Ej)..].
  - eapply (wf_deleted b _ s _ _ _ (urma_unimport_jetty h) _ (OTarget h)); [exact W|done|done|exact Hown|..]; simpl; try done.
    + intros o' Ho' Hin. destruct o'; simpl in Hin; try set_solver.
      * destruct (b_bound b); set_solver.
      * destruct (jetty_objs s !! l); simpl in Hin; set_solver.
    + by rewrite decide_False.
    + other_owner. apply decide_ext. set_solver.
  - intros o [x Ho]. apply (wf_ctx _ _ _ W (OTarget h)). by rewrite Hown.
Qed.

End Creates.

(** ** The members behind a [unique_ptr] *)

Section Base.
Context `{Liburma}.
Hypothesis Hfresh : fresh_handles.
Context (p : refs_of).

(** Without a context there is nothing. *)
Lemma no_ctx_nothing b s o : wf b p s -> b.(b_ctx) = None -> owned b p s o = None.
Proof.
  intros W E. destruct (owned b p s o) eqn:Eo; [|done]. destruct (wf_ctx _ _ _ W o) as [? Ec]; [by rewrite Eo|congruence].
Qed.

Lemma UrmaContext_Create_wf dev eid :
  triple (wf (mk_base None None None false) p) (UrmaContext_Create dev eid)
    (fun o => wf (mk_base o None None false) p).
Proof.
  intros s W. unfold UrmaContext_Create. destruct (dev =? nullptr); [done|]. rewrite call_bind.
  set (c := urma_create_context dev eid).
  destruct (Z.eqb_spec (answer (trace s) c) nullptr) as [E|E]; [by eapply (wf_not_created _ p s c)|].
  pose proof (fun o => no_ctx_nothing _ _ o W eq_refl) as Hno.
  split; [|simpl; try (by apply W); try done..].
  - eapply (wf_created _ p s _ _ _ c OCtx); [done..|].
    intros o Hne. rewrite Hno. specialize (Hno o). destruct o; simpl in *; try done.
    + by destruct (jfrs s !! l).
    + by destruct (jetty_objs s !! l).
    + by destruct (lsegs s !! l).
    + by destruct (rsegs s !! l).
    + by destruct (decide _).
Qed.

Lemma UrmaJfce_Create_wf c bd :
  triple (wf (mk_base (Some c) None None bd) p) (UrmaJfce_Create c)
    (fun o => wf (mk_base (Some c) o None bd) p).
Proof.
  intros s W. unfold UrmaJfce_Create. pose proof (ctx_nonnull W c eq_refl). destruct (Z.eqb_spec c nullptr); [done|].
  rewrite call_bind. set (k := urma_create_jfce c).
  assert (Hd : Forall (has_owner (mk_base (Some c) None None bd) p s) [c]) by (repeat constructor; by apply ctx_owner).
  destruct (Z.eqb_spec (answer (trace s) k) nullptr) as [E|E]; [by eapply (wf_not_created _ p s k)|].
  split; [|simpl; try (by apply W); try done..].
  eapply (wf_created _ p s _ _ _ k OJfce); [done..|]. intros o Hne. by destruct o.
Qed.

Lemma UrmaJfc_Create_wf c e attr jfce bd :
  jfce = 0 \/ jfce = e ->
  triple (wf (mk_base (Some c) (Some e) None bd) p) (UrmaJfc_Create c attr jfce)
    (fun o => wf (mk_base (Some c) (Some e) o (match o with Some _ => negb (jfce =? 0) | None => bd end)) p).
Proof.
  intros He s W. unfold UrmaJfc_Create. pose proof (ctx_nonnull W c eq_refl). destruct (Z.eqb_spec c nullptr); [done|].
  rewrite call_bind. set (k := urma_create_jfc c _).
  assert (Hd : Forall (has_owner (mk_base (Some c) (Some e) None bd) p s) (c :: (if jfce =? 0 then [] else [jfce]))).
  { constructor; [by apply ctx_owner|]. destruct (Z.eqb_spec jfce 0); constructor; [|done].
    destruct He as [? | ->]; [done|]. exists OJfce. simpl. eauto. }
  destruct (Z.eqb_spec (answer (trace s) k) nullptr) as [E|E]; [by eapply (wf_not_created _ p s k)|].
  assert (Hno : forall l, jfrs s !! l = None /\ jetty_objs s !! l = None).
  { intros l. assert (Hj : ~ (is_Some (jfrs s !! l) \/ is_Some (jetty_objs s !! l)))
      by (intros Hl; by destruct (wf_jfc _ _ _ W l Hl)).
    split; apply eq_None_not_Some; naive_solver. }
  split; [|simpl; try (by apply W); try done..].
  - eapply (wf_created _ p s _ _ _ k OJfc); [done..| |].
    + simpl. do 3 f_equal. by destruct (Z.eqb_spec jfce 0), He as [? | ->].
    + intros o Hne. destruct o; try done; simpl.
      * by rewrite (proj1 (Hno l)).
      * by rewrite (proj2 (Hno l)).
Qed.

Lemma del_jfc_wf c e q bd :
  triple (fun s => wf (mk_base c e q bd) p s /\ s.(jfrs) = ∅ /\ s.(jetty_objs) = ∅) (del_jfc q)
    (fun _ => wf (mk_base c e None bd) p).
Proof.
  intros s (W & E1 & E2). destruct q as [q|]; [|done]. simpl. split; [|simpl; try (by apply W); try done..].
  - eapply (wf_deleted (mk_base c e (Some q) bd) p s _ _ _ (urma_delete_jfc q) _ OJfc); [done..| |done|done|].
    + intros o' [x Ho'] Hin. destruct o'; simpl in *; rewrite ?E1, ?E2, ?lookup_empty in Ho'; try done; try set_solver.
      destruct bd; set_solver.
    + intros o Hne. destruct o; try done; simpl; by rewrite ?E1, ?E2, ?lookup_empty.
  - intros o [x Ho]. apply (wf_ctx _ _ _ W OJfc). done.
  - intros l. rewrite E1, E2, !lookup_empty. by intros [[? ?]|[? ?]].
Qed.

Lemma del_jfce_wf c e bd :
  triple (wf (mk_base c e None bd) p) (del_jfce e) (fun _ => wf (mk_base c None None bd) p).
Proof.
  intros s W. destruct e as [e|]; [|done]. simpl. split; [|simpl; try (by apply W); try done..].
  - eapply (wf_deleted (mk_base c (Some e) None bd) p s _ _ _ (urma_delete_jfce e) _ OJfce); [done..| |done|done|].
    + intros o' [x Ho'] Hin. destruct o'; simpl in *; try done; try set_solver.
      destruct (jetty_objs s !! l); simpl in Hin; set_solver.
    + intros o Hne. by destruct o.
  - intros o [x Ho]. apply (wf_ctx _ _ _ W OJfce). done.
Qed.

End Base.

Lemma del_context_wf `{Liburma} c bd :
  triple (wf (mk_base c None None bd) (mk_refs [] [] [] [] [])) (del_context c)
    (fun _ => wf (mk_base None None None false) (mk_refs [] [] [] [] [])).
Proof.
  intros s W.
  pose proof (wf_jetty _ _ _ W) as E2. simpl in E2. apply refs_ok_no_owner in E2.
  pose proof (wf_jfr _ _ _ W) as E1. simpl in E1. rewrite E2 in E1. apply refs_ok_no_owner in E1.
  pose proof (wf_lseg _ _ _ W) as E3. simpl in E3. apply refs_ok_no_owner in E3.
  pose proof (wf_rseg _ _ _ W) as E4. simpl in E4. apply refs_ok_no_owner in E4.
  assert (Hno : forall b' o, b'.(b_ctx) = None -> b'.(b_jfce) = None -> b'.(b_jfc) = None ->
    forall s', s'.(jfrs) = ∅ -> s'.(jetty_objs) = ∅ -> s'.(lsegs) = ∅ -> s'.(rsegs) = ∅ ->
    owned b' (mk_refs [] [] [] [] []) s' o = None).
  { intros b' o H1 H2 H3 s' H4 H5 H6 H7. destruct o; simpl; by rewrite ?H1, ?H2, ?H3, ?H4, ?H5, ?H6, ?H7, ?lookup_empty. }
  destruct c as [c|].
  2:{ simpl. split; [|simpl; try (by apply W); try done..].
    - destruct (wf_audit _ _ _ W) as (m & Ha & Hm & Hn). exists m. split; [done|]. split; [|done].
      eapply matches_ext; [|exact Hm]. intros o. by rewrite !Hno. }
  simpl. split; [|simpl; try (by apply W); try done..].
  - eapply (wf_deleted (mk_base (Some c) None None bd) _ s _ _ _ (urma_delete_context c) _ OCtx); [done..| |done|done|].
    + intros o' [x Ho'] Hin. destruct o'; simpl in Ho'; rewrite ?E1, ?E2, ?E3, ?E4, ?lookup_empty in Ho'; try done.
      by apply not_elem_of_nil in Hin.
    + intros o Hne. destruct o; simpl; by rewrite ?E1, ?E2, ?E3, ?E4, ?lookup_empty.
  - intros o [x Ho]. by rewrite Hno in Ho.
Qed.
