(* ===== verification/UrmaResourceProps.v ===== *)
(** * UrmaResourceProps: what the resource layer guarantees

    The operations of UrmaResource keep the invariant of UrmaResourceInv, for
    every answer of the library that does not hand out a live address twice;
    so no history of theirs is rejected by the audit, whatever fails, and
    [Clear] leaves no handle behind. *)

From S2P Require Import Prelude SendLane Liburma UrmaResource UrmaResourceInv.
From stdpp Require Import list.
#[local] Open Scope Z_scope.
#[local] Open Scope list_scope.

(** ** The resource and its clients *)

Definition no_refs : refs_of := mk_refs [] [] [] [] [].

(** The references of the resource and those of its clients. *)
Definition refs_in (r : resource) (x : refs_of) : refs_of :=
  mk_refs (r.(sharedJettyJfr_) :: x.(p_jfr))
    (r.(sharedRecvJetty_) :: r.(sendJettyPool_).(jettys_) ++ x.(p_jetty))
    (r.(localSeg_) :: x.(p_lseg)) x.(p_rseg) x.(p_target).

Definition base_of (r : resource) (bd : bool) : base := mk_base r.(context_) r.(jfce_) r.(jfc_) bd.

(** Well-formed: handles and counts are right and the pool is a pool. *)
Record res_wf (bd : bool) (r : resource) (x : refs_of) (s : sys) : Prop := {
  rw_wf : wf (base_of r bd) (refs_in r x) s;
  rw_pool : exists ls, implements r.(sendJettyPool_) ls;
}.

(** The members that the jetty operations leave alone. *)
Record kept (r r' : resource) : Prop := {
  k_context : r'.(context_) = r.(context_);
  k_jfce : r'.(jfce_) = r.(jfce_);
  k_jfc : r'.(jfc_) = r.(jfc_);
  k_token : r'.(token_) = r.(token_);
  k_attr : r'.(devAttr_) = r.(devAttr_);
  k_max : r'.(maxWriteSize_) = r.(maxWriteSize_);
  k_mode : r'.(transMode_) = r.(transMode_);
  k_cacheable : r'.(cacheable_) = r.(cacheable_);
  k_seg : r'.(localSeg_) = r.(localSeg_);
}.

#[export] Instance kept_preorder : PreOrder kept.
Proof. split; [by intros r; split|]. intros r1 r2 r3 [] []. split; congruence. Qed.

Lemma Ctx_Some r c : r.(context_) = Some c -> Ctx r = c.
Proof. unfold Ctx. by intros ->. Qed.

Lemma Jfc_Some r q : r.(jfc_) = Some q -> Jfc r = q.
Proof. unfold Jfc. by intros ->. Qed.

(** Moving a reference between the resource and its clients. *)
Ltac moved := split; simpl; try done; apply same_refs_perm;
  rewrite <- ?app_comm_cons; rewrite <- ?Permutation_middle; try done;
  first [apply Permutation_swap | done].

Lemma move_jfr r x l : same_owners (add_jfr l (refs_in r x)) (refs_in r (add_jfr l x)).
Proof. moved. Qed.

Lemma move_jetty r x l : same_owners (add_jetty l (refs_in r x)) (refs_in r (add_jetty l x)).
Proof. split; simpl; try done. apply same_refs_perm. rewrite <- Permutation_middle. apply Permutation_swap. Qed.

Lemma move_lseg r x l : same_owners (add_lseg l (refs_in r x)) (refs_in r (add_lseg l x)).
Proof. moved. Qed.

#[export] Instance same_owners_sym : Symmetric same_owners.
Proof. intros p p' []. split; by symmetry. Qed.

Section Lifecycle.
Context `{Liburma}.
Hypothesis Hfresh : fresh_handles.
Context (bd : bool).

(** ** The primitives on a well-formed resource *)

Lemma res_same r x r' x' s :
  (wf (base_of r bd) (refs_in r x) s -> wf (base_of r' bd) (refs_in r' x') s) ->
  r'.(sendJettyPool_) = r.(sendJettyPool_) -> res_wf bd r x s -> res_wf bd r' x' s.
Proof. intros Hw Ep [W P]. split; [auto|by rewrite Ep]. Qed.

(** A primitive whose effect on the invariant is known, in a resource. *)
Lemma res_lift {A} (m : ST sys A) r x x' :
  (triple (wf (base_of r bd) (refs_in r x)) m (fun a => wf (base_of r bd) (refs_in r (x' a)))) ->
  triple (res_wf bd r x) m (fun a => res_wf bd r (x' a)).
Proof. intros Hm s [W P]. split; [|done]. exact (Hm s W). Qed.

Lemma res_jfr_create r x c q depth tok tm :
  r.(context_) = Some c -> r.(jfc_) = Some q ->
  triple (res_wf bd r x) (UrmaJfr_Create (Ctx r) depth tok (Jfc r) tm)
    (fun o => match o with None => res_wf bd r x | Some l => fun s => l <> 0 /\ res_wf bd r (add_jfr l x) s end).
Proof.
  intros Ec Eq s [W P]. rewrite (Ctx_Some _ _ Ec), (Jfc_Some _ _ Eq).
  pose proof (UrmaJfr_Create_wf Hfresh (base_of r bd) (refs_in r x) c q depth tok tm Ec Eq s W) as Hp.
  destruct (fst _) as [l|]; [|by split]. destruct Hp as [Hl Hp]. split; [done|]. split; [|done].
  eapply wf_same; [apply move_jfr|exact Hp].
Qed.

Lemma res_drop_jfr r x l : triple (res_wf bd r (add_jfr l x)) (drop_jfr l) (fun _ => res_wf bd r x).
Proof.
  apply (res_lift _ _ _ (fun _ => x)). intros s W. apply drop_jfr_wf.
  eapply wf_same; [symmetry; apply move_jfr|exact W].
Qed.

Lemma res_drop_jetty r x l : triple (res_wf bd r (add_jetty l x)) (drop_jetty l) (fun _ => res_wf bd r x).
Proof.
  apply (res_lift _ _ _ (fun _ => x)). intros s W. apply drop_jetty_wf.
  eapply wf_same; [symmetry; apply move_jetty|exact W].
Qed.

Lemma res_drop_lseg r x l : triple (res_wf bd r (add_lseg l x)) (drop_lseg l) (fun _ => res_wf bd r x).
Proof.
  apply (res_lift _ _ _ (fun _ => x)). intros s W. apply drop_lseg_wf.
  eapply wf_same; [symmetry; apply move_lseg|exact W].
Qed.

Lemma res_share_jfr r x :
  triple (res_wf bd r x) (share_jfr r.(sharedJettyJfr_)) (fun _ => res_wf bd r (add_jfr r.(sharedJettyJfr_) x)).
Proof.
  apply (res_lift _ _ _ (fun _ => _)). intros s W. eapply wf_same; [apply move_jfr|].
  apply share_jfr_wf; [simpl; set_solver|done].
Qed.

Lemma res_share_jetty r x l :
  l = 0 \/ l ∈ r.(sharedRecvJetty_) :: r.(sendJettyPool_).(jettys_) ++ x.(p_jetty) ->
  triple (res_wf bd r x) (share_jetty l) (fun _ => res_wf bd r (add_jetty l x)).
Proof.
  intros Hl. apply (res_lift _ _ _ (fun _ => _)). intros s W. eapply wf_same; [apply move_jetty|].
  apply share_jetty_wf; [simpl; naive_solver|done].
Qed.

(** A new shared receive queue, receive jetty or lane becomes a member. *)
Lemma adopt_jfr r x l s :
  r.(sharedJettyJfr_) = 0 -> res_wf bd r (add_jfr l x) s -> res_wf bd (set_shared_jfr l r) x s.
Proof.
  intros E. apply res_same; [|done]. apply wf_same. split; simpl; try done. rewrite E. apply same_refs_null.
Qed.

Lemma adopt_recv r x l s :
  r.(sharedRecvJetty_) = 0 -> res_wf bd r (add_jetty l x) s -> res_wf bd (set_recv l r) x s.
Proof.
  intros E. apply res_same; [|done]. apply wf_same. split; simpl; try done. rewrite E, same_refs_null.
  apply same_refs_perm. by rewrite <- Permutation_middle.
Qed.

Lemma adopt_lane r x l s :
  l <> 0 -> l ∉ r.(sendJettyPool_).(jettys_) -> res_wf bd r (add_jetty l x) s ->
  res_wf bd (set_pool (SendLane.Add l r.(sendJettyPool_)) r) x s.
Proof.
  intros Hl Hn [W [ls P]]. split.
  - eapply wf_same; [|exact W]. split; simpl; try done. apply same_refs_perm.
    rewrite <- Permutation_middle. rewrite <- app_assoc. simpl. by rewrite <- Permutation_middle.
  - exists (spec_Add l ls). apply Add_implements; [done|done|]. by rewrite (im_members _ _ P).
Qed.

(** ** Jettys *)

Lemma jetty_jfr_wf r x isSend c q :
  r.(context_) = Some c -> r.(jfc_) = Some q ->
  triple (res_wf bd r x) (jetty_jfr r isSend)
    (fun a s => (exists l, snd a = set_shared_jfr l r) /\
      match fst a with Some l => l <> 0 /\ res_wf bd (snd a) (add_jfr l x) s | None => res_wf bd (snd a) x s end).
Proof.
  intros Ec Eq. assert (Hsame : exists l, r = set_shared_jfr l r) by (exists (sharedJettyJfr_ r); by destruct r).
  unfold jetty_jfr. destruct isSend.
  - apply (triple_bind _ _ _ (fun o s => match o with
      | Some r' => (exists l, r' = set_shared_jfr l r) /\ r'.(sharedJettyJfr_) <> 0 /\ res_wf bd r' x s
      | None => res_wf bd r x s end)).
    + destruct (Z.eqb_spec (sharedJettyJfr_ r) nullptr) as [E|E].
      * eapply triple_bind; [by apply (res_jfr_create r x c q)|]. intros [l|]; apply triple_ret; [|done].
        intros s [Hl W]. split; [by exists l|]. split; [done|]. by apply adopt_jfr.
      * by apply triple_ret.
    + intros [r'|]; [|by apply triple_ret]. intros s (Hr & Hn & W). split; [done|]. split; [done|].
      exact (res_share_jfr r' x s W).
  - eapply triple_bind; [by apply (res_jfr_create r x c q)|]. intros [l|]; apply triple_ret; by intros s.
Qed.

(** Every send or receive jetty that is made is a new object; a failure takes
    back the receive queue made for it. *)
Lemma UrmaJetty_Create_wf r x isSend :
  triple (res_wf bd r x) (UrmaJetty_Create r isSend)
    (fun a s => (exists l, snd a = set_shared_jfr l r) /\
      match fst a with
      | Some l => l <> 0 /\ l ∉ r.(sendJettyPool_).(jettys_) /\ res_wf bd (snd a) (add_jetty l x) s
      | None => res_wf bd (snd a) x s
      end).
Proof.
  assert (Hsame : exists l, r = set_shared_jfr l r) by (exists (sharedJettyJfr_ r); by destruct r).
  unfold UrmaJetty_Create. destruct (Z.eqb_spec (Ctx r) nullptr) as [|Hc]; [by apply triple_ret|].
  destruct (Z.eqb_spec (Jfc r) nullptr) as [|Hq]; [by apply triple_ret|].
  destruct (context_ r) as [c|] eqn:Ec; [|by unfold Ctx in Hc; rewrite Ec in Hc].
  destruct (jfc_ r) as [q|] eqn:Eq; [|by unfold Jfc in Hq; rewrite Eq in Hq]. simpl.
  eapply triple_bind; [by apply (jetty_jfr_wf r x isSend c q)|]. intros [[jfr|] r']; [|by apply triple_ret].
  simpl. intros s ([l ->] & Hj & W). set (r' := set_shared_jfr l r) in *.
  destruct W as [W P]. apply (wf_same _ _ _ _ (same_owners_sym _ _ (move_jfr _ _ _))) in W.
  pose proof (new_jetty_wf Hfresh (base_of r' bd) (refs_in r' x) r' c q jfr s Ec Eq (Ctx_Some r' _ Ec) (Jfc_Some r' _ Eq) Hj W) as Hnew.
  cbv zeta in Hnew. change ((jfr_raw jfr ≫= ?f) s) with (f (jfr_handle s jfr) s). cbv beta.
  rewrite (Ctx_Some r' _ Ec). rewrite call_bind. set (k := urma_create_jetty c _) in *.
  unfold nullptr in *. destruct (Z.eqb_spec (answer (trace s) k) 0) as [E|E].
  - rewrite ST_bind_eq. split; [by exists l|]. split; [|done].  exact (drop_jfr_wf _ _ _ _ Hnew).
  - destruct (next_free _ _ _ W) as (Hn0 & _ & Hn & _). split; [by exists l|]. split; [exact Hn0|]. split.
    + intros Hin. destruct (owner_elem _ _ (next_loc s) (wf_jetty _ _ _ W)) as [? Ej]; [simpl; set_solver|done|congruence].
    + split; [|done].  eapply wf_same; [apply move_jetty|exact Hnew].
Qed.
(** ** Filling the pool *)

Lemma kept_shared l r : kept r (set_shared_jfr l r).
Proof. by split. Qed.

Lemma kept_pool q r : kept r (set_pool q r).
Proof. by split. Qed.

Lemma PreFill_wf n : forall r x,
  triple (res_wf bd r x) (PreFillSendJettyPool n r)
    (fun a s => res_wf bd (snd a) x s /\ kept r (snd a) /\ sharedRecvJetty_ (snd a) = sharedRecvJetty_ r /\
      (fst a = true -> length (jettys_ (sendJettyPool_ (snd a))) = (length (jettys_ (sendJettyPool_ r)) + n)%nat /\
        length (idleIndices_ (sendJettyPool_ (snd a))) = (length (idleIndices_ (sendJettyPool_ r)) + n)%nat)).
Proof.
  induction n as [|n IH]; intros r x.
  - apply triple_ret. intros s W. split; [done|]. split; [done|]. split; [done|]. intros ?. simpl. lia.
  - simpl. eapply triple_bind; [apply UrmaJetty_Create_wf|]. intros [[l|] r']; simpl.
    + intros s ([l' ->] & Hl & Hn & W). set (r' := set_shared_jfr l' r) in *.
      pose proof (IH (set_pool (SendLane.Add l (sendJettyPool_ r')) r') x s (adopt_lane r' x l s Hl Hn W))
        as (W' & K & Er & Hlen). split; [done|]. split; [|split; [done|]].
      * etrans; [apply (kept_shared l')|]. etrans; [apply kept_pool|exact K].
      * intros Hok. destruct (Hlen Hok) as [E1 E2]. simpl in E1, E2. rewrite length_app in E1, E2.
        split; [etrans; [exact E1|]|etrans; [exact E2|]]; simpl; lia.
    + apply triple_ret. intros s ([l' ->] & W). split; [done|]. split; [apply kept_shared|]. split; [done|]. done.
Qed.

Lemma GetOrCreate_wf r x :
  triple (res_wf bd r x) (GetOrCreateSharedRecvJetty r)
    (fun a s => kept r (snd a) /\ sendJettyPool_ (snd a) = sendJettyPool_ r /\
      match fst a with
      | Some l => l <> 0 /\ l = sharedRecvJetty_ (snd a) /\ res_wf bd (snd a) (add_jetty l x) s
      | None => res_wf bd (snd a) x s
      end).
Proof.
  unfold GetOrCreateSharedRecvJetty.
  apply (triple_bind _ _ _ (fun a s => kept r (snd a) /\ sendJettyPool_ (snd a) = sendJettyPool_ r /\
    (fst a = true -> sharedRecvJetty_ (snd a) <> 0) /\ res_wf bd (snd a) x s)).
  - destruct (Z.eqb_spec (sharedRecvJetty_ r) nullptr) as [E|E]; [|by apply triple_ret].
    eapply triple_bind; [apply UrmaJetty_Create_wf|]. intros [[l|] r']; apply triple_ret; simpl.
    + intros s ([l' ->] & Hl & _ & W). split; [by split|]. split; [done|]. split; [done|]. by apply adopt_recv.
    + intros s ([l' ->] & W). split; [apply kept_shared|]. done.
  - intros [[] r']; simpl.
    + intros s (K & Ep & Hr & W). split; [done|]. split; [done|]. split; [by apply Hr|]. split; [done|].
      apply (res_share_jetty r' x); [right; set_solver|done].
    + apply triple_ret. by intros s (K & Ep & _ & W).
Qed.

(** ** Releasing everything *)

(** A member given up by the resource. *)
Lemma disown_seg r x s : res_wf bd r x s -> res_wf bd (set_seg 0 r) (add_lseg (localSeg_ r) x) s.
Proof.
  apply res_same; [|done]. apply wf_same. split; simpl; try done. symmetry. apply same_refs_null.
Qed.

Lemma disown_recv r x s : res_wf bd r x s -> res_wf bd (set_recv 0 r) (add_jetty (sharedRecvJetty_ r) x) s.
Proof.
  apply res_same; [|done]. apply wf_same. split; simpl; try done. rewrite same_refs_null.
  apply same_refs_perm. by rewrite <- Permutation_middle.
Qed.

Lemma disown_jfr r x s : res_wf bd r x s -> res_wf bd (set_shared_jfr 0 r) (add_jfr (sharedJettyJfr_ r) x) s.
Proof.
  apply res_same; [|done]. apply wf_same. split; simpl; try done. symmetry. apply same_refs_null.
Qed.

Definition add_jettys (ls : list Z) (x : refs_of) : refs_of :=
  mk_refs x.(p_jfr) (ls ++ x.(p_jetty)) x.(p_lseg) x.(p_rseg) x.(p_target).

Lemma disown_pool r x s : res_wf bd r x s ->
  res_wf bd (set_pool (SendLane.Clear r.(sendJettyPool_)) r) (add_jettys (jettys_ (sendJettyPool_ r)) x) s.
Proof.
  intros [W P]. split; [by eapply wf_same; [|exact W]; split|]. exists (mk_lspec [] ∅). apply empty_implements.
Qed.

Lemma drop_jettys_wf ls : forall r x, triple (res_wf bd r (add_jettys ls x)) (drop_jettys ls) (fun _ => res_wf bd r x).
Proof.
  induction ls as [|l ls IH]; intros r x; simpl.
  - apply triple_ret. intros s. by destruct x.
  - eapply triple_bind; [apply (res_drop_jetty r (add_jettys ls x))|]. intros ?. apply IH.
Qed.

(** Up to the context, everything that is not a client's is deleted. *)
Lemma clear_members_wf r x :
  p_jfr x = [] -> p_jetty x = [] ->
  triple (res_wf bd r x) (clear_members r) (fun _ => wf (mk_base r.(context_) None None bd) x).
Proof.
  intros Ej Et. unfold clear_members.
  eapply triple_bind; [intros s W; exact (res_drop_lseg _ _ _ _ (disown_seg _ _ _ W))|]. intros ?.
  eapply triple_bind; [intros s W; exact (drop_jettys_wf _ _ _ _ (disown_pool _ _ _ W))|]. intros ?.
  eapply triple_bind; [intros s W; exact (res_drop_jetty _ _ _ _ (disown_recv _ _ _ W))|]. intros ?.
  eapply triple_bind; [intros s W; exact (res_drop_jfr _ _ _ _ (disown_jfr _ _ _ W))|]. intros ?.
  eapply (triple_weaken _ _ (fun s => wf (mk_base (context_ r) (jfce_ r) (jfc_ r) bd) x s /\ jfrs s = ∅ /\ jetty_objs s = ∅)).
  - eapply triple_bind; [by apply del_jfc_wf|]. intros ?. by apply del_jfce_wf.
  - intros s [W _]. simpl in W.
    assert (W' : wf (mk_base (context_ r) (jfce_ r) (jfc_ r) bd) x s).
    { eapply wf_same; [|exact W]. split; simpl; try done; apply same_refs_null. }
    assert (Hj : jetty_objs s = ∅) by (apply refs_ok_no_owner; rewrite <- Et; apply W').
    pose proof (wf_jfr _ _ _ W') as R. rewrite Ej, Hj in R. by apply refs_ok_no_owner in R.
  - done.
Qed.

Lemma Clear_wf r :
  triple (res_wf bd r no_refs) (Clear r)
    (fun r' s => r' = cleared r /\ wf (mk_base None None None false) no_refs s).
Proof.
  unfold Clear. eapply triple_bind; [by apply clear_members_wf|]. intros ?.
  eapply triple_bind; [by apply del_context_wf|]. intros ?. by apply triple_ret.
Qed.

End Lifecycle.

(** ** [Init] *)

Lemma wf_bound c e bd bd' p s : wf (mk_base c e None bd) p s -> wf (mk_base c e None bd') p s.
Proof.
  intros W. split; apply W.
Qed.

Lemma cleared_wf bd r s : wf (mk_base None None None false) no_refs s -> res_wf bd (cleared r) no_refs s.
Proof.
  intros W. split; [|exists (mk_lspec [] ∅); apply empty_implements].
  apply (wf_bound _ _ false). eapply wf_same; [|exact W]. split; simpl; try done; symmetry; apply same_refs_null.
Qed.

(** A resource after a successful [Init]: all queues, the receive jetty and
    [count] lanes, all of them idle. *)
Record ready (count : nat) (eventMode : bool) (r : resource) (s : sys) : Prop := {
  rd_wf : res_wf eventMode r no_refs s;
  rd_ctx : is_Some r.(context_);
  rd_jfce : is_Some r.(jfce_);
  rd_jfc : is_Some r.(jfc_);
  rd_recv : r.(sharedRecvJetty_) <> 0;
  rd_pool : GetStats r.(sendJettyPool_) = mk_stats count count 0;
}.

Section Init.
Context `{Liburma}.
Hypothesis Hfresh : fresh_handles.
Context (bondp_ctl : bool).

Definition lane_count (jettyCount minJettys : Z) : nat := Z.to_nat (Z.max 1 (Z.max jettyCount minJettys)).

Lemma lane_count_code jc mj :
  (let count := if jc >? mj then jc else mj in if count <? 1 then 1 else count) = Z.max 1 (Z.max jc mj).
Proof.
  cbv zeta. rewrite Z.gtb_ltb. destruct (Z.ltb_spec mj jc).
  - destruct (Z.ltb_spec jc 1); lia.
  - destruct (Z.ltb_spec mj 1); lia.
Qed.

(** After the queues: lanes and the receive jetty. *)
Lemma init_jettys_wf bd jc mj r :
  sendJettyPool_ r = empty_lanes -> is_Some (context_ r) -> is_Some (jfce_ r) -> is_Some (jfc_ r) ->
  triple (res_wf bd r no_refs)
    ('(ok, r) ← PreFillSendJettyPool (lane_count jc mj) r;
     if negb ok then mret (false, r)
     else '(recv, r) ← GetOrCreateSharedRecvJetty r;
       match recv with None => mret (false, r) | Some l => drop_jetty l;; mret (true, r) end)
    (fun a s => res_wf bd (snd a) no_refs s /\ kept r (snd a) /\ (fst a = true -> ready (lane_count jc mj) bd (snd a) s)).
Proof.
  intros Ep Hc He Hq. eapply triple_bind; [by apply PreFill_wf|]. intros [ok r1]. simpl. destruct ok; simpl.
  2:{ apply triple_ret. intros s (W & K & _). by split. }
  eapply (triple_weaken _ _ (fun s => (kept r r1 /\ GetStats (sendJettyPool_ r1) = mk_stats (lane_count jc mj) (lane_count jc mj) 0)
    /\ res_wf bd r1 no_refs s)); [|intros s (W & K & _ & Hlen); split; [split; [done|]|done]|intros a s Hq'; exact Hq'].
  2:{ destruct (Hlen eq_refl) as [Hl1 Hl2]. rewrite Ep in Hl1, Hl2. simpl in Hl1, Hl2.
    unfold GetStats. rewrite Hl1, Hl2. by rewrite Nat.ltb_irrefl. }
  apply triple_pure. intros [K Hst]. eapply triple_bind; [by apply (GetOrCreate_wf Hfresh bd r1 no_refs)|].
  intros [[l|] r2]; simpl.
  2:{ apply triple_ret. intros s (K2 & _ & W). split; [done|]. split; [by etrans|done]. }
  intros s (K2 & Ep2 & Hl & -> & W). rewrite ST_bind_eq. simpl.
  pose proof (res_drop_jetty bd r2 no_refs _ s W) as W'. split; [exact W'|]. split; [by etrans|]. intros _.
  assert (K' : kept r r2) by by etrans. split; [exact W'|..].
  - by rewrite (k_context _ _ K').
  - by rewrite (k_jfce _ _ K').
  - by rewrite (k_jfc _ _ K').
  - done.
  - by rewrite Ep2.
Qed.

Lemma init_queues_wf jc mj eventMode c r :
  context_ r = Some c -> jfce_ r = None -> jfc_ r = None -> sendJettyPool_ r = empty_lanes ->
  triple (res_wf false r no_refs) (init_queues jc mj eventMode r)
    (fun a s => (exists bd, res_wf bd (snd a) no_refs s) /\ transMode_ (snd a) = transMode_ r /\
      (fst a = true -> ready (lane_count jc mj) eventMode (snd a) s)).
Proof.
  intros Ec Ee Eq Ep s [W P]. unfold init_queues. rewrite ST_bind_eq, (Ctx_Some _ _ Ec). unfold base_of in W. rewrite Ec, Ee, Eq in W.
  pose proof (UrmaJfce_Create_wf Hfresh _ _ _ s W) as W1.
  set (a1 := UrmaJfce_Create c s) in *. destruct (fst a1) as [e|] eqn:Ea1.
  2:{ simpl. split; [|done]. exists false. split; [|done]. unfold base_of. by rewrite Ec, Ee, Eq. }
  rewrite ST_bind_eq. set (r1 := set_jfce (Some e) r) in *. rewrite (Ctx_Some r1 _ Ec).
  assert (He0 : e <> 0) by (eapply (handle_nonnull W1 OJfce); done).
  set (je := if eventMode then Jfce r1 else nullptr).
  assert (Hje : je = 0 \/ je = e) by (destruct eventMode; [by right|by left]).
  pose proof (UrmaJfc_Create_wf Hfresh _ _ _ (devAttr_ r1) _ _ Hje _ W1) as W2.
  set (a2 := UrmaJfc_Create c (devAttr_ r1) je (snd a1)) in *. destruct (fst a2) as [q|] eqn:Ea2.
  2:{ simpl. split; [|done]. exists false. split; [|done]. unfold base_of. simpl. by rewrite Ec, Eq. }
  assert (Hbd : negb (je =? 0) = eventMode).
  { destruct eventMode; [|done]. change je with e. by destruct (Z.eqb_spec e 0). }
  rewrite Hbd in W2. set (r2 := set_jfc (Some q) r1).
  cbv zeta. pose proof (lane_count_code jc mj) as Hlc. cbv zeta in Hlc. rewrite Hlc. fold (lane_count jc mj).
  assert (W2' : res_wf eventMode r2 no_refs (snd a2)) by (split; [unfold base_of; simpl; by rewrite Ec|done]).
  destruct (init_jettys_wf eventMode jc mj r2 Ep (ex_intro _ c Ec) (ex_intro _ e eq_refl) (ex_intro _ q eq_refl) _ W2')
    as (W3 & K & Hr). split; [by exists eventMode|]. split; [by rewrite (k_mode _ _ K)|done].
Qed.

(** Plain members do not matter, and a fresh resource has no references. *)
Lemma fresh_wf c r s :
  context_ r = c -> jfce_ r = None -> jfc_ r = None -> sharedJettyJfr_ r = 0 -> sharedRecvJetty_ r = 0 ->
  localSeg_ r = 0 -> sendJettyPool_ r = empty_lanes ->
  wf (mk_base c None None false) no_refs s -> res_wf false r no_refs s.
Proof.
  intros Ec Ee Eq Ej Er Es Ep W. split; [|rewrite Ep; exists (mk_lspec [] ∅); apply empty_implements].
  unfold base_of. rewrite Ec, Ee, Eq. eapply wf_same; [|exact W].
  split; simpl; try done; rewrite ?Ej, ?Er, ?Es, ?Ep; symmetry; apply same_refs_null.
Qed.

Lemma set_balance_mode_wf dev c r :
  context_ r = Some c ->
  triple (wf (mk_base (Some c) None None false) no_refs) (set_balance_mode bondp_ctl dev r)
    (fun _ => wf (mk_base (Some c) None None false) no_refs).
Proof.
  intros Ec s W. unfold set_balance_mode. destruct (_ && _); [|done]. rewrite call_bind. simpl.
  apply wf_touched; [done..|]. simpl. constructor; [|done]. exists OCtx, []. simpl. by rewrite (Ctx_Some _ _ Ec).
Qed.

(** [Init], from any well-formed resource without clients: the handles of
    before are released, and whatever fails, what was made is accounted for. *)
Lemma Init_wf bd dev eid ca jc mj em tm r :
  triple (res_wf bd r no_refs) (Init bondp_ctl dev eid ca jc mj em tm r)
    (fun a s => (exists bd, res_wf bd (snd a) no_refs s) /\
      (fst a = true -> ready (lane_count jc mj) em (snd a) s /\ transMode_ (snd a) = tm)).
Proof.
  eapply triple_bind; [by apply Clear_wf|]. intros r0 s [-> W].
  destruct (Z.eqb_spec dev nullptr); [split; [exists false; by apply cleared_wf|done]|].
  cbv zeta. rewrite call_bind. set (s1 := with_trace _ s).
  assert (W1 : wf (mk_base None None None false) no_refs s1) by by apply wf_touched.
  destruct (negb _); simpl; [split; [exists false; by apply (fresh_wf None)|done]|].
  rewrite !ST_bind_eq. simpl. set (attr := device_attr _ _).
  pose proof (UrmaContext_Create_wf Hfresh no_refs dev eid s1 W1) as W2.
  destruct (UrmaContext_Create dev eid s1) as [[c|] s2]; simpl in *; [|split; [exists false; by apply (fresh_wf None)|done]].
  set (r3 := set_plain _ _ _ _ _ (set_context _ _)). rewrite ST_bind_eq.
  pose proof (set_balance_mode_wf dev c r3 eq_refl s2 W2) as W3.
  pose proof (init_queues_wf jc mj em c r3 eq_refl eq_refl eq_refl eq_refl _
    (fresh_wf (Some c) r3 _ eq_refl eq_refl eq_refl eq_refl eq_refl eq_refl eq_refl W3)) as (W4 & Em & Hr).
  split; [exact W4|]. intros Hok. split; [by apply Hr|]. exact Em.
Qed.

End Init.

(** ** The other operations *)

Lemma PopIdle_jettys q o q' : PopIdle q = Some (o, q') -> jettys_ q' = jettys_ q.
Proof. unfold PopIdle. destruct (pop_idle_loop _ _ _) as [[[? ?] ?]|]; intros [= <- <-]. done. Qed.

Lemma Release_jettys l q q' : Release l q = Some q' -> jettys_ q' = jettys_ q.
Proof.
  unfold Release. destruct (l =? nullptr); [by intros [= <-]|]. destruct (_ !! l) as [i|]; [|by intros [= <-]].
  destruct (_ !! i) as [[]|]; simpl; intros [= <-]; done.
Qed.

Section Operations.
Context `{Liburma}.
Hypothesis Hfresh : fresh_handles.
Context (bd : bool).

Lemma res_share_lseg r x l :
  l ∈ r.(localSeg_) :: x.(p_lseg) -> triple (res_wf bd r x) (share_lseg l) (fun _ => res_wf bd r (add_lseg l x)).
Proof.
  intros Hl. apply (res_lift _ _ _ _ (fun _ => _)). intros s W. eapply wf_same; [apply move_lseg|].
  by apply share_lseg_wf.
Qed.

Lemma adopt_seg r x l s : r.(localSeg_) = 0 -> res_wf bd r (add_lseg l x) s -> res_wf bd (set_seg l r) x s.
Proof. intros E. apply res_same; [|done]. apply wf_same. split; simpl; try done. rewrite E. apply same_refs_null. Qed.

(** The new segment replaces the old one; the caller gets a second reference. *)
Lemma RegisterSegment_wf va len r x :
  triple (res_wf bd r x) (RegisterSegment va len r)
    (fun a s => match fst a with
      | Some l => l <> 0 /\ snd a = set_seg l r /\ res_wf bd (snd a) (add_lseg l x) s
      | None => snd a = r /\ res_wf bd r x s
      end).
Proof.
  unfold RegisterSegment. destruct (Z.eqb_spec (Ctx r) nullptr) as [|Hc]; [by apply triple_ret|].
  destruct (context_ r) as [c|] eqn:Ec; [|by unfold Ctx in Hc; rewrite Ec in Hc].
  apply (triple_bind _ _ _ (fun o => match o with
    | None => res_wf bd r x | Some l => fun s => l <> 0 /\ res_wf bd r (add_lseg l x) s end)).
  - intros s [W P]. rewrite (Ctx_Some _ _ Ec).
    pose proof (UrmaLocalSegment_Register_wf Hfresh (base_of r bd) (refs_in r x) c va len (token_ r) (cacheable_ r) Ec s W) as Hp.
    destruct (fst _) as [l|]; [|by split]. destruct Hp as [Hl Hp]. split; [done|]. split; [|done].
    eapply wf_same; [apply move_lseg|exact Hp].
  - intros [l|]; [|by apply triple_ret]. apply triple_pure. intros Hl.
    eapply triple_bind; [intros s W; exact (res_drop_lseg _ _ _ _ _ (disown_seg _ _ _ _ W))|]. intros ?.
    intros s W. pose proof (adopt_seg (set_seg 0 r) x l s eq_refl W) as W'. rewrite ST_bind_eq.
    split; [done|]. split; [done|]. apply (res_share_lseg (set_seg l r)); [set_solver|]. exact W'.
Qed.

Lemma set_pool_wf r x q s :
  jettys_ q = jettys_ (sendJettyPool_ r) -> (exists ls, implements q ls) -> res_wf bd r x s -> res_wf bd (set_pool q r) x s.
Proof. intros E Hq [W P]. split; [|done]. eapply wf_same; [|exact W]. split; simpl; try done. by rewrite E. Qed.

(** An idle lane goes to the caller, as a reference of its own. *)
Lemma AcquireSendJetty_wf r x :
  triple (res_wf bd r x) (AcquireSendJetty r)
    (fun a s => match fst a with
      | Some l => l ∈ jettys_ (sendJettyPool_ r) /\ res_wf bd (snd a) (add_jetty l x) s
      | None => res_wf bd (snd a) x s
      end).
Proof.
  intros s W. destruct (rw_pool _ _ _ _ W) as [ls P]. unfold AcquireSendJetty.
  destruct (PopIdle_implements _ _ P) as (q & Eq & Hq). rewrite Eq. pose proof (PopIdle_jettys _ _ _ Eq) as Ej.
  pose proof (set_pool_wf r x q s Ej (ex_intro _ _ Hq) W) as W'.
  destruct (fst (spec_PopIdle ls)) as [l|] eqn:El; [|done].
  assert (Hl : l ∈ jettys_ (sendJettyPool_ r)).
  { rewrite <- (im_members _ _ P). eapply queue_member; [exact P|]. unfold spec_PopIdle in El.
    destruct (queue ls); simplify_eq/=. set_solver. }
  rewrite ST_bind_eq. split; [exact Hl|]. apply (res_share_jetty bd (set_pool q r)); [|done]. right. simpl. rewrite Ej. set_solver.
Qed.

Lemma ReleaseSendJetty_wf l r x s : res_wf bd r x s -> res_wf bd (ReleaseSendJetty l r) x s.
Proof.
  intros W. destruct (rw_pool _ _ _ _ W) as [ls P]. unfold ReleaseSendJetty.
  destruct (Release_implements _ _ l P) as (q & Eq & Hq). rewrite Eq. apply set_pool_wf; [by eapply Release_jettys|by eauto|done].
Qed.

Lemma JettyAt_wf i r x :
  triple (res_wf bd r x) (JettyAt i r) (fun l => res_wf bd r (add_jetty l x)).
Proof.
  unfold JettyAt. cbv zeta. eapply triple_bind; [apply res_share_jetty|intros ?; by apply triple_ret].
  unfold At. destruct (_ !! _) as [l|] eqn:E; simpl; [|by left]. right. apply list_elem_of_lookup_2 in E. set_solver.
Qed.

Lemma ImportTargetJetty_wf rj r x :
  triple (res_wf bd r x) (ImportTargetJetty rj r)
    (fun o => match o with Some h => fun s => h <> 0 /\ res_wf bd r (add_target h x) s | None => res_wf bd r x end).
Proof.
  intros s [W P]. unfold ImportTargetJetty. destruct (context_ r) as [c|] eqn:Ec.
  - rewrite (Ctx_Some _ _ Ec). pose proof (UrmaTargetJetty_Import_wf Hfresh (base_of r bd) (refs_in r x) c rj (token_ r) Ec s W) as Hp.
    destruct (fst _) as [h|]; [|by split]. destruct Hp as [Hh Hp]. split; [done|]. by split.
  - unfold UrmaTargetJetty_Import, Ctx. rewrite Ec. simpl. by split.
Qed.

Lemma ImportSegment_wf seg r x :
  triple (res_wf bd r x) (ImportSegment seg r)
    (fun o => match o with Some l => fun s => l <> 0 /\ res_wf bd r (add_rseg l x) s | None => res_wf bd r x end).
Proof.
  intros s [W P]. unfold ImportSegment. destruct (context_ r) as [c|] eqn:Ec.
  - rewrite (Ctx_Some _ _ Ec).
    pose proof (UrmaRemoteSegment_Import_wf Hfresh (base_of r bd) (refs_in r x) c seg (token_ r) (cacheable_ r) Ec s W) as Hp.
    destruct (fst _) as [h|]; [|by split]. destruct Hp as [Hh Hp]. split; [done|]. by split.
  - unfold UrmaRemoteSegment_Import, Ctx. rewrite Ec. simpl. by split.
Qed.

Lemma res_drop_rseg r x l : triple (res_wf bd r (add_rseg l x)) (drop_rseg l) (fun _ => res_wf bd r x).
Proof. apply (res_lift _ _ _ _ (fun _ => x)). exact (drop_rseg_wf (base_of r bd) (refs_in r x) l). Qed.

Lemma res_del_target r x h : triple (res_wf bd r (add_target h x)) (del_target (Some h)) (fun _ => res_wf bd r x).
Proof. apply (res_lift _ _ _ _ (fun _ => x)). by apply (del_target_wf Hfresh (base_of r bd) (refs_in r x) h). Qed.

Lemma RearmJfc_wf r x : triple (res_wf bd r x) (RearmJfc r) (fun _ => res_wf bd r x).
Proof.
  intros s [W P]. unfold RearmJfc. destruct (jfc_ r) as [q|] eqn:Eq; [|by split]. unfold UrmaJfc_Rearm.
  destruct (q =? nullptr); [by split|]. rewrite call_bind. simpl. split; [|done]. apply wf_touched; [done..|].
  simpl. constructor; [|done]. exists OJfc. simpl. rewrite Eq. simpl. eauto.
Qed.

End Operations.

(** ** Histories of a resource and its clients *)

(** The resource, the references its clients hold and the process. *)
Definition proc : Type := resource * refs_of * sys.

Definition gets (add : Z -> refs_of -> refs_of) (o : option Z) (x : refs_of) : refs_of :=
  match o with Some l => add l x | None => x end.

(** One call, or the end of one reference.  [Init] and [Clear] are for a
    resource whose clients hold nothing: with a reference outside, [Clear]
    deletes a context that still has children, as the [Stop] of a manager that
    has a buffer does ([stop_segment_outlives_context]). *)
Inductive res_step `{Liburma} (ctl : bool) : proc -> proc -> Prop :=
| step_init dev eid ca jc mj em tm r s a s' :
    Init ctl dev eid ca jc mj em tm r s = (a, s') -> res_step ctl (r, no_refs, s) (snd a, no_refs, s')
| step_clear r s r' s' : Clear r s = (r', s') -> res_step ctl (r, no_refs, s) (r', no_refs, s')
| step_register va len r x s a s' :
    RegisterSegment va len r s = (a, s') -> res_step ctl (r, x, s) (snd a, gets add_lseg (fst a) x, s')
| step_create r x s a s' :
    CreateSendJetty r s = (a, s') -> res_step ctl (r, x, s) (snd a, gets add_jetty (fst a) x, s')
| step_recv r x s a s' :
    GetOrCreateSharedRecvJetty r s = (a, s') -> res_step ctl (r, x, s) (snd a, gets add_jetty (fst a) x, s')
| step_acquire r x s a s' :
    AcquireSendJetty r s = (a, s') -> res_step ctl (r, x, s) (snd a, gets add_jetty (fst a) x, s')
| step_release l r x s : res_step ctl (r, x, s) (ReleaseSendJetty l r, x, s)
| step_at i r x s l s' : JettyAt i r s = (l, s') -> res_step ctl (r, x, s) (r, add_jetty l x, s')
| step_target rj r x s o s' :
    ImportTargetJetty rj r s = (o, s') -> res_step ctl (r, x, s) (r, gets add_target o x, s')
| step_segment seg r x s o s' :
    ImportSegment seg r s = (o, s') -> res_step ctl (r, x, s) (r, gets add_rseg o x, s')
| step_rearm r x s b s' : RearmJfc r s = (b, s') -> res_step ctl (r, x, s) (r, x, s')
| step_drop_lane l r x s u s' : drop_jetty l s = (u, s') -> res_step ctl (r, add_jetty l x, s) (r, x, s')
| step_drop_lseg l r x s u s' : drop_lseg l s = (u, s') -> res_step ctl (r, add_lseg l x, s) (r, x, s')
| step_drop_rseg l r x s u s' : drop_rseg l s = (u, s') -> res_step ctl (r, add_rseg l x, s) (r, x, s')
| step_del_target h r x s u s' :
    del_target (Some h) s = (u, s') -> res_step ctl (r, add_target h x, s) (r, x, s')
| step_order r x x' s : same_owners x x' -> res_step ctl (r, x, s) (r, x', s).

Definition proc_wf (c : proc) : Prop := let '(r, x, s) := c in exists bd, res_wf bd r x s.

Definition start : proc := (empty_resource, no_refs, empty_sys).

Lemma start_wf : proc_wf start.
Proof. exists false. by apply (fresh_wf None), wf_empty. Qed.

(** A triple, for a run that is known. *)
Lemma triple_run {S A} (m : ST S A) P Q s a s' : triple P m Q -> P s -> m s = (a, s') -> Q a s'.
Proof. intros Ht HP E. specialize (Ht s HP). by rewrite E in Ht. Qed.

Lemma refs_in_owners r x x' : same_owners x x' -> same_owners (refs_in r x) (refs_in r x').
Proof.
  intros [E1 E2 E3 E4 E5]. split; simpl; [by apply same_refs_cons| |by apply same_refs_cons|done|done].
  apply same_refs_cons; [done|]. by apply same_refs_app.
Qed.

(** Every step keeps the resource well-formed. *)
Lemma res_step_wf `{Liburma} ctl c c' : fresh_handles -> res_step ctl c c' -> proc_wf c -> proc_wf c'.
Proof.
  intros Hf Hstep. destruct Hstep; intros [bd W];
    match goal with E : _ = (_, _) |- _ => rename E into Erun | _ => idtac end.
  - exact (proj1 (triple_run _ _ _ _ _ _ (Init_wf Hf ctl bd dev eid ca jc mj em tm r) W Erun)).
  - destruct (triple_run _ _ _ _ _ _ (Clear_wf Hf bd r) W Erun) as [-> W']. exists bd. by apply cleared_wf.
  - exists bd. pose proof (triple_run _ _ _ _ _ _ (RegisterSegment_wf Hf bd va len r x) W Erun) as Hp. cbv beta in Hp.
    destruct (fst a); [by destruct Hp as (_ & _ & ?)|by destruct Hp as [-> ?]].
  - exists bd. destruct (triple_run _ _ _ _ _ _ (UrmaJetty_Create_wf Hf bd r x true) W Erun) as [_ Hp].
    destruct (fst a); [by destruct Hp as (_ & _ & ?)|done].
  - exists bd. destruct (triple_run _ _ _ _ _ _ (GetOrCreate_wf Hf bd r x) W Erun) as (_ & _ & Hp).
    destruct (fst a); [by destruct Hp as (_ & _ & ?)|done].
  - exists bd. pose proof (triple_run _ _ _ _ _ _ (AcquireSendJetty_wf Hf bd r x) W Erun) as Hp. cbv beta in Hp.
    destruct (fst a); [by destruct Hp as [_ ?]|done].
  - exists bd. by apply ReleaseSendJetty_wf.
  - exists bd. exact (triple_run _ _ _ _ _ _ (JettyAt_wf Hf bd i r x) W Erun).
  - exists bd. pose proof (triple_run _ _ _ _ _ _ (ImportTargetJetty_wf Hf bd rj r x) W Erun) as Hp. cbv beta in Hp.
    destruct o; [by destruct Hp as [_ ?]|done].
  - exists bd. pose proof (triple_run _ _ _ _ _ _ (ImportSegment_wf Hf bd seg r x) W Erun) as Hp. cbv beta in Hp.
    destruct o; [by destruct Hp as [_ ?]|done].
  - exists bd. exact (triple_run _ _ _ _ _ _ (RearmJfc_wf bd r x) W Erun).
  - exists bd. exact (triple_run _ _ _ _ _ _ (res_drop_jetty bd r x l) W Erun).
  - exists bd. exact (triple_run _ _ _ _ _ _ (res_drop_lseg bd r x l) W Erun).
  - exists bd. exact (triple_run _ _ _ _ _ _ (res_drop_rseg bd r x l) W Erun).
  - exists bd. exact (triple_run _ _ _ _ _ _ (res_del_target Hf bd r x h) W Erun).
  - exists bd. destruct W as [W P]. split; [|done]. eapply wf_same; [by apply refs_in_owners|exact W].
Qed.

(** Nothing is live without a context. *)
Lemma no_context_empty bd r x s : res_wf bd r x s -> context_ r = None -> audit (trace s) = Some ∅.
Proof.
  intros [W _] Ec. destruct (wf_audit _ _ _ W) as (m & Ha & Hm & _). rewrite Ha. f_equal.
  apply map_eq. intros h. rewrite lookup_empty. destruct (m !! h) as [rec|] eqn:E; [|done].
  apply (ma_live _ _ Hm) in E as [o Ho]. by rewrite (no_ctx_nothing _ _ _ o W Ec) in Ho.
Qed.

(** ** Theorems *)

Lemma reachable_wf `{Liburma} ctl c : fresh_handles -> rtc (res_step ctl) start c -> proc_wf c.
Proof. intros Hf. apply rtc_invariant; [|exact start_wf]. intros a b Ha Hs. by eapply res_step_wf. Qed.

(** C15: In every history of the operations of the resource layer in which
    [Init] and [Clear] happen only while its clients hold no reference
    (initialisation repeated, segments, jettys, lanes, imports, in any order and
    with any call of the library failing), the resource stays well-formed: every live
    handle has one owner and every reference count is the number of references.
    No call of the history is on a deleted handle, no handle is deleted twice
    or before those made from it, and without a context nothing is live. *)
Theorem resource_history_safe `{Liburma} ctl r x s :
  fresh_handles -> rtc (res_step ctl) start (r, x, s) ->
  (exists bd, res_wf bd r x s) /\ is_Some (audit s.(trace)) /\
  (r.(context_) = None -> audit s.(trace) = Some ∅).
Proof.
  intros Hf Hr. destruct (reachable_wf _ _ Hf Hr) as [bd W]. split; [by exists bd|]. split.
  - destruct (wf_audit _ _ _ (rw_wf _ _ _ _ W)) as (m & Ha & _). by exists m.
  - by eapply no_context_empty.
Qed.

(** An initialisation of three lanes of which the second cannot be made. *)
Definition demo_fail : Liburma := demo_lib [7%nat] [].

Definition demo_init (L : Liburma) (em : bool) : (bool * resource) * sys :=
  @Init L true 77 3 true 2 3 em 0 empty_resource empty_sys.

Lemma demo_init_step (L : Liburma) em :
  rtc (@res_step L true) start (snd (fst (demo_init L em)), no_refs, snd (demo_init L em)).
Proof. apply rtc_once. eapply step_init. apply surjective_pairing. Defined.

Lemma resource_history_safe_witness :
  fst (fst (demo_init demo_fail true)) = false /\ is_Some (audit (trace (snd (demo_init demo_fail true)))).
Proof.
  split; [by vm_compute|].
  exact (proj1 (proj2 (@resource_history_safe demo_fail true (snd (fst (demo_init demo_fail true))) no_refs
    (snd (demo_init demo_fail true)) (demo_fresh _ _) (demo_init_step demo_fail true)))).
Defined.

(** A successful initialisation makes a context, an event channel, a
    completion queue bound to the channel exactly in event mode, the shared
    receive jetty, and a pool of max(1, jettyCount, minJettys) lanes, all idle. *)
Theorem resource_init_ready `{Liburma} ctl dev eid ca jc mj em tm r s r' s' :
  fresh_handles -> rtc (res_step ctl) start (r, no_refs, s) ->
  Init ctl dev eid ca jc mj em tm r s = ((true, r'), s') ->
  let count := Z.to_nat (Z.max 1 (Z.max jc mj)) in
  GetStats r'.(sendJettyPool_) = mk_stats count count 0 /\ r'.(sharedRecvJetty_) <> 0 /\ r'.(transMode_) = tm /\
  exists m c e q, audit s'.(trace) = Some m /\ r'.(context_) = Some c /\ r'.(jfce_) = Some e /\ r'.(jfc_) = Some q /\
    m !! q = Some (KJfc, c :: if em then [e] else []).
Proof.
  intros Hf Hr Erun count. destruct (reachable_wf _ _ Hf Hr) as [bd W].
  destruct (triple_run _ _ _ _ _ _ (Init_wf Hf ctl bd dev eid ca jc mj em tm r) W Erun) as [_ Hok].
  destruct (Hok eq_refl) as [[Wr [c Ec] [e Ee] [q Eq] Hrecv Hpool] Htm]. split; [exact Hpool|]. split; [done|]. split; [done|].
  destruct (wf_audit _ _ _ (rw_wf _ _ _ _ Wr)) as (m & Ha & Hm & _). exists m, c, e, q. repeat (split; [done|]).
  apply (ma_live _ _ Hm). exists OJfc. simpl. simpl in Ec, Ee, Eq. rewrite Ec, Ee, Eq. done.
Qed.

Definition demo_ok : Liburma := demo_lib [] [].

Lemma demo_init_ok : fst (fst (demo_init demo_ok true)) = true.
Proof. by vm_compute. Qed.

Lemma resource_init_ready_witness :
  poolSize (GetStats (sendJettyPool_ (snd (fst (demo_init demo_ok true))))) = 3%nat.
Proof.
  destruct (@resource_init_ready demo_ok true 77 3 true 2 3 true 0 empty_resource empty_sys
    (snd (fst (demo_init demo_ok true))) (snd (demo_init demo_ok true)) (demo_fresh _ _) (rtc_refl _ _)) as [E _].
  - rewrite <- demo_init_ok. by rewrite <- !surjective_pairing.
  - by rewrite E.
Defined.

(** [Clear] of a well-formed resource whose references are all given back. *)
Lemma Clear_releases `{Liburma} bd r s r' s' :
  fresh_handles -> res_wf bd r no_refs s -> Clear r s = (r', s') ->
  r' = cleared r /\ audit s'.(trace) = Some ∅ /\
  s'.(jfrs) = ∅ /\ s'.(jetty_objs) = ∅ /\ s'.(lsegs) = ∅ /\ s'.(rsegs) = ∅.
Proof.
  intros Hf W Erun.
  destruct (triple_run _ _ _ _ _ _ (Clear_wf Hf bd r) W Erun) as [-> W']. split; [done|].
  split; [by apply (no_context_empty bd (cleared r) no_refs), eq_refl; apply cleared_wf|].
  assert (Ej : jetty_objs s' = ∅) by (apply refs_ok_no_owner, (wf_jetty _ _ _ W')).
  pose proof (wf_jfr _ _ _ W') as Er. rewrite Ej in Er.
  split; [by apply refs_ok_no_owner in Er|]. split; [done|].
  split; apply refs_ok_no_owner; [apply (wf_lseg _ _ _ W')|apply (wf_rseg _ _ _ W')].
Qed.

(** C9: [Clear], called when the clients have given their references back,
    deletes every handle and every object, whatever the initialisation before
    it had managed to make; the members are empty again and the history passes
    the audit with nothing live. *)
Theorem resource_clear_releases_all `{Liburma} ctl r s r' s' :
  fresh_handles -> rtc (res_step ctl) start (r, no_refs, s) -> Clear r s = (r', s') ->
  r' = cleared r /\ audit s'.(trace) = Some ∅ /\
  s'.(jfrs) = ∅ /\ s'.(jetty_objs) = ∅ /\ s'.(lsegs) = ∅ /\ s'.(rsegs) = ∅.
Proof. intros Hf Hr. destruct (reachable_wf _ _ Hf Hr) as [bd W]. by eapply Clear_releases. Qed.

Lemma resource_clear_releases_all_witness :
  audit (trace (snd (@Clear demo_fail (snd (fst (demo_init demo_fail true))) (snd (demo_init demo_fail true))))) = Some ∅.
Proof.
  exact (proj1 (proj2 (@resource_clear_releases_all demo_fail true _ _ _ _ (demo_fresh _ _) (demo_init_step demo_fail true)
    (surjective_pairing _)))).
Defined.
