(* ===== verification/Wire.v ===== *)
(** * Wire: the control-plane message of [src/urma/urma_manager.cpp]

    [WireInfo] is a packed struct that each side writes to the TCP socket as
    it lies in memory: the plain-data types of the library as their bytes,
    integers in little-endian order.  [SockSyncData] writes it and reads the
    peer's; the kernel may deliver the bytes in any pieces and interrupt any
    read. *)

From S2P Require Import Prelude Liburma.
From stdpp Require Import list.
#[local] Open Scope Z_scope.
#[local] Open Scope list_scope.

(** ** Integers as bytes *)

Fixpoint le_bytes (n : nat) (v : Z) : list Z :=
  match n with
  | O => []
  | S n => v mod 256 :: le_bytes n (v / 256)
  end.

Fixpoint le_value (bs : list Z) : Z :=
  match bs with
  | [] => 0
  | b :: bs => b + 256 * le_value bs
  end.

Lemma le_bytes_length n : forall v, length (le_bytes n v) = n.
Proof. induction n as [|n IH]; intros v; cbn [le_bytes length]; [done|]. by rewrite IH. Qed.

Lemma le_value_bytes n : forall v, 0 <= v < 256 ^ Z.of_nat n -> le_value (le_bytes n v) = v.
Proof.
  induction n as [|n IH]; intros v Hv; cbn [le_bytes le_value].
  - simpl in Hv. lia.
  - rewrite Nat2Z.inj_succ, Z.pow_succ_r in Hv by lia. rewrite IH.
    + pose proof (Z.div_mod v 256). lia.
    + split; [apply Z.div_pos; lia|]. apply Z.div_lt_upper_bound; lia.
Qed.

Lemma le_bytes_u32 v : is_u32 v -> le_value (le_bytes 4 v) = v.
Proof. intros H. by apply le_value_bytes. Qed.

Lemma le_bytes_u64 v : is_u64 v -> le_value (le_bytes 8 v) = v.
Proof. intros H. by apply le_value_bytes. Qed.

#[local] Opaque le_bytes le_value.

(** ** The message *)

Record WireInfo := mk_wire {
  w_eid : urma_eid;
  w_uasid : Z;
  w_seg_va : Z;
  w_seg_len : Z;
  w_seg_flag : Z;
  w_seg_token_id : Z;
  w_jetty_id : urma_jetty_id;
  w_threads : Z;
  w_op_code : Z;
  w_value_size : Z;
  w_dst_chip : Z;
  w_send_size : Z;
  w_reserved : Z * Z;
}.

Section Layout.
Context `{Liburma}.

(** [sizeof(WireInfo)] *)
Definition wire_size : nat := sizeof_eid + 4 + 8 + 8 + 4 + 4 + sizeof_jetty_id + 4 * 7.

Definition wire_bytes (w : WireInfo) : list Z :=
  w.(w_eid) ++ le_bytes 4 w.(w_uasid) ++ le_bytes 8 w.(w_seg_va) ++ le_bytes 8 w.(w_seg_len) ++
  le_bytes 4 w.(w_seg_flag) ++ le_bytes 4 w.(w_seg_token_id) ++ w.(w_jetty_id) ++
  le_bytes 4 w.(w_threads) ++ le_bytes 4 w.(w_op_code) ++ le_bytes 4 w.(w_value_size) ++
  le_bytes 4 w.(w_dst_chip) ++ le_bytes 4 w.(w_send_size) ++
  le_bytes 4 (fst w.(w_reserved)) ++ le_bytes 4 (snd w.(w_reserved)).

(** The members read from [wire_size] bytes. *)
Definition wire_of (bs : list Z) : WireInfo :=
  let next n bs := (take n bs, drop n bs) in
  let '(eid, bs) := next sizeof_eid bs in
  let '(uasid, bs) := next 4%nat bs in
  let '(va, bs) := next 8%nat bs in
  let '(len, bs) := next 8%nat bs in
  let '(flag, bs) := next 4%nat bs in
  let '(tok, bs) := next 4%nat bs in
  let '(jid, bs) := next sizeof_jetty_id bs in
  let '(threads, bs) := next 4%nat bs in
  let '(op, bs) := next 4%nat bs in
  let '(vs, bs) := next 4%nat bs in
  let '(chip, bs) := next 4%nat bs in
  let '(ss, bs) := next 4%nat bs in
  let '(r0, bs) := next 4%nat bs in
  let '(r1, bs) := next 4%nat bs in
  mk_wire eid (le_value uasid) (le_value va) (le_value len) (le_value flag) (le_value tok) jid
    (le_value threads) (le_value op) (le_value vs) (le_value chip) (le_value ss) (le_value r0, le_value r1).

(** Members of the declared widths. *)
Record wire_ok (w : WireInfo) : Prop := {
  wo_eid : length w.(w_eid) = sizeof_eid;
  wo_jid : length w.(w_jetty_id) = sizeof_jetty_id;
  wo_u32 : Forall is_u32 [w.(w_uasid); w.(w_seg_flag); w.(w_seg_token_id); w.(w_threads); w.(w_op_code);
    w.(w_value_size); w.(w_dst_chip); w.(w_send_size); fst w.(w_reserved); snd w.(w_reserved)];
  wo_u64 : is_u64 w.(w_seg_va) /\ is_u64 w.(w_seg_len);
}.

Lemma wire_bytes_length w : wire_ok w -> length (wire_bytes w) = wire_size.
Proof.
  intros W. unfold wire_bytes, wire_size. rewrite !length_app, !le_bytes_length, (wo_eid _ W), (wo_jid _ W). lia.
Qed.

Lemma wire_of_bytes w : wire_ok w -> wire_of (wire_bytes w) = w.
Proof.
  intros [E1 E2 H3 [H4 H5]]. repeat (apply Forall_cons in H3 as [? H3]).
  destruct w as [eid ua va len fl tk jid th op vs dc ss [r0 r1]]. unfold wire_of, wire_bytes. simpl in *.
  repeat first [rewrite take_app_length' by (rewrite ?le_bytes_length; done)
               |rewrite drop_app_length' by (rewrite ?le_bytes_length; done)].
  rewrite (take_ge (le_bytes 4 r1)) by (by rewrite le_bytes_length).
  by rewrite !le_bytes_u32, !le_bytes_u64 by done.
Qed.

End Layout.

(** ** The socket *)

(** What the kernel does with one [read]: deliver at most [n+1] of the bytes
    that have arrived, or fail, with [EINTR] or otherwise. *)
Inductive read_event := ReadUpTo (n : nat) | ReadError (eintr : bool).

(** [s_in] are the bytes that the peer sends before it closes, [s_reads] what
    the next reads do (the ones after them wait for all they ask for),
    [s_write] how many bytes the next [write] takes (negative when it fails). *)
Record sock := mk_sock {
  s_in : list Z;
  s_reads : list read_event;
  s_write : Z;
  s_out : list Z;
}.

(** The reading loop, [want] bytes to go and [acc] read: all bytes, or [None]
    when the peer has closed or a read failed; what is left in the socket. *)
Fixpoint read_loop (evs : list read_event) (want : nat) (input acc : list Z)
    : option (list Z) * list Z * list read_event :=
  match want with
  | O => (Some acc, input, evs)
  | _ =>
      match evs with
      | [] => if (length input <? want)%nat then (None, [], []) else (Some (acc ++ take want input), drop want input, [])
      | ReadUpTo k :: evs =>
          let n := Nat.min want (Nat.min (S k) (length input)) in
          if (n =? 0)%nat then (None, input, evs)
          else read_loop evs (want - n) (drop n input) (acc ++ take n input)
      | ReadError true :: evs => read_loop evs want input acc
      | ReadError false :: evs => (None, input, evs)
      end
  end.

Definition SockSyncData (size : nat) (localData : list Z) (s : sock) : option (list Z) * sock :=
  let rc := s.(s_write) in
  let out := s.(s_out) ++ take (Z.to_nat rc) (take size localData) in
  if rc <? Z.of_nat size then (None, mk_sock s.(s_in) s.(s_reads) rc out)
  else
    let '(r, input, evs) := read_loop s.(s_reads) size s.(s_in) [] in
    (r, mk_sock input evs rc out).

(** No read fails for good. *)
Definition reads_ok (evs : list read_event) : Prop := ReadError false ∉ evs.

(** However the bytes arrive, the loop returns the first [want] of them and
    leaves the others in the socket; it fails when there are fewer. *)
Lemma read_loop_done evs : forall want input acc,
  reads_ok evs -> (want <= length input)%nat ->
  fst (read_loop evs want input acc) = (Some (acc ++ take want input), drop want input).
Proof.
  induction evs as [|e evs IH]; intros [|want] input acc Hok Hle; cbn -[Nat.min Nat.sub Nat.eqb Nat.ltb take drop];
    rewrite ?app_nil_r; try done.
  - destruct (Nat.ltb_spec (length input) (S want)); [lia|done].
  - assert (Hok' : reads_ok evs) by (unfold reads_ok in *; set_solver). destruct e as [k|[]].
    + cbv zeta. set (n := Nat.min (S want) (Nat.min (S k) (length input))).
      destruct (Nat.eqb_spec n 0) as [E|E]; [lia|]. rewrite IH; [|done|rewrite length_drop; lia].
      rewrite <- app_assoc, drop_drop, take_take_drop. by replace (n + (S want - n))%nat with (S want) by lia.
    + by apply IH.
    + unfold reads_ok in Hok. set_solver.
Qed.

Lemma read_loop_short evs : forall want input acc,
  (length input < want)%nat -> fst (fst (read_loop evs want input acc)) = None.
Proof.
  induction evs as [|e evs IH]; intros [|want] input acc Hlt;
    cbn -[Nat.min Nat.sub Nat.eqb Nat.ltb take drop]; try lia.
  - by destruct (Nat.ltb_spec (length input) (S want)); [|lia].
  - destruct e as [k|[]]; [|by apply IH|done]. cbv zeta.
    destruct (Nat.eqb_spec (Nat.min (S want) (Nat.min (S k) (length input))) 0); [done|].
    apply IH. rewrite length_drop. lia.
Qed.

(** ** Theorems *)

(** A message whose members have their declared widths is [wire_size]
    bytes, and reading its bytes back gives the same message. *)
Theorem wire_roundtrip `{Liburma} w :
  wire_ok w -> length (wire_bytes w) = wire_size /\ wire_of (wire_bytes w) = w.
Proof. intros W. split; [by apply wire_bytes_length|by apply wire_of_bytes]. Qed.

Definition sample_wire : WireInfo :=
  mk_wire (replicate 16 17) 9 (2 ^ 47) 8192 7 300 (replicate 20 241) 4 2 65536 255 512 (0, 0).

Lemma sample_wire_ok : @wire_ok (demo_lib [] []) sample_wire.
Proof. split; [done|done| |by split]. simpl. repeat (constructor; [done|]). constructor. Qed.

Lemma wire_roundtrip_witness : w_seg_va (@wire_of (demo_lib [] []) (wire_bytes sample_wire)) = 2 ^ 47.
Proof. by rewrite (proj2 (@wire_roundtrip (demo_lib [] []) sample_wire sample_wire_ok)). Defined.

(** C26: The exchange on the socket returns the next [size] bytes of the peer
    and leaves the rest, however the kernel splits them and however often a
    read is interrupted; it fails when the peer closes before that, and, without
    reading, when the local message is not taken in one write. *)
Theorem sock_sync_exact size data k :
  reads_ok k.(s_reads) ->
  let '(r, k') := SockSyncData size data k in
  (s_write k < Z.of_nat size -> r = None /\ s_in k' = s_in k /\ s_reads k' = s_reads k) /\
  (Z.of_nat size <= s_write k -> (size <= length (s_in k))%nat ->
    r = Some (take size (s_in k)) /\ s_in k' = drop size (s_in k) /\ s_out k' = s_out k ++ take size data) /\
  (Z.of_nat size <= s_write k -> (length (s_in k) < size)%nat -> r = None).
Proof.
  intros Hr. unfold SockSyncData. cbv zeta. destruct (Z.ltb_spec (s_write k) (Z.of_nat size)) as [Hw|Hw].
  { split; [done|]. split; intros; lia. }
  pose proof (read_loop_done (s_reads k) size (s_in k) [] Hr) as Hd.
  pose proof (read_loop_short (s_reads k) size (s_in k) []) as Hs.
  destruct (read_loop _ _ _ _) as [[r input] evs]. simpl in *. split; [lia|]. split.
  - intros _ Hle. specialize (Hd Hle). injection Hd as -> ->. split; [done|]. split; [done|].
    rewrite (take_ge (take size data)); [done|]. rewrite length_take. lia.
  - intros _ Hlt. by apply Hs.
Qed.

Definition chunked : sock :=
  mk_sock [1; 2; 3; 4; 5; 6] [ReadUpTo 1; ReadError true; ReadUpTo 0; ReadError true] 100 [].

Lemma sock_sync_exact_witness : fst (SockSyncData 5 [9; 9; 9; 9; 9] chunked) = Some [1; 2; 3; 4; 5].
Proof.
  assert (Hr : reads_ok (s_reads chunked)) by (unfold reads_ok; simpl; set_solver).
  pose proof (sock_sync_exact 5 [9; 9; 9; 9; 9] chunked Hr) as H.
  destruct (SockSyncData 5 [9; 9; 9; 9; 9] chunked) as [r k']. destruct H as (_ & H & _).
  apply H; simpl; lia.
Defined.
