(* ===== verification/UrmaManager.v ===== *)
(** * UrmaManager: [src/urma/urma_manager.cpp] on the resource layer

    Start-up and shutdown of the manager, the registration of the buffer, the
    handshake with a peer, the data plane and the loop of the poll thread.  The
    worker and event calls are in UrmaEvents; the manager's record has them as
    one member. *)

From S2P Require Import Prelude EventSlotPool SendLane UrmaEvents Liburma UrmaResource Wire.
From Stdlib Require Import String.
From stdpp Require Import list strings.
#[local] Open Scope Z_scope.
#[local] Open Scope list_scope.

(** ** Members *)

Record manager := mk_mgr {
  resource_ : resource;
  initialized_ : bool;
  stop_ : bool;
  eventMode_ : bool;
  buf_ : Z;
  bufLen_ : Z;
  mgr_localSeg_ : Z;
  mgr_events : events;
}.

Definition new_manager : manager := mk_mgr empty_resource false false false 0 0 0 no_events.

Definition set_res (r : resource) (m : manager) : manager :=
  mk_mgr r m.(initialized_) m.(stop_) m.(eventMode_) m.(buf_) m.(bufLen_) m.(mgr_localSeg_) m.(mgr_events).
Definition set_event_mode (e : bool) (m : manager) : manager :=
  mk_mgr m.(resource_) m.(initialized_) m.(stop_) e m.(buf_) m.(bufLen_) m.(mgr_localSeg_) m.(mgr_events).
Definition set_events (e : events) (m : manager) : manager :=
  mk_mgr m.(resource_) m.(initialized_) m.(stop_) m.(eventMode_) m.(buf_) m.(bufLen_) m.(mgr_localSeg_) e.
Definition set_flags (init stop : bool) (m : manager) : manager :=
  mk_mgr m.(resource_) init stop m.(eventMode_) m.(buf_) m.(bufLen_) m.(mgr_localSeg_) m.(mgr_events).
Definition set_buffer (va len seg : Z) (m : manager) : manager :=
  mk_mgr m.(resource_) m.(initialized_) m.(stop_) m.(eventMode_) va len seg m.(mgr_events).

Record HandshakeParams := mk_params {
  threads : Z;
  opCode : Z;
  valueSize : Z;
  sendSize : Z;
  dstChip : Z;
  transMode : Z;
}.

Record UrmaPeerInfo := mk_peer {
  p_eid : urma_eid;
  p_uasid : Z;
  p_jettyId : Z;
  p_dstChip : Z;
  p_threads : Z;
  p_opCode : Z;
  p_valueSize : Z;
  p_sendSize : Z;
  p_seg : urma_seg;
}.

Record UrmaConnection := mk_conn {
  peer : UrmaPeerInfo;
  targetJetty : option Z;
  remoteSeg : Z;
}.

Section Manager.
Context `{Liburma}.
Context (bondp_ctl : bool).

(** ** Start and stop *)

Definition GetEidIndex (dev : Z) : ST sys Z :=
  eidList ← call (urma_get_eid_list dev);
  eidCnt ← peek (fun tr => if eidList =? nullptr then 0 else eid_list_len tr eidList);
  if (eidList =? nullptr) || (eidCnt =? 0) then
    (if eidList =? nullptr then mret tt else call (urma_free_eid_list eidList);; mret tt);;
    mret (-1)
  else
    index ← peek (fun tr => eid_list_index tr eidList 0);
    call (urma_free_eid_list eidList);;
    mret (i32 index).

Definition InitUrmaLib : ST sys bool :=
  rc ← call (urma_init 0);
  mret (rc =? URMA_SUCCESS).

(** [spawned]: whether the poll thread could be started. *)
Definition ManagerInit (devName : string) (cacheable : bool) (jettyCount threadsMin : Z) (eventMode : bool)
    (transMode eidIndex : Z) (spawned : bool) (m : manager) : ST sys (bool * manager) :=
  if m.(initialized_) then mret (true, m)
  else
    let m := set_event_mode eventMode m in
    ok ← InitUrmaLib;
    if negb ok then mret (false, m)
    else
      dev ← call (urma_get_device_by_name devName);
      if dev =? nullptr then mret (false, m)
      else
        eid ← (if eidIndex <? 0 then GetEidIndex dev else mret eidIndex);
        if eid <? 0 then mret (false, m)
        else
          '(ok, r) ← Init bondp_ctl dev (u32 eid) cacheable jettyCount threadsMin eventMode transMode m.(resource_);
          let m := set_res r m in
          if negb ok then mret (false, m)
          else
            rearmed ← (if m.(eventMode_) then RearmJfc m.(resource_) else mret true);
            if negb rearmed then mret (false, m)
            else
              let m := set_flags true false m in
              let '(started, e) := EnsurePollThread spawned m.(mgr_events) in
              mret (started, set_events e m).

(** Joining the poll thread is the end of [pollStarted_]. *)
Definition Stop (m : manager) : ST sys manager :=
  if m.(initialized_) then
    let m := set_flags true true m in
    let e := m.(mgr_events) in
    let m := set_events (mk_events e.(workerSlots_) e.(workerCount_) false) m in
    r ← Clear m.(resource_);
    let m := set_flags false true (set_res r m) in
    drop_lseg m.(mgr_localSeg_);;
    let m := set_buffer 0 0 0 m in
    call urma_uninit;;
    mret m
  else mret m.

(** [~UrmaManager]: [Stop], then the members in reverse order; the destructor
    of the resource is [Clear]. *)
Definition destroy_manager (m : manager) : ST sys unit :=
  m ← Stop m;
  drop_lseg m.(mgr_localSeg_);;
  Clear m.(resource_);;
  mret tt.

Definition RegisterBuffer (va len : Z) (m : manager) : ST sys (bool * manager) :=
  '(seg, r) ← RegisterSegment va len m.(resource_);
  let m := set_res r m in
  match seg with
  | None => mret (false, m)
  | Some seg =>
      share_lseg seg;;
      drop_lseg m.(mgr_localSeg_);;
      let m := set_buffer va len seg m in
      drop_lseg seg;;
      mret (true, m)
  end.

Definition LocalSeg (m : manager) : ST sys Z :=
  if m.(mgr_localSeg_) =? nullptr then mret nullptr else lseg_raw m.(mgr_localSeg_).

(** ** Send lanes *)

Definition AcquireSendLane (m : manager) : ST sys (option Z * manager) :=
  '(o, r) ← AcquireSendJetty m.(resource_);
  mret (o, set_res r m).

Definition ReleaseSendLane (jetty : Z) (m : manager) : manager := set_res (ReleaseSendJetty jetty m.(resource_)) m.

(** ** Handshake *)

(** What this side publishes. *)
Definition local_wire (params : HandshakeParams) (m : manager) : ST sys WireInfo :=
  local ← lseg_raw m.(mgr_localSeg_);
  eid ← Eid m.(resource_);
  uasid ← Uasid m.(resource_);
  seg ← peek (fun tr => tseg_seg tr local);
  jid ← (if m.(resource_).(sharedRecvJetty_) =? nullptr then mret (replicate sizeof_jetty_id 0)
         else raw ← jetty_raw m.(resource_).(sharedRecvJetty_); peek (fun tr => jetty_id_of tr raw));
  mret (mk_wire eid uasid seg.(ubva_va) seg.(seg_length) seg.(seg_attr) seg.(seg_token) jid
    params.(threads) params.(opCode) params.(valueSize) params.(dstChip) params.(sendSize) (0, 0)).

(** What the other side is told to be. *)
Definition peer_of (w : WireInfo) : UrmaPeerInfo :=
  mk_peer w.(w_eid) w.(w_uasid) (jetty_id_id w.(w_jetty_id)) w.(w_dst_chip) w.(w_threads) w.(w_op_code)
    w.(w_value_size) w.(w_send_size)
    (mk_seg w.(w_eid) w.(w_uasid) w.(w_seg_va) w.(w_seg_len) w.(w_seg_flag) w.(w_seg_token_id)).

Definition rtp_rjetty (w : WireInfo) (mode : Z) : urma_rjetty :=
  mk_rjetty w.(w_jetty_id) (ResolveTransMode mode) URMA_JETTY URMA_RTP
    (if mode =? 3 then 1 else 0) (if mode =? 3 then 1 else 0) 0.

Definition bondp_rjetty (w : WireInfo) (mode : Z) : urma_rjetty :=
  mk_rjetty w.(w_jetty_id) (ResolveTransMode mode) URMA_JETTY URMA_CTP 0 0 1.

Definition import_peer_jetty (w : WireInfo) (mode : Z) (preferRtp : bool) (r : resource) : ST sys (option Z) :=
  if preferRtp then ImportTargetJetty (rtp_rjetty w mode) r
  else
    o ← ImportTargetJetty (bondp_rjetty w mode) r;
    match o with
    | None => ImportTargetJetty (rtp_rjetty w mode) r
    | Some t => mret (Some t)
    end.

(** RC: the lanes [i], [i+1], ... bound to the target, [n] to go. *)
Fixpoint bind_lanes (n : nat) (i : Z) (target : Z) (r : resource) : ST sys bool :=
  match n with
  | O => mret true
  | S n =>
      jetty ← JettyAt i r;
      ok ← (if jetty =? nullptr then mret true
            else raw ← jetty_raw jetty; rc ← call (urma_bind_jetty raw target); mret (rc =? URMA_SUCCESS));
      drop_jetty jetty;;
      if (ok : bool) then bind_lanes n (i + 1) target r else mret false
  end.

(** The end of a connection: its members in reverse order. *)
Definition destroy_conn (c : UrmaConnection) : ST sys unit :=
  drop_rseg c.(remoteSeg);;
  del_target c.(targetJetty).

(** The imports after a message has been accepted. *)
Definition connect (w : WireInfo) (params : HandshakeParams) (preferRtp : bool) (m : manager)
    : ST sys (option UrmaConnection) :=
  target ← import_peer_jetty w params.(transMode) preferRtp m.(resource_);
  match target with
  | None => mret None
  | Some t =>
      seg ← ImportSegment (p_seg (peer_of w)) m.(resource_);
      match seg with
      | None => del_target target;; mret None
      | Some l =>
          let conn := mk_conn (peer_of w) target l in
          bound ← (if (params.(transMode) =? 1) || (params.(transMode) =? 3)
                   then bind_lanes (Z.to_nat (SendJettyCount m.(resource_))) 0 t m.(resource_)
                   else mret true);
          if (bound : bool) then mret (Some conn) else destroy_conn conn;; mret None
      end
  end.

(** Both ends must send the same number of bytes per request, when both say. *)
Definition send_size_mismatch (params : HandshakeParams) (w : WireInfo) : bool :=
  negb (params.(sendSize) =? 0) && negb (w.(w_send_size) =? 0) && negb (w.(w_send_size) =? params.(sendSize)).

Definition Exchange (params : HandshakeParams) (preferRtp : bool) (m : manager) (k : sock)
    : ST sys (option UrmaConnection * sock) :=
  if (m.(mgr_localSeg_) =? nullptr) || (Ctx m.(resource_) =? nullptr) then mret (None, k)
  else
    localWire ← local_wire params m;
    let '(r, k) := SockSyncData wire_size (wire_bytes localWire) k in
    match r with
    | None => mret (None, k)
    | Some bytes =>
        let remoteWire := wire_of bytes in
        if send_size_mismatch params remoteWire then mret (None, k)
        else c ← connect remoteWire params preferRtp m; mret (c, k)
    end.

Definition ExchangeAsClient := Exchange.
Definition ExchangeAsServer := Exchange.

Definition RemoteSegVa (c : UrmaConnection) : ST sys Z :=
  if c.(remoteSeg) =? nullptr then mret 0 else raw ← rseg_raw c.(remoteSeg); UrmaRemoteSegment_Va raw.

(** ** Data plane *)

Definition BuildBondpWr (target : Z) (srcSges dstSges : list urma_sge) (userContext useDriverExt srcChipId dstChipId
    fence : Z) (opcode : urma_opcode) : bondp_jfs_wr :=
  mk_bondp_wr opcode 1 0 (if fence =? 0 then 0 else 1) (if useDriverExt =? 0 then 0 else 1) target userContext
    srcSges dstSges nullptr srcChipId dstChipId.

Definition PostJettyRw (jetty target localSeg remSeg localAddress remoteAddress length userContext
    useDriverExt srcChipId dstChipId : Z) : ST sys Z :=
  if (jetty =? nullptr) || (target =? nullptr) || (localSeg =? nullptr) || (remSeg =? nullptr) || (length =? 0)
  then mret URMA_EINVAL
  else
    let localSge := mk_sge localAddress length localSeg nullptr in
    let remoteSge := mk_sge remoteAddress length remSeg nullptr in
    call (urma_post_jetty_send_wr jetty
      (BuildBondpWr target [localSge] [remoteSge] userContext useDriverExt srcChipId dstChipId 0 URMA_OPC_WRITE)).

Definition PostJettyRd (jetty target localSeg remSeg localAddress remoteAddress length userContext
    useDriverExt srcChipId dstChipId : Z) : ST sys Z :=
  if (jetty =? nullptr) || (target =? nullptr) || (localSeg =? nullptr) || (remSeg =? nullptr) || (length =? 0)
  then mret URMA_EINVAL
  else
    let localSge := mk_sge localAddress length localSeg nullptr in
    let remoteSge := mk_sge remoteAddress length remSeg nullptr in
    call (urma_post_jetty_send_wr jetty
      (BuildBondpWr target [remoteSge] [localSge] userContext useDriverExt srcChipId dstChipId 0 URMA_OPC_READ)).

(** The part that [PostWrite] and [PostRead] share: checks, handles and the
    driver-extension flag. *)
Definition post_with (post : Z -> Z -> Z -> Z -> Z -> Z -> Z -> Z -> Z -> Z -> Z -> ST sys Z)
    (jetty : Z) (conn : UrmaConnection) (localAddr remoteAddr len srcChip dChip userCtx : Z) (m : manager) : ST sys bool :=
  match conn.(targetJetty) with
  | None => mret false
  | Some t =>
      if (jetty =? nullptr) || (m.(mgr_localSeg_) =? nullptr) || (conn.(remoteSeg) =? nullptr) then mret false
      else
        let drv := if negb (srcChip =? kInvalidChip) && negb (dChip =? kInvalidChip) then 1 else 0 in
        j ← jetty_raw jetty;
        ls ← lseg_raw m.(mgr_localSeg_);
        rs ← rseg_raw conn.(remoteSeg);
        rc ← post j t ls rs localAddr remoteAddr len userCtx drv srcChip dChip;
        mret (rc =? URMA_SUCCESS)
  end.

Definition PostWrite := post_with PostJettyRw.
Definition PostRead := post_with PostJettyRd.

End Manager.

(** ** The poll thread *)

(** What one round of the loop gets: the result of [urma_wait_jfc] and the
    queue it names (event mode), the result of [urma_poll_jfc] with its
    records, and the clock where the round reads it. *)
Record poll_input := mk_input {
  pi_wait : Z;
  pi_evJfc : Z;
  pi_cnt : Z;
  pi_crs : list urma_cr;
  pi_only : Z;
  pi_now : Z;
  pi_end : Z;
}.

(** The local variables of [PollThreadMain], the events, and the calls made in
    event mode: the counts acknowledged and the number of re-arms. *)
Record poll_vars := mk_vars {
  lastPollNs_ : Z;
  maxPollNs : Z;
  lastOnlyPollNs_ : Z;
  maxOnlyPollNs : Z;
  pv_events : events;
  pv_acks : list Z;
  pv_rearms : nat;
}.

Definition kMaxPollCr : Z := 32.

(** An interval since [last] (0: none yet) enters the maximum. *)
Definition note_interval (last now mx : Z) : Z :=
  if last =? 0 then mx
  else let cur := now -u64 last in if cur >? mx then cur else mx.

(** The round after the poll: records to the workers, intervals. *)
Definition poll_tail (cnt : Z) (i : poll_input) (v : poll_vars) : poll_vars :=
  let maxOnly := note_interval v.(lastOnlyPollNs_) i.(pi_only) v.(maxOnlyPollNs) in
  if cnt >? 0 then
    let e := poll_batch (take (Z.to_nat cnt) i.(pi_crs)) v.(pv_events) in
    let mx := note_interval v.(lastPollNs_) i.(pi_now) v.(maxPollNs) in
    mk_vars i.(pi_now) mx i.(pi_end) maxOnly e v.(pv_acks) v.(pv_rearms)
  else mk_vars v.(lastPollNs_) v.(maxPollNs) i.(pi_end) maxOnly v.(pv_events) v.(pv_acks) v.(pv_rearms).

Definition poll_round (eventMode : bool) (jfc : Z) (i : poll_input) (v : poll_vars) : poll_vars :=
  if eventMode then
    if i.(pi_wait) <=? 0 then v
    else if negb (jfc =? i.(pi_evJfc)) then v
    else
      let cnt := i.(pi_cnt) in
      let v := if cnt >? 0
               then mk_vars v.(lastPollNs_) v.(maxPollNs) v.(lastOnlyPollNs_) v.(maxOnlyPollNs) v.(pv_events)
                      (v.(pv_acks) ++ [u32 cnt]) (S v.(pv_rearms))
               else v in
      poll_tail cnt i v
  else poll_tail i.(pi_cnt) i v.

(** The rounds until the thread sees [stop_]. *)
Definition PollThreadMain (eventMode : bool) (jfc : Z) (inputs : list poll_input) (e : events) : poll_vars :=
  foldl (fun v i => poll_round eventMode jfc i v) (mk_vars 0 0 0 0 e [] 0) inputs.
