(* ===== verification/UrmaManagerProps.v ===== *)
(** * UrmaManagerProps: what the manager guarantees

    Start, stop, registration and handshake account for every handle, except
    for the order of [Stop] ([stop_segment_outlives_context]); the handshake
    gives each side what the other published; a post is one work request with
    the addresses it was given; the poll thread delivers every record once. *)

From S2P Require Import Prelude EventSlotPool SendLane UrmaEvents Liburma UrmaResource UrmaResourceInv.
From S2P Require Import UrmaResourceProps Wire UrmaManager.
From Stdlib Require Import String.
From stdpp Require Import list strings.
#[local] Open Scope Z_scope.
#[local] Open Scope list_scope.

(** ** The manager and its handles *)

(** The manager's own reference to the segment counts as a client's. *)
Definition mgr_wf (bd : bool) (m : manager) (x : refs_of) (s : sys) : Prop :=
  res_wf bd m.(resource_) (add_lseg m.(mgr_localSeg_) x) s.

Lemma res_owners bd r x x' s : same_owners x x' -> res_wf bd r x s -> res_wf bd r x' s.
Proof. intros E [W P]. split; [|done]. eapply wf_same; [by apply refs_in_owners|exact W]. Qed.

Lemma lseg_swap l l' x : same_owners (add_lseg l (add_lseg l' x)) (add_lseg l' (add_lseg l x)).
Proof. split; simpl; try done. apply same_refs_perm, Permutation_swap. Qed.

Lemma lseg_null x : same_owners (add_lseg 0 x) x.
Proof. split; simpl; try done. apply same_refs_null. Qed.

(** A call that is given no handle. *)
Lemma res_call_free `{Liburma} bd r x c :
  created c = None -> deleted c = None -> touches c = [] ->
  triple (res_wf bd r x) (call c) (fun _ => res_wf bd r x).
Proof.
  intros Hc Hd Ht. apply (res_lift _ _ _ _ (fun _ => x)). intros s W. apply wf_touched; [done..|]. by rewrite Ht.
Qed.

Section Manager.
Context `{Liburma}.
Hypothesis Hfresh : fresh_handles.

Lemma RegisterBuffer_wf bd va len m x :
  triple (mgr_wf bd m x) (RegisterBuffer va len m)
    (fun a s => mgr_wf bd (snd a) x s /\ initialized_ (snd a) = initialized_ m /\
      (fst a = true -> mgr_localSeg_ (snd a) <> 0 /\ localSeg_ (resource_ (snd a)) = mgr_localSeg_ (snd a) /\
        buf_ (snd a) = va /\ bufLen_ (snd a) = len)).
Proof.
  eapply triple_bind; [by apply RegisterSegment_wf|]. intros [[l|] r]; simpl.
  - intros s (Hl & -> & W). rewrite ST_bind_eq.
    assert (Hin : l ∈ localSeg_ (set_seg l (resource_ m)) :: p_lseg (add_lseg l (add_lseg (mgr_localSeg_ m) x))) by (simpl; set_solver).
    pose proof (res_share_lseg bd _ _ l Hin s W) as W1.
    apply (res_owners _ _ _ (add_lseg (mgr_localSeg_ m) (add_lseg l (add_lseg l x)))) in W1.
    2:{ split; simpl; try done. apply same_refs_perm.
      etrans; [apply perm_skip, perm_swap|apply perm_swap]. }
    rewrite ST_bind_eq. pose proof (res_drop_lseg bd _ _ _ _ W1) as W2.
    rewrite ST_bind_eq. pose proof (res_drop_lseg bd _ _ _ _ W2) as W3. by split.
  - apply triple_ret. intros s [-> W]. by split.
Qed.

(** [Init] of a manager that has no buffer, whatever fails. *)
Lemma GetEidIndex_wf bd r x dev : triple (res_wf bd r x) (GetEidIndex dev) (fun _ => res_wf bd r x).
Proof.
  unfold GetEidIndex. eapply triple_bind; [by apply res_call_free|]. intros l. intros s W. rewrite ST_bind_eq. simpl.
  destruct (_ || _).
  - rewrite ST_bind_eq. destruct (l =? nullptr); [done|]. rewrite ST_bind_eq. simpl. by apply res_call_free.
  - rewrite !ST_bind_eq. simpl. by apply res_call_free.
Qed.

Lemma ManagerInit_wf ctl bd name ca jc mj em tm eid spawned m :
  triple (fun s => res_wf bd m.(resource_) no_refs s /\ m.(mgr_localSeg_) = 0)
    (ManagerInit ctl name ca jc mj em tm eid spawned m)
    (fun a s => (exists bd, res_wf bd (resource_ (snd a)) no_refs s) /\ mgr_localSeg_ (snd a) = 0 /\
      (initialized_ m = false -> initialized_ (snd a) = true ->
        GetStats (sendJettyPool_ (resource_ (snd a))) = mk_stats (lane_count jc mj) (lane_count jc mj) 0 /\
        is_Some (context_ (resource_ (snd a))))).
Proof.
  intros s [W El]. unfold ManagerInit. destruct (initialized_ m) eqn:Ei; [by split; [exists bd|]|].
  assert (Hno : forall e s', res_wf bd (resource_ m) no_refs s' ->
    (exists bd, res_wf bd (resource_ (set_event_mode e m)) no_refs s') /\ mgr_localSeg_ (set_event_mode e m) = 0 /\
    (false = false -> initialized_ (set_event_mode e m) = true -> GetStats (sendJettyPool_ (resource_ (set_event_mode e m))) =
      mk_stats (lane_count jc mj) (lane_count jc mj) 0 /\ is_Some (context_ (resource_ (set_event_mode e m))))).
  { intros e s' W'. split; [by exists bd|]. split; [done|]. simpl. by rewrite Ei. }
  cbv zeta. rewrite ST_bind_eq. unfold InitUrmaLib. rewrite ST_bind_eq. simpl.
  pose proof (res_call_free bd _ _ (urma_init 0) eq_refl eq_refl eq_refl s W) as W1.
  destruct (negb _); [by apply Hno|]. rewrite ST_bind_eq.
  pose proof (res_call_free bd _ _ (urma_get_device_by_name name) eq_refl eq_refl eq_refl _ W1) as W2.
  set (a2 := call (urma_get_device_by_name name) _) in *. destruct (fst a2 =? nullptr); [by apply Hno|].
  rewrite ST_bind_eq.
  assert (W3 : res_wf bd (resource_ m) no_refs (snd ((if eid <? 0 then GetEidIndex (fst a2) else mret eid) (snd a2)))).
  { destruct (eid <? 0); [|done]. by apply GetEidIndex_wf. }
  set (a3 := (if eid <? 0 then GetEidIndex (fst a2) else mret eid) (snd a2)) in *. destruct (fst a3 <? 0); [by apply Hno|].
  rewrite ST_bind_eq. pose proof (Init_wf Hfresh ctl bd (fst a2) (u32 (fst a3)) ca jc mj em tm (resource_ m) _ W3) as [W4 Hr].
  set (a4 := Init ctl (fst a2) (u32 (fst a3)) ca jc mj em tm (resource_ m) (snd a3)) in *. destruct a4 as [[ok r] s4]. simpl in *.
  destruct ok; simpl; [|split; [done|]; split; [done|]; simpl; by rewrite Ei].
  destruct (Hr eq_refl) as [[Wr Hctx _ _ _ Hpool] _]. rewrite ST_bind_eq.
  assert (W5 : res_wf em r no_refs (snd ((if em then RearmJfc r else mret true) s4))).
  { destruct em; [|done]. by apply RearmJfc_wf. }
  set (a5 := (if em then RearmJfc r else mret true) s4) in *. destruct (fst a5); simpl.
  - destruct (EnsurePollThread spawned (mgr_events m)) as [st e]. simpl. split; [by exists em|]. split; done.
  - split; [by exists em|]. split; [done|]. simpl. by rewrite Ei.
Qed.

(** *** The handshake *)

Lemma import_peer_wf bd w mode rtp r x :
  triple (res_wf bd r x) (import_peer_jetty w mode rtp r)
    (fun o => match o with Some h => fun s => h <> 0 /\ res_wf bd r (add_target h x) s | None => res_wf bd r x end).
Proof.
  unfold import_peer_jetty. destruct rtp; [by apply ImportTargetJetty_wf|].
  eapply triple_bind; [by apply ImportTargetJetty_wf|]. intros [t|]; [by apply triple_ret|]. by apply ImportTargetJetty_wf.
Qed.

(** Binding lanes keeps the counts: every reference taken is given back. *)
Lemma bind_lanes_wf bd t r x n : forall i,
  triple (res_wf bd r (add_target t x)) (bind_lanes n i t r) (fun _ => res_wf bd r (add_target t x)).
Proof.
  induction n as [|n IH]; intros i; [by apply triple_ret|]. simpl.
  eapply triple_bind; [by apply JettyAt_wf|]. intros j.
  apply (triple_bind _ _ _ (fun _ => res_wf bd r (add_jetty j (add_target t x)))).
  - destruct (Z.eqb_spec j nullptr) as [|Hj]; [by apply triple_ret|].
    intros s [W P]. change ((jetty_raw j ≫= ?f) s) with (f (from_option (fun c => fst (obj c)) 0 (jetty_objs s !! j)) s).
    cbv beta. rewrite call_bind. simpl. split; [|done]. apply wf_touched; [done..|].
    destruct (owner_elem _ _ j (wf_jetty _ _ _ W)) as [c Hc]; [simpl; set_solver|done|].
    simpl. rewrite Hc. simpl. constructor; [|constructor; [|done]].
    + exists (OJetty j). simpl. rewrite Hc. simpl. eauto.
    + exists (OTarget t). simpl. rewrite decide_True by set_solver. eauto.
  - intros ok. eapply triple_bind; [by apply res_drop_jetty|]. intros ?. destruct ok; [apply IH|by apply triple_ret].
Qed.

(** A failed handshake leaves nothing imported; a successful one leaves the
    target jetty and the segment of the connection. *)
Definition conn_refs (c : UrmaConnection) (x : refs_of) : refs_of :=
  match c.(targetJetty) with Some t => add_rseg c.(remoteSeg) (add_target t x) | None => x end.

Lemma destroy_conn_wf bd c r x :
  is_Some c.(targetJetty) -> triple (res_wf bd r (conn_refs c x)) (destroy_conn c) (fun _ => res_wf bd r x).
Proof.
  intros [t Et]. unfold conn_refs, destroy_conn. rewrite Et. eapply triple_bind; [by apply res_drop_rseg|]. intros ?.
  by apply res_del_target.
Qed.

Lemma connect_wf bd w params rtp m x :
  triple (res_wf bd (resource_ m) x) (connect w params rtp m)
    (fun o => match o with
      | Some c => fun s => is_Some c.(targetJetty) /\ c.(remoteSeg) <> 0 /\ c.(peer) = peer_of w /\
          res_wf bd (resource_ m) (conn_refs c x) s
      | None => res_wf bd (resource_ m) x end).
Proof.
  unfold connect. eapply triple_bind; [by apply import_peer_wf|]. intros [t|]; [|by apply triple_ret].
  apply triple_pure. intros Ht. eapply triple_bind; [by apply ImportSegment_wf|]. intros [l|].
  - apply triple_pure. intros Hl. cbv zeta.
    apply (triple_bind _ _ _ (fun _ => res_wf bd (resource_ m) (add_rseg l (add_target t x)))).
    + destruct (_ || _); [|by apply triple_ret].
      eapply triple_weaken; [apply (bind_lanes_wf bd t (resource_ m) (add_rseg l x))| |]; intros; done.
    + intros [|]; [by apply triple_ret|].
      eapply triple_bind; [by apply (destroy_conn_wf bd (mk_conn (peer_of w) (Some t) l)); eexists|]. intros ?. by apply triple_ret.
  - eapply triple_bind; [by apply res_del_target|]. intros ?. by apply triple_ret.
Qed.

Lemma local_wire_state params m s : snd (local_wire params m s) = s.
Proof.
  unfold local_wire. repeat (rewrite ST_bind_eq; simpl). unfold Eid, Uasid. 
  destruct (context_ _), (_ =? _); simpl; try done; by rewrite ST_bind_eq.
Qed.

Lemma Exchange_wf bd params rtp m k x :
  triple (mgr_wf bd m x) (Exchange params rtp m k)
    (fun a s => match fst a with
      | Some c => is_Some c.(targetJetty) /\ c.(remoteSeg) <> 0 /\ mgr_wf bd m (conn_refs c x) s
      | None => mgr_wf bd m x s
      end).
Proof.
  intros s W. unfold Exchange. destruct (_ || _); [done|]. rewrite ST_bind_eq, local_wire_state.
  destruct (SockSyncData _ _ k) as [[bytes|] k']; [|done]. cbv zeta. destruct (send_size_mismatch _ _); [done|].
  rewrite ST_bind_eq. pose proof (connect_wf bd (wire_of bytes) params rtp m _ s W) as Hp.
  simpl. destruct (fst (connect _ _ _ _ _)) as [c|]; [|done]. destruct Hp as ([t Et] & Hl & _ & W').
  split; [by eexists|]. split; [done|]. unfold mgr_wf, conn_refs in *. by rewrite Et in *.
Qed.

(** *** [Stop] *)

(** The last reference to an object ends it. *)
Lemma decref_last {A} (h : gmap Z (cell A)) l : refs_ok h [l] -> l <> 0 ->
  exists c, h !! l = Some c /\ decref l h = (Some c.(obj), delete l h).
Proof.
  intros R Hl. destruct (refs_ok_owner _ _ _ R Hl) as [c Hc]. exists c. split; [done|].
  destruct (ro_count _ _ R _ _ Hc) as [Hcount _]. rewrite count_cons, decide_True in Hcount by done.
  unfold decref. by rewrite Hc, Hcount.
Qed.

(** No object is left. *)
Definition no_objects (s : sys) : Prop := s.(jfrs) = ∅ /\ s.(jetty_objs) = ∅ /\ s.(lsegs) = ∅ /\ s.(rsegs) = ∅.

(** Of a context and one segment, nothing else is alive. *)
Lemma only_segment c bd l s live :
  wf (mk_base (Some c) None None bd) (add_lseg l no_refs) s -> l <> 0 ->
  matches (owned (mk_base (Some c) None None bd) (add_lseg l no_refs) s) live ->
  (exists h, (obj <$> s.(lsegs) !! l) = Some h /\ h <> c /\ live = {[h := (KSeg, [c]); c := (KContext, [])]}) /\
  s.(jfrs) = ∅ /\ s.(jetty_objs) = ∅ /\ s.(rsegs) = ∅ /\ delete l s.(lsegs) = ∅.
Proof.
  intros W Hl [Hlive Hinj]. destruct (refs_ok_owner _ _ _ (wf_lseg _ _ _ W) Hl) as [cl Hcl].
  assert (Ej : jetty_objs s = ∅) by (apply refs_ok_no_owner, (wf_jetty _ _ _ W)).
  pose proof (wf_jfr _ _ _ W) as Er. rewrite Ej in Er. apply refs_ok_no_owner in Er.
  assert (Ers : rsegs s = ∅) by (apply refs_ok_no_owner, (wf_rseg _ _ _ W)).
  assert (Hown : owned (mk_base (Some c) None None bd) (add_lseg l no_refs) s (OLseg l) = Some (obj cl, (KSeg, [c])))
    by (simpl; by rewrite Hcl).
  assert (Hne : obj cl <> c).
  { intros E. assert (OLseg l = OCtx) by (eapply Hinj; [exact Hown|]; simpl; by rewrite E). done. }
  assert (Hseg : forall l' cl', s.(lsegs) !! l' = Some cl' -> l' = l).
  { intros l' cl' H'. destruct (ro_count _ _ (wf_lseg _ _ _ W) _ _ H') as [_ Hc]. simpl in Hc.
    destruct (decide (l' = l)); [done|]. unfold count in Hc. simpl in Hc. rewrite filter_cons_False in Hc by done. simpl in Hc. lia. }
  split; cycle 1.
  { do 3 (split; [done|]). apply map_eq. intros l'. rewrite lookup_empty.
    destruct (decide (l' = l)) as [->|Hn]; [by rewrite lookup_delete_eq|]. rewrite lookup_delete_ne by done.
    destruct (s.(lsegs) !! l') eqn:E'; [|done]. by destruct (Hn (Hseg _ _ E')). }
  exists (obj cl). split; [by rewrite Hcl|]. split; [done|].
  apply map_eq. intros x. apply option_eq. intros r. rewrite Hlive. split.
  - intros [[| | |l'|l'|l'|l'|h'] Ho]; simpl in Ho; rewrite ?Er, ?Ej, ?Ers in Ho; try done.
    + injection Ho as <- <-. by rewrite lookup_insert_ne, lookup_singleton_eq.
    + destruct (s.(lsegs) !! l') as [cl'|] eqn:E'; [|done]. rewrite (Hseg _ _ E'), Hcl in E'. injection E' as <-.
      injection Ho as <- <-. by rewrite lookup_insert_eq.
  - rewrite lookup_insert_Some, lookup_singleton_Some. intros [[<- <-]|[_ [<- <-]]]; [by exists (OLseg l)|by exists OCtx].
Qed.

Lemma stop_trace bd m c s :
  mgr_wf bd m no_refs s -> m.(initialized_) = true -> m.(mgr_localSeg_) <> 0 -> context_ m.(resource_) = Some c ->
  exists tr live h a1 a2 a3,
    (snd (Stop m s)).(trace) = tr ++ [(urma_delete_context c, a1); (urma_unregister_seg h, a2); (urma_uninit, a3)] /\
    audit tr = Some live /\ h <> c /\ live = {[h := (KSeg, [c]); c := (KContext, [])]} /\ no_objects (snd (Stop m s)).
Proof.
  intros W Ei El Ec. unfold Stop. rewrite Ei. cbv zeta. rewrite ST_bind_eq. simpl.
  pose proof (clear_members_wf Hfresh bd (resource_ m) (add_lseg (mgr_localSeg_ m) no_refs) eq_refl eq_refl s W) as W1.
  set (s1 := snd (clear_members (resource_ m) s)) in *. rewrite Ec in W1.
  assert (Eclear : snd (Clear (resource_ m) s) =
    with_trace (trace s1 ++ [(urma_delete_context c, answer (trace s1) (urma_delete_context c))]) s1).
  { unfold Clear. by rewrite ST_bind_eq, Ec. }
  destruct (decref_last _ _ (wf_lseg _ _ _ W1) El) as (cl & Hcl & Hd).
  destruct (wf_audit _ _ _ W1) as (live & Ha & Hm & _).
  exists (trace s1), live, (obj cl). rewrite ST_bind_eq, Eclear. unfold drop_lseg. simpl. rewrite Hd. simpl.
  do 3 eexists. split; [by rewrite <- !app_assoc|]. split; [done|].
  destruct (only_segment _ _ _ _ _ W1 El Hm) as ((h & Eh & Hne & E) & Hj & Ht & Hr & Hs). rewrite Hcl in Eh. injection Eh as ->.
  split; [done|]. split; [done|]. by split.
Qed.

(** A history that was rejected stays rejected. *)
Lemma audit_parent_first tr rest live c h k a :
  audit tr = Some live -> live !! h = Some (k, [c]) -> audit (tr ++ (urma_delete_context c, a) :: rest) = None.
Proof.
  intros Ha Hh. unfold audit in *. rewrite audit_from_app, Ha. simpl. unfold audit_step. simpl.
  destruct (has_kind live (c, KContext)); [|done]. simpl. rewrite bool_decide_false; [done|].
  intros Hc. specialize (Hc h _ Hh). simpl in Hc. set_solver.
Qed.

(** *** Posting *)

(** The work request that a post hands to the library. *)
Definition wr_of (op : urma_opcode) (t ls rs localAddr remoteAddr len src dst uctx : Z) : bondp_jfs_wr :=
  let loc := mk_sge localAddr len ls 0 in
  let rem := mk_sge remoteAddr len rs 0 in
  let drv := if negb (src =? 255) && negb (dst =? 255) then 1 else 0 in
  match op with
  | URMA_OPC_WRITE => mk_bondp_wr op 1 0 0 drv t uctx [loc] [rem] 0 src dst
  | URMA_OPC_READ => mk_bondp_wr op 1 0 0 drv t uctx [rem] [loc] 0 src dst
  end.

Definition Post (op : urma_opcode) :=
  match op with URMA_OPC_WRITE => PostWrite | URMA_OPC_READ => PostRead end.

Lemma post_run op j c t localAddr remoteAddr len src dst uctx m s :
  c.(targetJetty) = Some t -> t <> 0 -> j <> 0 -> m.(mgr_localSeg_) <> 0 -> c.(remoteSeg) <> 0 -> len <> 0 ->
  fst (jetty_raw j s) <> 0 -> fst (lseg_raw m.(mgr_localSeg_) s) <> 0 -> fst (rseg_raw c.(remoteSeg) s) <> 0 ->
  let wr := wr_of op t (fst (lseg_raw m.(mgr_localSeg_) s)) (fst (rseg_raw c.(remoteSeg) s))
              localAddr remoteAddr len src dst uctx in
  let call_ := urma_post_jetty_send_wr (fst (jetty_raw j s)) wr in
  Post op j c localAddr remoteAddr len src dst uctx m s =
    (answer s.(trace) call_ =? URMA_SUCCESS, with_trace (s.(trace) ++ [(call_, answer s.(trace) call_)]) s).
Proof.
  intros Et Ht Hj Hl Hr Hn Hjr Hlr Hrr. cbv zeta. unfold nullptr in *.
  assert (E0 : forall z : Z, z <> 0 -> (z =? nullptr) = false) by (intros z Hz; by apply Z.eqb_neq).
  assert (En : (len =? 0) = false) by by apply Z.eqb_neq.
  unfold Post, PostWrite, PostRead, post_with.
  destruct op; rewrite Et, (E0 _ Hj), (E0 _ Hl), (E0 _ Hr); simpl; repeat (rewrite ST_bind_eq; simpl);
    unfold PostJettyRw, PostJettyRd; simpl in *; rewrite (E0 _ Hjr), (E0 _ Ht), (E0 _ Hlr), (E0 _ Hrr), En; simpl; unfold BuildBondpWr, wr_of, kInvalidChip;
    by destruct (_ && _).
Qed.

Lemma post_rejected op j c localAddr remoteAddr len src dst uctx m s :
  c.(targetJetty) = None \/ j = 0 \/ m.(mgr_localSeg_) = 0 \/ c.(remoteSeg) = 0 \/ len = 0 ->
  exists b, Post op j c localAddr remoteAddr len src dst uctx m s = (b, s) /\
    (URMA_EINVAL <> URMA_SUCCESS -> b = false).
Proof.
  intros Hbad.
  assert (Hpost : forall a b d e f g k u v w, PostJettyRw a b d e f g 0 k u v w = mret URMA_EINVAL /\
    PostJettyRd a b d e f g 0 k u v w = mret URMA_EINVAL).
  { intros. unfold PostJettyRw, PostJettyRd. change (0 =? 0) with true. by rewrite !orb_true_r. }
  unfold Post, PostWrite, PostRead, post_with. destruct (targetJetty c) as [t|] eqn:Et;
    [|exists false; destruct op; by rewrite Et].
  assert (E00 : (0 =? nullptr) = true) by done.
  destruct Hbad as [Hbad | [-> | [E | [E | ->]]]].
  - congruence.
  - exists false. destruct op; by rewrite Et, E00.
  - exists false. destruct op; by rewrite Et, E, E00, orb_true_r.
  - exists false. destruct op; by rewrite Et, E, E00, !orb_true_r.
  - destruct op; rewrite Et; (destruct (_ || _); [by exists false|]); repeat (rewrite ST_bind_eq; simpl).
    + rewrite (proj1 (Hpost _ _ _ _ _ _ _ _ _ _)). eexists. split; [done|]. apply Z.eqb_neq.
    + rewrite (proj2 (Hpost _ _ _ _ _ _ _ _ _ _)). eexists. split; [done|]. apply Z.eqb_neq.
Qed.

(** The handles of a post are live while the caller holds the lane and the
    connection. *)
Lemma Post_wf bd op j c localAddr remoteAddr len src dst uctx m x s :
  mgr_wf bd m x s -> j ∈ p_jetty x -> (forall t, c.(targetJetty) = Some t -> t ∈ p_target x) -> c.(remoteSeg) ∈ p_rseg x ->
  mgr_wf bd m x (snd (Post op j c localAddr remoteAddr len src dst uctx m s)).
Proof.
  intros W Hj Ht Hr.
  destruct (decide (c.(targetJetty) = None \/ j = 0 \/ m.(mgr_localSeg_) = 0 \/ c.(remoteSeg) = 0 \/ len = 0)) as [Hbad|Hgood].
  { destruct (post_rejected op j c localAddr remoteAddr len src dst uctx m s Hbad) as (b & -> & _). done. }
  destruct (targetJetty c) as [t|] eqn:Et; [|naive_solver]. specialize (Ht t eq_refl).
  assert (Hz : j <> 0 /\ m.(mgr_localSeg_) <> 0 /\ c.(remoteSeg) <> 0 /\ len <> 0) by (repeat split; intros E; apply Hgood; tauto).
  destruct Hz as (Hj0 & Hl0 & Hr0 & Hn0). destruct W as [W P].
  destruct (owner_elem _ _ j (wf_jetty _ _ _ W)) as [cj Hcj]; [simpl; set_solver|done|].
  destruct (owner_elem _ _ (mgr_localSeg_ m) (wf_lseg _ _ _ W)) as [cl Hcl]; [simpl; set_solver|done|].
  destruct (owner_elem _ _ (remoteSeg c) (wf_rseg _ _ _ W)) as [cr Hcr]; [done|done|].
  set (o := fun o => owned (base_of (resource_ m) bd) (refs_in (resource_ m) (add_lseg (mgr_localSeg_ m) x)) s o) in *.
  assert (Oj : exists d, o (OJetty j) = Some (fst (obj cj), (KJetty, d))) by (unfold o; simpl; rewrite Hcj; simpl; eauto).
  assert (Ol : exists d, o (OLseg (mgr_localSeg_ m)) = Some (obj cl, (KSeg, d))) by (unfold o; simpl; rewrite Hcl; simpl; eauto).
  assert (Or : exists d, o (ORseg (remoteSeg c)) = Some (obj cr, (KRemote, d))) by (unfold o; simpl; rewrite Hcr; simpl; eauto).
  assert (Ot : exists d, o (OTarget t) = Some (t, (KTarget, d))) by (unfold o; simpl; rewrite decide_True by done; eauto).
  rewrite (post_run op j c t) by (first [done | destruct Oj, Ol, Or, Ot; unfold jetty_raw, lseg_raw, rseg_raw;
    simpl; rewrite ?Hcj, ?Hcl, ?Hcr; by eapply (handle_nonnull W)]).
  simpl. split; [|done]. apply wf_touched; [done..|]. unfold jetty_raw, lseg_raw, rseg_raw. simpl. rewrite Hcj, Hcl, Hcr. simpl.
  destruct op; simpl; repeat (constructor; [by eauto|]); done.
Qed.

End Manager.

(** ** Histories of a manager *)

(** The manager, the lanes and connections held by its users, the process.
    [ManagerInit] and [Stop] are steps only while neither a buffer nor a lane nor
    a connection is held; the ends of processes that hold them are treated on
    their own ([stop_trace], [destroy_registered] of SessionProps). *)
Definition mproc : Type := manager * refs_of * sys.

Inductive mgr_step `{Liburma} (ctl : bool) : mproc -> mproc -> Prop :=
| ms_init name ca jc mj em tm eid spawned m s a s' :
    m.(mgr_localSeg_) = 0 -> ManagerInit ctl name ca jc mj em tm eid spawned m s = (a, s') ->
    mgr_step ctl (m, no_refs, s) (snd a, no_refs, s')
| ms_buffer va len m x s a s' :
    RegisterBuffer va len m s = (a, s') -> mgr_step ctl (m, x, s) (snd a, x, s')
| ms_exchange params rtp k m x s a s' :
    Exchange params rtp m k s = (a, s') ->
    mgr_step ctl (m, x, s) (m, match fst a with Some c => conn_refs c x | None => x end, s')
| ms_disconnect c m x s u s' :
    is_Some c.(targetJetty) -> destroy_conn c s = (u, s') -> mgr_step ctl (m, conn_refs c x, s) (m, x, s')
| ms_acquire m x s a s' :
    AcquireSendLane m s = (a, s') -> mgr_step ctl (m, x, s) (snd a, gets add_jetty (fst a) x, s')
| ms_release l m x s u s' :
    drop_jetty l s = (u, s') ->
    mgr_step ctl (m, add_jetty l x, s) (ReleaseSendLane l m, x, s')
| ms_post op j c localAddr remoteAddr len src dst uctx m x s b s' :
    j ∈ p_jetty x -> (forall t, c.(targetJetty) = Some t -> t ∈ p_target x) -> c.(remoteSeg) ∈ p_rseg x ->
    Post op j c localAddr remoteAddr len src dst uctx m s = (b, s') -> mgr_step ctl (m, x, s) (m, x, s')
| ms_stop m s m' s' :
    m.(mgr_localSeg_) = 0 -> Stop m s = (m', s') -> mgr_step ctl (m, no_refs, s) (m', no_refs, s')
| ms_order m x x' s : same_owners x x' -> mgr_step ctl (m, x, s) (m, x', s).

Definition mproc_wf (c : mproc) : Prop := let '(m, x, s) := c in exists bd, mgr_wf bd m x s.

(** [Stop] of a manager without a buffer. *)
Lemma Stop_wf `{Liburma} (Hf : fresh_handles) bd m : m.(mgr_localSeg_) = 0 ->
  triple (mgr_wf bd m no_refs) (Stop m) (fun m' s => (exists bd, mgr_wf bd m' no_refs s) /\ mgr_localSeg_ m' = 0).
Proof.
  intros El s W. unfold Stop. destruct (initialized_ m); [|by split; [exists bd|]].
  assert (W0 : res_wf bd (resource_ m) no_refs s).
  { eapply res_owners; [apply lseg_null|]. by rewrite <- El. }
  cbv zeta. rewrite !ST_bind_eq. simpl. destruct (Clear (resource_ m) s) as [r s1] eqn:Ec.
  destruct (triple_run _ _ _ _ _ _ (Clear_wf Hf bd (resource_ m)) W0 Ec) as [-> W1].
  split; [|done]. exists bd. unfold mgr_wf. rewrite El. simpl.
  assert (W2 : res_wf bd (cleared (resource_ m)) (add_lseg 0 no_refs) s1).
  { eapply res_owners; [symmetry; apply lseg_null|by apply cleared_wf]. }
  pose proof (res_drop_lseg bd _ _ 0 _ W2) as W3.
  pose proof (res_call_free bd _ _ urma_uninit eq_refl eq_refl eq_refl _ W3) as W4.
  eapply res_owners; [symmetry; apply lseg_null|exact W4].
Qed.

Definition mstart : mproc := (new_manager, no_refs, empty_sys).

Lemma mstart_wf : mproc_wf mstart.
Proof.
  exists false. apply (res_owners _ _ no_refs); [symmetry; apply lseg_null|]. by apply (fresh_wf None), wf_empty.
Qed.

Lemma mgr_step_wf `{Liburma} ctl c c' : fresh_handles -> mgr_step ctl c c' -> mproc_wf c -> mproc_wf c'.
Proof.
  intros Hf Hstep. destruct Hstep; intros [bd W];
    match goal with E : _ = (_, _) |- _ => rename E into Erun | _ => idtac end.
  - match goal with E : mgr_localSeg_ m = 0 |- _ => rename E into El0 end.
    assert (W' : res_wf bd (resource_ m) no_refs s).
    { eapply res_owners; [apply lseg_null|]. by rewrite <- El0. }
    destruct (triple_run _ _ _ _ _ _ (ManagerInit_wf Hf ctl bd name ca jc mj em tm eid spawned m) (conj W' El0) Erun)
      as ([bd' W2] & El & _). exists bd'. unfold mgr_wf. rewrite El. eapply res_owners; [symmetry; apply lseg_null|done].
  - exists bd. by destruct (triple_run _ _ _ _ _ _ (RegisterBuffer_wf Hf bd va len m x) W Erun) as [? _].
  - exists bd. pose proof (triple_run _ _ _ _ _ _ (Exchange_wf Hf bd params rtp m k x) W Erun) as Hp. cbv beta in Hp.
    destruct (fst a); [by destruct Hp as (_ & _ & ?)|done].
  - exists bd. match goal with E : is_Some _ |- _ => rename E into Ht end.
    apply (triple_run _ _ _ _ _ _ (destroy_conn_wf Hf bd c (resource_ m) (add_lseg (mgr_localSeg_ m) x) Ht)) in Erun; [done|].
    unfold mgr_wf, conn_refs in *. by destruct (targetJetty c).
  - exists bd. pose proof (AcquireSendJetty_wf Hf bd (resource_ m) (add_lseg (mgr_localSeg_ m) x) s W) as Hp.
    unfold AcquireSendLane in Erun. rewrite ST_bind_eq in Erun.
    destruct (AcquireSendJetty (resource_ m) s) as [[o r] s1]. simpl in Erun, Hp. injection Erun as <- <-. simpl.
    destruct o; [by destruct Hp as [_ ?]|done].
  - exists bd. apply ReleaseSendJetty_wf. exact (triple_run _ _ _ _ _ _ (res_drop_jetty bd (resource_ m) (add_lseg (mgr_localSeg_ m) x) l) W Erun).
  - exists bd. rewrite (surjective_pairing (Post _ _ _ _ _ _ _ _ _ _ _)) in Erun. injection Erun as _ <-. by apply Post_wf.
  - exact (proj1 (triple_run _ _ _ _ _ _ (Stop_wf Hf bd m ltac:(done)) W Erun)).
  - exists bd. eapply res_owners; [|exact W]. match goal with E : same_owners _ _ |- _ => destruct E end. split; simpl; try done.
    by apply same_refs_cons.
Qed.

(** ** The handshake, seen from one side *)

Section OneSide.
Context `{Liburma}.

(** A socket on which the whole message can be written and [w] arrives. *)
Record arrives (k : sock) (w : WireInfo) (rest : list Z) : Prop := {
  ar_write : Z.of_nat wire_size <= k.(s_write);
  ar_reads : reads_ok k.(s_reads);
  ar_in : k.(s_in) = wire_bytes w ++ rest;
}.

Lemma sync_arrives k w w' rest :
  arrives k w' rest -> wire_ok w -> wire_ok w' ->
  exists k', SockSyncData wire_size (wire_bytes w) k = (Some (wire_bytes w'), k') /\
    s_out k' = s_out k ++ wire_bytes w /\ s_in k' = rest.
Proof.
  intros [Hw Hr Hi] W W'. unfold SockSyncData. pose proof (wire_bytes_length _ W) as Hl. pose proof (wire_bytes_length _ W') as Hl'.
  cbv zeta. destruct (Z.ltb_spec (s_write k) (Z.of_nat wire_size)); [lia|].
  pose proof (read_loop_done (s_reads k) wire_size (s_in k) [] Hr) as Hloop. rewrite Hi, length_app in Hloop.
  destruct (read_loop (s_reads k) wire_size (wire_bytes w' ++ rest) []) as [[r input] evs] eqn:E. simpl in Hloop.
  specialize (Hloop ltac:(lia)). rewrite take_app_length', drop_app_length' in Hloop by done. injection Hloop as -> ->.
  rewrite Hi, E. eexists. split; [done|]. simpl. split; [|done]. f_equal. rewrite !take_ge; [done|lia|rewrite take_ge; lia].
Qed.

Lemma local_wire_params params m s :
  let w := fst (local_wire params m s) in
  w_send_size w = sendSize params /\ w_threads w = threads params /\ w_op_code w = opCode params /\
  w_value_size w = valueSize params /\ w_dst_chip w = dstChip params.
Proof. unfold local_wire. repeat (rewrite ST_bind_eq; simpl). done. Qed.

Lemma connect_peer w params rtp m s c :
  fst (connect w params rtp m s) = Some c -> peer c = peer_of w.
Proof.
  unfold connect. rewrite ST_bind_eq. destruct (fst (import_peer_jetty _ _ _ _ _)); [|done].
  rewrite ST_bind_eq. destruct (fst (ImportSegment _ _ _)); [|by rewrite ST_bind_eq]. cbv zeta. rewrite ST_bind_eq.
  match goal with |- fst ((if ?b then _ else _) _) = _ -> _ => destruct b end; [by intros [= <-]|by rewrite ST_bind_eq].
Qed.

(** An import or a binding that the library refused. *)
Definition is_refusal (e : lib_event) : Prop :=
  match fst e with
  | urma_import_jetty _ _ _ | urma_import_seg _ _ _ _ _ => snd e = 0
  | urma_bind_jetty _ _ => snd e <> URMA_SUCCESS
  | _ => False
  end.

(** The calls between two states, and a refusal among them. *)
Definition adds (s s' : sys) : Prop := exists t, trace s' = trace s ++ t.
Definition refused_in (s s' : sys) : Prop := exists t, trace s' = trace s ++ t /\ Exists is_refusal t.

Lemma adds_same s s' : trace s' = trace s -> adds s s'.
Proof. intros E. exists []. by rewrite E, app_nil_r. Qed.

Lemma adds_trans s1 s2 s3 : adds s1 s2 -> adds s2 s3 -> adds s1 s3.
Proof. intros [t1 E1] [t2 E2]. exists (t1 ++ t2). by rewrite E2, E1, app_assoc. Qed.

Lemma refused_after s1 s2 s3 : adds s1 s2 -> refused_in s2 s3 -> refused_in s1 s3.
Proof.
  intros [t1 E1] (t2 & E2 & Hr). exists (t1 ++ t2). rewrite E2, E1, app_assoc. split; [done|]. apply Exists_app. by right.
Qed.

Lemma refused_before s1 s2 s3 : refused_in s1 s2 -> adds s2 s3 -> refused_in s1 s3.
Proof.
  intros (t1 & E1 & Hr) [t2 E2]. exists (t1 ++ t2). rewrite E2, E1, app_assoc. split; [done|]. apply Exists_app. by left.
Qed.

Lemma adds_call c s : adds s (snd (call c s)).
Proof. by eexists. Qed.

Lemma adds_del_target c s : adds s (snd (del_target c s)).
Proof. unfold del_target. destruct c; [rewrite ST_bind_eq; apply adds_call|by apply adds_same]. Qed.

Lemma adds_drop_jfr l s : adds s (snd (drop_jfr l s)).
Proof. unfold drop_jfr. destruct (decref l _) as [[raw|] h]; [by eexists|by apply adds_same]. Qed.

Lemma adds_drop_jetty l s : adds s (snd (drop_jetty l s)).
Proof.
  unfold drop_jetty. destruct (decref l _) as [[[raw jfr]|] h]; [|by apply adds_same]. rewrite ST_bind_eq.
  eapply adds_trans; [|apply adds_drop_jfr]. by eexists.
Qed.

Lemma adds_drop_rseg l s : adds s (snd (drop_rseg l s)).
Proof. unfold drop_rseg. destruct (decref l _) as [[raw|] h]; [by eexists|by apply adds_same]. Qed.

Lemma adds_destroy_conn c s : adds s (snd (destroy_conn c s)).
Proof. unfold destroy_conn. rewrite ST_bind_eq. eapply adds_trans; [apply adds_drop_rseg|apply adds_del_target]. Qed.

Lemma import_target_run j r s :
  Ctx r <> 0 -> adds s (snd (ImportTargetJetty j r s)) /\
  (fst (ImportTargetJetty j r s) = None -> refused_in s (snd (ImportTargetJetty j r s))).
Proof.
  intros Hc. unfold ImportTargetJetty, UrmaTargetJetty_Import. apply Z.eqb_neq in Hc. unfold nullptr in *. rewrite Hc, ST_bind_eq.
  simpl. split; [by eexists|]. destruct (Z.eqb_spec (answer (trace s) (urma_import_jetty (Ctx r) j (token_ r))) 0); [|done].
  intros _. eexists. split; [done|]. by constructor.
Qed.

Lemma import_peer_run w mode rtp r s :
  Ctx r <> 0 -> adds s (snd (import_peer_jetty w mode rtp r s)) /\
  (fst (import_peer_jetty w mode rtp r s) = None -> refused_in s (snd (import_peer_jetty w mode rtp r s))).
Proof.
  intros Hc. unfold import_peer_jetty. destruct rtp; [by apply import_target_run|]. rewrite ST_bind_eq.
  destruct (import_target_run (bondp_rjetty w mode) r s Hc) as [Ha _].
  destruct (fst (ImportTargetJetty (bondp_rjetty w mode) r s)); [done|].
  destruct (import_target_run (rtp_rjetty w mode) r (snd (ImportTargetJetty (bondp_rjetty w mode) r s)) Hc) as [Ha2 Hr].
  split; [by eapply adds_trans|]. intros E. eapply refused_after; [exact Ha|by apply Hr].
Qed.

Lemma import_segment_run seg r s :
  Ctx r <> 0 -> adds s (snd (ImportSegment seg r s)) /\
  (fst (ImportSegment seg r s) = None -> refused_in s (snd (ImportSegment seg r s))).
Proof.
  intros Hc. unfold ImportSegment, UrmaRemoteSegment_Import. apply Z.eqb_neq in Hc. unfold nullptr in *. rewrite Hc.
  cbv zeta. rewrite ST_bind_eq. set (c := urma_import_seg _ _ _ _ _). simpl.
  destruct (Z.eqb_spec (answer (trace s) c) 0) as [E|E]; simpl; [|split; [by eexists|done]].
  split; [by eexists|]. intros _. eexists. split; [done|]. by constructor.
Qed.

Lemma bind_lanes_run t r n : forall i s,
  adds s (snd (bind_lanes n i t r s)) /\
  (fst (bind_lanes n i t r s) = false -> refused_in s (snd (bind_lanes n i t r s))).
Proof.
  induction n as [|n IH]; intros i s; cbn [bind_lanes]; [split; [by apply adds_same|done]|].
  rewrite !ST_bind_eq. set (s1 := snd (JettyAt i r s)). set (j := fst (JettyAt i r s)).
  assert (H1 : adds s s1) by (by apply adds_same).
  set (m := if j =? nullptr then _ else _).
  assert (Hm : adds s1 (snd (m s1)) /\ (fst (m s1) = false -> refused_in s1 (snd (m s1)))).
  { subst m. destruct (j =? nullptr); [split; [by apply adds_same|done]|]. rewrite !ST_bind_eq. simpl. split; [by eexists|].
    intros E%Z.eqb_neq. eexists. split; [done|]. by constructor. }
  destruct Hm as [Ha Hr]. set (s2 := snd (m s1)) in *. set (s3 := snd (drop_jetty j s2)).
  assert (H3 : adds s2 s3) by apply adds_drop_jetty.
  assert (H13 : adds s s3) by exact (adds_trans _ _ _ H1 (adds_trans _ _ _ Ha H3)). destruct (fst (m s1)).
  - destruct (IH (i + 1) s3) as [Hb Hbr]. split; [exact (adds_trans _ _ _ H13 Hb)|].
    intros E. apply (refused_after _ _ _ H13). by apply Hbr.
  - split; [exact H13|]. intros _.
    eapply refused_after; [exact H1|]. eapply refused_before; [by apply Hr|exact H3].
Qed.

(** Without a refusal there is a connection. *)
Lemma connect_refused w params rtp m s :
  Ctx m.(resource_) <> 0 -> fst (connect w params rtp m s) = None -> refused_in s (snd (connect w params rtp m s)).
Proof.
  intros Hc. unfold connect. rewrite ST_bind_eq.
  destruct (import_peer_run w (transMode params) rtp (resource_ m) s Hc) as [Ha1 Hr1].
  set (s1 := snd (import_peer_jetty _ _ _ _ s)) in *. destruct (fst (import_peer_jetty _ _ _ _ s)) as [t|]; [|by intros _; apply Hr1].
  rewrite ST_bind_eq. destruct (import_segment_run (p_seg (peer_of w)) (resource_ m) s1 Hc) as [Ha2 Hr2].
  set (s2 := snd (ImportSegment _ _ s1)) in *. destruct (fst (ImportSegment _ _ s1)) as [l|].
  - cbv zeta. rewrite ST_bind_eq. match goal with |- context [fst (?b s2)] => set (bnd := b) end.
    assert (Hb : fst (bnd s2) = false -> refused_in s2 (snd (bnd s2))).
    { subst bnd. destruct (_ || _); [apply bind_lanes_run|done]. }
    destruct (fst (bnd s2)); [done|]. intros _. rewrite ST_bind_eq. apply (refused_after _ _ _ (adds_trans _ _ _ Ha1 Ha2)).
    eapply refused_before; [by apply Hb|]. apply adds_destroy_conn.
  - intros _. rewrite ST_bind_eq. eapply refused_after; [exact Ha1|]. eapply refused_before; [by apply Hr2|]. apply adds_del_target.
Qed.

(** What side [m] is, member by member: the parameters it was given, the ids of
    its context and of its receive jetty, and its registered segment. *)
Definition own_seg (m : manager) (s : sys) : urma_seg := tseg_seg s.(trace) (fst (lseg_raw m.(mgr_localSeg_) s)).

Definition own_jetty_id (m : manager) (s : sys) : urma_jetty_id :=
  let l := m.(resource_).(sharedRecvJetty_) in
  if l =? 0 then replicate sizeof_jetty_id 0 else jetty_id_of s.(trace) (fst (jetty_raw l s)).

Lemma local_wire_members params m s :
  Ctx m.(resource_) <> 0 ->
  let w := fst (local_wire params m s) in
  w_eid w = ctx_eid s.(trace) (Ctx m.(resource_)) /\ w_uasid w = ctx_uasid s.(trace) (Ctx m.(resource_)) /\
  w_seg_va w = ubva_va (own_seg m s) /\ w_seg_len w = seg_length (own_seg m s) /\
  w_seg_flag w = seg_attr (own_seg m s) /\ w_seg_token_id w = seg_token (own_seg m s) /\ w_jetty_id w = own_jetty_id m s.
Proof.
  intros Hc. cbv zeta. unfold local_wire, own_seg, own_jetty_id, Eid, Uasid. unfold Ctx in *. repeat (rewrite ST_bind_eq; simpl).
  destruct (context_ (resource_ m)) as [c|]; [|done]. simpl. unfold nullptr.
  by destruct (sharedRecvJetty_ (resource_ m) =? 0); rewrite ?ST_bind_eq.
Qed.

(** The outcome for a side that has a buffer and a context. *)
Lemma exchange_run params rtp m k s w' rest :
  m.(mgr_localSeg_) <> 0 -> Ctx m.(resource_) <> 0 -> arrives k w' rest ->
  wire_ok (fst (local_wire params m s)) -> wire_ok w' ->
  let a := Exchange params rtp m k s in
  s_out (snd (fst a)) = s_out k ++ wire_bytes (fst (local_wire params m s)) /\ s_in (snd (fst a)) = rest /\
  (send_size_mismatch params w' = true -> fst (fst a) = None /\ snd a = s) /\
  (forall c, fst (fst a) = Some c -> send_size_mismatch params w' = false /\ peer c = peer_of w') /\
  (send_size_mismatch params w' = false -> fst (fst a) = None -> refused_in s (snd a)).
Proof.
  intros Hl Hc Har W W'. cbv zeta. unfold Exchange.
  destruct (Z.eqb_spec (mgr_localSeg_ m) nullptr); [done|]. destruct (Z.eqb_spec (Ctx (resource_ m)) nullptr); [done|]. simpl.
  rewrite ST_bind_eq, local_wire_state. destruct (sync_arrives k _ w' rest Har W W') as (k' & -> & Ho & Hi).
  rewrite (wire_of_bytes _ W'). cbv zeta. destruct (send_size_mismatch params w') eqn:Em; simpl.
  - repeat split; done.
  - rewrite ST_bind_eq. simpl. repeat split; try done; [by eapply connect_peer|]. intros _. by apply connect_refused.
Qed.

End OneSide.

(** ** Theorems *)

Lemma manager_reachable_wf `{Liburma} ctl c : fresh_handles -> rtc (mgr_step ctl) mstart c -> mproc_wf c.
Proof. intros Hf. apply rtc_invariant; [|exact mstart_wf]. intros a b Ha Hs. by eapply mgr_step_wf. Qed.

(** C6: In every history of a manager in which [ManagerInit] and [Stop] happen
    only while no buffer is registered and no user holds a lane or a connection
    (the rules of [mgr_step]): buffer registrations, handshakes that succeed or
    fail at any point, lanes taken and given back, posts of users that hold
    their lane and connection, disconnections, in any order and with any call of
    the library failing, no call is on a deleted handle, nothing is deleted
    twice or before what was made from it, and every reference is accounted for:
    a failed handshake leaves nothing behind.  A [Stop] with a buffer, which is
    how a process that did run ends, is not among these histories: there the
    audit fails ([stop_segment_outlives_context]), and what such an end does is
    stated by [main_ends_clean]. *)
Theorem manager_history_safe `{Liburma} ctl m x s :
  fresh_handles -> rtc (mgr_step ctl) mstart (m, x, s) ->
  is_Some (audit s.(trace)) /\ exists bd, mgr_wf bd m x s.
Proof.
  intros Hf Hr. destruct (manager_reachable_wf _ _ Hf Hr) as [bd W]. split; [|by exists bd].
  destruct (wf_audit _ _ _ (rw_wf _ _ _ _ W)) as (live & Ha & _). by exists live.
Qed.

(** An example: a manager with a buffer, a message, a socket. *)
Definition demo_started (L : Liburma) : (bool * manager) * sys :=
  @ManagerInit L true "dev" true 2 3 true 1 (-1) true new_manager empty_sys.

Definition demo_buffered (L : Liburma) : (bool * manager) * sys :=
  @RegisterBuffer L 4096 8192 (snd (fst (demo_started L))) (snd (demo_started L)).

Definition demo_mgr (L : Liburma) : manager := snd (fst (demo_buffered L)).
Definition demo_sys (L : Liburma) : sys := snd (demo_buffered L).

Definition demo_params (send_size : Z) : HandshakeParams := mk_params 4 2 1024 send_size 1 1.

Definition demo_wire (L : Liburma) (send_size : Z) : WireInfo :=
  fst (@local_wire L (demo_params send_size) (demo_mgr L) (demo_sys L)).

Definition demo_sock (L : Liburma) (send_size : Z) : sock :=
  mk_sock (wire_bytes (demo_wire L send_size)) [ReadUpTo 0; ReadError true; ReadUpTo 9] 1000 [].

(** The second lane cannot be bound: the handshake has to undo its imports. *)
Definition demo_bind : Liburma := demo_lib [] [20%nat].

Definition demo_failed : (option UrmaConnection * sock) * sys :=
  @Exchange demo_bind (demo_params 512) false (demo_mgr demo_bind) (demo_sock demo_bind 512) (demo_sys demo_bind).

Lemma demo_buffered_steps (L : Liburma) : rtc (@mgr_step L true) mstart (demo_mgr L, no_refs, demo_sys L).
Proof.
  eapply rtc_l; [exact (@ms_init L true "dev" true 2 3 true 1 (-1) true new_manager empty_sys
    (fst (demo_started L)) (snd (demo_started L)) eq_refl (surjective_pairing _))|].
  apply rtc_once. exact (@ms_buffer L true 4096 8192 (snd (fst (demo_started L))) no_refs (snd (demo_started L))
    (fst (demo_buffered L)) (snd (demo_buffered L)) (surjective_pairing _)).
Defined.

Lemma demo_failed_steps :
  rtc (@mgr_step demo_bind true) mstart (demo_mgr demo_bind, match fst (fst demo_failed) with
    | Some c => conn_refs c no_refs | None => no_refs end, snd demo_failed).
Proof.
  eapply rtc_r; [apply demo_buffered_steps|].
  exact (@ms_exchange demo_bind true (demo_params 512) false (demo_sock demo_bind 512) (demo_mgr demo_bind) no_refs
    (demo_sys demo_bind) (fst demo_failed) (snd demo_failed) (surjective_pairing _)).
Defined.

Lemma demo_failed_none : fst (fst demo_failed) = None.
Proof. by vm_compute. Qed.

Lemma manager_history_safe_witness :
  fst (fst demo_failed) = None /\ is_Some (audit (trace (snd demo_failed))).
Proof.
  split; [exact demo_failed_none|].
  pose proof demo_failed_steps as Hs. destruct demo_failed as [[o k] s]. simpl in *.
  exact (proj1 (@manager_history_safe demo_bind true (demo_mgr demo_bind) _ s (demo_fresh [] [20%nat]) Hs)).
Defined.

(** C27: A manager that was started and given a buffer shares the segment with
    its resource.  [Stop] leaves nothing behind: it deletes everything in order
    up to the context and the segment.  But these two it deletes the wrong way
    round, as it clears the resource before it gives up its own reference: the
    segment is unregistered after its context is gone, and the audit rejects
    every such shutdown. *)
Theorem stop_segment_outlives_context `{Liburma} ctl name ca jc mj em tm eid spawned va len b1 m1 s1 m2 s2 :
  fresh_handles ->
  ManagerInit ctl name ca jc mj em tm eid spawned new_manager empty_sys = ((b1, m1), s1) ->
  initialized_ m1 = true ->
  RegisterBuffer va len m1 s1 = ((true, m2), s2) ->
  exists tr live c h a1 a2 a3,
    (snd (Stop m2 s2)).(trace) = tr ++ [(urma_delete_context c, a1); (urma_unregister_seg h, a2); (urma_uninit, a3)] /\
    audit tr = Some live /\ h <> c /\ live = {[h := (KSeg, [c]); c := (KContext, [])]} /\
    audit (snd (Stop m2 s2)).(trace) = None.
Proof.
  intros Hf Einit Hi Ebuf.
  assert (Wstart : res_wf false (resource_ new_manager) no_refs empty_sys) by by apply (fresh_wf None), wf_empty.
  destruct (triple_run _ _ _ _ _ _ (ManagerInit_wf Hf ctl false name ca jc mj em tm eid spawned new_manager)
    (conj Wstart eq_refl) Einit) as ([bd W1] & El1 & Hready). simpl in W1, El1, Hready.
  destruct (Hready eq_refl Hi) as (_ & [c Ec]).
  assert (W1' : mgr_wf bd m1 no_refs s1).
  { unfold mgr_wf. rewrite El1. eapply res_owners; [symmetry; apply lseg_null|done]. }
  destruct (triple_run _ _ _ _ _ _ (RegisterBuffer_wf Hf bd va len m1 no_refs) W1' Ebuf) as (W2 & Ei2 & Hbuf).
  destruct (Hbuf eq_refl) as (Hl2 & _). simpl in W2, Ei2, Hl2.
  assert (Ec2 : context_ (resource_ m2) = Some c).
  { revert Ebuf. unfold RegisterBuffer. rewrite ST_bind_eq.
    pose proof (RegisterSegment_wf Hf bd va len (resource_ m1) _ s1 W1') as Hp.
    destruct (RegisterSegment va len (resource_ m1) s1) as [[[l|] r] s'] eqn:E; simpl in *; [|by intros [= ? ?]].
    destruct Hp as (_ & -> & _). rewrite !ST_bind_eq. intros [= <- _]. done. }
  destruct (stop_trace Hf bd m2 c s2 W2 ltac:(congruence) Hl2 Ec2) as (tr & live & h & a1 & a2 & a3 & Et & Ha & Hne & Hh & _).
  exists tr, live, c, h, a1, a2, a3. do 4 (split; [done|]). rewrite Et. eapply audit_parent_first; [exact Hf|exact Ha|].
  by rewrite Hh, lookup_insert_eq.
Qed.

Lemma demo_started_ok : initialized_ (snd (fst (demo_started demo_ok))) = true.
Proof. by vm_compute. Qed.

Lemma demo_buffered_ok : fst (fst (demo_buffered demo_ok)) = true.
Proof. by vm_compute. Qed.

Lemma stop_segment_outlives_context_witness :
  audit (trace (snd (@Stop demo_ok (demo_mgr demo_ok) (demo_sys demo_ok)))) = None.
Proof.
  destruct (@stop_segment_outlives_context demo_ok true "dev" true 2 3 true 1 (-1) true 4096 8192
    (fst (fst (demo_started demo_ok))) (snd (fst (demo_started demo_ok))) (snd (demo_started demo_ok))
    (demo_mgr demo_ok) (demo_sys demo_ok) (demo_fresh _ _)) as (tr & live & c & h & a1 & a2 & a3 & _ & _ & _ & _ & E).
  - by rewrite <- !surjective_pairing.
  - exact demo_started_ok.
  - rewrite <- demo_buffered_ok. unfold demo_mgr, demo_sys. by rewrite <- !surjective_pairing.
  - exact E.
Defined.

(** [i] describes the other side, which has library [Lb] and was given the
    parameters [p]. *)
Record describes (La Lb : Liburma) (i : UrmaPeerInfo) (p : HandshakeParams) (m : manager) (s : sys) : Prop := {
  de_eid : p_eid i = @ctx_eid Lb s.(trace) (Ctx m.(resource_));
  de_uasid : p_uasid i = @ctx_uasid Lb s.(trace) (Ctx m.(resource_));
  de_jetty : p_jettyId i = @jetty_id_id La (@own_jetty_id Lb m s);
  de_chip : p_dstChip i = dstChip p;
  de_threads : p_threads i = threads p;
  de_op : p_opCode i = opCode p;
  de_value : p_valueSize i = valueSize p;
  de_send : p_sendSize i = sendSize p;
  de_seg_eid : ubva_eid (p_seg i) = @ctx_eid Lb s.(trace) (Ctx m.(resource_));
  de_seg_uasid : ubva_uasid (p_seg i) = @ctx_uasid Lb s.(trace) (Ctx m.(resource_));
  de_seg_va : ubva_va (p_seg i) = ubva_va (@own_seg Lb m s);
  de_seg_len : seg_length (p_seg i) = seg_length (@own_seg Lb m s);
  de_seg_attr : seg_attr (p_seg i) = seg_attr (@own_seg Lb m s);
  de_seg_token : seg_token (p_seg i) = seg_token (@own_seg Lb m s);
}.

Lemma peer_describes (La Lb : Liburma) p m s :
  Ctx m.(resource_) <> 0 -> describes La Lb (@peer_of La (fst (@local_wire Lb p m s))) p m s.
Proof.
  intros Hc. destruct (@local_wire_members Lb p m s Hc) as (E1 & E2 & E3 & E4 & E5 & E6 & E7).
  destruct (@local_wire_params Lb p m s) as (F1 & F2 & F3 & F4 & F5). by constructor; simpl; rewrite ?E7.
Qed.

(** Both sides ask for a send size, and not for the same one. *)
Definition sizes_differ (pa pb : HandshakeParams) : Prop :=
  sendSize pa <> 0 /\ sendSize pb <> 0 /\ sendSize pa <> sendSize pb.

Lemma sizes_mismatch pa pb w : w_send_size w = sendSize pb ->
  send_size_mismatch pa w = true <-> sizes_differ pa pb.
Proof.
  unfold send_size_mismatch, sizes_differ. intros ->.
  destruct (Z.eqb_spec (sendSize pa) 0), (Z.eqb_spec (sendSize pb) 0), (Z.eqb_spec (sendSize pb) (sendSize pa)); simpl; intuition congruence.
Qed.

(** C10: When two managers that have a buffer exchange their messages over a
    socket that delivers the bytes, in any pieces and with any interruptions,
    each side sends exactly its message and consumes exactly the other's.  A
    connection it makes describes the other side member by member: the ids of
    its context and receive jetty, the chip, threads, operation and sizes it
    was started with, and address, length, attributes and token of the segment
    it registered.  Sides that ask for different send sizes (both non-zero)
    both refuse, without a call to the library.  Otherwise a side ends without
    a connection only if the library refused it an import or a binding. *)
Theorem handshake_agree (La Lb : Liburma) pa pb rtpa rtpb ma mb ka kb sa sb resta restb :
  let wa := fst (@local_wire La pa ma sa) in
  let wb := fst (@local_wire Lb pb mb sb) in
  @wire_ok La wa -> @wire_ok La wb -> @wire_ok Lb wa -> @wire_ok Lb wb ->
  ma.(mgr_localSeg_) <> 0 -> Ctx ma.(resource_) <> 0 -> mb.(mgr_localSeg_) <> 0 -> Ctx mb.(resource_) <> 0 ->
  @arrives La ka wb resta -> @arrives Lb kb wa restb ->
  let a := @Exchange La pa rtpa ma ka sa in
  let b := @Exchange Lb pb rtpb mb kb sb in
  (s_out (snd (fst a)) = s_out ka ++ wire_bytes wa /\ s_in (snd (fst a)) = resta) /\
  (s_out (snd (fst b)) = s_out kb ++ wire_bytes wb /\ s_in (snd (fst b)) = restb) /\
  (sizes_differ pa pb -> fst (fst a) = None /\ fst (fst b) = None /\ snd a = sa /\ snd b = sb) /\
  (~ sizes_differ pa pb ->
    match fst (fst a) with Some c => describes La Lb (peer c) pb mb sb | None => @refused_in sa (snd a) end /\
    match fst (fst b) with Some c => describes Lb La (peer c) pa ma sa | None => @refused_in sb (snd b) end).
Proof.
  intros wa wb Waa Wab Wba Wbb Hla Hca Hlb Hcb Ara Arb.
  assert (Esa : w_send_size wa = sendSize pa) by apply local_wire_params.
  assert (Esb : w_send_size wb = sendSize pb) by apply local_wire_params.
  destruct (@exchange_run La pa rtpa ma ka sa wb resta Hla Hca Ara Waa Wab) as (Oa & Ia & Ma & Ca & Na).
  destruct (@exchange_run Lb pb rtpb mb kb sb wa restb Hlb Hcb Arb Wbb Wba) as (Ob & Ib & Mb & Cb & Nb).
  pose proof (sizes_mismatch pa pb wb Esb) as Da. pose proof (sizes_mismatch pb pa wa Esa) as Db.
  assert (Hsym : sizes_differ pb pa <-> sizes_differ pa pb) by (unfold sizes_differ; intuition congruence).
  split; [done|]. split; [done|]. split.
  - intros Hd. destruct (Ma (proj2 Da Hd)), (Mb (proj2 Db (proj2 Hsym Hd))). done.
  - intros Hd. assert (Fa : send_size_mismatch pa wb = false) by (apply not_true_is_false; tauto).
    assert (Fb : send_size_mismatch pb wa = false) by (apply not_true_is_false; tauto). split.
    + destruct (fst (fst (Exchange pa rtpa ma ka sa))) as [c|]; [|by apply Na].
      destruct (Ca c eq_refl) as [_ ->]. by apply peer_describes.
    + destruct (fst (fst (Exchange pb rtpb mb kb sb))) as [c|]; [|by apply Nb].
      destruct (Cb c eq_refl) as [_ ->]. by apply peer_describes.
Qed.

(** The message of the example, member by member. *)
Definition demo_msg (send_size : Z) : WireInfo :=
  mk_wire (replicate 16 233) 9 4096 8192 7 0 (replicate 20 241) 4 2 1024 1 send_size (0, 0).

Lemma demo_wire_eq z : demo_wire demo_ok z = demo_msg z.
Proof. by vm_compute. Qed.

Lemma demo_msg_ok z : is_u32 z -> @wire_ok demo_ok (demo_msg z).
Proof. intros Hz. split; [done|done| |by split]. simpl. repeat (constructor; [done|]). constructor. Qed.

Lemma demo_arrives z : is_u32 z -> @arrives demo_ok (demo_sock demo_ok z) (demo_msg z) [].
Proof.
  intros Hz. split; [done| |].
  - unfold reads_ok, demo_sock. cbn [s_reads]. set_solver.
  - unfold demo_sock. by rewrite demo_wire_eq, app_nil_r.
Qed.

Lemma demo_ready : mgr_localSeg_ (demo_mgr demo_ok) <> 0 /\ Ctx (resource_ (demo_mgr demo_ok)) <> 0.
Proof. by vm_compute. Qed.

#[local] Abbreviation demo_exchange za zb :=
  (@Exchange demo_ok (demo_params za) false (demo_mgr demo_ok) (demo_sock demo_ok zb) (demo_sys demo_ok)).

Lemma demo_same_connects : exists c, fst (fst (demo_exchange 512 512)) = Some c.
Proof. eexists. by vm_compute. Qed.

Lemma handshake_agree_witness :
  (fst (fst (demo_exchange 512 256)) = None /\ fst (fst (demo_exchange 256 512)) = None) /\
  exists c, fst (fst (demo_exchange 512 512)) = Some c /\
    describes demo_ok demo_ok (peer c) (demo_params 512) (demo_mgr demo_ok) (demo_sys demo_ok).
Proof.
  assert (H1 : is_u32 512) by done. assert (H2 : is_u32 256) by done. destruct demo_ready as [Hl Hc].
  assert (Hw : forall z, is_u32 z -> @wire_ok demo_ok (demo_wire demo_ok z)) by (intros z Hz; rewrite demo_wire_eq; by apply demo_msg_ok).
  assert (Ha : forall z, is_u32 z -> @arrives demo_ok (demo_sock demo_ok z) (demo_wire demo_ok z) [])
    by (intros z Hz; rewrite demo_wire_eq; by apply demo_arrives).
  assert (H : forall za zb, is_u32 za -> is_u32 zb -> _) by exact (fun za zb Ua Ub =>
    handshake_agree demo_ok demo_ok (demo_params za) (demo_params zb) false false (demo_mgr demo_ok) (demo_mgr demo_ok)
      (demo_sock demo_ok zb) (demo_sock demo_ok za) (demo_sys demo_ok) (demo_sys demo_ok) [] []
      (Hw za Ua) (Hw zb Ub) (Hw za Ua) (Hw zb Ub) Hl Hc Hl Hc (Ha zb Ub) (Ha za Ua)).
  split.
  - destruct (H 512 256 H1 H2) as (_ & _ & Hd & _). destruct Hd as (E1 & E2 & _); [|by split]. unfold sizes_differ. simpl. lia.
  - destruct (H 512 512 H1 H1) as (_ & _ & _ & Hs). destruct Hs as [Hs _]; [unfold sizes_differ; tauto|].
    destruct demo_same_connects as [c Ec]. exists c. split; [exact Ec|]. rewrite Ec in Hs. exact Hs.
Defined.

(** What users hold is there. *)
Lemma held_handles bd m x s :
  mgr_wf bd m x s ->
  (forall t, t ∈ p_target x -> t <> 0) /\
  (forall l, l <> 0 -> l ∈ p_jetty x -> fst (jetty_raw l s) <> 0) /\
  (m.(mgr_localSeg_) <> 0 -> fst (lseg_raw m.(mgr_localSeg_) s) <> 0) /\
  (forall l, l <> 0 -> l ∈ p_rseg x -> fst (rseg_raw l s) <> 0).
Proof.
  intros [W _]. split; [|split; [|split]].
  - intros t Ht. apply (handle_nonnull W (OTarget t) t (KTarget, [ptr (context_ (resource_ m))])). simpl. by rewrite decide_True.
  - intros l Hn Hl. destruct (owner_elem _ _ l (wf_jetty _ _ _ W)) as [c Hc]; [simpl; set_solver|done|].
    eapply (handle_nonnull W (OJetty l)). unfold jetty_raw. simpl. by rewrite Hc.
  - intros Hn. destruct (owner_elem _ _ (mgr_localSeg_ m) (wf_lseg _ _ _ W)) as [c Hc]; [simpl; set_solver|done|].
    eapply (handle_nonnull W (OLseg _)). unfold lseg_raw. simpl. by rewrite Hc.
  - intros l Hn Hl. destruct (owner_elem _ _ l (wf_rseg _ _ _ W)) as [c Hc]; [done|done|].
    eapply (handle_nonnull W (ORseg l)). unfold rseg_raw. simpl. by rewrite Hc.
Qed.

(** C24: A post on a lane and a connection that exist is exactly one work
    request to the library, with completion enabled, the caller's user context
    and chips, the driver extension exactly when both chips are known, local
    and remote segment elements of the given length, as source and destination
    of a write and the other way round for a read; the result says whether the
    library took it.  Without a lane, buffer or connection, or with length 0,
    nothing is called and the result is false. *)
Theorem post_is_one_request `{Liburma} ctl op j c localAddr remoteAddr len src dst uctx m x s :
  fresh_handles -> URMA_EINVAL <> URMA_SUCCESS -> rtc (mgr_step ctl) mstart (m, x, s) ->
  (j = 0 \/ j ∈ p_jetty x) -> (c.(remoteSeg) = 0 \/ c.(remoteSeg) ∈ p_rseg x) ->
  (forall t, c.(targetJetty) = Some t -> t ∈ p_target x) ->
  let hj := fst (jetty_raw j s) in
  let hl := fst (lseg_raw m.(mgr_localSeg_) s) in
  let hr := fst (rseg_raw c.(remoteSeg) s) in
  Post op j c localAddr remoteAddr len src dst uctx m s =
    match c.(targetJetty) with
    | Some t =>
        if decide (j <> 0 /\ m.(mgr_localSeg_) <> 0 /\ c.(remoteSeg) <> 0 /\ len <> 0) then
          let wr := urma_post_jetty_send_wr hj (wr_of op t hl hr localAddr remoteAddr len src dst uctx) in
          (answer s.(trace) wr =? 0, with_trace (s.(trace) ++ [(wr, answer s.(trace) wr)]) s)
        else (false, s)
    | None => (false, s)
    end.
Proof.
  intros Hf HE Hreach Hj Hr Ht hj hl hr. destruct (manager_reachable_wf _ _ Hf Hreach) as [bd W].
  destruct (targetJetty c) as [t|] eqn:Et.
  - destruct (decide _) as [(N1 & N2 & N3 & N4)|N].
    + destruct Hj as [|Hj]; [done|]. destruct Hr as [|Hr]; [done|].
      destruct (held_handles bd m x s W) as (H1 & H2 & H3 & H4). apply (post_run op j c t); auto.
    + destruct (post_rejected op j c localAddr remoteAddr len src dst uctx m s) as (b & -> & Hb); [|by rewrite (Hb HE)].
      destruct (Z.eq_dec j 0), (Z.eq_dec (mgr_localSeg_ m) 0), (Z.eq_dec (remoteSeg c) 0), (Z.eq_dec len 0); tauto.
  - destruct (post_rejected op j c localAddr remoteAddr len src dst uctx m s) as (b & -> & Hb); [tauto|by rewrite (Hb HE)].
Qed.

(** A connection and a lane of the example. *)
Definition demo_connected : (option UrmaConnection * sock) * sys :=
  @Exchange demo_ok (demo_params 512) false (demo_mgr demo_ok) (demo_sock demo_ok 512) (demo_sys demo_ok).

Definition demo_laned : (option Z * manager) * sys := AcquireSendLane (demo_mgr demo_ok) (snd demo_connected).

Definition demo_conn : UrmaConnection := mk_conn (@peer_of demo_ok (demo_msg 512)) (Some 1011) 8.

Lemma demo_connected_eq : fst (fst demo_connected) = Some demo_conn.
Proof. by vm_compute. Qed.

Lemma demo_laned_eq : fst (fst demo_laned) = Some 2.
Proof. by vm_compute. Qed.

Lemma demo_connected_steps :
  rtc (@mgr_step demo_ok true) mstart (demo_mgr demo_ok, conn_refs demo_conn no_refs, snd demo_connected).
Proof.
  eapply rtc_r; [apply demo_buffered_steps|].
  pose proof (@ms_exchange demo_ok true (demo_params 512) false (demo_sock demo_ok 512) (demo_mgr demo_ok) no_refs
    (demo_sys demo_ok) (fst demo_connected) (snd demo_connected) (surjective_pairing _)) as Hs. by rewrite demo_connected_eq in Hs.
Qed.

Lemma demo_laned_steps :
  rtc (@mgr_step demo_ok true) mstart (snd (fst demo_laned),
    add_jetty 2 (conn_refs demo_conn no_refs), snd demo_laned).
Proof.
  eapply rtc_r; [apply demo_connected_steps|].
  pose proof (@ms_acquire demo_ok true (demo_mgr demo_ok) (conn_refs demo_conn no_refs) (snd demo_connected)
    (fst demo_laned) (snd demo_laned) (surjective_pairing _)) as Hs. by rewrite demo_laned_eq in Hs.
Qed.

Lemma demo_laned_seg : mgr_localSeg_ (snd (fst demo_laned)) <> 0.
Proof. by vm_compute. Qed.

Lemma demo_lane_state : exists m x s,
  rtc (@mgr_step demo_ok true) mstart (m, x, s) /\ mgr_localSeg_ m <> 0 /\
  2 ∈ p_jetty x /\ 8 ∈ p_rseg x /\ 1011 ∈ p_target x.
Proof.
  eexists _, _, _. split; [exact demo_laned_steps|]. split; [exact demo_laned_seg|].
  cbn [add_jetty conn_refs demo_conn targetJetty remoteSeg add_rseg add_target p_jetty p_rseg p_target no_refs]. repeat split; set_solver.
Qed.

Lemma post_is_one_request_witness :
  exists m s h wr a, trace (snd (@Post demo_ok URMA_OPC_READ 2 demo_conn 4096 65536 64 0 1 77 m s)) =
    trace s ++ [(urma_post_jetty_send_wr h wr, a)].
Proof.
  destruct demo_lane_state as (m & x & s & Hs & Hl & Hj & Hr & Ht). exists m, s.
  rewrite (@post_is_one_request demo_ok true URMA_OPC_READ 2 demo_conn 4096 65536 64 0 1 77 m x s (demo_fresh [] [])
    ltac:(done) Hs (or_intror Hj) (or_intror Hr) ltac:(intros t E; injection E as <-; exact Ht)).
  change (targetJetty demo_conn) with (Some 1011). cbv iota zeta.
  destruct (decide _) as [_|N]; [|by exfalso; apply N]. cbn [snd trace with_trace]. by do 3 eexists.
Defined.

(** ** The poll thread *)

(** The records that a round hands to the workers. *)
Definition delivered (eventMode : bool) (jfc : Z) (i : poll_input) : list urma_cr :=
  if eventMode && ((pi_wait i <=? 0) || negb (jfc =? pi_evJfc i)) then [] else take (Z.to_nat (pi_cnt i)) (pi_crs i).

Lemma poll_batch_app crs1 : forall crs2 e, poll_batch (crs1 ++ crs2) e = poll_batch crs2 (poll_batch crs1 e).
Proof. induction crs1 as [|cr crs1 IH]; intros crs2 e; simpl; [done|]. by rewrite IH. Qed.

Lemma poll_tail_events cnt i v :
  pv_events (poll_tail cnt i v) = poll_batch (take (Z.to_nat cnt) (pi_crs i)) (pv_events v) /\
  pv_acks (poll_tail cnt i v) = pv_acks v /\ pv_rearms (poll_tail cnt i v) = pv_rearms v.
Proof.
  unfold poll_tail. cbv zeta. rewrite Z.gtb_ltb. destruct (Z.ltb_spec 0 cnt) as [Hc|Hc]; [done|].
  by replace (Z.to_nat cnt) with 0%nat by lia.
Qed.

Lemma poll_round_events em jfc i v :
  pv_events (poll_round em jfc i v) = poll_batch (delivered em jfc i) (pv_events v).
Proof.
  unfold poll_round, delivered. destruct em; simpl; [|apply poll_tail_events].
  destruct (pi_wait i <=? 0); [done|]. destruct (negb _); [done|]. simpl.
  rewrite (proj1 (poll_tail_events _ _ _)). by destruct (_ >? 0).
Qed.

(** The acknowledgements of a round in event mode. *)
Definition round_acks (jfc : Z) (i : poll_input) : list Z :=
  if (0 <? pi_wait i) && (jfc =? pi_evJfc i) && (0 <? pi_cnt i) then [u32 (pi_cnt i)] else [].

Lemma poll_round_acks em jfc i v :
  pv_acks (poll_round em jfc i v) = pv_acks v ++ (if em then round_acks jfc i else []) /\
  pv_rearms (poll_round em jfc i v) = (pv_rearms v + length (if em then round_acks jfc i else []))%nat.
Proof.
  unfold poll_round, round_acks. destruct em.
  - destruct (Z.leb_spec (pi_wait i) 0), (Z.ltb_spec 0 (pi_wait i)); try lia; simpl; rewrite ?app_nil_r, ?Nat.add_0_r; try done.
    destruct (jfc =? pi_evJfc i); simpl; rewrite ?app_nil_r, ?Nat.add_0_r; try done.
    destruct (poll_tail_events (pi_cnt i) i (if pi_cnt i >? 0 then mk_vars (lastPollNs_ v) (maxPollNs v) (lastOnlyPollNs_ v)
      (maxOnlyPollNs v) (pv_events v) (pv_acks v ++ [u32 (pi_cnt i)]) (S (pv_rearms v)) else v)) as (_ & -> & ->).
    rewrite Z.gtb_ltb. destruct (0 <? pi_cnt i); simpl; rewrite ?app_nil_r; split; try done; lia.
  - destruct (poll_tail_events (pi_cnt i) i v) as (_ & -> & ->). simpl. rewrite app_nil_r. split; [done|lia].
Qed.

(** C25: Over its whole run the poll thread hands the workers exactly the
    records that its polls returned, each once and in order.  In event mode it
    acknowledges and re-arms exactly after the polls that returned records;
    after a wake-up whose poll finds none it does neither. *)
Theorem poll_thread_delivers em jfc inputs e :
  let v := PollThreadMain em jfc inputs e in
  pv_events v = poll_batch (concat (delivered em jfc <$> inputs)) e /\
  pv_acks v = (if em then concat (round_acks jfc <$> inputs) else []) /\
  pv_rearms v = length (pv_acks v).
Proof.
  cbv zeta. induction inputs as [|i inputs IH] using rev_ind; [by destruct em|].
  unfold PollThreadMain in *. rewrite foldl_app, !fmap_app, !concat_app. simpl. rewrite !app_nil_r.
  set (v := foldl _ _ inputs) in *. destruct IH as (E1 & E2 & E3). destruct (poll_round_acks em jfc i v) as [A1 A2].
  rewrite poll_round_events, E1, poll_batch_app, A2, A1, E3, E2, length_app. split; [done|]. split; [|done]. by destruct em.
Qed.
