(* ===== verification/Stats.v ===== *)
(** * Stats: summary, interval reports and sampler of [src/kv_bench.cpp]

    The final summary ([print_client_summary]), the latency windows of the
    sampler ([latency_window_*]) and the loop of [client_sampler_main].  A line
    that is printed is the record of the values printed in it, as the doubles
    and integers that go to [printf]; the text around them is left out.  What
    the sampler sees of the workers at a tick is an input. *)

From S2P Require Import Prelude Hist Args.
From Stdlib Require Import SpecFloat.
From stdpp Require Import list.
#[local] Open Scope Z_scope.

(** ** What is printed *)

Definition dbl_div (x y : double) : double := SFdiv dprec demax x y.
Definition dbl_mul (x y : double) : double := SFmul dprec demax x y.

(** A decimal literal [n / d]: both parts are exact, the quotient is rounded. *)
Definition literal (n d : Z) : double := dbl_div (double_of_Z n) (double_of_Z d).

Definition to_us (ns : Z) : double := dbl_div (double_of_Z ns) (double_of_Z 1000).
Definition dbl_1e9 : double := double_of_Z 1000000000.
Definition dbl_1e6 : double := double_of_Z 1000000.

Record latency_line := mk_line {
  l_samples : Z;
  l_avg : double;
  l_min : double;
  l_p50 : double;
  l_p90 : double;
  l_p99 : double;
  l_p999 : double;
  l_p9999 : double;
  l_max : double;
}.

Definition print_latency_line_us (h : kv_hist) : latency_line :=
  let avg := u64_of_double (kv_hist_mean h) in
  let p50 := kv_hist_value_at_percentile h (double_of_Z 50) in
  let p90 := kv_hist_value_at_percentile h (double_of_Z 90) in
  let p99 := kv_hist_value_at_percentile h (double_of_Z 99) in
  let p999 := kv_hist_value_at_percentile h (literal 999 10) in
  let p9999 := kv_hist_value_at_percentile h (literal 9999 100) in
  mk_line h.(total_count) (to_us avg) (to_us (kv_hist_min h)) (to_us p50) (to_us p90) (to_us p99) (to_us p999)
    (to_us p9999) (to_us (kv_hist_max h)).

(** ** Workers *)

(** The members of [worker_t] that are read here. *)
Record wstats := mk_wstats {
  s_hist : kv_hist;
  s_hist_req : kv_hist;
  s_hist_wr : kv_hist;
  s_hist_post : kv_hist;
  s_ops : Z;
  s_bytes : Z;
  s_errors : Z;
}.

(** [kv_hist_init(h, 1, 60 s, 3)]; [ok] is whether [calloc] returned memory. *)
Definition new_hist (ok : bool) : Z * kv_hist := default (-1, zeroed_hist) (kv_hist_init 1 (60 *u64 1000000000) 3 ok).

(** Sums of the counters over the workers. *)
Definition add_counters (acc : Z * Z * Z) (w : wstats) : Z * Z * Z :=
  let '(ops, bytes, errors) := acc in
  (ops +u64 w.(s_ops), bytes +u64 w.(s_bytes), errors +u64 w.(s_errors)).

Definition total_counters (ws : list wstats) : Z * Z * Z := foldl add_counters (0, 0, 0) ws.

(** ** Summary *)

Record summary := mk_summary {
  su_size : Z;
  su_requests : Z;
  su_iops : double;
  su_wr_rate : double;
  su_bw_mb_s : double;
  su_bw_mbps : double;
  su_bytes : Z;
  su_errors : Z;
  su_request_line : latency_line;
  su_wr_line : latency_line;
  su_post_line : option latency_line;
}.

Definition merge_into {A} (field : A -> kv_hist) (h : kv_hist) (ws : list A) : kv_hist :=
  foldl (fun m w => kv_hist_merge m (field w)) h ws.

(** A quotient of [seconds], 0 when no time has passed. *)
Definition per_second (x : Z) (seconds : double) : double :=
  if SFltb (S754_zero false) seconds then dbl_div (double_of_Z x) seconds else S754_zero false.

(** [ok1] ... [ok4] are the results of the four allocations; after the first
    that fails nothing is printed. *)
Definition print_client_summary (a : argument) (ws : list wstats) (seconds : double) (ok1 ok2 ok3 ok4 : bool)
    : option summary :=
  let '(r1, merged) := new_hist ok1 in
  let '(r2, merged_req) := new_hist ok2 in
  let '(r3, merged_wr) := new_hist ok3 in
  let '(r4, merged_post) := new_hist ok4 in
  if negb (r1 =? 0) || negb (r2 =? 0) || negb (r3 =? 0) || negb (r4 =? 0) then None
  else
    let merged := merge_into s_hist merged ws in
    let merged_req := merge_into s_hist_req merged_req ws in
    let merged_wr := merge_into s_hist_wr merged_wr ws in
    let merged_post := merge_into s_hist_post merged_post ws in
    let '(ops, bytes, errors) := total_counters ws in
    let iops := per_second ops seconds in
    let bw_mb_s := if SFltb (S754_zero false) seconds then dbl_div (dbl_div (double_of_Z bytes) seconds) dbl_1e6
                   else S754_zero false in
    let wr_factor := if (a.(op) =? OP_WRITE) || (a.(op) =? OP_GET) then double_of_Z KV_WR_PER_REQ else double_of_Z 1 in
    Some (mk_summary (if a.(op) =? OP_WRITE then a.(send_size) else a.(value_size)) ops iops (dbl_mul iops wr_factor)
      bw_mb_s (dbl_mul bw_mb_s (double_of_Z 8)) bytes errors
      (print_latency_line_us (if a.(op) =? OP_MIXED then merged else merged_req))
      (print_latency_line_us merged_wr)
      (if 0 <? merged_post.(total_count) then Some (print_latency_line_us merged_post) else None)).

(** ** Latency windows *)

Record latency_window := mk_window {
  current : kv_hist;
  previous : kv_hist;
  interval : kv_hist;
  ready : bool;
}.

Inductive LatencyKind := Request | Wr | Post.

(** The conjunction stops at the first allocation that fails. *)
Definition latency_window_init (ok1 ok2 ok3 : bool) : latency_window :=
  let '(r1, c) := new_hist ok1 in
  if negb (r1 =? 0) then mk_window c zeroed_hist zeroed_hist false
  else
    let '(r2, p) := new_hist ok2 in
    if negb (r2 =? 0) then mk_window c p zeroed_hist false
    else let '(r3, i) := new_hist ok3 in mk_window c p i (r3 =? 0).

Definition latency_window_destroy (w : latency_window) : latency_window :=
  mk_window (kv_hist_destroy w.(current)) (kv_hist_destroy w.(previous)) (kv_hist_destroy w.(interval)) w.(ready).

Definition source (op : Z) (kind : LatencyKind) (w : wstats) : kv_hist :=
  match kind with
  | Wr => w.(s_hist_wr)
  | Post => w.(s_hist_post)
  | Request => if op =? OP_MIXED then w.(s_hist) else w.(s_hist_req)
  end.

(** The sample with the snapshot of the workers as a function on [current]. *)
Definition sample_with (collect : kv_hist -> kv_hist) (w : latency_window) : latency_window :=
  if negb w.(ready) then w
  else
    let cur := collect (kv_hist_reset w.(current)) in
    mk_window cur (kv_hist_copy w.(previous) cur) (kv_hist_delta w.(interval) cur w.(previous)) w.(ready).

Definition collect_workers (op : Z) (kind : LatencyKind) (ws : list wstats) (c : kv_hist) : kv_hist :=
  foldl (fun c w => kv_hist_merge_snapshot c (source op kind w)) c ws.

Definition latency_window_sample (op : Z) (kind : LatencyKind) (ws : list wstats) : latency_window -> latency_window :=
  sample_with (collect_workers op kind ws).

(** Nothing, the note that there were no samples, or a line. *)
Definition print_interval_latency (w : latency_window) : option (option latency_line) :=
  if negb w.(ready) then None
  else if w.(interval).(total_count) =? 0 then Some None
  else Some (Some (print_latency_line_us w.(interval))).

(** ** Sampler *)

(** The clock at a tick and the workers when each of the readings is made. *)
Record tick := mk_tick {
  t_now : Z;
  t_counters : list wstats;
  t_request : list wstats;
  t_wr : list wstats;
  t_post : list wstats;
}.

Record report := mk_report {
  r_elapsed : double;
  r_ops : Z;
  r_iops : double;
  r_bw_mb_s : double;
  r_bw_mbps : double;
  r_errors : Z;
  r_request : option (option latency_line);
  r_wr : option (option latency_line);
  r_post : option (option latency_line);
}.

Record sampler := mk_sampler {
  last_ops : Z;
  last_bytes : Z;
  last_t : Z;
  request_latency : latency_window;
  wr_latency : latency_window;
  post_latency : latency_window;
}.

(** The body of the loop; there is no report when no time has passed. *)
Definition sampler_round (op t0 : Z) (s : sampler) (k : tick) : sampler * option report :=
  let now := k.(t_now) in
  let '(ops, bytes, errors) := total_counters k.(t_counters) in
  let rq := latency_window_sample op Request k.(t_request) s.(request_latency) in
  let wr := latency_window_sample op Wr k.(t_wr) s.(wr_latency) in
  let po := latency_window_sample op Post k.(t_post) s.(post_latency) in
  let dt := dbl_div (double_of_Z (now -u64 s.(last_t))) dbl_1e9 in
  let elapsed := dbl_div (double_of_Z (now -u64 t0)) dbl_1e9 in
  let bw_mb_s := dbl_div (dbl_div (double_of_Z (bytes -u64 s.(last_bytes))) dt) dbl_1e6 in
  (mk_sampler ops bytes now rq wr po,
   if SFltb (S754_zero false) dt then
     Some (mk_report elapsed ops (dbl_div (double_of_Z (ops -u64 s.(last_ops))) dt) bw_mb_s
       (dbl_mul bw_mb_s (double_of_Z 8)) errors
       (print_interval_latency rq) (print_interval_latency wr) (print_interval_latency po))
   else None).

Fixpoint sampler_loop (op t0 : Z) (s : sampler) (ks : list tick) : sampler * list report :=
  match ks with
  | [] => (s, [])
  | k :: ks =>
      let '(s, r) := sampler_round op t0 s k in
      let '(s, rs) := sampler_loop op t0 s ks in
      (s, match r with Some r => r :: rs | None => rs end)
  end.

(** The sampler until it sees [stop]: the reports of its ticks. *)
Definition client_sampler_main (op t0 : Z) (ok : nat -> bool) (ks : list tick) : list report :=
  let s := mk_sampler 0 0 t0 (latency_window_init (ok 0%nat) (ok 1%nat) (ok 2%nat))
             (latency_window_init (ok 3%nat) (ok 4%nat) (ok 5%nat))
             (latency_window_init (ok 6%nat) (ok 7%nat) (ok 8%nat)) in
  snd (sampler_loop op t0 s ks).

(** ** Theorems: the summary *)

(** [hist] of every worker holds its samples. *)
Definition workers_hold {A} (g : geom) (field : A -> kv_hist) (ws : list A) (vss : list (list Z)) : Prop :=
  Forall2 (fun w vs => exact g (field w) vs) ws vss.

Definition fits (vss : list (list Z)) : Prop := Z.of_nat (length (concat vss)) < 2 ^ 64.

Lemma merge_into_exact {A} g (field : A -> kv_hist) ws vss h vs :
  exact g h vs -> workers_hold g field ws vss -> fits (vs :: vss) -> exact g (merge_into field h ws) (vs ++ concat vss).
Proof.
  intros Hh H. revert h vs Hh. induction H as [|w ws' ws vss Hw H IH]; intros h vs Hh Hf.
  - simpl. by rewrite app_nil_r.
  - unfold fits in *. simpl in *. rewrite !length_app in Hf. rewrite app_assoc. apply IH.
    + apply merge_exact; [done|done|lia].
    + rewrite !length_app. lia.
Qed.

Lemma new_hist_ok : exists h, new_hist true = (0, h) /\ exact (geom_of h) h [].
Proof.
  destruct (init_exact (60 *u64 1000000000) 3) as (h & E & Hx & _); [by vm_compute|].
  exists h. unfold new_hist. by rewrite E.
Qed.

Definition new_geom : geom := geom_of (snd (new_hist true)).

Lemma new_hist_exact : new_hist true = (0, snd (new_hist true)) /\ exact new_geom (snd (new_hist true)) [].
Proof. unfold new_geom. destruct new_hist_ok as (h & -> & Hx). done. Qed.

Lemma total_counters_sum ws o b e :
  foldl add_counters (u64 o, u64 b, u64 e) ws =
  (u64 (o + sumZ (s_ops <$> ws)), u64 (b + sumZ (s_bytes <$> ws)), u64 (e + sumZ (s_errors <$> ws))).
Proof.
  revert o b e. induction ws as [|w ws IH]; intros o b e; csimpl; [by rewrite !Z.add_0_r|].
  assert (Ha : forall x y, u64 x +u64 y = u64 (x + y)).
  { intros x y. unfold u64. by rewrite Zplus_mod_idemp_l. }
  rewrite !Ha, IH. by rewrite <- !Z.add_assoc.
Qed.

(** the final summary.  When memory is available it is printed; requests,
    bytes and errors are the sums of the workers' counters (modulo 2^64), and
    every latency line is that of a histogram that holds the samples of all
    workers together, each once: request latencies come from the batch
    histogram in mixed mode and from the request histogram otherwise. *)
Theorem summary_merges_workers a ws seconds bat req wr post :
  workers_hold new_geom s_hist ws bat -> workers_hold new_geom s_hist_req ws req ->
  workers_hold new_geom s_hist_wr ws wr -> workers_hold new_geom s_hist_post ws post ->
  fits bat -> fits req -> fits wr -> fits post ->
  exists su hr hw hp, print_client_summary a ws seconds true true true true = Some su /\
    su_requests su = u64 (sumZ (s_ops <$> ws)) /\ su_bytes su = u64 (sumZ (s_bytes <$> ws)) /\
    su_errors su = u64 (sumZ (s_errors <$> ws)) /\
    exact new_geom hr (concat (if a.(op) =? OP_MIXED then bat else req)) /\
    su_request_line su = print_latency_line_us hr /\
    exact new_geom hw (concat wr) /\ su_wr_line su = print_latency_line_us hw /\
    exact new_geom hp (concat post) /\
    su_post_line su = if decide (concat post = []) then None else Some (print_latency_line_us hp).
Proof.
  intros Hb Hr Hw Hp Fb Fr Fw Fp. unfold print_client_summary. destruct new_hist_exact as [E Hx]. rewrite E.
  revert Hb Hr Hw Hp Hx. generalize (snd (new_hist true)) as h, new_geom as g. intros h g Hb Hr Hw Hp Hx.
  cbv beta iota zeta. change (negb (0 =? 0)) with false. cbn [orb].
  pose proof (merge_into_exact _ _ _ _ _ _ Hx Hb Fb) as Xb. pose proof (merge_into_exact _ _ _ _ _ _ Hx Hr Fr) as Xr.
  pose proof (merge_into_exact _ _ _ _ _ _ Hx Hw Fw) as Xw. pose proof (merge_into_exact _ _ _ _ _ _ Hx Hp Fp) as Xp.
  unfold total_counters. rewrite (total_counters_sum ws 0 0 0 : foldl add_counters (0, 0, 0) ws = _). cbv beta iota zeta.
  eexists _, (if a.(op) =? OP_MIXED then merge_into s_hist h ws else merge_into s_hist_req h ws), _, _.
  split; [reflexivity|]. cbn [su_requests su_bytes su_errors su_request_line su_wr_line su_post_line].
  do 3 (split; [reflexivity|]). split; [by destruct (op a =? OP_MIXED)|]. split; [reflexivity|].
  split; [exact Xw|]. split; [reflexivity|]. split; [exact Xp|].
  rewrite (holds_total _ _ _ (exact_holds _ _ _ Xp)). simpl.
  destruct (concat post) as [|x l]; [by rewrite decide_True|]. rewrite decide_False by done. done.
Qed.

Definition demo_stats : wstats :=
  let h := kv_hist_record (snd (new_hist true)) 10 in mk_wstats h h h h 3 100 0.

Lemma demo_stats_hold field :
  field demo_stats = kv_hist_record (snd (new_hist true)) 10 -> workers_hold new_geom field [demo_stats] [[10]].
Proof.
  intros E. constructor; [|constructor]. rewrite E. apply record_exact; [apply (proj2 new_hist_exact)|simpl; lia].
Qed.

Lemma summary_merges_workers_witness :
  exists su, print_client_summary default_args [demo_stats] (double_of_Z 2) true true true true = Some su /\
    su_requests su = 3 /\ su_bytes su = 100.
Proof.
  assert (F : fits [[10]]) by by vm_compute.
  destruct (summary_merges_workers default_args [demo_stats] (double_of_Z 2) _ _ _ _ (demo_stats_hold s_hist eq_refl)
    (demo_stats_hold s_hist_req eq_refl) (demo_stats_hold s_hist_wr eq_refl) (demo_stats_hold s_hist_post eq_refl) F F F F)
    as (su & hr & hw & hp & E & E1 & E2 & _).
  exists su. split; [exact E|]. split; [rewrite E1|rewrite E2]; by vm_compute.
Defined.

(** ** Theorems: intervals *)

(** The workers record a batch each: [batch !! i] is what worker [i] records. *)
Definition record_batch (hs : list kv_hist) (batch : list (list Z)) : list kv_hist := zip_with record_all hs batch.

(** The workers whose [kind] histograms are [hs]. *)
Definition showing (hs : list kv_hist) : list wstats := (fun h => mk_wstats h h h h 0 0 0) <$> hs.

(** The windows of the ticks, when the workers record the batches in between. *)
Fixpoint windows (op : Z) (kind : LatencyKind) (hs : list kv_hist) (w : latency_window) (batches : list (list (list Z)))
    : list latency_window :=
  match batches with
  | [] => []
  | b :: bs =>
      let hs := record_batch hs b in
      let w := latency_window_sample op kind (showing hs) w in
      w :: windows op kind hs w bs
  end.

Lemma holds_perm g h vs ws : vs ≡ₚ ws -> holds g h vs -> holds g h ws.
Proof.
  intros P [W ? ? Ht Hf]. assert (E : tallies g ws = tallies g vs).
  { unfold tallies. apply list_fmap_ext. intros i k _. unfold tally. by rewrite P. }
  constructor; rewrite ?E, <- ?(Permutation_length P); done.
Qed.

(** A window between two ticks: what was counted so far is in [previous]. *)
Record window_ok (g : geom) (olds : list Z) (w : latency_window) : Prop := {
  wo_ready : w.(ready) = true;
  wo_current : exists vs, holds g w.(current) vs;
  wo_previous : holds g w.(previous) olds;
  wo_interval : exists vs, holds g w.(interval) vs;
}.

Lemma collect_holds g op kind hs vss c vs :
  holds g c vs -> Forall2 (holds g) hs vss -> fits (vs :: vss) ->
  holds g (collect_workers op kind (showing hs) c) (vs ++ concat vss).
Proof.
  intros Hc H. revert c vs Hc. induction H as [|h hvs hs vss Hh H IH]; intros c vs Hc Hf.
  - simpl. by rewrite app_nil_r.
  - unfold fits in *. simpl in *. rewrite !length_app in Hf. rewrite app_assoc.
    assert (Es : source op kind (mk_wstats h h h h 0 0 0) = h) by (destruct kind; simpl; by try destruct (op =? OP_MIXED)).
    rewrite Es. apply IH; [|rewrite !length_app; lia]. apply merge_snapshot_holds; [done|done|lia].
Qed.

Lemma sample_exact g op kind hs vss w olds news :
  window_ok g olds w -> Forall2 (holds g) hs vss -> concat vss ≡ₚ news ++ olds -> fits vss ->
  let w' := latency_window_sample op kind (showing hs) w in
  window_ok g (news ++ olds) w' /\ holds g w'.(interval) news.
Proof.
  intros [Hr [cs Hc] Hp [ivs Hi]] Hs P Hf. unfold latency_window_sample, sample_with. rewrite Hr. simpl.
  pose proof (exact_holds _ _ _ (reset_exact _ _ _ Hc)) as H0.
  pose proof (holds_perm _ _ _ _ P (collect_holds g op kind hs vss _ [] H0 Hs Hf)) as H1.
  assert (H2 : holds g (kv_hist_delta (interval w) (collect_workers op kind (showing hs) (kv_hist_reset (current w)))
    (previous w)) news) by (by eapply delta_holds).
  split; [|done]. constructor; simpl; eauto. by eapply copy_holds.
Qed.

Lemma record_batch_holds g hs vss b :
  Forall2 (holds g) hs vss -> length b = length hs -> fits (b ++ vss) ->
  exists vss', Forall2 (holds g) (record_batch hs b) vss' /\ concat vss' ≡ₚ concat b ++ concat vss.
Proof.
  intros H. revert b. induction H as [|h vs hs vss Hh H IH]; intros [|x b] Hl Hf; try done.
  - by exists [].
  - unfold fits in *. rewrite concat_app in Hf. simpl in *. rewrite !length_app in Hf.
    destruct (IH b) as (vss' & F & P); [lia|rewrite concat_app, length_app; lia|].
    exists ((rev x ++ vs) :: vss'). split.
    + constructor; [|done]. apply record_all_holds; [done|lia].
    + simpl. rewrite P, <- (Permutation_rev x). solve_Permutation.
Qed.

Lemma windows_exact g op kind batches : forall hs vss w olds k b,
  window_ok g olds w -> Forall2 (holds g) hs vss -> concat vss ≡ₚ olds ->
  Forall (fun b => length b = length hs) batches -> fits (concat batches ++ [olds]) ->
  batches !! k = Some b ->
  exists w', windows op kind hs w batches !! k = Some w' /\ holds g w'.(interval) (concat b) /\
    holds g w'.(previous) (concat (concat (take (S k) batches)) ++ olds).
Proof.
  induction batches as [|b0 bs IH]; intros hs vss w olds k b Hw Hs P Hl Hf Hk; [done|].
  apply Forall_cons in Hl as [Hl0 Hl]. unfold fits in Hf. rewrite concat_app in Hf. cbn [concat] in Hf.
  rewrite concat_app, !length_app in Hf. simpl in Hf.
  destruct (record_batch_holds g hs vss b0 Hs Hl0) as (vss' & F & P').
  { unfold fits. rewrite concat_app, length_app, (Permutation_length P). lia. }
  rewrite P in P'. destruct (sample_exact g op kind (record_batch hs b0) vss' w olds (concat b0) Hw F P') as [Hw' Hi].
  { unfold fits. rewrite (Permutation_length P'), length_app. lia. }
  destruct k as [|k]; simpl in Hk |- *.
  - injection Hk as <-. exists (latency_window_sample op kind (showing (record_batch hs b0)) w).
    split; [done|]. split; [done|]. rewrite ?app_nil_r. apply (wo_previous _ _ _ Hw').
  - destruct (IH (record_batch hs b0) vss' _ _ k b Hw' F P') as (w2 & E2 & Hi2 & Hp2); [|unfold fits|done|].
    + eapply Forall_impl; [done|]. intros l E. unfold record_batch. rewrite E, length_zip_with. lia.
    + rewrite concat_app. simpl. rewrite !length_app. simpl. lia.
    + exists w2. split; [done|]. split; [done|]. eapply holds_perm; [|done]. simpl.
      rewrite concat_app. solve_Permutation.
Qed.

Lemma fresh_window : window_ok new_geom [] (latency_window_init true true true).
Proof.
  unfold latency_window_init. destruct new_hist_exact as [E Hx]. rewrite E. apply exact_holds in Hx.
  revert Hx. generalize (snd (new_hist true)) as h, new_geom as g. intros h g Hx. constructor; simpl; eauto.
Qed.

(** the interval reports.  [n] workers record batches of samples between
    the ticks of the sampler.  The interval histogram of tick [k] holds exactly
    the samples that the workers recorded since tick [k - 1], and the baseline
    kept for the next tick all samples up to now: no sample is reported in two
    intervals or in none. *)
Theorem interval_windows_exact op kind n batches k b :
  Forall (fun b => length b = n) batches -> fits (concat batches) -> batches !! k = Some b ->
  exists w, windows op kind (replicate n (snd (new_hist true))) (latency_window_init true true true) batches !! k = Some w /\
    holds new_geom w.(interval) (concat b) /\
    holds new_geom w.(previous) (concat (concat (take (S k) batches))).
Proof.
  intros Hl Hf Hk. set (h0 := snd (new_hist true)).
  assert (Hs : Forall2 (holds new_geom) (replicate n h0) (replicate n [])).
  { apply Forall2_replicate, (exact_holds _ _ _ (proj2 new_hist_exact)). }
  destruct (windows_exact new_geom op kind batches (replicate n h0) (replicate n []) (latency_window_init true true true) [] k b)
    as (w & E & Hi & Hp); [apply fresh_window|done| | |unfold fits in *; by rewrite concat_app, app_nil_r|done|].
  - clear. induction n; done.
  - by rewrite length_replicate.
  - exists w. rewrite app_nil_r in Hp. done.
Qed.

Lemma interval_windows_exact_witness :
  exists w, windows OP_WRITE Request (replicate 2 (snd (new_hist true))) (latency_window_init true true true)
      [[[5; 7]; [9]]; [[1000]; []]] !! 1%nat = Some w /\
    holds new_geom w.(interval) [1000] /\ holds new_geom w.(previous) [5; 7; 9; 1000].
Proof. apply (interval_windows_exact OP_WRITE Request 2 [[[5; 7]; [9]]; [[1000]; []]] 1 [[1000]; []]); [by repeat constructor|by vm_compute|done]. Defined.

(** *** Workers that keep recording *)

(** While the sampler reads a counter the workers go on; what its loads return
    is arbitrary here, one function from buckets to counts per worker, except
    that no counter shrinks from tick to tick. *)

Definition collect_loads (L : nat) (lds : list (nat -> Z)) (c : kv_hist) : kv_hist :=
  foldl (fun c ld => merge_snapshot_loads c ld L) c lds.

Fixpoint loads_windows (L : nat) (w : latency_window) (ticks : list (list (nat -> Z))) : list latency_window :=
  match ticks with
  | [] => []
  | t :: ts => let w := sample_with (collect_loads L t) w in w :: loads_windows L w ts
  end.

(** What a tick has seen of bucket [i], and the count of it in a histogram. *)
Definition seen (t : list (nat -> Z)) (i : nat) : Z := sumZ ((fun ld => ld i) <$> t).
Definition bucket (h : kv_hist) (i : nat) : Z := at_ (default [] h.(counts)) i.

(** Loads from the counters of growing histograms, [p] at the tick before. *)
Inductive counting (L : nat) : list (nat -> Z) -> list (list (nat -> Z)) -> Prop :=
| counting_nil p : counting L p []
| counting_cons p t ts :
    Forall (fun ld => forall i, (i < L)%nat -> 0 <= ld i) t ->
    (forall i, (i < L)%nat -> seen p i <= seen t i) ->
    sumZ (seen t <$> seq 0 L) < 2 ^ 64 ->
    counting L t ts -> counting L p (t :: ts).

(** The array of a histogram as a function. *)
Record cells (L : nat) (h : kv_hist) (f : nat -> Z) : Prop := {
  cl_counts : h.(counts) = Some (f <$> seq 0 L);
  cl_len : h.(counts_array_length) = Z.of_nat L;
}.

Lemma lookup_seq_fn {A} (f : nat -> A) L i : (i < L)%nat -> (f <$> seq 0 L) !! i = Some (f i).
Proof. intros Hi. by rewrite list_lookup_fmap, lookup_seq_lt. Qed.

Lemma at_seq_fn f L i : (i < L)%nat -> at_ (f <$> seq 0 L) i = f i.
Proof. intros Hi. unfold at_. by rewrite lookup_seq_fn. Qed.

Lemma seq_fn_ext {A} (f g : nat -> A) L : (forall i, (i < L)%nat -> f i = g i) -> f <$> seq 0 L = g <$> seq 0 L.
Proof. intros H. apply list_fmap_ext. intros k i Hi. apply lookup_seq in Hi as [-> Hi]. apply H. lia. Qed.

Lemma cells_bucket L h f i : cells L h f -> (i < L)%nat -> bucket h i = f i.
Proof. intros H Hi. unfold bucket. rewrite (cl_counts _ _ _ H). by apply at_seq_fn. Qed.

(** A loop that updates every cell. *)
Lemma bump_cells (upd : Z -> Z -> Z) L h f c :
  cells L h f -> is_u64 h.(total_count) ->
  let h' := bump_loop upd c h L in
  cells L h' (fun i => if c i =? 0 then f i else upd (f i) (c i)) /\
  h'.(total_count) = u64 (h.(total_count) + sumZ (c <$> seq 0 L)).
Proof.
  intros H Ht h'. destruct (bump_loop_eq upd c h (f <$> seq 0 L) L) as (mn & mx & E);
    [apply H|by rewrite length_fmap, length_seq|done|].
  unfold h'. rewrite E. split; [|done]. split; [|apply H]. simpl. f_equal. apply list_eq. intros i.
  pose proof (foldl_update_lookup (bump_step upd c) (fun i x => if c i =? 0 then x else upd x (c i)) L (f <$> seq 0 L) i
    (fun _ _ _ => eq_refl)) as [Hl Hi]; [by rewrite length_fmap, length_seq|]. rewrite Hi.
  destruct (decide (i < L)%nat) as [Hlt|Hge]; [by rewrite !lookup_seq_fn|].
  rewrite !lookup_ge_None_2; [done|rewrite length_fmap, length_seq..]; lia.
Qed.

Lemma cells_ext L h f g : cells L h f -> (forall i, (i < L)%nat -> f i = g i) -> cells L h g.
Proof. intros [Hc Hl] E. split; [|done]. by rewrite Hc, (seq_fn_ext f g). Qed.

Lemma cells_reset L h f : cells L h f -> cells L (kv_hist_reset h) (fun _ => 0) /\ (kv_hist_reset h).(total_count) = 0.
Proof.
  intros [Hc Hl]. unfold kv_hist_reset. rewrite Hc, Hl. simpl. split; [|done]. split; [|done]. simpl. f_equal.
  rewrite Nat2Z.id, drop_ge by (by rewrite length_fmap, length_seq). rewrite app_nil_r. apply list_eq. intros i.
  destruct (decide (i < L)%nat) as [Hlt|Hge].
  - by rewrite lookup_seq_fn, lookup_replicate_2 by lia.
  - rewrite !lookup_ge_None_2; [done|rewrite length_fmap, length_seq|rewrite length_replicate]; lia.
Qed.

Lemma sum_ge (f : nat -> Z) L i : (forall j, (j < L)%nat -> 0 <= f j) -> (i < L)%nat -> f i <= sumZ (f <$> seq 0 L).
Proof.
  intros H Hi. apply (sumZ_elem_le _ i); [|by apply lookup_seq_fn].
  apply Forall_fmap, Forall_forall. intros j [_ Hj]%elem_of_seq. by apply H.
Qed.

Lemma seen_nonneg L t i : Forall (fun ld => forall i, (i < L)%nat -> 0 <= ld i) t -> (i < L)%nat -> 0 <= seen t i.
Proof. intros H Hi. induction H as [|ld t Hld H IH]; [done|]. unfold seen in *. csimpl. specialize (Hld i Hi). lia. Qed.

(** The snapshot of all workers. *)
Lemma collect_cells L t : forall c f,
  Forall (fun ld => forall i, (i < L)%nat -> 0 <= ld i) t -> cells L c f -> is_u64 c.(total_count) ->
  (forall i, (i < L)%nat -> 0 <= f i /\ f i + seen t i < 2 ^ 64) ->
  cells L (collect_loads L t c) (fun i => f i + seen t i) /\ is_u64 (collect_loads L t c).(total_count).
Proof.
  induction t as [|ld t IH]; intros c f Hn Hc Ht Hf.
  - split; [|done]. eapply cells_ext; [done|]. intros i _. unfold seen. simpl. lia.
  - apply Forall_cons in Hn as [Hld Hn]. destruct (bump_cells (fun x c => x +u64 c) L c f ld Hc Ht) as [Hc' Ht'].
    assert (Hstep : forall i, (i < L)%nat -> 0 <= ld i /\ 0 <= seen t i /\ seen (ld :: t) i = ld i + seen t i).
    { intros i Hi. split; [by apply Hld|]. split; [by eapply seen_nonneg|done]. }
    destruct (IH (merge_snapshot_loads c ld L) (fun i => f i + ld i) Hn) as [Hc2 Ht2].
    + eapply cells_ext; [exact Hc'|]. intros i Hi. destruct (Hstep i Hi) as (? & ? & E). destruct (Hf i Hi).
      destruct (Z.eqb_spec (ld i) 0); [lia|]. apply u64_small. lia.
    + change (is_u64 (bump_loop (fun x c => x +u64 c) ld c L).(total_count)). rewrite Ht'. apply u64_range.
    + intros i Hi. destruct (Hstep i Hi) as (? & ? & E). destruct (Hf i Hi). lia.
    + split; [|exact Ht2]. eapply cells_ext; [exact Hc2|]. intros i Hi. destruct (Hstep i Hi) as (? & ? & E). simpl. lia.
Qed.

Lemma delta_cells L dst cur prev d c p :
  cells L dst d -> cells L cur c -> cells L prev p -> (forall i, (i < L)%nat -> p i <= c i) ->
  let h := kv_hist_delta dst cur prev in
  cells L h (fun i => c i - p i) /\ h.(total_count) = u64 (sumZ ((fun i => c i - p i) <$> seq 0 L)).
Proof.
  intros Hd Hc Hp Hle h. unfold h, kv_hist_delta.
  rewrite (cl_counts _ _ _ Hd), (cl_counts _ _ _ Hc), (cl_counts _ _ _ Hp), (cl_len _ _ _ Hd), (cl_len _ _ _ Hc),
    (cl_len _ _ _ Hp), !Z.min_id, Nat2Z.id.
  set (add := fun i => added_since (at_ (c <$> seq 0 L) i) (at_ (p <$> seq 0 L) i)).
  assert (Ea : forall i, (i < L)%nat -> add i = c i - p i).
  { intros i Hi. unfold add, added_since. rewrite !at_seq_fn by done. specialize (Hle i Hi).
    destruct (Z.leb_spec (p i) (c i)); lia. }
  destruct (cells_reset _ _ _ Hd) as [Hr Ht0].
  destruct (bump_cells (fun _ a => a) L (kv_hist_reset dst) _ add Hr) as [Hb Ht]; [rewrite Ht0; by vm_compute|].
  rewrite Ht0 in Ht. change (foldl _ (kv_hist_reset dst) (seq 0 L)) with (bump_loop (fun _ a => a) add (kv_hist_reset dst) L).
  split; [|by rewrite Ht, Z.add_0_l, (seq_fn_ext add (fun i => c i - p i))].
  eapply cells_ext; [exact Hb|]. intros i Hi. simpl. destruct (Z.eqb_spec (add i) 0) as [E|_]; rewrite Ea in * by done; lia.
Qed.

Lemma copy_cells L dst src d c : cells L dst d -> cells L src c -> cells L (kv_hist_copy dst src) c.
Proof.
  intros [Hd Ld] [Hc Lc]. unfold kv_hist_copy. rewrite Hd, Hc, Ld, Lc, Z.min_id, Nat2Z.id. simpl.
  rewrite Z.ltb_irrefl. split; [|done]. simpl. rewrite take_ge, drop_ge, app_nil_r by (by rewrite length_fmap, length_seq). done.
Qed.

(** A window between two ticks, the last of which was [p]. *)
Record window_cells (L : nat) (p : list (nat -> Z)) (w : latency_window) : Prop := {
  wc_ready : w.(ready) = true;
  wc_current : exists f, cells L w.(current) f;
  wc_previous : cells L w.(previous) (seen p);
  wc_interval : exists f, cells L w.(interval) f;
}.

Lemma sample_cells L p t w :
  window_cells L p w -> Forall (fun ld => forall i, (i < L)%nat -> 0 <= ld i) t ->
  (forall i, (i < L)%nat -> 0 <= seen p i <= seen t i) -> sumZ (seen t <$> seq 0 L) < 2 ^ 64 ->
  let w' := sample_with (collect_loads L t) w in
  window_cells L t w' /\ cells L w'.(interval) (fun i => seen t i - seen p i) /\
  w'.(interval).(total_count) = sumZ ((fun i => seen t i - seen p i) <$> seq 0 L).
Proof.
  intros [Hr [cf Hc] Hp [ivf Hi]] Hn Hle Hs. unfold sample_with. rewrite Hr. cbv zeta. cbn [negb current previous interval].
  destruct (cells_reset _ _ _ Hc) as [H0 T0]. destruct (collect_cells L t (kv_hist_reset (current w)) _ Hn H0) as [H1 _].
  { rewrite T0. by vm_compute. }
  { intros i Hi'. pose proof (sum_ge (seen t) L i ltac:(intros; eapply seen_nonneg; eauto) Hi'). lia. }
  apply (cells_ext _ _ _ (seen t)) in H1; [|intros; lia].
  destruct (delta_cells L _ _ _ _ _ _ Hi H1 Hp) as [H2 T2]; [intros; by apply Hle|]. split; [|split; [exact H2|]].
  - constructor; cbn [ready current previous interval]; eauto. by eapply copy_cells.
  - rewrite T2. apply u64_small.
    assert (Hb : sumZ ((fun i => seen t i - seen p i) <$> seq 0 L) <= sumZ (seen t <$> seq 0 L)).
    { apply sumZ_le. intros i [_ Hi']%elem_of_seq. specialize (Hle i Hi'). lia. }
    assert (H0' : 0 <= sumZ ((fun i => seen t i - seen p i) <$> seq 0 L)).
    { apply sumZ_nonneg, Forall_fmap, Forall_forall. intros i [_ Hi']%elem_of_seq. specialize (Hle i Hi'). simpl. lia. }
    lia.
Qed.

Lemma loads_windows_cells L ticks : forall p w,
  window_cells L p w -> (forall i, (i < L)%nat -> 0 <= seen p i) -> counting L p ticks ->
  Forall (fun w' => w'.(interval).(total_count) = sumZ (bucket w'.(interval) <$> seq 0 L)) (loads_windows L w ticks) /\
  forall i, (i < L)%nat ->
    sumZ ((fun w' => bucket w'.(interval) i) <$> loads_windows L w ticks) = seen (default p (last ticks)) i - seen p i.
Proof.
  induction ticks as [|t ts IH]; intros p w Hw H0 Hc; [by split; [constructor|simpl; lia]|].
  inversion Hc as [|p' t' ts' Hn Hle Hs Hc']; subst.
  destruct (sample_cells L p t w Hw Hn) as (Hw' & Hi & Ht); [by intros; split; [apply H0|apply Hle]|done|].
  assert (H0' : forall i, (i < L)%nat -> 0 <= seen t i) by (intros; by eapply seen_nonneg).
  destruct (IH t _ Hw' H0' Hc') as [IH1 IH2]. cbn [loads_windows]. cbv zeta. split.
  - constructor; [|done]. rewrite Ht. f_equal. apply seq_fn_ext. intros i Hlt. symmetry. by eapply cells_bucket in Hi.
  - intros i Hlt. csimpl. rewrite IH2 by done. rewrite (cells_bucket _ _ _ _ Hi Hlt). destruct ts as [|t2 ts]; simpl; [lia|].
    destruct (last (t2 :: ts)) eqn:E; simpl in *; [lia|]. by apply last_None in E.
Qed.

(** C32: the intervals, while the workers go on recording.  Whatever the loads of
    the counters return, as long as no counter shrinks, the intervals add up
    bucket by bucket to what the last tick has seen of the workers: nothing is
    reported twice and nothing gets lost between two ticks; and the number of
    samples an interval reports is the sum of its buckets. *)
Theorem interval_windows_partition ticks :
  let L := glen new_geom in
  let ws := loads_windows L (latency_window_init true true true) ticks in
  counting L [] ticks ->
  Forall (fun w => w.(interval).(total_count) = sumZ (bucket w.(interval) <$> seq 0 L)) ws /\
  forall i, (i < L)%nat -> sumZ ((fun w => bucket w.(interval) i) <$> ws) = seen (default [] (last ticks)) i.
Proof.
  intros L ws Hc. destruct (loads_windows_cells L ticks [] (latency_window_init true true true)) as [H1 H2];
    [|by intros|done|split; [done|]].
  - destruct fresh_window as [Hr [cs Hcs] Hp [ivs Hi]].
    assert (Hh : forall h vs, holds new_geom h vs -> cells L h (fun i => tally new_geom vs (Z.of_nat i))).
    { intros h vs H. split; [apply (wf_counts _ _ _ (holds_wf _ _ _ H))|].
      unfold L. rewrite <- (holds_glen _ _ _ H), Z2Nat.id; [done|].
      pose proof (wf_len _ _ _ (holds_wf _ _ _ H)). pose proof (wf_bc _ _ _ (holds_wf _ _ _ H)).
      pose proof (Z.pow_nonneg 2 (gk new_geom - 1)). nia. }
    constructor; [done|eauto|by apply (Hh _ []) in Hp|eauto].
  - intros i Hi. rewrite H2 by done. unfold seen at 2. simpl. lia.
Qed.

Definition demo_loads : list (list (nat -> Z)) :=
  [[fun i => if (i =? 5)%nat then 3 else 0; fun _ => 0]; [fun i => if (i =? 5)%nat then 4 else 0; fun i => if (i =? 9)%nat then 1 else 0]].

Lemma demo_counting : counting (glen new_geom) [] demo_loads.
Proof.
  constructor; [| | |constructor; [| | |constructor]].
  1, 4: repeat constructor; intros i _; repeat case_match; lia.
  1, 3: intros i _; unfold seen; simpl; repeat case_match; lia.
  all: by vm_compute.
Qed.

Lemma interval_windows_partition_witness :
  sumZ ((fun w => bucket w.(interval) 5) <$> loads_windows (glen new_geom) (latency_window_init true true true) demo_loads) = 4.
Proof.
  assert (H5 : (5 < glen new_geom)%nat) by (apply Nat.ltb_lt; by vm_compute).
  by rewrite (proj2 (interval_windows_partition demo_loads demo_counting) 5%nat H5).
Defined.
