(* ===== verification/Dual.v ===== *)
(** * Dual: the workers of the two-device mode in [src/kv_bench.cpp]

    In this mode a process drives four ports (two devices with two addresses
    each), with one manager per port.  [dual_worker_main] posts one write on
    every port, waits for the four completions and counts the round.  The four
    managers are separate objects: the state has one of them per port, each
    with the interface of Pipeline.  The clock and the stop flags are those
    seen through port 0. *)

From S2P Require Import Prelude Hist Args Affinity Requests Pipeline.
From stdpp Require Import list functions.
#[local] Open Scope Z_scope.

Definition DUAL_PORTS : nat := 4.

(** [dual_worker_t]; the arrays over the ports as functions. *)
Record dual_worker := mk_dual {
  d_event_token : nat -> Z;
  d_jetty : nat -> Z;
  d_hist_req : kv_hist;
  d_hist_post : kv_hist;
  d_ops : Z;
  d_bytes : Z;
  d_errors : Z;
  d_off : Z;
  d_fatal : bool;           (* [ctx->fatal] set by this worker *)
}.

Definition put_token (p : nat) (t : Z) (w : dual_worker) : dual_worker :=
  mk_dual (<[p := t]> w.(d_event_token)) w.(d_jetty) w.(d_hist_req) w.(d_hist_post) w.(d_ops) w.(d_bytes) w.(d_errors)
    w.(d_off) w.(d_fatal).
Definition put_lane (p : nat) (j : Z) (w : dual_worker) : dual_worker :=
  mk_dual w.(d_event_token) (<[p := j]> w.(d_jetty)) w.(d_hist_req) w.(d_hist_post) w.(d_ops) w.(d_bytes) w.(d_errors)
    w.(d_off) w.(d_fatal).
Definition add_post (ns : Z) (w : dual_worker) : dual_worker :=
  mk_dual w.(d_event_token) w.(d_jetty) w.(d_hist_req) (kv_hist_record w.(d_hist_post) ns) w.(d_ops) w.(d_bytes)
    w.(d_errors) w.(d_off) w.(d_fatal).

(** ** Sizes and addresses *)

Section sizes.
Context (a : argument).

Definition dual_wr_size : Z := a.(send_size) / 2.
Definition dual_round_bytes : Z := Z.of_nat DUAL_PORTS *u64 dual_wr_size.
Definition dual_window : Z := a.(threads) *u64 dual_round_bytes.

(** The registered buffer of both sides, from their own [--threads]. *)
Definition dual_buf_len : Z := ROUND_UP (a.(threads) *u64 dual_round_bytes) PAGE_SIZE.

(** The first offset of worker [i], and the one after a round at [off]. *)
Definition dual_off0 (i : Z) : Z := i *u64 dual_round_bytes.
Definition dual_off_next (off : Z) : Z := (off +u64 dual_round_bytes) mod dual_window.

(** The work request of port [p]. *)
Definition dual_local (client_data off : Z) (p : nat) : Z := client_data +u64 off +u64 (Z.of_nat p *u64 dual_wr_size).
Definition dual_remote (rva off : Z) (p : nat) : Z := rva +u64 off +u64 (Z.of_nat p *u64 dual_wr_size).

(** A round that succeeded, and the first that failed. *)
Definition dual_count_round (lat : Z) (w : dual_worker) : dual_worker :=
  mk_dual w.(d_event_token) w.(d_jetty) (kv_hist_record w.(d_hist_req) lat) w.(d_hist_post) (w.(d_ops) +u64 1)
    (w.(d_bytes) +u64 dual_round_bytes) w.(d_errors) (dual_off_next w.(d_off)) w.(d_fatal).
Definition dual_count_failure (w : dual_worker) : dual_worker :=
  mk_dual w.(d_event_token) w.(d_jetty) w.(d_hist_req) w.(d_hist_post) w.(d_ops) w.(d_bytes) (w.(d_errors) +u64 1)
    w.(d_off) true.

End sizes.

(** ** The worker *)

Section dual.
Context {W : Type} `{Manager W}.
Context (a : argument) (client_data : Z).
Context (rva : nat -> Z).         (* [conn[p]->RemoteSegVa()] *)

Record dst := mk_dst { dw : dual_worker; ports : nat -> W }.

Definition at_port {A} (p : nat) (m : ST W A) : ST dst A :=
  fun s => let '(r, w) := m (s.(ports) p) in (r, mk_dst s.(dw) (<[p := w]> s.(ports))).
Definition dupd (f : dual_worker -> dual_worker) : ST dst unit := fun s => (tt, mk_dst (f s.(dw)) s.(ports)).
Definition dgets {A} (f : dual_worker -> A) : ST dst A := fun s => (f s.(dw), s).
Definition clock : ST dst Z := at_port 0 now_ns.

(** The post on one port; [false] is [ok = false; break]. *)
Definition post_port (off : Z) (p : nat) : ST dst bool :=
  lane ← at_port p AcquireSendLane;
  match lane with
  | None => mret false
  | Some j =>
      '(ue, t) ← at_port p PostEvent;
      dupd (put_token p t) ;;
      if decide (ue = 0) then at_port p (ReleaseSendLane j) ;; mret false
      else
        t0 ← clock;
        ok ← at_port p (PostWr (mk_wr false j (dual_local a client_data off p) (dual_remote a (rva p) off p)
                (u32 (dual_wr_size a)) INVALID_CHIP INVALID_CHIP ue));
        t1 ← clock;
        dupd (add_post (t1 -u64 t0)) ;;
        if negb ok then
          tok ← dgets (fun w => w.(d_event_token) p);
          at_port p (AbortEvent tok) ;;
          at_port p (ReleaseSendLane j) ;;
          mret false
        else dupd (put_lane p j) ;; mret true
  end.

(** The posts on the ports [p], [p+1], ..., [k] to go: the number posted and
    whether all were. *)
Fixpoint post_ports (off : Z) (k p : nat) : ST dst (nat * bool) :=
  match k with
  | O => mret (p, true)
  | S k => ok ← post_port off p; if (ok : bool) then post_ports off k (S p) else mret (p, false)
  end.

(** The wait on one port; a lane whose write did not complete is kept. *)
Definition wait_port (p : nat) : ST dst bool :=
  tok ← dgets (fun w => w.(d_event_token) p);
  ok ← at_port p (WaitEvent tok a.(timeout_ms));
  (if ok : bool then j ← dgets (fun w => w.(d_jetty) p); at_port p (ReleaseSendLane j) else mret tt) ;;
  dupd (put_lane p 0) ;;
  mret ok.

Fixpoint wait_ports (k p : nat) (ok : bool) : ST dst bool :=
  match k with
  | O => mret ok
  | S k => b ← wait_port p; wait_ports k (S p) (ok && (b : bool))
  end.

(** The body of the loop: [false] is [break]. *)
Definition dual_round : ST dst bool :=
  t0 ← clock;
  off ← dgets d_off;
  '(posted, ok) ← post_ports off DUAL_PORTS 0;
  ok ← wait_ports posted 0 ok;
  if (ok : bool) then
    t1 ← clock;
    dupd (dual_count_round a (t1 -u64 t0)) ;;
    mret true
  else dupd dual_count_failure ;; mret false.

(** [true] when the loop has ended within [fuel] passes. *)
Fixpoint dual_loop (fuel : nat) (deadline : Z) : ST dst bool :=
  match fuel with
  | O => mret false
  | S fuel =>
      stop ← at_port 0 stopped;
      go ← (if (stop : bool) then mret false else n ← clock; mret (n <? deadline));
      if negb go then mret true
      else
        more ← dual_round;
        if (more : bool) then dual_loop fuel deadline else mret true
  end.

(** [registered p]: whether [RegisterWorker] succeeds on port [p]. *)
Definition dual_worker_main (fuel : nat) (registered : nat -> bool) : ST dst bool :=
  n ← clock;
  let deadline := n +u64 (a.(duration_sec) *u64 1000000000) in
  if forallb registered (seq 0 DUAL_PORTS) then dual_loop fuel deadline else mret true.

End dual.
