(* ===== verification/DualProps.v ===== *)
(** * DualProps: what the rounds of a dual-mode worker guarantee

    For four managers with the laws of Pipeline: a round consumes every event
    it posted and gives its lanes back, or quarantines the ones whose write did
    not complete; the counters are those of the rounds; the work requests of a
    round tile its part of the buffers; and the worker stops. *)

From S2P Require Import Prelude Hist Args EventSlotPool SendLane UrmaEvents Affinity Requests Pipeline.
From S2P Require Import ManagerWorld PipelineInv PipelineThms PipelineProps Dual.
From stdpp Require Import list functions.
#[local] Open Scope Z_scope.

Section rules.
Context {W : Type} `{HM : Manager W} {HL : ManagerLaws W}.

(** Lanes, events and the tally of the calls, per port. *)
Record dview := mk_dview { dvw : dual_worker; dvh : nat -> gset Z; dvl : nat -> gset Z; dvt : nat -> tally }.

Definition shows (v : dview) (s : @dst W) : Prop :=
  s.(dw) = v.(dvw) /\
  forall p, world_ok (s.(ports) p) /\ held (s.(ports) p) = v.(dvh) p /\ live (s.(ports) p) = v.(dvl) p /\
    tally_of (history (s.(ports) p)) = v.(dvt) p.

Definition wpd {A} (m : ST (@dst W) A) (Q : A -> dview -> Prop) (v : dview) : Prop :=
  triple (shows v) m (fun r s => exists v', shows v' s /\ Q r v').

Lemma wpd_ret {A} (r : A) (Q : A -> dview -> Prop) v : Q r v -> wpd (mret r) Q v.
Proof. intros H s Hs. by exists v. Qed.

Lemma wpd_bind {A B} (m : ST (@dst W) A) (f : A -> ST (@dst W) B) Q v :
  wpd m (fun r v' => wpd (f r) Q v') v -> wpd (m ≫= f) Q v.
Proof.
  intros Hm. eapply triple_bind; [exact Hm|]. intros r s (v' & Hs & Hf). exact (Hf s Hs).
Qed.

Lemma wpd_mono {A} (m : ST (@dst W) A) (Q Q' : A -> dview -> Prop) v :
  wpd m Q v -> (forall r v', Q r v' -> Q' r v') -> wpd m Q' v.
Proof. intros Hm HQ s Hs. destruct (Hm s Hs) as (v' & Hs' & H). exists v'. eauto. Qed.

Lemma wpd_if {A} (b : bool) (m1 m2 : ST (@dst W) A) Q v :
  (b = true -> wpd m1 Q v) -> (b = false -> wpd m2 Q v) -> wpd (if b then m1 else m2) Q v.
Proof. destruct b; auto. Qed.

Lemma wpd_upd f (Q : unit -> dview -> Prop) v : Q tt (mk_dview (f v.(dvw)) v.(dvh) v.(dvl) v.(dvt)) -> wpd (dupd f) Q v.
Proof. intros H s [Hw Hp]. eexists. split; [|exact H]. split; [by simpl; rewrite Hw|done]. Qed.

Lemma wpd_gets {A} (f : dual_worker -> A) (Q : A -> dview -> Prop) v : Q (f v.(dvw)) v -> wpd (dgets f) Q v.
Proof. intros H s [Hw Hp]. exists v. simpl. rewrite Hw. done. Qed.

Lemma wpd_at {A} p (m : ST W A) c pre post (Q : A -> dview -> Prop) v :
  records m c pre post ->
  (forall w, held w = v.(dvh) p -> live w = v.(dvl) p -> pre w) ->
  (forall r w w', held w = v.(dvh) p -> live w = v.(dvl) p -> post r w w' ->
    Q r (mk_dview v.(dvw) (<[p := held w']> v.(dvh)) (<[p := live w']> v.(dvl))
           (<[p := round_note (v.(dvt) p) (c r)]> v.(dvt)))) ->
  wpd (at_port p m) Q v.
Proof.
  intros Hm Hp HQ s [Hw Hs]. destruct (Hs p) as (Ho & Hh & Hl & Ht).
  destruct (Hm (ports s p) Ho) as (Ho' & Hy & Hq); [by apply Hp|].
  specialize (HQ _ (ports s p) _ Hh Hl Hq). unfold at_port. destruct (m (ports s p)) as [r w']. simpl in *.
  eexists. split; [|exact HQ]. split; [done|]. intros q. simpl. destruct (decide (p = q)) as [<-|Hne].
  - rewrite !fn_lookup_insert. by rewrite Hy, tally_snoc, Ht.
  - by rewrite !fn_lookup_insert_ne.
Qed.

Lemma wpd_pure {A} p (m : ST W A) (Q : A -> dview -> Prop) v : pure_call m -> (forall r, Q r v) -> wpd (at_port p m) Q v.
Proof.
  intros Hm HQ s [Hw Hs]. destruct (Hs p) as (Ho & Hh & Hl & Ht). destruct (Hm (ports s p) Ho I) as (Ho' & Eh & El & Ey).
  exists v. unfold at_port. destruct (m (ports s p)) as [r w']. simpl in *. split; [|apply HQ]. split; [done|]. intros q. simpl.
  destruct (decide (p = q)) as [<-|Hne]; [|by rewrite fn_lookup_insert_ne]. rewrite fn_lookup_insert.
  rewrite Eh, El, Ey. done.
Qed.

Lemma wpd_clock (Q : Z -> dview -> Prop) v : (forall t, Q t v) -> wpd clock Q v.
Proof. apply wpd_pure, now_law. Qed.

Context (a : argument) (client_data : Z) (rva : nat -> Z).

(** What a round leaves alone of the worker until it counts. *)
Record dkept (w w' : dual_worker) : Prop := {
  dk_off : w'.(d_off) = w.(d_off);
  dk_ops : w'.(d_ops) = w.(d_ops);
  dk_bytes : w'.(d_bytes) = w.(d_bytes);
  dk_errors : w'.(d_errors) = w.(d_errors);
  dk_fatal : w'.(d_fatal) = w.(d_fatal);
}.

(** A port with one write in flight; one that is as before the round; and one
    that is done: its round is complete, or it is not and its lane is kept
    exactly when the wait failed. *)
Definition in_flight (h l : nat -> gset Z) (T : nat -> tally) (v : dview) (q : nat) : Prop :=
  let j := v.(dvw).(d_jetty) q in let t := v.(dvw).(d_event_token) q in
  j ∉ h q /\ token_range t /\ t ∉ l q /\ v.(dvh) q = {[j]} ∪ h q /\ v.(dvl) q = {[t]} ∪ l q /\
  v.(dvt) q = mk_tally true 1 0 (T q).(r_count) (T q).(r_failed).

Definition untouched (h l : nat -> gset Z) (T : nat -> tally) (v : dview) (q : nat) : Prop :=
  v.(dvh) q = h q /\ v.(dvl) q = l q /\ (v.(dvt) q).(r_count) = (T q).(r_count) /\ (v.(dvt) q).(r_failed) = (T q).(r_failed).

Definition complete (h l : nat -> gset Z) (T : nat -> tally) (v : dview) (q : nat) : Prop :=
  v.(dvh) q = h q /\ v.(dvl) q = l q /\ (v.(dvt) q).(r_count) = S (T q).(r_count) /\ (v.(dvt) q).(r_failed) = (T q).(r_failed).

Definition lane_lost (h l : nat -> gset Z) (T : nat -> tally) (v : dview) (q : nat) : Prop :=
  v.(dvl) q = l q /\ (v.(dvt) q).(r_count) = (T q).(r_count) /\ (v.(dvt) q).(r_failed) = S (T q).(r_failed) /\
  exists j, j ∉ h q /\ v.(dvh) q = {[j]} ∪ h q.

Definition finished (h l : nat -> gset Z) (T : nat -> tally) (v : dview) (q : nat) : Prop :=
  complete h l T v q \/ lane_lost h l T v q.

(** A round: the waits are over on the ports below [k], writes are in flight on
    those below [n]; [ok] when no post was refused and no wait failed so far. *)
Record middle (w : dual_worker) (h l : nat -> gset Z) (T : nat -> tally) (ok : bool) (k n : nat) (v : dview) : Prop := {
  md_kept : dkept w v.(dvw);
  md_done : forall q, (q < k)%nat -> finished h l T v q;
  md_flight : forall q, (k <= q < n)%nat -> in_flight h l T v q;
  md_rest : forall q, (n <= q)%nat -> (k <= q)%nat -> untouched h l T v q;
  md_ok : if ok then forall q, (q < k)%nat -> complete h l T v q
          else (n < DUAL_PORTS)%nat \/ exists q, (q < k)%nat /\ lane_lost h l T v q;
}.

(** The view [v] is [v0] but for the worker [w] and the lanes [h], events [l]
    and tally [t] of port [p]. *)
Definition focus (p : nat) (w : dual_worker) (h l : gset Z) (t : tally) (v0 v : dview) : Prop :=
  v.(dvw) = w /\ v.(dvh) p = h /\ v.(dvl) p = l /\ v.(dvt) p = t /\
  forall q, q <> p -> v.(dvh) q = v0.(dvh) q /\ v.(dvl) q = v0.(dvl) q /\ v.(dvt) q = v0.(dvt) q.

Lemma focus_self p v : focus p v.(dvw) (v.(dvh) p) (v.(dvl) p) (v.(dvt) p) v v.
Proof. done. Qed.

Lemma wf_at {A} p (m : ST W A) c pre post (Q : A -> dview -> Prop) w h l t v0 v :
  records m c pre post -> focus p w h l t v0 v ->
  (forall x, held x = h -> live x = l -> pre x) ->
  (forall r x x' v', held x = h -> live x = l -> post r x x' ->
     focus p w (held x') (live x') (round_note t (c r)) v0 v' -> Q r v') ->
  wpd (at_port p m) Q v.
Proof.
  intros Hm (Ew & Eh & El & Et & Hq) Hp HQ. eapply wpd_at; [exact Hm| |].
  - intros x. rewrite Eh, El. apply Hp.
  - intros r x x'. rewrite Eh, El, Et. intros Hh Hl Ho. eapply HQ; [exact Hh|exact Hl|exact Ho|].
    unfold focus. simpl. rewrite !fn_lookup_insert. do 4 (split; [done|]). intros q Hne.
    rewrite !fn_lookup_insert_ne by done. by apply Hq.
Qed.

Lemma wf_upd f (Q : unit -> dview -> Prop) p w h l t v0 v :
  focus p w h l t v0 v -> (forall v', focus p (f w) h l t v0 v' -> Q tt v') -> wpd (dupd f) Q v.
Proof. intros (Ew & F) HQ. apply wpd_upd, HQ. split; [by simpl; rewrite Ew|done]. Qed.

Lemma wf_acquire (Q : option Z -> dview -> Prop) p w h l t v0 v :
  focus p w h l t v0 v -> (forall v', focus p w h l (round_note t (DidAcquire None)) v0 v' -> Q None v') ->
  (forall j v', j ∉ h -> focus p w ({[j]} ∪ h) l (mk_tally true 0 0 t.(r_count) t.(r_failed)) v0 v' -> Q (Some j) v') ->
  wpd (at_port p AcquireSendLane) Q v.
Proof.
  intros F H0 H1. eapply wf_at; [exact acquire_law|exact F|done|]. intros [j|] x x' v' Hh Hl [-> H] F'; simpl in H.
  - destruct H as (_ & Hn & E). rewrite E, Hh, Hl in *. eauto.
  - rewrite H, Hh, Hl in F'. eauto.
Qed.

Lemma wf_post_event (Q : Z * Z -> dview -> Prop) p w h l t v0 v :
  focus p w h l t v0 v -> t.(r_good) = true ->
  (forall y v', focus p w h l (round_note t (DidPostEvent 0 y)) v0 v' -> Q (0, y) v') ->
  (forall ue y v', ue <> 0 -> token_range y -> y ∉ l -> focus p w h ({[y]} ∪ l) t v0 v' -> Q (ue, y) v') ->
  wpd (at_port p PostEvent) Q v.
Proof.
  intros F Hg H0 H1. eapply wf_at; [exact post_event_law|exact F|done|]. intros [ue y] x x' v' Hh Hl [Eh H] F'. simpl in H, F'.
  rewrite Eh, Hh in F'. case_decide as Hu; [destruct H as [E _]|destruct H as (Hr & Ha & E)]; rewrite E, Hl in *.
  - subst ue. eauto.
  - apply (H1 ue y); [done..|]. apply Z.eqb_neq in Hu. rewrite Hu, Hg in F'. by destruct t; simpl in *; subst.
Qed.

Lemma wf_release j (Q : unit -> dview -> Prop) p w h l t v0 v :
  focus p w h l t v0 v -> j ∈ h -> (forall v', focus p w (h ∖ {[j]}) l (round_note t (DidRelease j)) v0 v' -> Q tt v') ->
  wpd (at_port p (ReleaseSendLane j)) Q v.
Proof.
  intros F Hj HQ. eapply wf_at; [exact (release_law j)|exact F|intros x Hx _; simpl; by rewrite Hx|].
  intros [] x x' v' Hh Hl [E1 E2] F'. rewrite E1, E2, Hh, Hl in F'. eauto.
Qed.

Lemma wf_abort y (Q : unit -> dview -> Prop) p w h l t v0 v :
  focus p w h l t v0 v -> token_range y -> (forall v', focus p w h (l ∖ {[y]}) (round_note t (DidAbort y)) v0 v' -> Q tt v') ->
  wpd (at_port p (AbortEvent y)) Q v.
Proof.
  intros F Ht HQ. eapply wf_at; [exact (abort_law y)|exact F|done|].
  intros [] x x' v' Hh Hl [E1 E2] F'. rewrite E1, E2, Hh, Hl in F'. eauto.
Qed.

Lemma wf_wait y ms (Q : bool -> dview -> Prop) p w h l t v0 v :
  focus p w h l t v0 v -> token_range y ->
  (forall b v', focus p w h (l ∖ {[y]}) (round_note t (DidWait y b)) v0 v' -> Q b v') ->
  wpd (at_port p (WaitEvent y ms)) Q v.
Proof.
  intros F Ht HQ. eapply wf_at; [exact (wait_law y ms)|exact F|done|].
  intros b x x' v' Hh Hl (E1 & E2 & _) F'. rewrite E1, E2, Hh, Hl in F'. eauto.
Qed.

Lemma wf_post_wr d (Q : bool -> dview -> Prop) p w h l t v0 v :
  focus p w h l t v0 v -> (forall ok v', focus p w h l (round_note t (DidPost d ok)) v0 v' -> Q ok v') ->
  wpd (at_port p (PostWr d)) Q v.
Proof.
  intros F HQ. eapply wf_at; [exact (post_wr_law d)|exact F|done|].
  intros ok x x' v' Hh Hl [E1 E2] F'. rewrite E1, E2, Hh, Hl in F'. eauto.
Qed.

(** A port other than the one worked on. *)
Lemma focus_other p w h l t v0 v h0 l0 T q :
  focus p w h l t v0 v -> q <> p -> w.(d_jetty) q = v0.(dvw).(d_jetty) q -> w.(d_event_token) q = v0.(dvw).(d_event_token) q ->
  (in_flight h0 l0 T v0 q -> in_flight h0 l0 T v q) /\ (untouched h0 l0 T v0 q -> untouched h0 l0 T v q) /\
  (complete h0 l0 T v0 q -> complete h0 l0 T v q) /\ (lane_lost h0 l0 T v0 q -> lane_lost h0 l0 T v q).
Proof.
  intros (Ew & _ & _ & _ & Hq) Hne Ej Et. destruct (Hq q Hne) as (Eh & El & Ey).
  unfold in_flight, untouched, complete, lane_lost. rewrite Ew, Ej, Et, Eh, El, Ey. done.
Qed.

(** The worker with its arrays changed at port [p]. *)
Definition same_but (p : nat) (w w' : dual_worker) : Prop :=
  dkept w w' /\ forall q, q <> p -> w'.(d_jetty) q = w.(d_jetty) q /\ w'.(d_event_token) q = w.(d_event_token) q.

Lemma same_but_refl p w : same_but p w w.
Proof. by split. Qed.

Lemma same_but_token p t w w' : same_but p w w' -> same_but p w (put_token p t w').
Proof.
  intros [[] H]. split; [by constructor|]. intros q Hne. simpl. rewrite fn_lookup_insert_ne by done. by apply H.
Qed.

Lemma same_but_lane p j w w' : same_but p w w' -> same_but p w (put_lane p j w').
Proof.
  intros [[] H]. split; [by constructor|]. intros q Hne. simpl. rewrite fn_lookup_insert_ne by done. by apply H.
Qed.

Lemma same_but_post p ns w w' : same_but p w w' -> same_but p w (add_post ns w').
Proof. intros [[] H]. split; [by constructor|done]. Qed.

Lemma dkept_trans w1 w2 w3 : dkept w1 w2 -> dkept w2 w3 -> dkept w1 w3.
Proof. intros [] []. constructor; congruence. Qed.

(** Port [p] is done with: its lane is back and its event gone. *)
Lemma middle_back w0 h l T p w t v0 v :
  middle w0 h l T true 0 p v0 -> same_but p v0.(dvw) w -> focus p w (h p) (l p) t v0 v ->
  t.(r_count) = (T p).(r_count) -> t.(r_failed) = (T p).(r_failed) -> middle w0 h l T true 0 p v.
Proof.
  intros [K D F R _] [K' S] Hf Hc Hfl. pose proof Hf as (Ew & Eh & El & Et & Hq). constructor.
  - rewrite Ew. by eapply dkept_trans.
  - lia.
  - intros q Hlt. destruct (S q ltac:(lia)) as [Ej Ey].
    apply (proj1 (focus_other _ _ _ _ _ _ _ h l T q Hf ltac:(lia) Ej Ey)). by apply F.
  - intros q Hge _. destruct (decide (q = p)) as [->|Hne]; [unfold untouched; by rewrite Et|]. destruct (S q Hne) as [Ej Ey].
    apply (proj1 (proj2 (focus_other _ _ _ _ _ _ _ h l T q Hf Hne Ej Ey))). apply R; lia.
  - lia.
Qed.

Lemma middle_posted w0 h l T p w j y t v0 v :
  middle w0 h l T true 0 p v0 -> same_but p v0.(dvw) w -> focus p w ({[j]} ∪ h p) ({[y]} ∪ l p) t v0 v ->
  t = mk_tally true 1 0 (T p).(r_count) (T p).(r_failed) ->
  w.(d_jetty) p = j -> w.(d_event_token) p = y -> j ∉ h p -> y ∉ l p -> token_range y -> middle w0 h l T true 0 (S p) v.
Proof.
  intros [K D F R _] [K' S] Hf -> Ej0 Et0 Hj Ht Hr. pose proof Hf as (Ew & Eh & El & Et & Hq). constructor.
  - rewrite Ew. by eapply dkept_trans.
  - lia.
  - intros q Hlt. destruct (decide (q = p)) as [->|Hne]; [unfold in_flight; rewrite Ew, Ej0, Et0; done|].
    destruct (S q Hne) as [Ej Ey]. apply (proj1 (focus_other _ _ _ _ _ _ _ h l T q Hf Hne Ej Ey)). apply F. lia.
  - intros q Hge _. assert (Hne : q <> p) by lia. destruct (S q Hne) as [Ej Ey].
    apply (proj1 (proj2 (focus_other _ _ _ _ _ _ _ h l T q Hf Hne Ej Ey))). apply R; lia.
  - lia.
Qed.

Lemma wpd_post_port w0 h l T off p (Q : bool -> dview -> Prop) v :
  middle w0 h l T true 0 p v -> (forall v', middle w0 h l T true 0 (S p) v' -> Q true v') ->
  (forall v', middle w0 h l T true 0 p v' -> Q false v') -> wpd (post_port a client_data rva off p) Q v.
Proof.
  intros M HT HF. destruct (md_rest _ _ _ _ _ _ _ _ M p) as (Eh & El & Ec & Ef); [lia..|]. set (t0 := dvt v p) in *.
  assert (F0 : focus p (dvw v) (h p) (l p) t0 v v) by (rewrite <- Eh, <- El; apply focus_self).
  assert (Hrel : forall w j l' t v', same_but p (dvw v) w -> j ∉ h p -> l' = l p -> t.(r_good) = false ->
    t.(r_count) = t0.(r_count) -> t.(r_failed) = t0.(r_failed) ->
    focus p w ({[j]} ∪ h p) l' t v v' -> wpd (at_port p (ReleaseSendLane j) ;; mret false) Q v').
  { intros w j l' t v' S Hj -> Hg Hc Hfl F. apply wpd_bind. eapply wf_release; [exact F|set_solver|]. intros v2 F2. apply wpd_ret, HF.
    replace (({[j]} ∪ h p) ∖ {[j]}) with (h p) in F2 by set_solver.
    eapply middle_back; [exact M|exact S|exact F2|simpl; rewrite Hg; simpl; congruence|simpl; congruence]. }
  unfold post_port. apply wpd_bind. eapply wf_acquire; [exact F0| |].
  { intros v1 F1. apply wpd_ret, HF. eapply middle_back; [exact M|apply same_but_refl|exact F1|done|done]. }
  intros j v1 Hj F1. apply wpd_bind. eapply wf_post_event; [exact F1|done| |].
  { intros y v2 F2. apply wpd_bind. eapply wf_upd; [exact F2|]. intros v3 F3. rewrite decide_True by done.
    refine (Hrel _ _ _ _ _ _ Hj eq_refl _ _ _ F3); [|done..]. apply same_but_token, same_but_refl. }
  intros ue y v2 Hue Ht Hn F2. apply wpd_bind. eapply wf_upd; [exact F2|]. intros v3 F3. rewrite decide_False by done.
  apply wpd_bind, wpd_clock. intros t1. apply wpd_bind. eapply wf_post_wr; [exact F3|]. intros ok v3' F3'.
  apply wpd_bind, wpd_clock. intros t2. apply wpd_bind. eapply wf_upd; [exact F3'|]. intros v4 F4.
  set (w4 := add_post _ _) in F4. assert (S4 : same_but p (dvw v) w4) by (apply same_but_post, same_but_token, same_but_refl).
  assert (E4 : w4.(d_event_token) p = y) by (simpl; apply fn_lookup_insert).
  apply wpd_if; intros Hok; [apply negb_true_iff in Hok as ->|apply negb_false_iff in Hok as ->].
  - apply wpd_bind, wpd_gets. destruct F4 as (Ew4 & F4). rewrite Ew4, E4. apply wpd_bind.
    eapply wf_abort; [exact (conj Ew4 F4)|exact Ht|]. intros v5 F5. refine (Hrel _ _ _ _ _ S4 Hj _ _ _ _ F5); [set_solver|done..].
  - apply wpd_bind. eapply wf_upd; [exact F4|]. intros v5 F5. apply wpd_ret, HT.
    eapply middle_posted; [exact M|apply same_but_lane, S4|exact F5| |simpl; apply fn_lookup_insert|exact E4|done..].
    simpl. by rewrite Ec, Ef.
Qed.

Lemma wpd_post_ports w0 h l T off k : forall p (Q : nat * bool -> dview -> Prop) v,
  middle w0 h l T true 0 p v ->
  (forall n v', (n < p + k)%nat -> middle w0 h l T true 0 n v' -> Q (n, false) v') ->
  (forall v', middle w0 h l T true 0 (p + k) v' -> Q ((p + k)%nat, true) v') ->
  wpd (post_ports a client_data rva off k p) Q v.
Proof.
  induction k as [|k IH]; intros p Q v M HF HT; cbn [post_ports].
  - apply wpd_ret. rewrite Nat.add_0_r in HT. by apply HT.
  - apply wpd_bind. eapply wpd_post_port; [exact M| |].
    + intros v1 M1. apply IH; [done|intros n v' Hn; apply HF; lia|]. by rewrite Nat.add_succ_comm.
    + intros v1 M1. apply wpd_ret, HF; [lia|done].
Qed.

(** ** Waits *)

Lemma middle_waited w0 h l T ok b p n w hp t v0 v :
  middle w0 h l T ok p n v0 -> (p < n)%nat -> same_but p v0.(dvw) w -> focus p w hp (l p) t v0 v ->
  (if b : bool then complete h l T v p else lane_lost h l T v p) ->
  middle w0 h l T (ok && b) (S p) n v.
Proof.
  intros [K D F R O] Hp [K' S] Hf Hfin. pose proof Hf as (Ew & Eh & El & Et & Hq).
  assert (HO : forall q, q <> p -> _) by exact (fun q Hne => focus_other _ _ _ _ _ _ _ h l T q Hf Hne (proj1 (S q Hne)) (proj2 (S q Hne))).
  constructor.
  - rewrite Ew. by eapply dkept_trans.
  - intros q Hlt. destruct (decide (q = p)) as [->|Hne]; [destruct b; [by left|by right]|].
    destruct (HO q Hne) as (_ & _ & H1 & H2). destruct (D q ltac:(lia)); [left|right]; auto.
  - intros q Hlt. apply (proj1 (HO q ltac:(lia))). apply F. lia.
  - intros q Hge Hge'. apply (proj1 (proj2 (HO q ltac:(lia)))). apply R; lia.
  - destruct ok; simpl; [destruct b|].
    + intros q Hlt. destruct (decide (q = p)) as [->|Hne]; [done|]. apply (proj1 (proj2 (proj2 (HO q Hne)))). apply O. lia.
    + right. exists p. split; [lia|done].
    + destruct O as [?|(q & Hlt & Hlost)]; [by left|]. right. exists q. split; [lia|].
      apply (proj2 (proj2 (proj2 (HO q ltac:(lia))))). done.
Qed.

Lemma wpd_wait_port w0 h l T ok p n (Q : bool -> dview -> Prop) v :
  middle w0 h l T ok p n v -> (p < n)%nat -> (forall b v', middle w0 h l T (ok && b) (S p) n v' -> Q b v') ->
  wpd (wait_port a p) Q v.
Proof.
  intros M Hp HQ. destruct (md_flight _ _ _ _ _ _ _ _ M p ltac:(lia)) as (Hj & Hy & Hn & Eh & El & Et).
  set (j := d_jetty (dvw v) p) in *. set (y := d_event_token (dvw v) p) in *.
  assert (F0 : focus p (dvw v) ({[j]} ∪ h p) ({[y]} ∪ l p) (mk_tally true 1 0 (T p).(r_count) (T p).(r_failed)) v v)
    by (rewrite <- Eh, <- El, <- Et; apply focus_self).
  unfold wait_port. apply wpd_bind, wpd_gets. fold y. apply wpd_bind. eapply wf_wait; [exact F0|exact Hy|].
  intros b v1 F1. replace (({[y]} ∪ l p) ∖ {[y]}) with (l p) in F1 by set_solver.
  assert (Hend : forall hp t v2, focus p (dvw v) hp (l p) t v v2 ->
    (forall v3, focus p (put_lane p 0 (dvw v)) hp (l p) t v v3 -> if b then complete h l T v3 p else lane_lost h l T v3 p) ->
    wpd (dupd (put_lane p 0) ;; mret b) Q v2).
  { intros hp t v2 F2 Hh. apply wpd_bind. eapply wf_upd; [exact F2|]. intros v3 F3. apply wpd_ret, HQ.
    eapply middle_waited; [exact M|exact Hp|apply same_but_lane, same_but_refl|exact F3|by apply Hh]. }
  apply wpd_bind. destruct b.
  - apply wpd_bind, wpd_gets. assert (Ej : d_jetty (dvw v1) p = j) by (destruct F1 as [-> _]; done). rewrite Ej.
    eapply wf_release; [exact F1|set_solver|]. intros v2 F2. eapply Hend; [exact F2|]. intros v3 (_ & Eh3 & El3 & Et3 & _).
    unfold complete. rewrite Eh3, El3, Et3. split; [set_solver|done].
  - apply wpd_ret. eapply Hend; [exact F1|]. intros v3 (_ & Eh3 & El3 & Et3 & _).
    unfold lane_lost. rewrite Eh3, El3, Et3. split_and!; try done. eauto.
Qed.

Lemma wpd_wait_ports w0 h l T n k : forall p ok (Q : bool -> dview -> Prop) v,
  middle w0 h l T ok p n v -> (p + k = n)%nat ->
  (forall ok' v', middle w0 h l T ok' n n v' -> (ok' = true -> ok = true) -> Q ok' v') ->
  wpd (wait_ports a k p ok) Q v.
Proof.
  induction k as [|k IH]; intros p ok Q v M Hn HQ; cbn [wait_ports].
  - apply wpd_ret, HQ; [|done]. by replace p with n in M by lia.
  - apply wpd_bind. eapply wpd_wait_port; [exact M|lia|]. intros b v1 M1. eapply IH; [exact M1|lia|].
    intros ok' v2 M2 Hok. apply HQ; [done|]. intros E. specialize (Hok E). by destruct ok.
Qed.

(** ** Rounds and the loop *)

(** The worker after [n] rounds from [w0]. *)
Record drounds (w0 : dual_worker) (n : nat) (w : dual_worker) : Prop := {
  dr_off : w.(d_off) = Nat.iter n (dual_off_next a) w0.(d_off);
  dr_ops : w.(d_ops) = u64 (w0.(d_ops) + Z.of_nat n);
  dr_bytes : w.(d_bytes) = u64 (w0.(d_bytes) + Z.of_nat n * dual_round_bytes a);
}.

Lemma drounds_next w0 n w lat : drounds w0 n w -> drounds w0 (S n) (dual_count_round a lat w).
Proof.
  intros [H1 H2 H3]. constructor; simpl.
  - by rewrite H1.
  - rewrite H2, (u64_unfold (d_ops w0 + Z.of_nat n)). set (q := _ / _). apply u64_cong with (k := - q). lia.
  - rewrite H3, (u64_unfold (d_bytes w0 + _)). set (q := _ / _). apply u64_cong with (k := - q). lia.
Qed.

Lemma drounds_kept w0 n w w' : drounds w0 n w -> dkept w w' -> drounds w0 n w'.
Proof. intros [] []. constructor; congruence. Qed.

(** Between rounds, of which [n] are complete on every port, and after the
    round that failed, which is not complete on some port. *)
Record dbetween (w0 : dual_worker) (h l : nat -> gset Z) (T : nat -> tally) (n : nat) (v : dview) : Prop := {
  db_rounds : drounds w0 n v.(dvw);
  db_errors : v.(dvw).(d_errors) = w0.(d_errors);
  db_fatal : v.(dvw).(d_fatal) = w0.(d_fatal);
  db_held : forall q, v.(dvh) q = h q;
  db_live : forall q, v.(dvl) q = l q;
  db_failed : forall q, (v.(dvt) q).(r_failed) = (T q).(r_failed);
  db_count : forall q, (q < DUAL_PORTS)%nat -> (v.(dvt) q).(r_count) = ((T q).(r_count) + n)%nat;
}.

Record dfailed (w0 : dual_worker) (h l : nat -> gset Z) (T : nat -> tally) (n : nat) (v : dview) : Prop := {
  df_rounds : drounds w0 n v.(dvw);
  df_errors : v.(dvw).(d_errors) = w0.(d_errors) +u64 1;
  df_fatal : v.(dvw).(d_fatal) = true;
  df_live : forall q, v.(dvl) q = l q;
  df_held : forall q,
    ((v.(dvt) q).(r_failed) = (T q).(r_failed) /\ v.(dvh) q = h q) \/
    ((v.(dvt) q).(r_failed) = S (T q).(r_failed) /\ exists j, j ∉ h q /\ v.(dvh) q = {[j]} ∪ h q);
  df_count : forall q, (q < DUAL_PORTS)%nat ->
    (v.(dvt) q).(r_count) = ((T q).(r_count) + n)%nat \/ (v.(dvt) q).(r_count) = S ((T q).(r_count) + n);
  df_port : exists q, (q < DUAL_PORTS)%nat /\ (v.(dvt) q).(r_count) = ((T q).(r_count) + n)%nat;
}.

(** The end of a round, from the ports. *)
Lemma round_passed w0 h l T n lat v v2 :
  dbetween w0 h l T n v -> middle (dvw v) h l v.(dvt) true DUAL_PORTS DUAL_PORTS v2 ->
  dbetween w0 h l T (S n) (mk_dview (dual_count_round a lat v2.(dvw)) v2.(dvh) v2.(dvl) v2.(dvt)).
Proof.
  intros [B1 B2 B3 B4 B5 B6 B7] [K2 _ _ R2 O2].
  assert (HU : forall q, v2.(dvh) q = h q /\ v2.(dvl) q = l q /\ (v2.(dvt) q).(r_failed) = (v.(dvt) q).(r_failed)).
  { intros q. destruct (decide (q < DUAL_PORTS)%nat) as [Hq|Hq]; [by destruct (O2 q Hq) as (? & ? & _ & ?)|].
    by destruct (R2 q) as (? & ? & _ & ?); [lia..|]. }
  constructor; simpl.
  - apply drounds_next. by eapply drounds_kept.
  - by rewrite (dk_errors _ _ K2).
  - by rewrite (dk_fatal _ _ K2).
  - intros q. apply HU.
  - intros q. apply HU.
  - intros q. rewrite <- B6. apply HU.
  - intros q Hq. destruct (O2 q Hq) as (_ & _ & -> & _). rewrite B7 by done. lia.
Qed.

Lemma round_stopped w0 h l T n k v v2 :
  dbetween w0 h l T n v -> middle (dvw v) h l v.(dvt) false k k v2 -> (k <= DUAL_PORTS)%nat ->
  dfailed w0 h l T n (mk_dview (dual_count_failure v2.(dvw)) v2.(dvh) v2.(dvl) v2.(dvt)).
Proof.
  intros [B1 B2 B3 B4 B5 B6 B7] [K2 D2 _ R2 O2] Hk.
  assert (HF : forall q, complete h l v.(dvt) v2 q \/ lane_lost h l v.(dvt) v2 q \/ untouched h l v.(dvt) v2 q).
  { intros q. destruct (decide (q < k)%nat) as [Hq|Hq]; [destruct (D2 q Hq); auto|]. do 2 right. apply R2; lia. }
  constructor; simpl; [| |done|..].
  - destruct (drounds_kept _ _ _ _ B1 K2). by constructor.
  - by rewrite (dk_errors _ _ K2), B2.
  - intros q. destruct (HF q) as [(? & ? & _)|[(? & _)|(? & ? & _)]]; done.
  - intros q. rewrite <- B6. destruct (HF q) as [(? & _ & _ & ?)|[(_ & _ & ? & ?)|(? & _ & _ & ?)]]; auto.
  - intros q Hq. rewrite <- B7 by done. destruct (HF q) as [(_ & _ & ? & _)|[(_ & ? & _)|(_ & _ & ? & _)]]; auto.
  - destruct O2 as [Hlt|(q & Hq & _ & Hc & _)].
    + exists k. split; [done|]. destruct (R2 k) as (_ & _ & -> & _); [lia..|]. by apply B7.
    + exists q. rewrite Hc. split; [lia|]. apply B7. lia.
Qed.

Lemma wpd_dual_round w0 h l T n (Q : bool -> dview -> Prop) v :
  dbetween w0 h l T n v -> (forall v', dbetween w0 h l T (S n) v' -> Q true v') ->
  (forall v', dfailed w0 h l T n v' -> Q false v') ->
  wpd (dual_round a client_data rva) Q v.
Proof.
  intros B HT HF. unfold dual_round. apply wpd_bind, wpd_clock. intros t0. apply wpd_bind, wpd_gets.
  assert (M0 : middle (dvw v) h l v.(dvt) true 0 0 v).
  { destruct B. constructor; [done|lia|lia| |lia]. intros q _ _. by split_and!. }
  assert (Hrest : forall k ok v1, middle (dvw v) h l v.(dvt) ok 0 k v1 -> (ok = true -> k = DUAL_PORTS) -> (k <= DUAL_PORTS)%nat ->
    wpd (ok ← wait_ports a k 0 ok;
      if (ok : bool) then t1 ← clock; dupd (dual_count_round a (t1 -u64 t0)) ;; mret true
      else dupd dual_count_failure ;; mret false) Q v1).
  { intros k ok v1 M1 Hok Hk. apply wpd_bind. eapply (wpd_wait_ports _ _ _ _ k k 0 ok); [exact M1|done|].
    intros ok' v2 M2 Hok'. destruct ok'.
    - rewrite (Hok (Hok' eq_refl)) in M2. apply wpd_bind, wpd_clock. intros t1. apply wpd_bind, wpd_upd, wpd_ret, HT.
      by eapply round_passed.
    - apply wpd_bind, wpd_upd, wpd_ret, HF. by eapply round_stopped. }
  apply wpd_bind. eapply wpd_post_ports; [exact M0| |].
  - intros k v1 Hk [K1 D1 F1 R1 _]. apply Hrest; [|done|lia]. constructor; [done..|]. by left.
  - intros v1 M1. by apply Hrest.
Qed.

Lemma wpd_dual_loop w0 h l T deadline fuel : forall n (Q : bool -> dview -> Prop) v,
  dbetween w0 h l T n v -> (forall v', Q false v') ->
  (forall n' v', dbetween w0 h l T n' v' \/ dfailed w0 h l T n' v' -> Q true v') ->
  wpd (dual_loop a client_data rva fuel deadline) Q v.
Proof.
  induction fuel as [|fuel IH]; intros n Q v Hb HN HQ; cbn [dual_loop]; [by apply wpd_ret|].
  apply wpd_bind, wpd_pure; [apply stopped_law|]. intros stop. apply wpd_bind.
  assert (Hgo : forall go, wpd (if negb go then mret true else
    more ← dual_round a client_data rva; if (more : bool) then dual_loop a client_data rva fuel deadline else mret true) Q v).
  { intros go. apply wpd_if; intros _; [apply wpd_ret, (HQ n); by left|]. apply wpd_bind. eapply wpd_dual_round; [exact Hb| |].
    - intros v1 H1. by apply (IH (S n)).
    - intros v1 H1. apply wpd_ret, (HQ n). by right. }
  apply wpd_if; intros _; [apply wpd_ret, Hgo|]. apply wpd_bind, wpd_clock. intros t. apply wpd_ret, Hgo.
Qed.

End rules.

(** ** Time *)

Section time.
Context {W : Type} `{HM : Manager W} {HC : ManagerClock W}.
Context (a : argument) (client_data : Z) (rva : nat -> Z).

(** No reading of the clock is given back. *)
Definition dpasses {A} (m : ST (@dst W) A) : Prop := forall d, shrinks (fun s => budget d (s.(ports) 0%nat)) m.

Lemma dpasses_ret {A} (r : A) : dpasses (mret r).
Proof. intros d. apply shrinks_ret. Qed.

Lemma dpasses_bind {A B} (m : ST (@dst W) A) (f : A -> ST (@dst W) B) :
  dpasses m -> (forall r, dpasses (f r)) -> dpasses (m ≫= f).
Proof. intros Hm Hf d. apply shrinks_bind; [apply Hm|]. intros r. apply Hf. Qed.

Lemma dpasses_upd f : dpasses (dupd f).
Proof. intros d s. apply Nat.le_refl. Qed.

Lemma dpasses_gets {A} (f : dual_worker -> A) : dpasses (dgets f).
Proof. intros d s. apply Nat.le_refl. Qed.

Lemma dpasses_at {A} p (m : ST W A) : time_passes m -> dpasses (at_port p m).
Proof.
  intros Hm d s. specialize (Hm d (ports s p)). unfold at_port. destruct (m (ports s p)) as [r w]. simpl in *.
  destruct (decide (p = 0%nat)) as [->|Hne]; [by rewrite fn_lookup_insert|by rewrite fn_lookup_insert_ne].
Qed.

Create HintDb dpasses.
#[local] Hint Resolve dpasses_ret dpasses_upd dpasses_gets dpasses_at acquire_time release_time post_event_time wait_time
  abort_time post_wr_time now_time stopped_time : dpasses.

Ltac dpasses_tac :=
  repeat (intros; first
    [ solve [eauto 3 with dpasses]
    | apply dpasses_bind; [|intros]
    | match goal with
      | |- dpasses (if ?b then _ else _) => destruct b
      | |- dpasses (match ?x with _ => _ end) => destruct x
      end ]).

Lemma dpasses_post_ports off k : forall p, dpasses (post_ports a client_data rva off k p).
Proof. induction k as [|k IH]; intros p; cbn [post_ports]; [|unfold post_port, clock]; dpasses_tac. Qed.

Lemma dpasses_wait_ports k : forall p ok, dpasses (wait_ports a k p ok).
Proof. induction k as [|k IH]; intros p ok; cbn [wait_ports]; [|unfold wait_port]; dpasses_tac. Qed.
#[local] Hint Resolve dpasses_post_ports dpasses_wait_ports : dpasses.

Lemma dpasses_round : dpasses (dual_round a client_data rva).
Proof. unfold dual_round, clock. dpasses_tac. Qed.

(** The loop ends when the readings before the deadline are used up. *)
Lemma dual_loop_ends deadline fuel : deadline < 2 ^ 64 -> forall s,
  (budget deadline (s.(ports) 0%nat) < fuel)%nat -> fst (dual_loop a client_data rva fuel deadline s) = true.
Proof.
  intros Hd. induction fuel as [|fuel IH]; intros s Hb; [lia|]. cbn [dual_loop].
  rewrite ST_bind_eq. pose proof (dpasses_at 0 stopped stopped_time deadline s) as Hst. simpl in Hst.
  destruct (at_port 0 stopped s) as [stop s1]. cbn [fst snd] in *. rewrite ST_bind_eq. destruct stop; [done|].
  rewrite ST_bind_eq. unfold clock, at_port at 1 2 3 4.
  pose proof (now_time deadline (ports s1 0%nat)) as Hnt. pose proof (now_budget deadline (ports s1 0%nat) Hd) as Hnb.
  destruct (now_ns (ports s1 0%nat)) as [n w2]. cbn [fst snd] in *. unfold mret, ST_ret. cbn [fst snd].
  destruct (Z.ltb_spec n deadline) as [Hlt|Hge]; [|done]. cbn [negb]. specialize (Hnb Hlt).
  rewrite ST_bind_eq. set (s2 := mk_dst _ _). pose proof (dpasses_round deadline s2) as Hp.
  destruct (dual_round a client_data rva s2) as [[|] s3]; cbn [fst snd] in *; [|done].
  apply IH. subst s2. simpl in Hp. rewrite fn_lookup_insert in Hp. lia.
Qed.
End time.

(** ** Theorems *)

(** *** Addresses *)

(** Where worker [i] is after [n] rounds. *)
Definition dual_off (a : argument) (i : Z) (n : nat) : Z := Nat.iter n (dual_off_next a) (dual_off0 a i).

Lemma dual_sizes a : valid a ->
  dual_round_bytes a = 4 * dual_wr_size a /\ 0 < dual_round_bytes a < 2 ^ 33 /\ dual_round_bytes a mod PAGE_SIZE = 0 /\
  dual_window a = threads a * dual_round_bytes a /\ dual_buf_len a = threads a * dual_round_bytes a.
Proof.
  intros V. destruct (v_send _ V) as (h & Eh & Hh & Hs). pose proof (v_threads _ V) as Ht.
  assert (Ew : dual_wr_size a = PAGE_SIZE * h).
  { unfold dual_wr_size. rewrite Eh. replace (2 * PAGE_SIZE * h) with (PAGE_SIZE * h * 2) by lia. by rewrite Z.div_mul. }
  unfold PAGE_SIZE in *. assert (Er : dual_round_bytes a = 4 * dual_wr_size a).
  { unfold dual_round_bytes, DUAL_PORTS. simpl. apply u64_small. lia. }
  assert (Em : threads a *u64 dual_round_bytes a = threads a * dual_round_bytes a) by (apply u64_small; nia).
  split; [done|]. split; [lia|].
  assert (Emod : forall k, (k * dual_round_bytes a) mod 4096 = 0).
  { intros k. rewrite Er, Ew. replace (k * (4 * (4096 * h))) with (k * 4 * h * 4096) by lia. apply Z.mod_mul. lia. }
  split; [by specialize (Emod 1); rewrite Z.mul_1_l in Emod|]. split; [done|]. unfold dual_buf_len. rewrite Em.
  destruct (ROUND_UP_page (threads a * dual_round_bytes a)) as [H1 H2]; [unfold PAGE_SIZE; nia|]. unfold PAGE_SIZE in *.
  specialize (Emod (threads a)). set (x := threads a * dual_round_bytes a) in *. set (y := ROUND_UP x 4096) in *.
  pose proof (Z.div_mod x 4096 ltac:(lia)). pose proof (Z.div_mod y 4096 ltac:(lia)). lia.
Qed.

Lemma dual_off_step a i n : valid a -> 0 <= i < a.(threads) ->
  dual_off a i n = (i + Z.of_nat n) mod a.(threads) * dual_round_bytes a.
Proof.
  intros V Hi. destruct (dual_sizes a V) as (_ & Hr & _ & Ew & _). pose proof (v_threads _ V) as Ht.
  set (r := dual_round_bytes a) in *. set (t := threads a) in *.
  induction n as [|n IH].
  - unfold dual_off, dual_off0. simpl. fold r. rewrite Z.add_0_r, Z.mod_small by lia. apply u64_small. nia.
  - unfold dual_off in *. cbn [Nat.iter nat_rect]. unfold Nat.iter in IH. rewrite IH. unfold dual_off_next. rewrite Ew. fold r t.
    set (k := (i + Z.of_nat n) mod t) in *. assert (Hk : 0 <= k < t) by (apply Z.mod_pos_bound; lia).
    rewrite u64_small by nia. replace (k * r + r) with ((k + 1) * r) by lia.
    rewrite Zmult_mod_distr_r. f_equal. subst k. rewrite Zplus_mod_idemp_l. f_equal. lia.
Qed.

(** the work requests of a round of dual mode.  For accepted parameters, in
    every round of every worker, the four requests are [send_size / 2] bytes
    each, lie inside the client's and the server's buffer (the two sides being
    started with the same [--threads] and [--send-size]), and cover the bytes
    of the round on both sides, each byte by exactly one port. *)
Theorem dual_round_tiles a i n data rva :
  valid a -> 0 <= i < a.(threads) -> user_va data -> user_va rva ->
  let off := dual_off a i n in
  (forall p, (p < DUAL_PORTS)%nat ->
    inside (dual_local a data off p) (dual_wr_size a) data (dual_buf_len a) /\
    inside (dual_remote a rva off p) (dual_wr_size a) rva (dual_buf_len a)) /\
  (forall x, data + off <= x < data + off + dual_round_bytes a ->
    exists p, (p < DUAL_PORTS)%nat /\ Requests.covers (dual_local a data off p) (dual_wr_size a) x /\
      forall q, (q < DUAL_PORTS)%nat -> Requests.covers (dual_local a data off q) (dual_wr_size a) x -> q = p) /\
  (forall p, dual_remote a rva off p - rva = dual_local a data off p - data \/ (DUAL_PORTS <= p)%nat).
Proof.
  intros V Hi Hd Hr off. destruct (dual_sizes a V) as (Er & Hrb & _ & _ & Eb). pose proof (v_threads _ V) as Ht.
  assert (Eo : off = (i + Z.of_nat n) mod a.(threads) * dual_round_bytes a) by (by apply dual_off_step).
  set (k := (i + Z.of_nat n) mod threads a) in *. assert (Hk : 0 <= k < threads a) by (apply Z.mod_pos_bound; lia).
  set (w := dual_wr_size a) in *. rewrite Er in *. set (t := threads a) in *. unfold user_va in *.
  assert (Hoff : 0 <= off /\ off + 4 * w <= t * (4 * w)) by (rewrite Eo; nia).
  assert (Hsum : forall base p, 0 <= base < 2 ^ 63 -> (p < 4)%nat ->
    base +u64 off +u64 (Z.of_nat p *u64 w) = base + off + Z.of_nat p * w).
  { intros base p Hb Hp. assert (0 <= Z.of_nat p * w <= 3 * w) by nia. assert (t * (4 * w) < 2 ^ 43) by nia.
    rewrite (u64_small (Z.of_nat p * w)), (u64_small (base + off)) by lia. apply u64_small. lia. }
  assert (EL : forall p, (p < 4)%nat -> dual_local a data off p = data + off + Z.of_nat p * w) by (intros; by apply Hsum).
  assert (ER : forall p, (p < 4)%nat -> dual_remote a rva off p = rva + off + Z.of_nat p * w) by (intros; by apply Hsum).
  unfold DUAL_PORTS. split; [|split].
  - intros p Hp. rewrite EL, ER, Eb by done. unfold inside. nia.
  - intros x Hx. set (q := (x - data - off) / w). assert (Hw : 0 < w) by lia.
    assert (Hq : 0 <= q < 4) by (split; [apply Z.div_pos; lia|apply Z.div_lt_upper_bound; lia]).
    pose proof (Z.div_mod (x - data - off) w ltac:(lia)) as Hdm. pose proof (Z.mod_pos_bound (x - data - off) w Hw). fold q in Hdm.
    exists (Z.to_nat q). split; [lia|]. unfold Requests.covers. split; [rewrite EL, Z2Nat.id by lia; nia|].
    intros p Hp. rewrite EL by done. intros Hc. enough (Z.of_nat p = q) by lia. nia.
  - intros p. destruct (decide (4 <= p)%nat); [by right|left]. rewrite EL, ER by lia. lia.
Qed.

Definition demo_dual : argument := set_threads 3 demo_write.

Lemma demo_dual_valid : valid demo_dual.
Proof. apply validate_valid; [|vm_compute; reflexivity]. constructor; vm_compute; intuition discriminate. Qed.

Lemma dual_round_tiles_witness :
  dual_off demo_dual 2 2 = 16777216 /\
  inside (dual_remote demo_dual 4096 (dual_off demo_dual 2 2) 3) 4194304 4096 50331648.
Proof.
  split; [by vm_compute|].
  refine (proj2 (proj1 (dual_round_tiles demo_dual 2 2 8192 4096 demo_dual_valid _ _ _) 3%nat _));
    [by vm_compute|by vm_compute|by vm_compute|unfold DUAL_PORTS; lia].
Defined.

(** C28: the server sizes its buffer by its own [--threads], which the handshake
    does not compare.  When it was started with fewer threads than the client,
    the first round of a worker beyond them writes wholly behind the server's
    buffer. *)
Theorem dual_server_overrun a b i p rva :
  valid a -> valid b -> a.(send_size) = b.(send_size) -> b.(threads) <= i < a.(threads) -> user_va rva ->
  (p < DUAL_PORTS)%nat ->
  rva + dual_buf_len b <= dual_remote a rva (dual_off0 a i) p.
Proof.
  intros Va Vb Es Hi Hr Hp. destruct (dual_sizes a Va) as (Er & Hrb & _). destruct (dual_sizes b Vb) as (Erb & _ & _ & _ & Eb).
  pose proof (v_threads _ Va) as Hta. pose proof (v_threads _ Vb) as Htb. rewrite Eb, Erb.
  assert (Ew : dual_wr_size b = dual_wr_size a) by (unfold dual_wr_size; by rewrite Es). rewrite Ew.
  unfold dual_remote, dual_off0. rewrite Er in *. set (w := dual_wr_size a) in *. unfold user_va, DUAL_PORTS in *.
  assert (Hiw : 0 <= i * (4 * w) < 2 ^ 43) by nia. assert (Hpw : 0 <= Z.of_nat p * w <= 3 * w) by nia.
  rewrite (u64_small (i * (4 * w))), (u64_small (Z.of_nat p * w)), (u64_small (rva + i * (4 * w))), u64_small by lia. nia.
Qed.

Lemma dual_server_overrun_witness : 4096 + dual_buf_len demo_write <= dual_remote demo_dual 4096 (dual_off0 demo_dual 1) 0.
Proof.
  apply (dual_server_overrun demo_dual demo_write 1 0 4096 demo_dual_valid demo_write_valid);
    [by vm_compute|by vm_compute|by vm_compute|unfold DUAL_PORTS; lia].
Defined.

(** *** Rounds *)

Section theorems.
Context {W : Type} `{HM : Manager W} {HL : ManagerLaws W}.
Context (a : argument) (client_data : Z) (rva : nat -> Z).

(** The rounds that are complete on all ports, as the records of their calls
    tell. *)
Definition dual_rounds (s : @dst W) : nat :=
  let n p := complete_rounds (history (s.(ports) p)) in Nat.min (Nat.min (n 0%nat) (n 1%nat)) (Nat.min (n 2%nat) (n 3%nat)).

(** The state at the end of a worker that did [n] rounds. *)
Record dual_accounts (s s' : @dst W) (n : nat) : Prop := {
  da_off : s'.(dw).(d_off) = Nat.iter n (dual_off_next a) s.(dw).(d_off);
  da_ops : s'.(dw).(d_ops) = u64 (s.(dw).(d_ops) + Z.of_nat n);
  da_bytes : s'.(dw).(d_bytes) = u64 (s.(dw).(d_bytes) + Z.of_nat n * dual_round_bytes a);
  da_live : forall p, live (s'.(ports) p) = live (s.(ports) p);
  da_good : s'.(dw).(d_fatal) = false ->
    s'.(dw).(d_errors) = s.(dw).(d_errors) /\
    (forall p, (p < DUAL_PORTS)%nat -> complete_rounds (history (s'.(ports) p)) = n) /\
    forall p, held (s'.(ports) p) = held (s.(ports) p) /\ failed_waits (history (s'.(ports) p)) = 0%nat;
  da_bad : s'.(dw).(d_fatal) = true ->
    s'.(dw).(d_errors) = s.(dw).(d_errors) +u64 1 /\
    (forall p, (p < DUAL_PORTS)%nat -> (complete_rounds (history (s'.(ports) p)) <= n + 1)%nat) /\
    forall p, if decide (failed_waits (history (s'.(ports) p)) = 0%nat) then held (s'.(ports) p) = held (s.(ports) p)
      else exists j, j ∉ held (s.(ports) p) /\ held (s'.(ports) p) = {[j]} ∪ held (s.(ports) p);
}.

Lemma dual_rounds_eq s n :
  (forall p, (p < DUAL_PORTS)%nat -> (n <= complete_rounds (history (s.(ports) p)))%nat) ->
  (exists p, (p < DUAL_PORTS)%nat /\ complete_rounds (history (s.(ports) p)) = n) -> dual_rounds s = n.
Proof.
  unfold DUAL_PORTS. intros Hle (p & Hp & E). pose proof (Hle 0%nat ltac:(lia)). pose proof (Hle 1%nat ltac:(lia)).
  pose proof (Hle 2%nat ltac:(lia)). pose proof (Hle 3%nat ltac:(lia)). unfold dual_rounds.
  destruct p as [|[|[|[|p]]]]; lia.
Qed.

(** C31: a dual-mode worker counts exactly the rounds it completed.  When its
    loop has ended, no event of any round is live on any of the four ports, and
    [ops], [bytes] and the offset are those of [n] rounds, where [n] is the
    number of rounds that are complete on all four ports in the records of
    their calls: a lane was acquired, a write posted on it, the write
    completed, and the lane was given back.  Without a failure every port has
    exactly [n] complete rounds, every lane is back and [errors] is unchanged;
    the first failure, on whatever port and at whatever call, ends the loop and
    is counted once, some ports may have completed their part of that round,
    and a port keeps the lane of that round exactly when its wait failed. *)
Theorem dual_worker_accounts fuel registered s s' :
  (forall p, world_ok (s.(ports) p)) -> s.(dw).(d_fatal) = false -> is_u64 s.(dw).(d_ops) -> is_u64 s.(dw).(d_bytes) ->
  (forall p, history (s.(ports) p) = []) ->
  dual_worker_main a client_data rva fuel registered s = (true, s') ->
  dual_accounts s s' (dual_rounds s').
Proof.
  intros Hw Hf Ho Hb Hy E.
  set (v := mk_dview s.(dw) (fun p => held (s.(ports) p)) (fun p => live (s.(ports) p)) (fun _ => mk_tally false 0 0 0 0)).
  assert (Hs : shows v s) by (split; [done|intros p; by rewrite Hy]).
  assert (B0 : dbetween a v.(dvw) v.(dvh) v.(dvl) v.(dvt) 0 v).
  { constructor; [|done..]. constructor; simpl; [done|by rewrite Z.add_0_r, u64_small|by rewrite Z.add_0_r, u64_small]. }
  assert (H : wpd (dual_worker_main a client_data rva fuel registered) (fun r v' => r = true -> exists n,
    dbetween a v.(dvw) v.(dvh) v.(dvl) v.(dvt) n v' \/ dfailed a v.(dvw) v.(dvh) v.(dvl) v.(dvt) n v') v).
  { unfold dual_worker_main. apply wpd_bind, wpd_clock. intros n. apply wpd_if; intros _.
    - eapply wpd_dual_loop; [exact B0|done|eauto].
    - apply wpd_ret. eauto. }
  destruct (H s Hs) as (v' & Hs' & HQ). rewrite E in Hs', HQ. destruct (HQ eq_refl) as (n & HR).
  destruct Hs' as [Ew Hp]. simpl in Ew, Hp.
  assert (Et : forall p, tally_of (history (s'.(ports) p)) = v'.(dvt) p) by (intros p; apply Hp).
  assert (En : dual_rounds s' = n).
  { apply dual_rounds_eq; unfold complete_rounds.
    - intros p Hlt. rewrite Et. destruct HR as [HR|HR]; [rewrite (db_count _ _ _ _ _ _ _ HR) by done; simpl; lia|].
      destruct (df_count _ _ _ _ _ _ _ HR p Hlt) as [-> | ->]; simpl; lia.
    - destruct HR as [HR|HR].
      + exists 0%nat. rewrite Et. split; [unfold DUAL_PORTS; lia|]. apply (db_count _ _ _ _ _ _ _ HR). unfold DUAL_PORTS. lia.
      + destruct (df_port _ _ _ _ _ _ _ HR) as (p & Hlt & Hc). exists p. by rewrite Et. }
  rewrite En. destruct HR as [[[A1 A2 A3] He Hfa Hh Hl Hfl Hc]|[[A1 A2 A3] He Hfa Hl Hh Hc _]]; rewrite <- Ew in *; simpl in *;
    constructor; auto; try congruence.
  - intros p. destruct (Hp p) as (_ & _ & -> & _). apply Hl.
  - intros _. split; [done|]. unfold complete_rounds, failed_waits. split.
    + intros p Hlt. rewrite Et. by apply Hc.
    + intros p. rewrite Et. destruct (Hp p) as (_ & -> & _). by rewrite Hh.
  - intros p. destruct (Hp p) as (_ & _ & -> & _). apply Hl.
  - intros _. split; [done|]. unfold complete_rounds, failed_waits. split.
    + intros p Hlt. rewrite Et. destruct (Hc p Hlt) as [-> | ->]; lia.
    + intros p. rewrite Et. destruct (Hp p) as (_ & -> & _). destruct (Hh p) as [[-> ?]|[-> ?]]; [by rewrite decide_True|by rewrite decide_False].
Qed.

(** a dual-mode worker stops.  The deadline is [--duration] seconds after
    the first reading of the clock; when at most [budget] further readings are
    before it, so many passes and one more are enough. *)
Theorem dual_worker_stops {HC : ManagerClock W} fuel registered s n w1 :
  now_ns (s.(ports) 0%nat) = (n, w1) ->
  (budget (n +u64 (a.(duration_sec) *u64 1000000000)) w1 < fuel)%nat ->
  fst (dual_worker_main a client_data rva fuel registered s) = true.
Proof.
  intros E Hb. unfold dual_worker_main. rewrite ST_bind_eq. unfold clock, at_port. rewrite E. cbn [fst snd]. cbv zeta.
  destruct (forallb _ _); [|done]. apply dual_loop_ends; [apply u64_range|]. cbn [ports]. by rewrite fn_lookup_insert.
Qed.

End theorems.

(** ** Witnesses *)

Definition demo_dst (answers : list bool) (n : nat) : @dst world :=
  mk_dst (mk_dual (fun _ => 0) (fun _ => 0) demo_hist demo_hist 3 0 0 0 false)
    (fun p => demo_world demo_lanes (if (p =? 2)%nat then answers else []) (replicate n (all_done 10))).

#[local] Abbreviation demo_dual_run answers :=
  (dual_worker_main demo_dual 4096 (fun _ => 8192) 41 (fun _ => true) (demo_dst answers 40)).

Lemma demo_dual_ends : fst (demo_dual_run []) = true.
Proof. by vm_compute. Qed.

Lemma dual_worker_accounts_witness :
  dual_rounds (snd (demo_dual_run [])) = 3%nat /\
  dual_accounts demo_dual (demo_dst [] 40) (snd (demo_dual_run [])) (dual_rounds (snd (demo_dual_run []))).
Proof.
  split; [by vm_compute|].
  exact (dual_worker_accounts demo_dual 4096 (fun _ => 8192) 41 (fun _ => true) (demo_dst [] 40) _
    (fun p => demo_world_ok _ 40) eq_refl ltac:(unfold is_u64; simpl; lia) ltac:(unfold is_u64; simpl; lia)
    (fun _ => eq_refl) (run_pair _ _ demo_dual_ends)).
Defined.

Definition demo_port0 : world := (demo_dst [true; false] 40).(ports) 0%nat.

Lemma demo_dual_reading : now_ns (W := world) ((demo_dst [true; false] 40).(ports) 0%nat) = (10, snd (now_ns demo_port0)).
Proof. apply run_pair. by vm_compute. Qed.

Lemma demo_dual_budget :
  (budget (10 +u64 (duration_sec demo_dual *u64 1000000000)) (snd (now_ns demo_port0)) < 41)%nat.
Proof. apply Nat.ltb_lt. by vm_compute. Qed.

Lemma dual_worker_stops_witness : fst (demo_dual_run [true; false]) = true.
Proof.
  exact (dual_worker_stops (W := world) demo_dual 4096 (fun _ => 8192) 41 (fun _ => true) (demo_dst [true; false] 40) 10 _
    demo_dual_reading demo_dual_budget).
Defined.
