(* ===== verification/Session.v ===== *)
(** * Session: set-up and end of a client or server process in
      [src/kv_bench.cpp]

    The registered buffer with its NUMA binding, the parameters of the
    handshake, the size of the lane pool, the creation of the workers, the flow
    of [run_client] with its clean-up on every exit, the address query of dual
    mode and the connection table of the server.  Sockets and threads are seen
    through their results; what the worker threads do to the manager while they
    run is an argument of [run_client] (their code is in Pipeline and Mixed). *)

From S2P Require Import Prelude Hist Args Affinity Requests Pipeline SendLane UrmaEvents Liburma UrmaResource Wire UrmaManager Dual.
From Stdlib Require Import String.
From stdpp Require Import list strings.
#[local] Open Scope Z_scope.
#[local] Open Scope list_scope.

(** ** NUMA binding of the buffer *)

Definition kChunkBytes : Z := Z.shiftl 1 30.

(** What [mbind_to_node] does to the memory: system calls and page touches. *)
Inductive mem_action := Mbind (addr len : Z) | Touch (addr : Z).

Fixpoint touch_pages (fuel : nat) (addr chunk pageSize pg : Z) : list mem_action :=
  match fuel with
  | O => []
  | S fuel => if pg <? chunk then Touch (addr + pg) :: touch_pages fuel addr chunk pageSize (pg + pageSize) else []
  end.

(** The loop from [off] on; [rcs] are the results of the calls to come, which
    succeed after them.  The result is that of [mbind_to_node]. *)
Fixpoint mbind_loop (fuel : nat) (p alignedLen pageSize off : Z) (rcs : list Z) : option (Z * list mem_action) :=
  match fuel with
  | O => None
  | S fuel =>
      if off <? alignedLen then
        let rest := alignedLen - off in
        let chunk := if kChunkBytes <? rest then kChunkBytes else rest in
        if negb (default 0 (head rcs) =? 0) then Some (-1, [Mbind (p + off) chunk])
        else
          '(rc, acts) ← mbind_loop fuel p alignedLen pageSize (off + chunk) (tail rcs);
          Some (rc, Mbind (p + off) chunk :: touch_pages (Z.to_nat chunk) (p + off) chunk pageSize 0 ++ acts)
      else Some (0, [])
  end.

(** Enough for every buffer: one pass per chunk and one to see the end. *)
Definition mbind_fuel (alignedLen : Z) : nat := S (S (Z.to_nat (alignedLen / kChunkBytes))).

Definition mbind_to_node (addr len node pageSizeRaw : Z) (rcs : list Z) : option (Z * list mem_action) :=
  if node <? 0 then Some (-1, [])
  else if pageSizeRaw <=? 0 then Some (-1, [])
  else
    let pageSize := pageSizeRaw in
    let end_ := addr +u64 len in
    let alignedBegin := addr / pageSize *u64 pageSize in
    let alignedEnd := (end_ +u64 pageSize -u64 1) / pageSize *u64 pageSize in
    let alignedLen := alignedEnd -u64 alignedBegin in
    mbind_loop (mbind_fuel alignedLen) alignedBegin alignedLen pageSize 0 rcs.

(** The node [setup_buffer] binds to, negative for none. *)
Definition buffer_node (a : argument) (m : machine) : Z :=
  if a.(Args.mbind) && (a.(affinity_mode) =? AFF_AFFINITY) then
    if (1 <=? a.(single_chip)) && (a.(single_chip) <=? 2) then chip_to_first_numa m a.(single_chip)
    else match my_cpu_list a m false MAX_CPUS with cpu :: _ => read_cpu_numa m cpu | [] => -1 end
  else -1.

(** The binding at the end of [setup_buffer]; a failure is only reported. *)
Definition bind_buffer (a : argument) (m : machine) (va buf_len pageSizeRaw : Z) (rcs : list Z) : option (Z * list mem_action) :=
  let node := buffer_node a m in
  if 0 <=? node then mbind_to_node va buf_len node pageSizeRaw rcs else Some (0, []).

(** ** Parameters *)

(** [params] of [client_connect_and_exchange] and [server_conn_main]. *)
Definition handshake_params (a : argument) (m : machine) : HandshakeParams :=
  let dst_chip := first_dst_chip a m in
  mk_params a.(Args.threads) (u32 a.(op)) (u32 a.(value_size)) (u32 a.(send_size))
    (if 0 <? dst_chip then u32 dst_chip else INVALID_CHIP) a.(trans_mode).

(** [params] of both sides of dual mode; [dstChip] keeps its default. *)
Definition dual_params (a : argument) : HandshakeParams :=
  mk_params a.(Args.threads) (u32 a.(op)) (u32 (a.(send_size) / 2)) (u32 a.(send_size)) kInvalidChip a.(trans_mode).

(** The lanes [run_client] asks for. *)
Definition min_lanes (a : argument) : Z :=
  if (a.(op) =? OP_WRITE) || (a.(op) =? OP_GET) then
    let reqs := if 1 <=? a.(concurrency) then u32 a.(concurrency) else 1 in
    let pipe := u32 (reqs * KV_SENDS_PER_REQ) in
    if a.(Args.threads) <? pipe then pipe else a.(Args.threads)
  else a.(Args.threads).

Definition dev_string (d : option cstr) : string := string_of_list_ascii (default [] d).

(** ** Workers *)

(** [create_workers], worker [i] and [n] more: the return code, the workers
    made and the events.  [oks] is whether the histograms of the next workers
    can be allocated. *)
Fixpoint create_workers (a : argument) (spawned : bool) (oks : list bool) (n : nat) (i : Z) (e : events)
    : Z * list worker * events :=
  match n with
  | O => (0, [], e)
  | S n =>
      let '(id, e) := RegisterWorker spawned e in
      match id with
      | None => (-1, [], e)
      | Some id =>
          match create_worker a id i (default true (head oks)) with
          | None => (-1, [], e)
          | Some w =>
              let '(rc, ws, e) := create_workers a spawned (tail oks) n (i + 1) e in
              (rc, w :: ws, e)
          end
      end
  end.

(** ** The client process *)

Section client.
Context `{Liburma}.
Context (bondp_ctl : bool) (a : argument) (mch : machine).

(** [memalign] returns [va]; the result is the return code and the buffer
    (address, length, length of the data area). *)
Definition setup_buffer (is_server : bool) (va : option Z) (m : manager) : ST sys (Z * option (Z * Z * Z) * manager) :=
  let '(data_len, buf_len) := if is_server then layout_server_buffer a else layout_client_buffer a in
  match va with
  | None => mret (-1, None, m)
  | Some va =>
      '(ok, m) ← RegisterBuffer va buf_len m;
      mret (if (ok : bool) then 0 else -1, Some (va, buf_len, data_len), m)
  end.

(** [connected]: the TCP connection, when [connect] succeeds. *)
Definition client_connect_and_exchange (connected : option sock) (m : manager) : ST sys (option UrmaConnection) :=
  match connected with
  | None => mret None
  | Some k => '(c, k) ← ExchangeAsClient (handshake_params a mch) a.(import_rtp) m k; mret c
  end.

(** The connection first, then the manager, then the workers: [lanes] are the
    lanes that their slots still refer to. *)
Definition destroy_context (conn : option UrmaConnection) (m : manager) (lanes : list Z) : ST sys unit :=
  (match conn with Some c => destroy_conn c | None => mret tt end) ;;
  m ← Stop m;
  destroy_manager m ;;
  drop_jettys lanes.

(** [work]: the worker threads and the sampler, from their start to the last
    join; whether the run was fatal, and the lanes left in the slots. *)
Definition run_client (spawned : bool) (va : option Z) (connected : option sock) (oks : list bool)
    (work : UrmaConnection -> list worker -> manager -> ST sys (bool * list Z * manager)) : ST sys Z :=
  '(ok, m) ← ManagerInit bondp_ctl (dev_string a.(dev_name)) a.(cacheable) a.(jetty_count) (min_lanes a) a.(event_mode)
               a.(trans_mode) (-1) spawned new_manager;
  if negb ok then destroy_context None m [] ;; mret (-1)
  else
    '(rc, _, m) ← setup_buffer false va m;
    if negb (rc =? 0) then destroy_context None m [] ;; mret (-1)
    else
      conn ← client_connect_and_exchange connected m;
      match conn with
      | None => destroy_context None m [] ;; mret (-1)
      | Some c =>
          let '(rc, ws, e) := create_workers a spawned oks (Z.to_nat a.(Args.threads)) 0 m.(mgr_events) in
          let m := UrmaManager.set_events e m in
          if negb (rc =? 0) then destroy_context (Some c) m [] ;; mret (-1)
          else
            '(fatal, lanes, m) ← work c ws m;
            destroy_context (Some c) m lanes ;;
            mret (if (fatal : bool) then -1 else 0)
      end.

(** ** Dual mode *)

(** The first two addresses of a device. *)
Definition query_dev_eids (dev_name : string) : ST sys (option (Z * Z)) :=
  dev ← call (urma_get_device_by_name dev_name);
  if dev =? nullptr then mret None
  else
    list ← call (urma_get_eid_list dev);
    cnt ← peek (fun tr => if list =? nullptr then 0 else eid_list_len tr list);
    if (list =? nullptr) || (cnt <? 2) then
      (if list =? nullptr then mret tt else call (urma_free_eid_list list) ;; mret tt) ;;
      mret None
    else
      e0 ← peek (fun tr => eid_list_index tr list 0);
      e1 ← peek (fun tr => eid_list_index tr list 1);
      call (urma_free_eid_list list) ;;
      mret (Some (i32 e0, i32 e1)).

(** The eids of the ports, in their order. *)
Definition dual_query_eids (dev1 dev2 : string) : ST sys (option (list Z)) :=
  r1 ← query_dev_eids dev1;
  match r1 with
  | None => mret None
  | Some (e0, e1) =>
      r2 ← query_dev_eids dev2;
      mret (match r2 with Some (e2, e3) => Some [e0; e1; e2; e3] | None => None end)
  end.

End client.

(** ** The connections of the server *)

Definition MAX_CLIENT_CNT : nat := 10.

(** The members of [conn_t] the table is about. *)
Record conn_slot := mk_conn_slot { used : bool; fd : Z }.

Definition free_conn : conn_slot := mk_conn_slot false 0.

(** The first free entry, from [i] on. *)
Fixpoint find_conn (conns : list conn_slot) (i : nat) : option nat :=
  match conns with
  | [] => None
  | c :: conns => if used c then find_conn conns (S i) else Some i
  end.

(** One accepted socket in [server_sock_thread_main]: the table, the entry of
    the thread that was started, and whether the socket was closed.  [spawned]
    is whether the thread could be created. *)
Definition accept_conn (sockfd : Z) (spawned : bool) (conns : list conn_slot) : list conn_slot * option nat * bool :=
  match find_conn conns 0 with
  | None => (conns, None, true)
  | Some i =>
      let conns := <[i := mk_conn_slot true sockfd]> conns in
      if spawned then (conns, Some i, false) else (<[i := mk_conn_slot false sockfd]> conns, None, true)
  end.

(** The end of [server_conn_main] of entry [i]: the socket it closes. *)
Definition finish_conn (i : nat) (conns : list conn_slot) : Z * list conn_slot :=
  let c := default free_conn (conns !! i) in
  (c.(fd), <[i := mk_conn_slot false c.(fd)]> conns).
