(* ===== verification/SessionProps.v ===== *)
(** * SessionProps: what holds of a process from its start to its end

    The NUMA binding covers the buffer; the workers that are created are in the
    state the pipelines start from; a process that fails early, or ends, leaves
    no handle of the library behind; the server's connection table is safe. *)

From S2P Require Import Prelude Hist Args EventSlotPool SendLane UrmaEvents Affinity Requests Pipeline PipelineInv PipelineThms.
From S2P Require Import PipelineProps Liburma UrmaResource UrmaResourceInv UrmaResourceProps Wire UrmaManager UrmaManagerProps.
From S2P Require Import Session.
From Stdlib Require Import String.
From stdpp Require Import list strings gmap.
#[local] Open Scope Z_scope.
#[local] Open Scope list_scope.

(** ** The server's connections *)

(** The table, the threads that run with the sockets they serve, and the
    sockets of accepted connections that are open. *)
Record server := mk_server { sv_conns : list conn_slot; sv_running : gmap nat Z; sv_open : gset Z }.

Definition server0 : server := mk_server (replicate MAX_CLIENT_CNT free_conn) ∅ ∅.

(** The accepting thread and the connection threads, in any order; a new socket
    is not one that is open. *)
Inductive server_step : server -> server -> Prop :=
| sv_accept sockfd spawned s conns r closed :
    sockfd ∉ s.(sv_open) -> accept_conn sockfd spawned s.(sv_conns) = (conns, r, closed) ->
    server_step s (mk_server conns
      (match r with Some i => <[i := sockfd]> s.(sv_running) | None => s.(sv_running) end)
      (if closed then s.(sv_open) else {[sockfd]} ∪ s.(sv_open)))
| sv_finish i s f conns :
    is_Some (s.(sv_running) !! i) -> finish_conn i s.(sv_conns) = (f, conns) ->
    server_step s (mk_server conns (delete i s.(sv_running)) (s.(sv_open) ∖ {[f]})).

(** Every thread has an entry of its own that still has its socket, the other
    entries are free, and the open sockets are those of the threads. *)
Record server_ok (s : server) : Prop := {
  so_len : length s.(sv_conns) = MAX_CLIENT_CNT;
  so_run : forall i c, s.(sv_conns) !! i = Some c ->
    s.(sv_running) !! i = if used c then Some (fd c) else None;
  so_dom : forall i f, s.(sv_running) !! i = Some f -> (i < MAX_CLIENT_CNT)%nat;
  so_open : forall f, f ∈ s.(sv_open) <-> exists i, s.(sv_running) !! i = Some f;
  so_inj : forall i j f, s.(sv_running) !! i = Some f -> s.(sv_running) !! j = Some f -> i = j;
}.

Lemma find_conn_spec conns : forall k,
  match find_conn conns k with
  | Some i => (k <= i)%nat /\ (exists c, conns !! (i - k)%nat = Some c /\ used c = false)
  | None => forall i c, conns !! i = Some c -> used c = true
  end.
Proof.
  induction conns as [|c conns IH]; intros k; simpl; [done|]. destruct (used c) eqn:E.
  - specialize (IH (S k)). destruct (find_conn conns (S k)) as [i|].
    + destruct IH as (Hle & c' & Hc & Hu). split; [lia|]. exists c'. split; [|done].
      by replace (i - k)%nat with (S (i - S k)) by lia.
    + intros [|i] c' Hc; [by injection Hc as <-|by apply (IH i)].
  - split; [done|]. exists c. by rewrite Nat.sub_diag.
Qed.

Lemma insert_conn_ok s i c0 c run open : server_ok s -> s.(sv_conns) !! i = Some c0 ->
  run !! i = (if used c then Some (fd c) else None) -> (forall j, j <> i -> run !! j = s.(sv_running) !! j) ->
  (forall f, f ∈ open <-> exists j, run !! j = Some f) ->
  (used c = true -> forall j, j <> i -> s.(sv_running) !! j <> Some (fd c)) ->
  server_ok (mk_server (<[i := c]> s.(sv_conns)) run open).
Proof.
  intros [L R D O I] Hi Hr Ho Hopen Hnew. pose proof (lookup_lt_Some _ _ _ Hi) as Hlt. constructor; simpl.
  - by rewrite length_insert.
  - intros j c' Hj. destruct (decide (j = i)) as [->|Hne].
    + rewrite list_lookup_insert_eq in Hj by done. by injection Hj as <-.
    + rewrite list_lookup_insert_ne in Hj by done. rewrite Ho by done. by apply R.
  - intros j f Hj. destruct (decide (j = i)) as [->|Hne]; [lia|]. rewrite Ho in Hj by done. eauto.
  - done.
  - intros j k f Hj Hk. destruct (decide (j = i)) as [->|Hj'], (decide (k = i)) as [->|Hk']; [done| | |].
    + rewrite Hr in Hj. destruct (used c); [|done]. injection Hj as <-. rewrite Ho in Hk by done. by destruct (Hnew eq_refl k Hk').
    + rewrite Hr in Hk. destruct (used c); [|done]. injection Hk as <-. rewrite Ho in Hj by done. by destruct (Hnew eq_refl j Hj').
    + rewrite Ho in Hj, Hk by done. eauto.
Qed.

Lemma server_step_ok s s' : server_ok s -> server_step s s' -> server_ok s'.
Proof.
  intros Ok Hstep. pose proof Ok as [L R D O I]. destruct Hstep as [sockfd spawned s conns r closed Hnew E|i s f conns Hrun E].
  - unfold accept_conn in E. pose proof (find_conn_spec (sv_conns s) 0) as Hf. destruct (find_conn (sv_conns s) 0) as [i|].
    + destruct Hf as (_ & c & Hc & Hu). rewrite Nat.sub_0_r in Hc. pose proof (R _ _ Hc) as Hri. rewrite Hu in Hri.
      destruct spawned; injection E as <- <- <-.
      * apply (insert_conn_ok s i c); [done|done|by rewrite lookup_insert_eq|by intros; rewrite lookup_insert_ne| |].
        -- intros f. rewrite elem_of_union, elem_of_singleton, O. split.
           ++ intros [->|[j Hj]]; [exists i; by rewrite lookup_insert_eq|]. exists j. rewrite lookup_insert_ne; [done|congruence].
           ++ intros [j Hj]. apply lookup_insert_Some in Hj as [[_ <-]|[_ Hj]]; eauto.
        -- intros _ j _ Hj. simpl in Hj. apply Hnew, O. eauto.
      * rewrite list_insert_insert_eq. apply (insert_conn_ok s i c); [done..|].
        by intros.
    + injection E as <- <- <-. by destruct s.
  - destruct Hrun as [f0 Hf0]. pose proof (D _ _ Hf0) as Hlt. rewrite <- L in Hlt.
    destruct (lookup_lt_is_Some_2 _ _ Hlt) as [c Hc]. pose proof (R _ _ Hc) as Hr. unfold finish_conn in E. rewrite Hc in E.
    simpl in E. injection E as <- <-. rewrite Hf0 in Hr. destruct (used c); [|done]. injection Hr as ->.
    apply (insert_conn_ok s i c); [done|done|by rewrite lookup_delete_eq|by intros; rewrite lookup_delete_ne| |done].
    intros f. rewrite elem_of_difference, elem_of_singleton, O. split.
    + intros [[j Hj] Hne]. exists j. rewrite lookup_delete_ne; [done|]. intros ->. congruence.
    + intros [j Hj]. apply lookup_delete_Some in Hj as [Hne Hj]. split; [eauto|]. intros ->. apply Hne. by eapply I.
Qed.

(** the server's connection table.  However connections come and end, every
    connection thread keeps an entry of its own until it ends (no other socket
    is written over it), every accepted socket that is open belongs to exactly
    one thread, the others are closed, at most ten connections run at a time;
    and a socket is turned away only when ten run or its thread cannot be
    created. *)
Theorem server_conns_safe s :
  rtc server_step server0 s ->
  server_ok s /\ (size s.(sv_running) <= MAX_CLIENT_CNT)%nat /\
  forall sockfd spawned, snd (accept_conn sockfd spawned s.(sv_conns)) = true ->
    spawned = false \/ size s.(sv_running) = MAX_CLIENT_CNT.
Proof.
  intros Hr. assert (Ok : server_ok s).
  { apply (rtc_invariant server_step server_ok server0 s); [apply server_step_ok| |done]. constructor; try done.
    - intros i c Hc. apply lookup_replicate in Hc as [-> _]. simpl. by rewrite lookup_empty.
    - simpl. intros f. split; [set_solver|]. intros [i Hi]. by rewrite lookup_empty in Hi. }
  pose proof Ok as [L R D O I]. split; [done|].
  assert (Hsub : dom (sv_running s) ⊆ (set_seq 0 MAX_CLIENT_CNT : gset nat)).
  { intros i [f Hi]%elem_of_dom. apply elem_of_set_seq. specialize (D _ _ Hi). lia. }
  assert (Hsize : (size (sv_running s) <= MAX_CLIENT_CNT)%nat).
  { rewrite <- size_dom. etrans; [by apply subseteq_size|]. by rewrite size_set_seq. }
  split; [done|]. intros sockfd spawned. unfold accept_conn. pose proof (find_conn_spec (sv_conns s) 0) as Hf.
  destruct (find_conn (sv_conns s) 0) as [i|]; [by destruct spawned; [|left]|]. intros _. right.
  enough (MAX_CLIENT_CNT <= size (sv_running s))%nat by lia. rewrite <- size_dom.
  rewrite <- (size_set_seq (C := gset nat) 0 MAX_CLIENT_CNT). apply subseteq_size. intros i [_ Hi]%elem_of_set_seq.
  destruct (lookup_lt_is_Some_2 (sv_conns s) i) as [c Hc]; [rewrite L; lia|]. apply elem_of_dom. rewrite (R _ _ Hc), (Hf _ _ Hc).
  done.
Qed.

Lemma server_conns_safe_witness :
  server_ok (mk_server (<[0%nat := mk_conn_slot true 7]> (replicate 10 free_conn)) {[0%nat := 7]} {[7]}).
Proof.
  refine (proj1 (server_conns_safe _ (rtc_once _ _ _))).
  pose proof (sv_accept 7 true server0 _ _ _ ltac:(simpl; set_solver) eq_refl) as H. simpl in H.
  replace ({[7]} ∪ ∅ : gset Z) with ({[7]} : gset Z) in H by set_solver. exact H.
Defined.

(** ** NUMA binding *)

Definition bound_ranges (acts : list mem_action) : list (Z * Z) :=
  omap (fun x => match x with Mbind addr len => Some (addr, len) | Touch _ => None end) acts.
Definition touched (acts : list mem_action) : list Z :=
  omap (fun x => match x with Mbind _ _ => None | Touch addr => Some addr end) acts.

(** The ranges follow each other from [x] to [y], none longer than a chunk. *)
Fixpoint tile (x : Z) (rs : list (Z * Z)) (y : Z) : Prop :=
  match rs with
  | [] => x = y
  | (addr, len) :: rs => addr = x /\ 0 < len <= kChunkBytes /\ tile (x + len) rs y
  end.

(** The page addresses from [x] on, [n] of them. *)
Definition pages (page x : Z) (n : Z) : list Z := (fun k => x + k * page) <$> seqZ 0 n.

Lemma pages_app page x n m : 0 <= n -> 0 <= m -> pages page x (n + m) = pages page x n ++ pages page (x + n * page) m.
Proof.
  intros Hn Hm. unfold pages. rewrite seqZ_app by done. rewrite fmap_app. f_equal. apply list_eq. intros i.
  rewrite !list_lookup_fmap. destruct (decide (Z.of_nat i < m)) as [Hi|Hi].
  - rewrite !lookup_seqZ_lt by lia. simpl. f_equal. lia.
  - by rewrite !lookup_seqZ_ge by lia.
Qed.

Lemma touch_pages_spec page addr n : 0 < page -> forall fuel k, 0 <= k <= n -> (Z.to_nat (n - k) <= fuel)%nat ->
  touched (touch_pages fuel addr (n * page) page (k * page)) = pages page (addr + k * page) (n - k) /\
  bound_ranges (touch_pages fuel addr (n * page) page (k * page)) = [].
Proof.
  intros Hp. induction fuel as [|fuel IH]; intros k Hk Hf.
  - replace k with n by lia. rewrite Z.sub_diag. done.
  - cbn [touch_pages]. destruct (Z.ltb_spec (k * page) (n * page)) as [Hlt|Hge].
    + assert (k < n) by nia. replace (k * page + page) with ((k + 1) * page) by lia.
      destruct (IH (k + 1)) as [IH1 IH2]; [lia|lia|]. unfold touched, bound_ranges in *. cbn [omap list_omap]. rewrite IH1, IH2.
      split; [|done]. replace (n - k) with (1 + (n - (k + 1))) by lia. rewrite pages_app by lia.
      replace (addr + k * page + 1 * page) with (addr + (k + 1) * page) by lia. unfold pages at 2. simpl.
      rewrite Z.add_0_r. done.
    + assert (k = n) by nia. subst k. by rewrite Z.sub_diag.
Qed.

Lemma omap_app {A B} (f : A -> option B) l1 l2 : omap f (l1 ++ l2) = omap f l1 ++ omap f l2.
Proof. induction l1 as [|x l1 IH]; [done|]. cbn. destruct (f x); [|done]. simpl. by f_equal. Qed.

(** The loop, [n] pages from the end. *)
Lemma mbind_loop_spec page p q N : 0 < page -> 0 < q -> kChunkBytes = q * page -> forall fuel off rcs n,
  off = (N - n) * page -> 0 <= n -> n * page <= (Z.of_nat fuel - 1) * kChunkBytes ->
  exists rc acts, mbind_loop fuel p (N * page) page off rcs = Some (rc, acts) /\
    (rc = 0 \/ rc = -1 /\ Exists (fun r => r <> 0) rcs) /\
    (rc = 0 -> tile (p + off) (bound_ranges acts) (p + N * page) /\ touched acts = pages page (p + off) n).
Proof.
  intros Hp Hq HC. induction fuel as [|fuel IH]; intros off rcs n Eo Hn Hf.
  { unfold kChunkBytes in *. simpl in Hf. assert (n * page < 0) by lia. nia. }
  cbn [mbind_loop]. destruct (Z.ltb_spec off (N * page)) as [Hlt|Hge].
  - assert (Hn0 : 0 < n) by nia. set (chunk := if kChunkBytes <? N * page - off then _ else _).
    assert (Hc : exists c, chunk = c * page /\ 0 < c <= n /\ c <= q /\ (c = q \/ c = n)).
    { unfold chunk. destruct (Z.ltb_spec kChunkBytes (N * page - off)) as [H|H].
      - exists q. split; [done|]. nia.
      - exists n. split; [nia|]. nia. }
    destruct Hc as (c & Ec & Hc & Hcq & Hor).
    destruct (Z.eqb_spec (default 0 (head rcs)) 0) as [Hr|Hr].
    + destruct (IH (off + chunk) (tail rcs) (n - c)) as (rc & acts & E & Hrc & Hok); [nia|lia| |].
      { assert (Hfu : 1 <= Z.of_nat fuel) by (destruct fuel; [simpl in Hf; nia|lia]). rewrite Nat2Z.inj_succ in Hf. rewrite HC in *.
        destruct Hor as [-> | ->]; [nia|]. replace (n - n) with 0 by lia. nia. }
      cbn [negb]. rewrite E. do 2 eexists. split; [done|]. split.
      { destruct Hrc as [? | [? Hex]]; [by left|right]. split; [done|]. destruct rcs; [by inversion Hex|by right]. }
      intros Hz. destruct (Hok Hz) as [Ht Hp']. destruct (touch_pages_spec page (p + off) c Hp (Z.to_nat chunk) 0) as [T1 T2];
        [lia|nia|]. rewrite Z.mul_0_l, <- Ec in T1, T2. rewrite Z.sub_0_r, Z.add_0_r in T1.
      unfold bound_ranges, touched in *. cbn [omap list_omap]. rewrite !omap_app, T1, T2. simpl. split.
      * split; [done|]. split; [rewrite HC, Ec; nia|]. by replace (p + off + chunk) with (p + (off + chunk)) by lia.
      * rewrite Hp'. replace n with (c + (n - c)) at 2 by lia. rewrite pages_app by lia. do 2 f_equal. lia.
    + do 2 eexists. split; [done|]. split; [|done]. right. split; [done|]. destruct rcs; [done|by left].
  - assert (n = 0) by nia. subst n. do 2 eexists. split; [done|]. split; [by left|]. intros _. simpl. split; [lia|done].
Qed.

(** C33: the NUMA binding of the buffer.  [mbind_to_node] returns; when the system
    calls succeed it has bound consecutive ranges of at most 1 GB from the page
    of the first byte to the end of the page of the last, which contain the
    whole buffer, and touched every page of them once, in order; when a call
    fails it returns -1. *)
Theorem mbind_covers addr len node page rcs :
  0 <= node -> 0 < page -> kChunkBytes mod page = 0 -> 0 <= addr -> 0 <= len -> addr + len + page < 2 ^ 64 ->
  exists rc acts, mbind_to_node addr len node page rcs = Some (rc, acts) /\
    (rc = 0 \/ rc = -1 /\ Exists (fun r => r <> 0) rcs) /\
    (rc = 0 -> exists n, let first := addr / page * page in
      tile first (bound_ranges acts) (first + n * page) /\ touched acts = pages page first n /\
      first <= addr < first + page /\ addr + len <= first + n * page < addr + len + page).
Proof.
  intros Hn Hp Hmod Ha Hl Hfit. unfold mbind_to_node. destruct (Z.ltb_spec node 0); [lia|]. destruct (Z.leb_spec page 0); [lia|].
  cbv zeta. set (b := addr / page). set (e := (addr + len + page - 1) / page).
  pose proof (Z.div_mod addr page ltac:(lia)) as Hb. pose proof (Z.mod_pos_bound addr page Hp).
  pose proof (Z.div_mod (addr + len + page - 1) page ltac:(lia)) as He. pose proof (Z.mod_pos_bound (addr + len + page - 1) page Hp).
  fold b in Hb. fold e in He.
  assert (Hbe : 0 <= b <= e) by (split; [apply Z.div_pos; lia|apply Z.div_le_mono; lia]).
  rewrite (u64_small (addr + len)), (u64_small (addr + len + page)), (u64_small (addr + len + page - 1)) by lia. fold e.
  assert (Hbp : 0 <= b * page <= addr) by nia. assert (Hep : b * page <= e * page <= addr + len + page - 1) by nia.
  rewrite (u64_small (b * page)), (u64_small (e * page)), u64_small by lia.
  replace (e * page - b * page) with ((e - b) * page) by lia.
  pose proof (Z.div_mod kChunkBytes page ltac:(lia)) as Hc. rewrite Hmod in Hc.
  assert (HC0 : 0 < kChunkBytes) by by vm_compute. assert (Hq : 0 < kChunkBytes / page) by nia.
  destruct (mbind_loop_spec page (b * page) (kChunkBytes / page) (e - b) Hp) with (fuel := mbind_fuel ((e - b) * page))
    (off := 0) (rcs := rcs) (n := e - b) as (rc & acts & E & Hrc & Hok); [exact Hq|lia|lia|lia| |].
  { unfold mbind_fuel. pose proof (Z.div_mod ((e - b) * page) kChunkBytes ltac:(lia)) as Hd.
    pose proof (Z.mod_pos_bound ((e - b) * page) kChunkBytes HC0).
    assert (0 <= (e - b) * page / kChunkBytes) by (apply Z.div_pos; nia). rewrite !Nat2Z.inj_succ, Z2Nat.id by done.
    nia. }
  exists rc, acts. split; [exact E|]. split; [done|]. intros Hz. destruct (Hok Hz) as [Ht Hpg]. rewrite Z.add_0_r in Ht, Hpg.
  exists (e - b). cbv zeta. split; [done|]. split; [done|]. split; nia.
Qed.

Lemma mbind_covers_witness :
  exists acts, mbind_to_node 10000 9000 1 4096 [] = Some (0, acts) /\ touched acts = pages 4096 8192 3.
Proof.
  destruct (mbind_covers 10000 9000 1 4096 [] ltac:(lia) ltac:(lia) ltac:(by vm_compute) ltac:(lia) ltac:(lia) ltac:(lia))
    as (rc & acts & E & Hrc & Hok). destruct Hrc as [-> | [_ Hex]]; [|by inversion Hex]. exists acts. split; [exact E|].
  destruct (Hok eq_refl) as (n & _ & -> & _ & H). change (10000 / 4096 * 4096) with 8192 in *. f_equal. lia.
Defined.

(** ** Workers *)

Lemma create_worker_made a id i :
  is_u32 (Z.max 0 a.(concurrency)) ->
  exists w, create_worker a id i true = Some w /\ w.(w_id) = id /\ PipelineProps.ready (slot_cap a) w /\ w.(w_ops) = 0 /\ w.(w_errors) = 0.
Proof.
  intros Hc. destruct (init_exact (60 *u64 1000000000) 3) as (h & E & _); [by vm_compute|].
  assert (Hw : exists w, create_worker a id i true = Some w /\ w.(w_id) = id /\ w.(w_ops) = 0 /\ w.(w_errors) = 0).
  { unfold create_worker. rewrite E. cbv [mbind option_bind]. change (negb (0 =? 0)) with false. cbv iota. eauto. }
  destruct Hw as (w & Ew & Hid & Ho & He). exists w. exact (conj Ew (conj Hid (conj (create_worker_ready _ _ _ _ _ Hc Ew) (conj Ho He)))).
Qed.

Lemma create_workers_loop a spawned : is_u32 (Z.max 0 a.(concurrency)) -> forall n oks i e ss,
  events_ok e ss -> Z.of_nat (length ss + n) <= kMaxRegisteredWorkers ->
  let '(rc, ws, e') := create_workers a spawned oks n i e in
  (Forall (fun b => b = true) oks -> rc = 0 /\ length ws = n /\ events_ok e' (ss ++ replicate n spec0)) /\
  forall k w, ws !! k = Some w ->
    w.(w_id) = Z.of_nat (length ss + k) /\ PipelineProps.ready (slot_cap a) w /\ w.(w_ops) = 0 /\ w.(w_errors) = 0.
Proof.
  intros Hc. induction n as [|n IH]; intros oks i e ss He Hn; cbn [create_workers].
  { split; [|done]. intros _. by rewrite app_nil_r. }
  pose proof (register_worker_fresh e ss spawned He) as Hreg. destruct (RegisterWorker spawned e) as [id e1].
  rewrite decide_True in Hreg by lia. destruct Hreg as (-> & He1 & _).
  destruct (default true (head oks)) eqn:Eo.
  - destruct (create_worker_made a (Z.of_nat (length ss)) i Hc) as (w & Ew & Hid & Hr & Hops & Herr). rewrite Ew.
    specialize (IH (tail oks) (i + 1) e1 (ss ++ [spec0]) He1 ltac:(rewrite length_app; simpl; lia)).
    destruct (create_workers a spawned (tail oks) n (i + 1) e1) as [[rc ws] e2]. destruct IH as [IH1 IH2]. split.
    + intros Hall. destruct IH1 as (-> & Hl & He2); [by destruct oks; [|apply Forall_cons in Hall as [_ ?]]|].
      split; [done|]. split; [simpl; lia|]. by rewrite <- app_assoc in He2.
    + intros [|k] w' Hk; simpl in Hk.
      * injection Hk as <-. rewrite Nat.add_0_r. exact (conj Hid (conj Hr (conj Hops Herr))).
      * destruct (IH2 k w' Hk) as (-> & H). split; [|done]. rewrite length_app. simpl. lia.
  - assert (Ew : create_worker a (Z.of_nat (length ss)) i false = None) by by vm_compute. rewrite Ew.
    split; [|intros ? ?; rewrite lookup_nil; discriminate]. clear Ew. intros Hall.
    destruct oks as [|b oks]; [discriminate Eo|]. apply Forall_cons in Hall as [-> _]. discriminate Eo.
Qed.

(** the workers of a client.  For accepted parameters a process that has not
    registered workers gets all [--threads] of them, when memory is available:
    with the ids 0, 1, 2, ..., an empty event pool each, counters at 0, and
    their slots in the state from which the pipelines start.  Every worker that
    is made before memory runs out is in this state as well. *)
Theorem create_workers_ready a spawned oks e :
  valid a -> events_ok e [] ->
  let '(rc, ws, e') := create_workers a spawned oks (Z.to_nat a.(Args.threads)) 0 e in
  (Forall (fun b => b = true) oks ->
    rc = 0 /\ length ws = Z.to_nat a.(Args.threads) /\ events_ok e' (replicate (Z.to_nat a.(Args.threads)) spec0)) /\
  forall k w, ws !! k = Some w -> w.(w_id) = Z.of_nat k /\ PipelineProps.ready (slot_cap a) w /\ w.(w_ops) = 0 /\ w.(w_errors) = 0.
Proof.
  intros V He. pose proof (v_threads _ V). pose proof (v_conc _ V) as Hc. unfold KV_MAX_CONCURRENCY in Hc.
  apply (create_workers_loop a spawned) with (ss := []); [unfold is_u32; lia|done|]. unfold kMaxRegisteredWorkers. simpl. lia.
Qed.

Lemma create_workers_ready_witness :
  fst (fst (create_workers demo_write true [] (Z.to_nat (Args.threads demo_write)) 0 no_events)) = 0.
Proof.
  pose proof (create_workers_ready demo_write true [] no_events demo_write_valid no_events_ok) as H.
  destruct (create_workers demo_write true [] (Z.to_nat (Args.threads demo_write)) 0 no_events) as [[rc ws] e'].
  destruct H as [H _]. destruct (H (List.Forall_nil _)) as [-> _]. done.
Defined.

(** ** The end of a process *)

Section ends.
Context `{Liburma} (Hf : fresh_handles).

Lemma mgr_no_buffer bd m s : m.(mgr_localSeg_) = 0 -> mgr_wf bd m no_refs s -> res_wf bd m.(resource_) no_refs s.
Proof. intros El W. eapply res_owners; [apply lseg_null|]. unfold mgr_wf in W. by rewrite <- El. Qed.

(** A process that has not registered its buffer. *)
Lemma destroy_clean bd m s : m.(mgr_localSeg_) = 0 -> mgr_wf bd m no_refs s ->
  let s' := snd (destroy_context None m [] s) in audit s'.(trace) = Some ∅ /\ no_objects s'.
Proof.
  intros El W. unfold destroy_context, destroy_manager. rewrite !ST_bind_eq. cbn [mret ST_ret fst snd].
  destruct (Stop_wf Hf bd m El s W) as [[bd1 W1] El1]. destruct (Stop m s) as [m1 s1]. cbn [fst snd] in *.
  destruct (Stop_wf Hf bd1 m1 El1 s1 W1) as [[bd2 W2] El2]. destruct (Stop m1 s1) as [m2 s2]. cbn [fst snd] in *.
  rewrite ?ST_bind_eq, El2. pose proof W2 as W2'. unfold mgr_wf in W2'. rewrite El2 in W2'.
  pose proof (res_drop_lseg bd2 _ _ 0 _ W2') as W3. cbv beta in W3.
  destruct (Clear (resource_ m2) (snd (drop_lseg 0 s2))) as [r s3] eqn:Ec. cbn [fst snd mret ST_ret drop_jettys].
  destruct (Clear_releases bd2 _ _ _ _ Hf W3 Ec) as (_ & Ha & H1 & H2 & H3 & H4). done.
Qed.

Lemma RegisterBuffer_refused va len m s m' s' :
  RegisterBuffer va len m s = ((false, m'), s') -> m'.(mgr_localSeg_) = m.(mgr_localSeg_).
Proof.
  unfold RegisterBuffer. rewrite ST_bind_eq. destruct (RegisterSegment va len (resource_ m) s) as [[o r] s1]. simpl.
  destruct o as [l|]; [by rewrite !ST_bind_eq|]. by intros [= <- _].
Qed.

(** The manager after [Stop], and its destruction when nothing is left. *)
Lemma Stop_members m s : m.(initialized_) = true ->
  let m' := fst (Stop m s) in
  m'.(initialized_) = false /\ m'.(mgr_localSeg_) = 0 /\ m'.(resource_) = cleared m.(resource_).
Proof.
  intros Ei. unfold Stop. rewrite Ei. cbv zeta. rewrite !ST_bind_eq. simpl. split; [done|]. split; [done|].
  unfold Clear. by rewrite !ST_bind_eq.
Qed.

Lemma destroy_stopped m s r :
  m.(initialized_) = false -> m.(mgr_localSeg_) = 0 -> m.(resource_) = cleared r -> no_objects s ->
  snd (destroy_manager m s) = s.
Proof.
  intros Ei El Er (H1 & H2 & H3 & H4). destruct s as [tr jf je ls rs nx]. simpl in *. subst jf je ls rs.
  unfold destroy_manager, Stop. rewrite !ST_bind_eq, Ei. cbn [mret ST_ret fst snd]. rewrite El, Er. done.
Qed.

(** The trace of a process that ended in order but for [Stop]'s last two
    deletions, those of the segment and of its context [x]. *)
Definition ended (x : Z) (s : sys) : Prop :=
  no_objects s /\
  exists tr h a1 a2 a3,
    s.(trace) = tr ++ [(urma_delete_context x, a1); (urma_unregister_seg h, a2); (urma_uninit, a3)] /\
    audit tr = Some {[h := (KSeg, [x]); x := (KContext, [])]}.

(** A process that has registered its buffer. *)
Lemma destroy_registered bd m x s :
  mgr_wf bd m no_refs s -> m.(initialized_) = true -> m.(mgr_localSeg_) <> 0 -> m.(resource_).(context_) = Some x ->
  ended x (snd (destroy_context None m [] s)).
Proof.
  intros W Ei El Ec. unfold destroy_context. rewrite ST_bind_eq. cbn [mret ST_ret fst snd]. rewrite ST_bind_eq.
  destruct (stop_trace Hf bd m x s W Ei El Ec) as (tr & live & h & a1 & a2 & a3 & Et & Ha & Hne & Hh & Ho).
  destruct (Stop_members m s Ei) as (Ei' & El' & Er'). destruct (Stop m s) as [m' s2]. cbn [fst snd] in *.
  rewrite ST_bind_eq, (destroy_stopped m' s2 _ Ei' El' Er' Ho). cbn [drop_jettys]. cbn [mret ST_ret snd].
  split; [done|]. exists tr, h, a1, a2, a3. split; [done|]. by rewrite <- Hh.
Qed.

End ends.

(** ** The first steps of a process *)

Section start.
Context `{Liburma} (Hf : fresh_handles) (ctl : bool) (a : argument).

Lemma ManagerInit_true name ca jc mj em tm eid spawned m s :
  fst (fst (ManagerInit ctl name ca jc mj em tm eid spawned m s)) = true ->
  initialized_ (snd (fst (ManagerInit ctl name ca jc mj em tm eid spawned m s))) = true.
Proof.
  unfold ManagerInit. destruct (initialized_ m) eqn:Ei; [done|]. cbv zeta. rewrite ST_bind_eq. destruct (negb _); [done|].
  rewrite ST_bind_eq. destruct (_ =? nullptr); [done|]. rewrite ST_bind_eq. destruct (_ <? 0); [done|].
  rewrite ST_bind_eq. destruct (Init _ _ _ _ _ _ _ _ _ _) as [[ok r] s1]. simpl. destruct ok; simpl; [|done].
  rewrite ST_bind_eq. destruct (negb _); [done|]. by destruct (EnsurePollThread _ _).
Qed.

Lemma RegisterBuffer_context va len m s :
  context_ (resource_ (snd (fst (RegisterBuffer va len m s)))) = context_ (resource_ m).
Proof.
  unfold RegisterBuffer, RegisterSegment. rewrite ST_bind_eq. destruct (Ctx (resource_ m) =? nullptr); [done|].
  rewrite ST_bind_eq. destruct (UrmaLocalSegment_Register _ _ _ _ _ _) as [[l|] s1]; [|done].
  cbn [fst snd]. cbv zeta. repeat (rewrite ST_bind_eq; cbn [fst snd mret ST_ret]). done.
Qed.

(** A manager with which the threads can run. *)
Record ready (m : manager) (x : Z) (s : sys) : Prop := {
  rd_history : rtc (mgr_step ctl) mstart (m, no_refs, s);
  rd_init : m.(initialized_) = true;
  rd_segment : m.(mgr_localSeg_) <> 0;
  rd_context : m.(resource_).(context_) = Some x;
}.

Lemma ready_ended m x s : ready m x s -> ended x (snd (destroy_context None m [] s)).
Proof. intros [Hr Hi Hl Hx]. destruct (manager_reachable_wf _ _ Hf Hr) as [bd W]. by eapply destroy_registered. Qed.

(** Every handle deleted in order and no object left; or this but for the
    segment and its context. *)
Definition released (s : sys) : Prop := audit s.(trace) = Some ∅ /\ no_objects s.
Definition wound_up (s : sys) : Prop := released s \/ exists x, ended x s.

(** The first steps of both processes: a manager with [lanes] lanes, and the
    buffer of the side. *)
Lemma start_outcome (is_server : bool) lanes spawned va :
  let '((ok, m1), s1) := ManagerInit ctl (dev_string a.(dev_name)) a.(cacheable) a.(jetty_count) lanes a.(event_mode)
    a.(Args.trans_mode) (-1) spawned new_manager empty_sys in
  if negb ok then released (snd (destroy_context None m1 [] s1))
  else
    let '((rc, _, m2), s2) := setup_buffer a is_server va m1 s1 in
    if negb (rc =? 0) then released (snd (destroy_context None m2 [] s2)) else exists x, ready m2 x s2.
Proof.
  destruct (ManagerInit _ _ _ _ _ _ _ _ _ _ _) as [[ok m1] s1] eqn:Einit.
  assert (Wstart : res_wf false (resource_ new_manager) no_refs empty_sys) by by apply (fresh_wf None), wf_empty.
  destruct (triple_run _ _ _ _ _ _ (ManagerInit_wf Hf ctl false _ _ _ _ _ _ _ spawned new_manager)
    (conj Wstart eq_refl) Einit) as ([bd W1] & El1 & Hready). cbn [fst snd] in W1, El1, Hready.
  pose proof (ms_init ctl _ _ _ _ _ _ _ spawned new_manager empty_sys _ _ eq_refl Einit) as Hstep1. cbn [snd] in Hstep1.
  assert (W1' : mgr_wf bd m1 no_refs s1).
  { unfold mgr_wf. rewrite El1. eapply res_owners; [symmetry; apply lseg_null|done]. }
  destruct ok; cbn [negb]; [|by apply (destroy_clean Hf bd)].
  assert (Ei : initialized_ m1 = true).
  { pose proof (ManagerInit_true (dev_string a.(dev_name)) a.(cacheable) a.(jetty_count) lanes a.(event_mode) a.(Args.trans_mode) (-1)
      spawned new_manager empty_sys) as Ht. rewrite Einit in Ht. by apply Ht. }
  destruct (Hready eq_refl Ei) as [_ [x Hx]]. unfold setup_buffer. destruct (if is_server then _ else _) as [dl bl].
  destruct va as [va|]; [|by apply (destroy_clean Hf bd)].
  rewrite ST_bind_eq. destruct (RegisterBuffer va bl m1 s1) as [[ok m2] s2] eqn:Eb. cbn [fst snd mret ST_ret].
  destruct (triple_run _ _ _ _ _ _ (RegisterBuffer_wf Hf bd va bl m1 no_refs) W1' Eb) as (W2 & Ei2 & Hseg). cbn [fst snd] in *.
  destruct ok; cbn; [|apply (destroy_clean Hf bd); [by rewrite (RegisterBuffer_refused _ _ _ _ _ _ Eb)|done]].
  exists x. split.
  - eapply rtc_l; [exact Hstep1|]. apply rtc_once. exact (ms_buffer ctl va bl m1 no_refs s1 _ _ Eb).
  - congruence.
  - by destruct (Hseg eq_refl).
  - pose proof (RegisterBuffer_context va bl m1 s1) as Hc. rewrite Eb in Hc. cbn in Hc. congruence.
Qed.

End start.

(** a client that fails early.  When the manager cannot be initialised, at
    whatever call, or the buffer cannot be allocated or registered,
    [run_client] returns -1 and has deleted every handle it made, children
    before parents; no object is left. *)
Theorem client_early_failure_clean `{Liburma} ctl a mch spawned va connected oks work ok m1 s1 rc b m2 s2 :
  fresh_handles ->
  ManagerInit ctl (dev_string a.(dev_name)) a.(cacheable) a.(jetty_count) (min_lanes a) a.(event_mode) a.(Args.trans_mode)
    (-1) spawned new_manager empty_sys = ((ok, m1), s1) ->
  setup_buffer a false va m1 s1 = ((rc, b, m2), s2) ->
  ok = false \/ rc <> 0 ->
  let '(r, s') := run_client ctl a mch spawned va connected oks work empty_sys in
  r = -1 /\ audit s'.(trace) = Some ∅ /\ no_objects s'.
Proof.
  intros Hf Einit Eset Hfail. pose proof (start_outcome Hf ctl a false (min_lanes a) spawned va) as Ho.
  rewrite Einit in Ho. unfold run_client. rewrite ST_bind_eq, Einit. cbn [fst snd].
  destruct ok; cbn [negb] in *; [|by rewrite ST_bind_eq]. destruct Hfail as [?|Hrc]; [done|]. rewrite Eset in Ho.
  rewrite ST_bind_eq, Eset. cbn [fst snd]. destruct (Z.eqb_spec rc 0) as [?|_]; [done|]. cbn [negb] in *. by rewrite ST_bind_eq.
Qed.

(** A process that has a connection. *)
Lemma destroy_connected `{Liburma} (Hf : fresh_handles) bd c m x s :
  mgr_wf bd m (conn_refs c no_refs) s -> is_Some c.(targetJetty) -> m.(initialized_) = true -> m.(mgr_localSeg_) <> 0 ->
  m.(resource_).(context_) = Some x -> ended x (snd (destroy_context (Some c) m [] s)).
Proof.
  intros W Ht Ei El Ec. assert (W1 : mgr_wf bd m no_refs (snd (destroy_conn c s))).
  { apply (destroy_conn_wf Hf bd c (resource_ m) (add_lseg (mgr_localSeg_ m) no_refs) Ht).
    unfold mgr_wf, conn_refs in *. by destruct (targetJetty c). }
  pose proof (destroy_registered Hf bd m x _ W1 Ei El Ec) as He. unfold destroy_context in *. by rewrite !ST_bind_eq in *.
Qed.

(** the end of a client.  When the workers have given their lanes back,
    [destroy_context] gives up the connection before the library is left, and
    deletes every handle: in order, but for the last two, which are the segment
    and its context (the order [Stop] has them in); no object is left. *)
Theorem client_end_releases `{Liburma} ctl c m s x u s' :
  fresh_handles -> rtc (mgr_step ctl) mstart (m, conn_refs c no_refs, s) -> is_Some c.(targetJetty) ->
  m.(initialized_) = true -> m.(mgr_localSeg_) <> 0 -> m.(resource_).(context_) = Some x ->
  destroy_context (Some c) m [] s = (u, s') ->
  no_objects s' /\
  exists tr h a1 a2 a3,
    s'.(trace) = tr ++ [(urma_delete_context x, a1); (urma_unregister_seg h, a2); (urma_uninit, a3)] /\
    audit tr = Some {[h := (KSeg, [x]); x := (KContext, [])]}.
Proof.
  intros Hf Hr Ht Ei El Ec E. destruct (manager_reachable_wf _ _ Hf Hr) as [bd W].
  pose proof (destroy_connected Hf bd c m x s W Ht Ei El Ec) as He. by rewrite E in He.
Qed.

Definition no_work (c : UrmaConnection) (ws : list worker) (m : manager) : ST sys (bool * list Z * manager) :=
  mret (false, [], m).

(** The seventh call of the library fails: in the middle of the initialisation. *)
Definition demo_early : (bool * manager) * sys :=
  @ManagerInit demo_fail true (dev_string demo_write.(dev_name)) demo_write.(cacheable) demo_write.(jetty_count)
    (min_lanes demo_write) demo_write.(event_mode) demo_write.(Args.trans_mode) (-1) true new_manager empty_sys.

Lemma demo_early_false : fst (fst demo_early) = false.
Proof. by vm_compute. Qed.

Definition demo_early_run : Z * sys :=
  @run_client demo_fail true demo_write demo_machine true (Some 4096) None [] no_work empty_sys.

Lemma client_early_failure_clean_witness : fst demo_early_run = -1 /\ audit (trace (snd demo_early_run)) = Some ∅.
Proof.
  pose proof (@client_early_failure_clean demo_fail true demo_write demo_machine true (Some 4096) None [] no_work
    (fst (fst demo_early)) (snd (fst demo_early)) (snd demo_early) _ _ _ _ (demo_fresh _ _)
    (eq_trans (surjective_pairing demo_early) (f_equal (fun x => (x, snd demo_early)) (surjective_pairing _)))
    (eq_trans (surjective_pairing (@setup_buffer demo_fail demo_write false (Some 4096) (snd (fst demo_early)) (snd demo_early)))
      (f_equal (fun x => (x, _)) (eq_trans (surjective_pairing _) (f_equal (fun x => (x, _)) (surjective_pairing _)))))
    (or_introl demo_early_false)) as Hx.
  fold demo_early_run in Hx. destruct demo_early_run as [r s']. destruct Hx as (Hr & Ha & _). done.
Defined.

Lemma demo_end_state :
  initialized_ (demo_mgr demo_ok) = true /\ mgr_localSeg_ (demo_mgr demo_ok) <> 0 /\ is_Some (context_ (resource_ (demo_mgr demo_ok))).
Proof. vm_compute. split; [done|]. split; [done|by eexists]. Qed.

Lemma client_end_releases_witness :
  no_objects (snd (@destroy_context demo_ok (Some demo_conn) (demo_mgr demo_ok) [] (snd demo_connected))).
Proof.
  destruct demo_end_state as (Hi & Hl & [x Hx]).
  exact (proj1 (@client_end_releases demo_ok true demo_conn (demo_mgr demo_ok) (snd demo_connected) x _ _ (demo_fresh _ _)
    demo_connected_steps ltac:(by eexists) Hi Hl Hx (surjective_pairing _))).
Defined.

(** *** A lane that a worker keeps *)

(** The calls of a history after the library was left. *)
Fixpoint after_uninit (tr : list lib_event) : list lib_call :=
  match tr with
  | [] => []
  | (urma_uninit, _) :: tr => fst <$> tr
  | _ :: tr => after_uninit tr
  end.

Definition demo_end : sys :=
  snd (@destroy_context demo_ok (Some demo_conn) (snd (fst demo_laned)) [2] (snd demo_laned)).

(** a worker that gives up with requests in flight leaves their lanes in its
    slots, and [destroy_context] frees the workers last.  The lane is then
    deleted, with its receive queue, after its context was deleted and the
    library was left. *)
Theorem kept_lane_outlives_library :
  after_uninit demo_end.(trace) = [urma_delete_jetty 1005; urma_delete_jfr 1004] /\ audit demo_end.(trace) = None.
Proof. by vm_compute. Qed.

(** ** Handshake of accepted parameters *)

(** Two sides with accepted parameters refuse each other exactly when their
    [--send-size] differ. *)
Lemma params_checked a b m m' w :
  valid a -> valid b -> w.(w_send_size) = sendSize (handshake_params b m') ->
  send_size_mismatch (handshake_params a m) w = negb (b.(send_size) =? a.(send_size)).
Proof.
  intros Va Vb E. destruct (v_send _ Va) as (ha & Ea & Ha & La). destruct (v_send _ Vb) as (hb & Eb & Hb & Lb).
  unfold send_size_mismatch. rewrite E. unfold handshake_params. cbn [sendSize]. unfold PAGE_SIZE in *.
  rewrite !u32_small by lia. destruct (Z.eqb_spec (send_size a) 0); [lia|]. destruct (Z.eqb_spec (send_size b) 0); [lia|]. done.
Qed.
