(* ===== verification/DualSession.v ===== *)
(** * DualSession: [run_dual_client] and [run_dual_server] of [src/kv_bench.cpp]

    Both sides of dual mode start one manager per port, register one buffer with
    all of them, exchange four messages over one TCP connection (port by port),
    and end the ports one after the other.  The four managers share the process:
    the library with its history and the heaps of Liburma.  The worker threads
    are those of Dual; here is what surrounds them: their start, the samples
    that the main thread prints, and the summary. *)

From S2P Require Import Prelude Hist Args Requests SendLane UrmaEvents Liburma UrmaResource UrmaResourceInv.
From S2P Require Import UrmaResourceProps Wire UrmaManager UrmaManagerProps Stats Pipeline Dual Session SessionProps.
From Stdlib Require Import String SpecFloat.
From stdpp Require Import list gmap strings functions.
#[local] Open Scope Z_scope.
#[local] Open Scope list_scope.

(** ** The ports *)

Section ports.
Context `{Liburma}.
Context (bondp_ctl : bool) (a : argument).

(** [devs[p / 2]] *)
Definition port_dev (p : nat) : string := dev_string (if (p / 2 =? 0)%nat then a.(dev_name) else a.(dev_name2)).

(** The loop that starts the managers, from port [p] on with the eids of the
    remaining ports: the managers made, the last of them the one that failed.
    [lanes] is [args->threads] in the client and 1 in the server. *)
Fixpoint init_ports (lanes : Z) (spawned : bool) (eids : list Z) (p : nat) : ST sys (bool * list manager) :=
  match eids with
  | [] => mret (true, [])
  | eid :: eids =>
      '(ok, m) ← ManagerInit bondp_ctl (port_dev p) a.(cacheable) a.(jetty_count) lanes a.(event_mode) a.(Args.trans_mode)
                   eid spawned new_manager;
      if negb ok then mret (false, [m])
      else '(ok, ms) ← init_ports lanes spawned eids (S p); mret (ok, m :: ms)
  end.

(** [mgr[q]->Stop()] for the managers made so far. *)
Fixpoint stop_ports (ms : list manager) : ST sys unit :=
  match ms with [] => mret tt | m :: ms => Stop m ;; stop_ports ms end.

(** [RegisterBuffer] of the one buffer on every port. *)
Fixpoint register_ports (va len : Z) (ms : list manager) : ST sys (bool * list manager) :=
  match ms with
  | [] => mret (true, [])
  | m :: ms =>
      '(ok, m) ← RegisterBuffer va len m;
      if negb ok then mret (false, m :: ms)
      else '(ok, ms) ← register_ports va len ms; mret (ok, m :: ms)
  end.

(** One handshake per port, in their order, on the same socket. *)
Fixpoint exchange_ports (ms : list manager) (k : sock) : ST sys (option (list UrmaConnection) * sock) :=
  match ms with
  | [] => mret (Some [], k)
  | m :: ms =>
      '(c, k) ← Exchange (dual_params a) a.(import_rtp) m k;
      match c with
      | None => mret (None, k)
      | Some c => '(cs, k) ← exchange_ports ms k; mret ((fun cs => c :: cs) <$> cs, k)
      end
  end.

(** [conn_dual[p].reset(); mgr[p]->Stop(); delete mgr[p]] *)
Fixpoint end_ports (ports : list (UrmaConnection * manager)) : ST sys unit :=
  match ports with
  | [] => mret tt
  | (c, m) :: ports => destroy_conn c ;; m ← Stop m; destroy_manager m ;; end_ports ports
  end.

(** The part that both sides share: eids, managers, buffer.  [None] is one of
    the exits with -1; only the client stops its managers when one of them
    cannot be started.  [memalign] returns [va]. *)
Definition dual_setup (is_client spawned : bool) (va : option Z) : ST sys (option (list manager)) :=
  eids ← dual_query_eids (dev_string a.(dev_name)) (dev_string a.(dev_name2));
  match eids with
  | None => mret None
  | Some eids =>
      '(ok, ms) ← init_ports (if is_client then a.(Args.threads) else 1) spawned eids 0;
      if negb ok then (if is_client then stop_ports ms else mret tt) ;; mret None
      else
        match va with
        | None => mret None
        | Some va =>
            '(ok, ms) ← register_ports va (dual_buf_len a) ms;
            mret (if (ok : bool) then Some ms else None)
        end
  end.

(** The managers, then the exchanges over the connection [k], when there is one;
    [fail] is the result of every exit up to here, [go] the rest. *)
Definition with_ports {R} (is_client spawned : bool) (va : option Z) (k : option sock) (fail : R)
    (go : list UrmaConnection -> list manager -> ST sys R) : ST sys R :=
  ms ← dual_setup is_client spawned va;
  match ms, k with
  | Some ms, Some k =>
      '(cs, _) ← exchange_ports ms k;
      match cs with None => mret fail | Some cs => go cs ms end
  | _, _ => mret fail
  end.

End ports.

(** ** Samples and summary *)

Definition dual_counters (ws : list dual_worker) : Z * Z * Z :=
  foldl (fun '(bytes, ops, errors) w => (bytes +u64 w.(d_bytes), ops +u64 w.(d_ops), errors +u64 w.(d_errors)))
    (0, 0, 0) ws.

(** One pass of the sampling loop: [ctx->stop] and the clock in its condition,
    then the workers and the clock after the sleep. *)
Record dual_tick := mk_dtick { dk_stop : bool; dk_check : Z; dk_workers : list dual_worker; dk_now : Z }.

Record dual_report := mk_dreport { dr_t : double; dr_ops : Z; dr_bandwidth : double; dr_errors : Z }.

Definition dual_interval_bw (bytes last_bytes : Z) : double :=
  dbl_div (dbl_div (double_of_Z (bytes -u64 last_bytes)) dbl_1e9) dbl_1e6.

Fixpoint dual_sampler (a : argument) (t0 last_bytes : Z) (ks : list dual_tick) : list dual_report :=
  match ks with
  | [] => []
  | k :: ks =>
      if negb k.(dk_stop) && (k.(dk_check) -u64 t0 <? a.(duration_sec) *u64 1000000000 +u64 2 *u64 1000000000) then
        let '(bytes, ops, errors) := dual_counters k.(dk_workers) in
        mk_dreport (dbl_div (double_of_Z (k.(dk_now) -u64 t0)) dbl_1e9) ops (dual_interval_bw bytes last_bytes) errors
          :: dual_sampler a t0 bytes ks
      else []
  end.

Record dual_summary := mk_dsummary {
  ds_rounds : Z;
  ds_mb_s : double;
  ds_mbps : double;
  ds_bytes : Z;
  ds_errors : Z;
  ds_request_line : latency_line;
  ds_post_line : option latency_line;
}.

(** [ok1], [ok2]: the allocations of the two histograms (not checked). *)
Definition dual_print_summary (ws : list dual_worker) (seconds : double) (ok1 ok2 : bool) : dual_summary :=
  let merged := merge_into d_hist_req (snd (new_hist ok1)) ws in
  let merged_post := merge_into d_hist_post (snd (new_hist ok2)) ws in
  let '(bytes, ops, errors) := dual_counters ws in
  let mb_s := dbl_div (dbl_div (double_of_Z bytes) seconds) dbl_1e6 in
  mk_dsummary ops mb_s (dbl_mul mb_s (double_of_Z 8)) bytes errors (print_latency_line_us merged)
    (if 0 <? merged_post.(total_count) then Some (print_latency_line_us merged_post) else None).

(** ** The processes *)

(** The start of worker [i] and [n] more: whether all were started, and the
    workers that were.  For each: the two histograms and [pthread_create]. *)
Fixpoint start_dual_workers (a : argument) (oks : list (bool * bool * bool)) (n : nat) (i : Z) : bool * list dual_worker :=
  match n with
  | O => (true, [])
  | S n =>
      let '(ok1, ok2, spawned) := default (true, true, true) (head oks) in
      let '(r1, h1) := new_hist ok1 in
      let '(r2, h2) := new_hist ok2 in
      if negb (r1 =? 0) || negb (r2 =? 0) then (false, [])
      else if negb spawned then (false, [])
      else
        let '(ok, ws) := start_dual_workers a (tail oks) n (i + 1) in
        (ok, mk_dual (fun _ => 0) (fun _ => 0) h1 h2 0 0 0 (dual_off0 a i) false :: ws)
  end.

Record dual_run := mk_drun { dr_rc : Z; dr_reports : list dual_report; dr_summary : option dual_summary }.

Definition dual_failed : dual_run := mk_drun (-1) [] None.

(** What the threads did between their start and the last join, as the main
    thread sees it: its samples, the workers at the summary, the managers. *)
Record dual_work := mk_dwork {
  dwk_t0 : Z;
  dwk_ticks : list dual_tick;
  dwk_workers : list dual_worker;
  dwk_end : Z;
  dwk_oks : bool * bool;            (* the histograms of the summary *)
  dwk_mgrs : list manager;
}.

Section processes.
Context `{Liburma}.
Context (bondp_ctl : bool) (a : argument).

(** [allocated]: whether [calloc] returned the context (and, second, the
    workers); [connected]: the TCP connection, when there is one. *)
Definition run_dual_client (allocated allocated2 spawned : bool) (va : option Z) (connected : option sock)
    (oks : list (bool * bool * bool)) (work : list UrmaConnection -> list dual_worker -> list manager -> ST sys dual_work)
    : ST sys dual_run :=
  if negb allocated then mret dual_failed
  else
    with_ports bondp_ctl a true spawned va connected dual_failed (fun cs ms =>
      if negb allocated2 then mret dual_failed
      else
        let '(ok, ws) := start_dual_workers a oks (Z.to_nat a.(Args.threads)) 0 in
        if negb ok then mret dual_failed
        else
          r ← work cs ws ms;
          let reports := dual_sampler a r.(dwk_t0) 0 r.(dwk_ticks) in
          let seconds := dbl_div (double_of_Z (r.(dwk_end) -u64 r.(dwk_t0))) dbl_1e9 in
          let summary := dual_print_summary r.(dwk_workers) seconds (fst r.(dwk_oks)) (snd r.(dwk_oks)) in
          end_ports (zip cs r.(dwk_mgrs)) ;;
          mret (mk_drun 0 reports (Some summary))).

(** [accepted]: the connection, when [bind], [listen] and [accept] succeed.
    After the exchanges the server reads until the client closes. *)
Definition run_dual_server (allocated spawned : bool) (va : option Z) (accepted : option sock) : ST sys Z :=
  if negb allocated then mret (-1)
  else with_ports bondp_ctl a false spawned va accepted (-1) (fun cs ms => end_ports (zip cs ms) ;; mret 0).

End processes.
