(* ===== verification/DualSessionProps.v ===== *)
(** * DualSessionProps: what holds of the processes of dual mode

    How the four handshakes share a stream, what the summary shows, what a
    failure leaves behind and in which order the ports end.  [emits P] says that
    a piece of code only adds calls with property [P] to the history of the
    library; it composes, and the statements about the order of calls rest on
    it. *)

From S2P Require Import Prelude Hist Args Requests SendLane UrmaEvents Liburma UrmaResource UrmaResourceInv.
From S2P Require Import UrmaResourceProps Wire UrmaManager UrmaManagerProps Stats Pipeline Dual DualProps Session SessionProps.
From S2P Require Import DualSession.
From Stdlib Require Import String SpecFloat.
From stdpp Require Import list gmap strings functions.
#[local] Open Scope Z_scope.
#[local] Open Scope list_scope.

(** ** The calls that a piece of code can make *)

Section emits.
Context `{Liburma} (P : lib_call -> Prop).

Definition emits {A} (m : ST sys A) : Prop :=
  forall s, exists tr, trace (snd (m s)) = trace s ++ tr /\ Forall (fun e => P (fst e)) tr.

Lemma emits_same {A} (m : ST sys A) : (forall s, trace (snd (m s)) = trace s) -> emits m.
Proof. intros E s. exists []. by rewrite E, app_nil_r. Qed.

Lemma emits_ret {A} (r : A) : emits (mret r).
Proof. by apply emits_same. Qed.

Lemma emits_bind {A B} (m : ST sys A) (f : A -> ST sys B) : emits m -> (forall r, emits (f r)) -> emits (m ≫= f).
Proof.
  intros Hm Hf s. rewrite ST_bind_eq. destruct (Hm s) as (t1 & E1 & F1).
  destruct (Hf (fst (m s)) (snd (m s))) as (t2 & E2 & F2). exists (t1 ++ t2).
  split; [by rewrite E2, E1, app_assoc|by apply Forall_app].
Qed.

Lemma emits_call c : P c -> emits (call c).
Proof. intros Hc s. exists [(c, answer (trace s) c)]. by repeat constructor. Qed.

(** The end of a reference: the destructor [f] runs on the object that died. *)
Lemma emits_end {A} (dead : option A) (f : A -> ST sys unit) s s' : (forall x, emits (f x)) -> trace s' = trace s ->
  exists tr, trace (snd (match dead with Some x => f x s' | None => (tt, s') end)) = trace s ++ tr /\
    Forall (fun e => P (fst e)) tr.
Proof.
  intros Hf E. destruct dead as [x|]; [|exists []; by rewrite app_nil_r].
  destruct (Hf x s') as (tr & E' & F). exists tr. by rewrite E', E.
Qed.

Lemma emits_then {B} c (m : ST sys B) : P c -> emits m -> emits (call c ;; m).
Proof. intros Hc Hm. apply emits_bind; [by apply emits_call|done]. Qed.

Lemma emits_drop_jfr l : (forall x, P (urma_delete_jfr x)) -> emits (drop_jfr l).
Proof.
  intros Hc s. unfold drop_jfr. destruct (decref l (jfrs s)) as [dead h].
  apply (emits_end dead (fun raw => call (urma_delete_jfr raw) ;; mret tt)); [|done]. intros x. by apply emits_then, emits_ret.
Qed.

Lemma emits_drop_jetty l : (forall x, P (urma_delete_jfr x)) -> (forall x, P (urma_delete_jetty x)) -> emits (drop_jetty l).
Proof.
  intros H1 H2 s. unfold drop_jetty. destruct (decref l (jetty_objs s)) as [[[raw jfr]|] h].
  - apply (emits_end (Some raw) (fun raw => call (urma_delete_jetty raw) ;; drop_jfr jfr)); [|done].
    intros x. by apply emits_then, emits_drop_jfr.
  - by apply (emits_end None (fun _ : unit => mret tt)); [intros; apply emits_ret|].
Qed.

Lemma emits_drop_lseg l : (forall x, P (urma_unregister_seg x)) -> emits (drop_lseg l).
Proof.
  intros Hc s. unfold drop_lseg. destruct (decref l (lsegs s)) as [dead h].
  apply (emits_end dead (fun raw => call (urma_unregister_seg raw) ;; mret tt)); [|done]. intros x. by apply emits_then, emits_ret.
Qed.

Lemma emits_drop_rseg l : (forall x, P (urma_unimport_seg x)) -> emits (drop_rseg l).
Proof.
  intros Hc s. unfold drop_rseg. destruct (decref l (rsegs s)) as [dead h].
  apply (emits_end dead (fun raw => call (urma_unimport_seg raw) ;; mret tt)); [|done]. intros x. by apply emits_then, emits_ret.
Qed.

End emits.

Create HintDb emits.
#[export] Hint Resolve emits_ret emits_drop_jfr emits_drop_jetty emits_drop_lseg emits_drop_rseg : emits.

(** Takes a program apart into its calls; [done] is left with the property of
    each of them. *)
Ltac emit :=
  repeat first
    [ match goal with
      | |- emits _ (_ ≫= _) => apply emits_bind; [|intros ?]
      | |- emits _ (call _) => apply emits_call; done
      | |- emits _ (mret _) => apply emits_ret
      | |- emits _ (if ?b then _ else _) => destruct b
      | |- emits _ (match ?o with _ => _ end) => destruct o
      | |- emits _ (let '(_, _) := ?o in _) => destruct o
      end
    | solve [eauto with emits]
    | apply emits_same; done ].

(** ** A failure after the start *)

(** Neither a context is deleted nor the library left. *)
Definition keeps_contexts (c : lib_call) : Prop :=
  match c with urma_delete_context _ | urma_uninit => False | _ => True end.

#[export] Hint Extern 1 (keeps_contexts _) => exact I : emits.

Section failure.
Context `{Liburma}.

Lemma emits_RegisterBuffer va len m : emits keeps_contexts (RegisterBuffer va len m).
Proof. unfold RegisterBuffer, RegisterSegment, UrmaLocalSegment_Register. emit. Qed.

Lemma emits_bind_lanes t r n : forall i, emits keeps_contexts (bind_lanes n i t r).
Proof. induction n as [|n IH]; intros i; simpl; unfold JettyAt; emit. Qed.
#[local] Hint Resolve emits_RegisterBuffer emits_bind_lanes : emits.

Lemma emits_connect w params rtp m : emits keeps_contexts (connect w params rtp m).
Proof.
  unfold connect, import_peer_jetty, ImportTargetJetty, UrmaTargetJetty_Import, ImportSegment, UrmaRemoteSegment_Import,
    destroy_conn, del_target. emit.
Qed.
#[local] Hint Resolve emits_connect : emits.

Lemma emits_Exchange params rtp m k : emits keeps_contexts (Exchange params rtp m k).
Proof.
  unfold Exchange. destruct (_ || _); [apply emits_ret|].
  apply emits_bind; [apply emits_same; intros s; by rewrite local_wire_state|intros w].
  destruct (SockSyncData _ _ _) as [[bytes|] k']; cbv zeta; emit.
Qed.
#[local] Hint Resolve emits_Exchange : emits.

Lemma emits_register_ports va len ms : emits keeps_contexts (register_ports va len ms).
Proof. induction ms as [|m ms IH]; simpl; emit. Qed.

Lemma emits_exchange_ports a ms : forall k, emits keeps_contexts (exchange_ports a ms k).
Proof. induction ms as [|m ms IH]; intros k; simpl; emit. Qed.

(** A context that such calls leave. *)
Lemma audit_keeps tr : forall live live' x d, Forall (fun e => keeps_contexts (fst e)) tr -> audit_from live tr = Some live' ->
  live !! x = Some (KContext, d) -> live' !! x = Some (KContext, d).
Proof.
  induction tr as [|[c r] tr IH]; intros live live' x d; [by intros _ [= ->]|].
  intros F. inversion F as [|? ? Hc Hk]; subst. simpl in *.
  destruct (audit_step live (c, r)) as [l1|] eqn:E; [|done]. simpl. intros Ha Hx. apply (IH l1 live' x d Hk Ha).
  unfold audit_step in E. simpl in E. destruct (created c) as [[k deps]|].
  - destruct (forallb _ _); [|done]. destruct (r =? 0); [by simplify_eq|]. unfold is_live in E. case_bool_decide as Hl; [done|].
    simplify_eq. rewrite lookup_insert_ne; [done|]. intros ->. apply Hl. by eexists.
  - destruct (deleted c) as [[k h]|] eqn:Ed; [|destruct (forallb _ _); by simplify_eq].
    destruct (has_kind live (h, k) && _) eqn:Ek; [|done]. simplify_eq. apply andb_prop in Ek as [Ek _].
    rewrite lookup_delete_ne; [done|]. intros ->. unfold has_kind in Ek. simpl in Ek. rewrite Hx in Ek.
    apply bool_decide_eq_true in Ek as <-. by destruct c; simplify_eq.
Qed.

(** From [s1] on no context was deleted and the library not left. *)
Definition abandons (s1 s' : sys) : Prop :=
  exists tr, trace s' = trace s1 ++ tr /\ Forall (fun e => keeps_contexts (fst e)) tr /\
    forall live live' x d, audit (trace s1) = Some live -> audit (trace s') = Some live' ->
      live !! x = Some (KContext, d) -> live' !! x = Some (KContext, d).

Lemma abandons_intro {A} (m : ST sys A) s1 : emits keeps_contexts m -> abandons s1 (snd (m s1)).
Proof.
  intros Hm. destruct (Hm s1) as (tr & E & F). exists tr. split; [done|]. split; [done|].
  intros live live' x d Ha Ha' Hx. rewrite E in Ha'. unfold audit in *. rewrite audit_from_app, Ha in Ha'. by eapply audit_keeps.
Qed.

(** What both sides do once the managers are started, up to the exchanges. *)
Definition after_start (a : argument) (va : option Z) (ms : list manager) (k : option sock)
    : ST sys (option (list UrmaConnection * list manager)) :=
  match va with
  | None => mret None
  | Some va =>
      '(ok, ms) ← register_ports va (dual_buf_len a) ms;
      match (if (ok : bool) then Some ms else None), k with
      | Some ms, Some k => '(cs, _) ← exchange_ports a ms k; mret ((fun cs => (cs, ms)) <$> cs)
      | _, _ => mret None
      end
  end.

Lemma emits_after_start a va ms k : emits keeps_contexts (after_start a va ms k).
Proof. unfold after_start. pose proof emits_register_ports. pose proof emits_exchange_ports. destruct k; emit. Qed.

Lemma dual_setup_exchange {R} ctl a (is_client : bool) spawned va k (fail : R) (go : list UrmaConnection -> list manager -> ST sys R)
    s eids s0 ms s1 :
  dual_query_eids (dev_string a.(dev_name)) (dev_string a.(dev_name2)) s = (Some eids, s0) ->
  init_ports ctl a (if is_client then a.(Args.threads) else 1) spawned eids 0 s0 = ((true, ms), s1) ->
  with_ports ctl a is_client spawned va k fail go s =
    match after_start a va ms k s1 with
    | (Some (cs, ms), s2) => go cs ms s2
    | (None, s2) => (fail, s2)
    end.
Proof.
  intros Eq Ei. unfold with_ports, dual_setup, after_start. rewrite !ST_bind_eq, Eq. cbn [fst snd]. rewrite ST_bind_eq, Ei. cbn [fst snd negb].
  destruct va as [va|]; [|by destruct k]. rewrite !ST_bind_eq. destruct (register_ports va (dual_buf_len a) ms s1) as [[[] ms'] s2];
    cbn [fst snd mret ST_ret]; [|by destruct k].
  destruct k as [k|]; [|done]. rewrite !ST_bind_eq. by destruct (exchange_ports a ms' k s2) as [[[cs|] k'] s3].
Qed.

End failure.

(** C18: failures of dual mode after the four managers have been started: when
    the buffer cannot be allocated or registered on a port, the connection not
    made, a handshake not completed, or a worker not started, the process
    returns -1 with every context still there.  No context is deleted and the
    library is not left; whatever contexts were live stay live. *)
Theorem dual_failure_abandons `{Liburma} ctl a allocated2 spawned va k oks work s eids s0 ms s1 :
  dual_query_eids (dev_string a.(dev_name)) (dev_string a.(dev_name2)) s = (Some eids, s0) ->
  (init_ports ctl a a.(Args.threads) spawned eids 0 s0 = ((true, ms), s1) ->
   dr_rc (fst (run_dual_client ctl a true allocated2 spawned va k oks work s)) = -1 ->
   abandons s1 (snd (run_dual_client ctl a true allocated2 spawned va k oks work s))) /\
  (init_ports ctl a 1 spawned eids 0 s0 = ((true, ms), s1) ->
   fst (run_dual_server ctl a true spawned va k s) = -1 ->
   abandons s1 (snd (run_dual_server ctl a true spawned va k s))).
Proof.
  intros Eq. split; intros Ei.
  - unfold run_dual_client. cbn [negb]. rewrite (dual_setup_exchange ctl a true spawned va k _ _ s eids s0 ms s1 Eq Ei).
    pose proof (abandons_intro _ s1 (emits_after_start a va ms k)) as Hx.
    destruct (after_start a va ms k s1) as [[[cs ms']|] s2]; cbn [fst snd] in *; [|done].
    destruct allocated2; cbn [negb]; [|done]. destruct (start_dual_workers _ _ _ _) as [[] ws]; cbn [negb]; [|done].
    by rewrite !ST_bind_eq.
  - unfold run_dual_server. cbn [negb]. rewrite (dual_setup_exchange ctl a false spawned va k _ _ s eids s0 ms s1 Eq Ei).
    pose proof (abandons_intro _ s1 (emits_after_start a va ms k)) as Hx.
    destruct (after_start a va ms k s1) as [[[cs ms']|] s2]; cbn [fst snd] in *; [|done]. by rewrite !ST_bind_eq.
Qed.

(** ** The exchanges on one stream *)

Lemma read_loop_rest evs : forall want input acc, reads_ok evs -> reads_ok (snd (read_loop evs want input acc)).
Proof.
  unfold reads_ok. induction evs as [|e evs IH]; intros want input acc Hr; destruct want; simpl; try done.
  - by destruct (_ <? _)%nat.
  - apply not_elem_of_cons in Hr as [_ Hr]. destruct e as [n|[]]; [|by apply IH|done].
    match goal with |- context [if ?b then _ else _] => destruct b end; [done|by apply IH].
Qed.

Section pairing.
Context `{Liburma} (a : argument).

(** A manager that can take part in an exchange. *)
Definition port_ready (m : manager) : Prop := m.(mgr_localSeg_) <> 0 /\ Ctx m.(resource_) <> 0.

(** The messages that the ports send, each from the state at its turn. *)
Fixpoint published (ms : list manager) (k : sock) (s : sys) : list WireInfo :=
  match ms with
  | [] => []
  | m :: ms =>
      let r := Exchange (dual_params a) a.(import_rtp) m k s in
      fst (local_wire (dual_params a) m s) :: published ms (snd (fst r)) (snd r)
  end.

(** The socket after an exchange is ready for the next. *)
Lemma exchange_next params rtp m k s w rest :
  port_ready m -> arrives k w rest -> wire_ok (fst (local_wire params m s)) -> wire_ok w ->
  let k' := snd (fst (Exchange params rtp m k s)) in
  Z.of_nat wire_size <= k'.(s_write) /\ reads_ok k'.(s_reads).
Proof.
  intros [Hl Hc] [Hw Hr Hi] W W'. cbv zeta. unfold Exchange.
  destruct (Z.eqb_spec (mgr_localSeg_ m) nullptr); [done|]. destruct (Z.eqb_spec (Ctx (resource_ m)) nullptr); [done|]. simpl.
  rewrite ST_bind_eq.
  assert (Hk : Z.of_nat wire_size <= (snd (SockSyncData wire_size (wire_bytes (fst (local_wire params m s))) k)).(s_write) /\
    reads_ok (snd (SockSyncData wire_size (wire_bytes (fst (local_wire params m s))) k)).(s_reads)).
  { unfold SockSyncData. cbv zeta. destruct (Z.ltb_spec (s_write k) (Z.of_nat wire_size)); [lia|].
    pose proof (read_loop_rest (s_reads k) wire_size (s_in k) [] Hr) as Hrest.
    by destruct (read_loop _ _ _ _) as [[r i] evs]. }
  destruct (SockSyncData _ _ _) as [[bytes|] k']; [|done]. destruct (send_size_mismatch _ _); [done|]. by rewrite ST_bind_eq.
Qed.

Lemma exchange_ports_run ms : forall ws k s rest, Forall port_ready ms -> length ws = length ms ->
  Z.of_nat wire_size <= k.(s_write) -> reads_ok k.(s_reads) -> k.(s_in) = concat (wire_bytes <$> ws) ++ rest ->
  Forall wire_ok ws -> Forall wire_ok (published ms k s) ->
  forall cs k' s', exchange_ports a ms k s = ((Some cs, k'), s') ->
    peer <$> cs = peer_of <$> ws /\ k'.(s_in) = rest /\
    k'.(s_out) = k.(s_out) ++ concat (wire_bytes <$> published ms k s) /\
    Forall (fun w => send_size_mismatch (dual_params a) w = false) ws.
Proof.
  induction ms as [|m ms IH]; intros [|w ws] k s rest; try done.
  - intros _ _ _ _ Hi _ _ cs k' s' [= <- <- <-]. simpl in *. by rewrite app_nil_r.
  - intros Hms Hlen Hw Hr Hi Hws Hpub cs k' s'. inversion Hms as [|? ? Hm Hms']; inversion Hws as [|? ? Ww Hws'];
      inversion Hpub as [|? ? Wm Hpub']; subst. simpl in Hi. rewrite <- app_assoc in Hi.
    assert (Har : arrives k w (concat (wire_bytes <$> ws) ++ rest)) by by split.
    destruct (exchange_run (dual_params a) (import_rtp a) m k s w _ (proj1 Hm) (proj2 Hm) Har Wm Ww) as (Ho & Hin & _ & Hp).
    destruct (exchange_next (dual_params a) (import_rtp a) m k s w _ Hm Har Wm Ww) as (Hw' & Hr').
    simpl. rewrite ST_bind_eq. destruct (Exchange (dual_params a) (import_rtp a) m k s) as [[[c|] k1] s1] eqn:E; [|done].
    cbn [fst snd] in *. destruct (proj1 Hp c eq_refl) as [Hm0 Hpeer]. rewrite ST_bind_eq.
    destruct (exchange_ports a ms k1 s1) as [[[cs1|] k2] s2] eqn:E2; [|done]. cbn [fst snd mret ST_ret]. intros [= <- <- <-].
    destruct (IH ws k1 s1 rest Hms' ltac:(simpl in Hlen; lia) Hw' Hr' Hin Hws' Hpub' _ _ _ E2) as (H1 & H2 & H3 & H4).
    csimpl. rewrite H1, H2, H3, Ho, Hpeer, <- app_assoc. repeat split; try done. by constructor.
Qed.

End pairing.

(** C13: the four handshakes of dual mode share one TCP connection.  When the
    peer's messages arrive on it one after the other, in any pieces and with any
    interruptions, and all ports get a connection, the connection of port [p]
    describes the peer's port [p]; exactly the four messages are consumed, the
    local ports' messages have been sent in their order, and no peer port asked
    for another send size. *)
Theorem dual_ports_paired `{Liburma} a ms ws k s rest cs k' s' :
  Forall port_ready ms -> length ws = length ms ->
  Z.of_nat wire_size <= k.(s_write) -> reads_ok k.(s_reads) -> k.(s_in) = concat (wire_bytes <$> ws) ++ rest ->
  Forall wire_ok ws -> Forall wire_ok (published a ms k s) ->
  exchange_ports a ms k s = ((Some cs, k'), s') ->
  (forall p c w, cs !! p = Some c -> ws !! p = Some w -> c.(peer) = peer_of w) /\ length cs = length ms /\
  k'.(s_in) = rest /\ k'.(s_out) = k.(s_out) ++ concat (wire_bytes <$> published a ms k s) /\
  Forall (fun w => w.(w_send_size) = 0 \/ u32 a.(send_size) = 0 \/ w.(w_send_size) = u32 a.(send_size)) ws.
Proof.
  intros Hms Hlen Hw Hr Hi Hws Hpub E.
  destruct (exchange_ports_run a ms ws k s rest Hms Hlen Hw Hr Hi Hws Hpub cs k' s' E) as (Hp & Hin & Ho & Hm).
  split; [|split; [|split; [done|split; [done|]]]].
  - intros p c w Hc Hpw. apply (f_equal (.!! p)) in Hp. rewrite !list_lookup_fmap, Hc, Hpw in Hp. by injection Hp.
  - apply (f_equal length) in Hp. rewrite !length_fmap in Hp. lia.
  - eapply Forall_impl; [|exact Hm]. intros w. unfold send_size_mismatch, dual_params. cbn [sendSize].
    destruct (Z.eqb_spec (u32 (send_size a)) 0); [tauto|]. destruct (Z.eqb_spec (w_send_size w) 0); [tauto|].
    destruct (Z.eqb_spec (w_send_size w) (u32 (send_size a))); [tauto|done].
Qed.

(** ** The order in which the ports end *)

Section ending.
Context `{Liburma}.

Definition any_call (c : lib_call) : Prop := True.
#[local] Hint Extern 1 (any_call _) => exact I : emits.

Lemma emits_drop_jettys ls : emits any_call (drop_jettys ls).
Proof. induction ls as [|l ls IH]; simpl; emit. Qed.
#[local] Hint Resolve emits_drop_jettys : emits.

Lemma emits_clear_members r : emits any_call (clear_members r).
Proof. unfold clear_members, del_jfc, del_jfce. emit. Qed.
#[local] Hint Resolve emits_clear_members : emits.

Lemma emits_Clear r : emits any_call (Clear r).
Proof. unfold Clear, del_context. emit. Qed.
#[local] Hint Resolve emits_Clear : emits.

Lemma emits_Stop m : emits any_call (Stop m).
Proof. unfold Stop. cbv zeta. emit. Qed.
#[local] Hint Resolve emits_Stop : emits.

Lemma emits_destroy_manager m : emits any_call (destroy_manager m).
Proof. unfold destroy_manager. emit. Qed.

Lemma emits_destroy_conn c : emits any_call (destroy_conn c).
Proof. unfold destroy_conn, del_target. emit. Qed.
#[local] Hint Resolve emits_destroy_manager emits_destroy_conn : emits.

(** [Stop] deletes the context, then leaves the library. *)
Lemma Stop_calls m x s : m.(initialized_) = true -> m.(resource_).(context_) = Some x ->
  exists t1 a1 t2 a2, trace (snd (Stop m s)) = trace s ++ t1 ++ (urma_delete_context x, a1) :: t2 ++ [(urma_uninit, a2)].
Proof.
  intros Ei Ex. unfold Stop. rewrite Ei. cbv zeta. rewrite ST_bind_eq. cbn [resource_ UrmaManager.set_events set_flags].
  unfold Clear. rewrite ST_bind_eq. destruct (emits_clear_members (resource_ m) s) as (t1 & E1 & _).
  set (s1 := snd (clear_members (resource_ m) s)) in *. rewrite Ex. unfold del_context. rewrite !ST_bind_eq. cbn [fst snd mret ST_ret].
  set (s2 := snd (call (urma_delete_context x) s1)).
  assert (E2 : trace s2 = trace s1 ++ [(urma_delete_context x, answer (trace s1) (urma_delete_context x))]) by done.
  fold s1 s2. match goal with |- context [drop_lseg ?l s2] => destruct (emits_drop_lseg any_call l (fun _ => I) s2) as (t2 & E3 & _);
    set (s3 := snd (drop_lseg l s2)) in * end.
  exists t1, (answer (trace s1) (urma_delete_context x)), t2, (answer (trace s3) urma_uninit).
  change (trace s3 ++ [(urma_uninit, answer (trace s3) urma_uninit)] =
    trace s ++ t1 ++ (urma_delete_context x, answer (trace s1) (urma_delete_context x)) :: t2 ++ [(urma_uninit, answer (trace s3) urma_uninit)]).
  rewrite E3 at 1. rewrite E2, E1. by rewrite <- !app_assoc.
Qed.

(** Every port's context is among what [end_ports] deletes. *)
Lemma end_ports_calls ports : forall s, exists tr, trace (snd (end_ports ports s)) = trace s ++ tr /\
  forall c m x, (c, m) ∈ ports -> m.(initialized_) = true -> m.(resource_).(context_) = Some x ->
    urma_delete_context x ∈ fst <$> tr.
Proof.
  induction ports as [|[c m] ports IH]; intros s; simpl.
  - exists []. rewrite app_nil_r. split; [done|]. intros c m x Hin. by apply not_elem_of_nil in Hin.
  - rewrite !ST_bind_eq. destruct (emits_destroy_conn c s) as (t0 & E0 & _). set (s0 := snd (destroy_conn c s)) in *.
    destruct (emits_Stop m s0) as (t1 & E1 & _). pose proof (Stop_calls m) as HS. specialize (HS).
    set (s1 := snd (Stop m s0)) in *. destruct (emits_destroy_manager (fst (Stop m s0)) s1) as (t2 & E2 & _).
    destruct (IH (snd (destroy_manager (fst (Stop m s0)) s1))) as (t3 & E3 & H3).
    exists (t0 ++ t1 ++ t2 ++ t3). split; [by rewrite E3, E2, E1, E0, <- !app_assoc|].
    intros c' m' x Hin Hi Hx. rewrite !fmap_app, !elem_of_app. apply elem_of_cons in Hin as [[= -> ->]|Hin]; [|by eauto].
    right. left. destruct (HS x s0 Hi Hx) as (u1 & a1 & u2 & a2 & Eu). fold s1 in Eu. rewrite E1 in Eu. apply app_inv_head in Eu as ->.
    rewrite fmap_app. csimpl. set_solver.
Qed.

Lemma after_uninit_app tr1 r tr2 c : c ∈ fst <$> tr2 -> c ∈ after_uninit (tr1 ++ (urma_uninit, r) :: tr2).
Proof.
  intros Hc. induction tr1 as [|[d a] tr1 IH]; simpl; [done|].
  destruct d; try exact IH. rewrite fmap_app. csimpl. set_solver.
Qed.

End ending.

(** C19: the end of a dual-mode process, client or server, whose managers were
    all started: [Stop] of port 0 leaves the library ([urma_uninit]) while the
    contexts of the other three ports are still open; each of them is deleted
    after it. *)
Theorem dual_library_left_early `{Liburma} c m rest s x :
  m.(initialized_) = true -> m.(resource_).(context_) = Some x ->
  forall c' m' x', (c', m') ∈ rest -> m'.(initialized_) = true -> m'.(resource_).(context_) = Some x' ->
    urma_delete_context x' ∈ after_uninit (trace (snd (end_ports ((c, m) :: rest) s))).
Proof.
  intros Hi Hx c' m' x' Hin Hi' Hx'. cbn [end_ports]. rewrite !ST_bind_eq.
  destruct (Stop_calls m x (snd (destroy_conn c s)) Hi Hx) as (t1 & a1 & t2 & a2 & E1).
  destruct (emits_destroy_manager (fst (Stop m (snd (destroy_conn c s)))) (snd (Stop m (snd (destroy_conn c s))))) as (t3 & E3 & _).
  match goal with |- context [snd (end_ports rest ?s)] => destruct (end_ports_calls rest s) as (t4 & E4 & H4) end.
  rewrite E4, E3, E1.
  match goal with |- _ ∈ after_uninit (((?t0 ++ _) ++ _) ++ _) =>
    replace (((t0 ++ t1 ++ (urma_delete_context x, a1) :: t2 ++ [(urma_uninit, a2)]) ++ t3) ++ t4)
      with ((t0 ++ t1 ++ (urma_delete_context x, a1) :: t2) ++ (urma_uninit, a2) :: (t3 ++ t4)) by (rewrite <- !app_assoc; simpl; by rewrite <- !app_assoc)
  end.
  apply after_uninit_app. rewrite fmap_app, elem_of_app. right. by eapply H4.
Qed.

(** ** The summary *)

Lemma dual_counters_sum ws b o e :
  foldl (fun '(bytes, ops, errors) w => (bytes +u64 w.(d_bytes), ops +u64 w.(d_ops), errors +u64 w.(d_errors)))
    (u64 b, u64 o, u64 e) ws =
  (u64 (b + sumZ (d_bytes <$> ws)), u64 (o + sumZ (d_ops <$> ws)), u64 (e + sumZ (d_errors <$> ws))).
Proof.
  revert b o e. induction ws as [|w ws IH]; intros b o e; csimpl; [by rewrite !Z.add_0_r|].
  assert (Ha : forall x y, u64 x +u64 y = u64 (x + y)) by (intros x y; unfold u64; by rewrite Zplus_mod_idemp_l).
  rewrite !Ha, IH. by rewrite <- !Z.add_assoc.
Qed.

(** The summary of dual mode shows the sums of the workers' counters, and its
    latency lines are those of histograms that hold the samples of all workers,
    each once. *)
Theorem dual_summary_merges ws seconds req post :
  workers_hold new_geom d_hist_req ws req -> workers_hold new_geom d_hist_post ws post -> fits req -> fits post ->
  let su := dual_print_summary ws seconds true true in
  ds_rounds su = u64 (sumZ (d_ops <$> ws)) /\ ds_bytes su = u64 (sumZ (d_bytes <$> ws)) /\
  ds_errors su = u64 (sumZ (d_errors <$> ws)) /\
  exists hr hp, exact new_geom hr (concat req) /\ exact new_geom hp (concat post) /\
    ds_request_line su = print_latency_line_us hr /\
    ds_post_line su = if decide (concat post = []) then None else Some (print_latency_line_us hp).
Proof.
  intros Hr Hp Fr Fp. cbv zeta. unfold dual_print_summary, dual_counters. destruct new_hist_exact as [_ Hx].
  revert Hr Hp Hx. generalize (snd (new_hist true)) as h, new_geom as g. intros h g Hr Hp Hx. cbv zeta.
  rewrite (dual_counters_sum ws 0 0 0 : foldl _ (0, 0, 0) ws = _). cbv beta iota. cbn [ds_rounds ds_bytes ds_errors ds_request_line ds_post_line].
  do 3 (split; [done|]). exists (merge_into d_hist_req h ws), (merge_into d_hist_post h ws).
  pose proof (merge_into_exact _ _ _ _ _ _ Hx Hr Fr) as Xr. pose proof (merge_into_exact _ _ _ _ _ _ Hx Hp Fp) as Xp.
  split; [done|]. split; [done|]. split; [done|]. rewrite (holds_total _ _ _ (exact_holds _ _ _ Xp)). simpl.
  destruct (concat post) as [|x l]; [by rewrite decide_True|]. rewrite decide_False by done. done.
Qed.

(** A worker's bytes over one second are divided by 10^9 once more than in the
    final summary: 100 GB in a second are shown as less than 0.005 MB/s, which
    is printed as 0.00. *)
Theorem dual_interval_unit :
  SFltb (dual_interval_bw 100000000000 0) (literal 5 1000) = true /\
  SFeqb (ds_mb_s (dual_print_summary [mk_dual (fun _ => 0) (fun _ => 0) zeroed_hist zeroed_hist 1 100000000000 0 0 false]
    (double_of_Z 1) true true)) (double_of_Z 100000) = true.
Proof. by vm_compute. Qed.

(** ** Examples *)

(** A library whose devices have two addresses. *)
Definition two_eids (L : Liburma) : Liburma := {|
  answer := @answer L; device_name := @device_name L; device_attr := @device_attr L;
  eid_list_len := fun _ _ => 2; eid_list_index := @eid_list_index L; ctx_eid := @ctx_eid L; ctx_uasid := @ctx_uasid L;
  jetty_id_of := @jetty_id_of L; jetty_id_id := @jetty_id_id L; tseg_seg := @tseg_seg L;
  sizeof_eid := @sizeof_eid L; sizeof_jetty_id := @sizeof_jetty_id L; URMA_EINVAL := @URMA_EINVAL L |}.

Definition demo_two : argument := set_dual_dev true (set_dev_name2 (Some (lit "bonding1")) demo_write).

Definition demo_two_lib : Liburma := two_eids demo_ok.

(** A process with its four ports and the buffer. *)
Definition demo_ports : list manager * sys :=
  let '(ms, s) := @dual_setup demo_two_lib true demo_two true true (Some 4096) empty_sys in (default [] ms, s).

(** The messages of four such ports. *)
Definition demo_port_wire (hj : Z * Z) : WireInfo :=
  mk_wire (replicate 16 (fst hj)) 9 4096 16777216 7 0 (replicate 20 (snd hj)) 1 0 4194304 255 8388608 (0, 0).
Definition demo_peers : list WireInfo := demo_port_wire <$> [(233, 239); (240, 246); (247, 253); (254, 4)].

Definition demo_stream : sock :=
  mk_sock (concat (wire_bytes <$> demo_peers)) [ReadUpTo 7; ReadError true; ReadUpTo 100] 1000 [].

Definition demo_exchanged : option (list UrmaConnection) * sock * sys :=
  @exchange_ports demo_two_lib demo_two (fst demo_ports) demo_stream (snd demo_ports).

Lemma demo_port_wire_ok h j : @wire_ok demo_two_lib (demo_port_wire (h, j)).
Proof. split; [done|done| |by split]. simpl. repeat (constructor; [done|]). constructor. Qed.

Lemma demo_peers_ok : Forall (@wire_ok demo_two_lib) demo_peers.
Proof. repeat (constructor; [apply demo_port_wire_ok|]). constructor. Qed.

Lemma demo_published : @published demo_two_lib demo_two (fst demo_ports) demo_stream (snd demo_ports) = demo_peers.
Proof. by vm_compute. Qed.

Lemma demo_ports_ready : Forall port_ready (fst demo_ports).
Proof. vm_compute. repeat (constructor; [by split|]). constructor. Qed.

Lemma demo_stream_ok : Z.of_nat (@wire_size demo_two_lib) <= s_write demo_stream /\ reads_ok (s_reads demo_stream).
Proof. split; [by vm_compute|]. unfold reads_ok, demo_stream. cbn [s_reads]. set_solver. Qed.

Lemma demo_exchanged_some : length <$> fst (fst demo_exchanged) = Some 4%nat.
Proof. by vm_compute. Qed.

Lemma dual_ports_paired_witness :
  exists cs, fst (fst demo_exchanged) = Some cs /\ length cs = 4%nat /\ s_in (snd (fst demo_exchanged)) = [].
Proof.
  destruct demo_exchanged as [[[cs|] k'] s'] eqn:E; [|pose proof demo_exchanged_some as D; by rewrite E in D].
  exists cs. split; [reflexivity|].
  destruct (@dual_ports_paired demo_two_lib demo_two (fst demo_ports) demo_peers demo_stream (snd demo_ports) [] cs k' s'
    demo_ports_ready (f_equal (@length manager) (eq_refl (fst demo_ports))) (proj1 demo_stream_ok) (proj2 demo_stream_ok)
    (eq_sym (app_nil_r _)) demo_peers_ok (eq_ind_r _ demo_peers_ok demo_published) E) as (_ & H2 & H3 & _).
  split; [rewrite H2; by vm_compute|exact H3].
Defined.

Definition demo_port (p : nat) : manager := default new_manager (fst demo_ports !! p).
Definition demo_idle : UrmaConnection := mk_conn (@peer_of demo_two_lib (demo_port_wire (0, 0))) None 0.

Lemma demo_port_open p x : In (p, x) [(0%nat, 1001); (1%nat, 1008); (2%nat, 1015); (3%nat, 1022)] ->
  initialized_ (demo_port p) = true /\ context_ (resource_ (demo_port p)) = Some x.
Proof. intros [[= <- <-]|[[= <- <-]|[[= <- <-]|[[= <- <-]|[]]]]]; by vm_compute. Qed.

Lemma dual_library_left_early_witness :
  urma_delete_context 1022 ∈ after_uninit (trace (snd (@end_ports demo_two_lib ((demo_idle, demo_port 0) ::
    [(demo_idle, demo_port 1); (demo_idle, demo_port 2); (demo_idle, demo_port 3)]) (snd demo_ports)))).
Proof.
  destruct (demo_port_open 0 1001 ltac:(simpl; tauto)) as [H1 H2]. destruct (demo_port_open 3 1022 ltac:(simpl; tauto)) as [H3 H4].
  refine (@dual_library_left_early demo_two_lib demo_idle (demo_port 0) _ (snd demo_ports) 1001 H1 H2 demo_idle (demo_port 3) 1022 _ H3 H4).
  do 2 apply list_elem_of_further. apply list_elem_of_here.
Defined.

(** The third registration fails. *)
Definition demo_lost : Liburma := two_eids (demo_lib [52%nat] []).
Definition demo_eids : option (list Z) * sys :=
  @dual_query_eids demo_lost (dev_string (dev_name demo_two)) (dev_string (dev_name2 demo_two)) empty_sys.
Definition demo_four : bool * list manager * sys :=
  @init_ports demo_lost true demo_two (Args.threads demo_two) true (default [] (fst demo_eids)) 0 (snd demo_eids).
Definition no_dual_work (cs : list UrmaConnection) (ws : list dual_worker) (ms : list manager) : ST sys dual_work :=
  mret (mk_dwork 0 [] ws 0 (true, true) ms).
Definition demo_lost_run : dual_run * sys :=
  @run_dual_client demo_lost true demo_two true true true (Some 4096) (Some demo_stream) [] no_dual_work empty_sys.

Lemma demo_lost_eids : demo_eids = (Some (default [] (fst demo_eids)), snd demo_eids).
Proof. by vm_compute. Qed.
Lemma demo_lost_four : demo_four = (true, snd (fst demo_four), snd demo_four).
Proof. by vm_compute. Qed.
Lemma demo_lost_rc : dr_rc (fst demo_lost_run) = -1.
Proof. by vm_compute. Qed.

Lemma dual_failure_abandons_witness : abandons (snd demo_four) (snd demo_lost_run).
Proof.
  exact (proj1 (@dual_failure_abandons demo_lost true demo_two true true (Some 4096) (Some demo_stream) [] no_dual_work
    empty_sys _ _ _ _ demo_lost_eids) demo_lost_four demo_lost_rc).
Defined.

(** It returns with thirty live handles, four contexts among them. *)
Example demo_lost_live : (fun live : live_map => size live) <$> audit (trace (snd demo_lost_run)) = Some 30%nat.
Proof. by vm_compute. Qed.
