(* ===== verification/Getopt.v ===== *)
(** * Getopt: the option table of [src/kv_bench.cpp] and [getopt_long]

    [g_long_options] with its entries, the scan of a command line by
    [getopt_long] (GNU order: operands are moved behind the options) as
    [parse_arguments] calls it, and [parse_arguments] on the words of the
    command line.  The theorem: every parameter set that the program accepts
    can be written as a command line, and that command line is read back as
    exactly this set. *)

From Stdlib Require Import Ascii.
From Stdlib Require String.
Import String.StringSyntax.
From S2P Require Import Prelude Args.
From stdpp Require Import list.
#[local] Open Scope Z_scope.

(** ** The table *)

Inductive has_arg := no_argument | required_argument.

#[export] Instance has_arg_eq_dec : EqDecision has_arg.
Proof. solve_decision. Defined.

Record long_option := mk_option { lo_name : cstr; lo_arg : has_arg; lo_val : Z }.

Definition g_long_options : list long_option :=
  [ mk_option (lit "trans-mode") required_argument 109;
    mk_option (lit "dev-name") required_argument 100;
    mk_option (lit "server-ip") required_argument 105;
    mk_option (lit "server-port") required_argument 112;
    mk_option (lit "event-mode") no_argument 101;
    mk_option (lit "value-size") required_argument 1000;
    mk_option (lit "send-size") required_argument 1035;
    mk_option (lit "chip-weight") required_argument 1036;
    mk_option (lit "qps") required_argument 1001;
    mk_option (lit "duration") required_argument 1002;
    mk_option (lit "jetty-count") required_argument 1003;
    mk_option (lit "affinity-mode") required_argument 1004;
    mk_option (lit "source-cpus") required_argument 1005;
    mk_option (lit "destination-cpus") required_argument 1006;
    mk_option (lit "cacheable") no_argument 1007;
    mk_option (lit "threads") required_argument 1008;
    mk_option (lit "op") required_argument 1009;
    mk_option (lit "mixed-ratio") required_argument 1010;
    mk_option (lit "report-interval") required_argument 1012;
    mk_option (lit "mbind") no_argument 1015;
    mk_option (lit "no-mbind") no_argument 1031;
    mk_option (lit "drv-ext") no_argument 1019;
    mk_option (lit "no-drv-ext") no_argument 1030;
    mk_option (lit "import-rtp") no_argument 1023;
    mk_option (lit "seed") required_argument 1016;
    mk_option (lit "fixed-offset") no_argument 1017;
    mk_option (lit "timeout-ms") required_argument 1018;
    mk_option (lit "query-chips") no_argument 1024;
    mk_option (lit "concurrency") required_argument 1025;
    mk_option (lit "poll-cpu") required_argument 1032;
    mk_option (lit "dual-dev") no_argument 1033;
    mk_option (lit "dev-name2") required_argument 1034;
    mk_option (lit "single-chip") required_argument 1026 ].

(** The short options, "m:d:i:p:e". *)
Definition short_options : list (ascii * has_arg) :=
  [("m"%char, required_argument); ("d"%char, required_argument); ("i"%char, required_argument);
   ("p"%char, required_argument); ("e"%char, no_argument)].

(** ** [getopt_long] *)

(** What it returns for anything it cannot make sense of. *)
Definition BAD_OPTION : Z := 63.

(** The entry a name stands for: the one of that name, or else the only one
    that the name abbreviates. *)
Definition find_long (name : cstr) : option long_option :=
  match filter (fun o => lo_name o = name) g_long_options with
  | o :: _ => Some o
  | [] => match filter (fun o => name `prefix_of` lo_name o) g_long_options with [o] => Some o | _ => None end
  end.

Definition equals_sign : ascii := "="%char.

(** What a word starts: options that are complete, or one that takes the next
    word as its argument, after others that are complete. *)
Inductive word_result := Complete (opts : list (Z * cstr)) | Needs (opts : list (Z * cstr)) (c : Z).

(** The text after [--]. *)
Definition scan_long (body : cstr) : word_result :=
  let '(name, value) := match split_at equals_sign body with
                        | Some (name, value) => (name, Some value)
                        | None => (body, None)
                        end in
  match find_long name with
  | None => Complete [(BAD_OPTION, [])]
  | Some o =>
      match o.(lo_arg), value with
      | no_argument, None => Complete [(o.(lo_val), [])]
      | no_argument, Some _ => Complete [(BAD_OPTION, [])]
      | required_argument, Some v => Complete [(o.(lo_val), v)]
      | required_argument, None => Needs [] o.(lo_val)
      end
  end.

Definition find_short (c : ascii) : option has_arg :=
  match filter (fun o => fst o = c) short_options with o :: _ => Some (snd o) | [] => None end.

(** The text after a single dash: a cluster of short options. *)
Fixpoint scan_short (body : cstr) (done : list (Z * cstr)) : word_result :=
  match body with
  | [] => Complete done
  | c :: body =>
      match find_short c with
      | None => scan_short body (done ++ [(BAD_OPTION, [])])
      | Some no_argument => scan_short body (done ++ [(code c, [])])
      | Some required_argument =>
          match body with
          | [] => Needs done (code c)
          | _ => Complete (done ++ [(code c, body)])
          end
      end
  end.

(** The options of the words after the program's name, in their order, and
    whether operands are left in the end. *)
Fixpoint getopt_long (argv : list cstr) : list (Z * cstr) * bool :=
  match argv with
  | [] => ([], false)
  | word :: rest =>
      let result :=
        match word with
        | c :: (c' :: _) as body =>
            if decide (c = dash) then
              if decide (c' = dash) then
                match tail body with [] => None | long => Some (scan_long long) end
              else Some (scan_short body [])
            else Some (Complete [])
        | _ => Some (Complete [])
        end in
      let operand := match word with c :: _ :: _ => negb (bool_decide (c = dash)) | _ => true end in
      match result with
      | None => ([], negb (bool_decide (rest = [])))
      | Some (Complete opts) => let '(l, operands) := getopt_long rest in (opts ++ l, operand || operands)
      | Some (Needs opts c) =>
          match rest with
          | [] => (opts ++ [(BAD_OPTION, [])], false)
          | optarg :: rest => let '(l, operands) := getopt_long rest in (opts ++ (c, optarg) :: l, operands)
          end
      end
  end.

(** [parse_arguments(argc, argv, args)], the words without the program's name. *)
Definition parse_command_line (argv : list cstr) : option argument :=
  let '(opts, operands) := getopt_long argv in
  parse_arguments (1 + Z.of_nat (length argv)) opts operands.

(** ** Writing a command line *)

(** The words of an option, named as [usage] names it. *)
Definition value_words (name : cstr) (v : cstr) : list cstr := [dash :: dash :: name; v].
Definition text_words (name : cstr) (s : option cstr) : list cstr := match s with Some s => value_words name s | None => [] end.
Definition flag_words (name : cstr) (b : bool) : list cstr := if b then [dash :: dash :: name] else [].

(** A decimal number with its sign. *)
Definition sdec (n : Z) : cstr := if n <? 0 then dash :: dec (- n) [] else dec n [].

Definition mode_text (m : Z) : cstr :=
  if m =? AFF_AFFINITY then lit "affinity" else if m =? AFF_ANTI then lit "anti" else lit "none".
Definition op_text (x : Z) : cstr :=
  if x =? OP_WRITE then lit "write" else if x =? OP_GET then lit "get" else lit "mixed".

(** Every parameter, one option each. *)
Definition print_command_line (a : argument) : list cstr := concat
  [ text_words (lit "dev-name") a.(dev_name); text_words (lit "dev-name2") a.(dev_name2); flag_words (lit "dual-dev") a.(dual_dev);
    text_words (lit "server-ip") a.(server_ip); value_words (lit "server-port") (sdec a.(server_port));
    value_words (lit "trans-mode") (sdec a.(trans_mode)); flag_words (lit "event-mode") a.(event_mode);
    value_words (lit "value-size") (sdec a.(value_size)); value_words (lit "send-size") (sdec a.(send_size));
    value_words (lit "qps") (sdec a.(qps)); value_words (lit "duration") (sdec a.(duration_sec));
    value_words (lit "jetty-count") (sdec a.(jetty_count)); value_words (lit "affinity-mode") (mode_text a.(affinity_mode));
    text_words (lit "source-cpus") a.(source_cpus); text_words (lit "destination-cpus") a.(destination_cpus);
    flag_words (lit "cacheable") a.(cacheable); value_words (lit "threads") (sdec a.(threads));
    value_words (lit "concurrency") (sdec a.(concurrency)); value_words (lit "single-chip") (sdec a.(single_chip));
    value_words (lit "chip-weight") (dec (fst a.(chip_weight)) (":"%char :: dec (snd a.(chip_weight)) []));
    value_words (lit "poll-cpu") (sdec a.(poll_cpu)); value_words (lit "op") (op_text a.(op));
    value_words (lit "mixed-ratio") (sdec a.(mixed_ratio)); value_words (lit "report-interval") (sdec a.(report_interval));
    flag_words (if a.(Args.mbind) then lit "mbind" else lit "no-mbind") true;
    flag_words (if a.(drv_ext) then lit "drv-ext" else lit "no-drv-ext") true; flag_words (lit "import-rtp") a.(import_rtp);
    value_words (lit "seed") (sdec a.(seed)); flag_words (lit "fixed-offset") a.(fixed_offset);
    value_words (lit "timeout-ms") (sdec a.(timeout_ms)); flag_words (lit "query-chips") a.(query_chips) ].

(** *** The same by the codes of the table *)

Definition option_words (o : Z * cstr) : list cstr :=
  match filter (fun e => lo_val e = fst o) g_long_options with
  | e :: _ => (dash :: dash :: e.(lo_name)) ::
              match e.(lo_arg) with required_argument => [snd o] | no_argument => [] end
  | [] => []
  end.

Definition text_option (c : Z) (s : option cstr) : list (Z * cstr) := match s with Some s => [(c, s)] | None => [] end.
Definition flag_option (c : Z) (b : bool) : list (Z * cstr) := if b then [(c, [])] else [].

Definition print_options (a : argument) : list (list (Z * cstr)) :=
  [ text_option 100 a.(dev_name); text_option 1034 a.(dev_name2); flag_option 1033 a.(dual_dev);
    text_option 105 a.(server_ip); [(112, sdec a.(server_port))]; [(109, sdec a.(trans_mode))];
    flag_option 101 a.(event_mode); [(1000, sdec a.(value_size))]; [(1035, sdec a.(send_size))];
    [(1001, sdec a.(qps))]; [(1002, sdec a.(duration_sec))]; [(1003, sdec a.(jetty_count))];
    [(1004, mode_text a.(affinity_mode))]; text_option 1005 a.(source_cpus);
    text_option 1006 a.(destination_cpus); flag_option 1007 a.(cacheable); [(1008, sdec a.(threads))];
    [(1025, sdec a.(concurrency))]; [(1026, sdec a.(single_chip))];
    [(1036, dec (fst a.(chip_weight)) (":"%char :: dec (snd a.(chip_weight)) []))];
    [(1032, sdec a.(poll_cpu))]; [(1009, op_text a.(op))]; [(1010, sdec a.(mixed_ratio))];
    [(1012, sdec a.(report_interval))]; flag_option (if a.(Args.mbind) then 1015 else 1031) true;
    flag_option (if a.(drv_ext) then 1019 else 1030) true; flag_option 1023 a.(import_rtp);
    [(1016, sdec a.(seed))]; flag_option 1017 a.(fixed_offset); [(1018, sdec a.(timeout_ms))];
    flag_option 1024 a.(query_chips) ].

Lemma print_by_codes a : print_command_line a = concat (option_words <$> concat (print_options a)).
Proof.
  assert (E : forall gs, concat (option_words <$> concat gs) = concat ((fun g => concat (option_words <$> g)) <$> gs)).
  { induction gs as [|g gs IH]; [done|]. csimpl. by rewrite fmap_app, concat_app, IH. }
  rewrite E. unfold print_command_line, print_options. cbn [fmap list_fmap]. apply (f_equal (@concat cstr)).
  repeat (apply (f_equal2 (@cons (list cstr))); [first [done | match goal with |- text_words _ ?o = _ => by destruct o | |- flag_words (if ?b then _ else _) _ = _ => by destruct b
    | |- flag_words _ ?b = _ => by destruct b end]|]). done.
Qed.

(** ** The scan of written options *)

Lemma table_scan o : o ∈ g_long_options ->
  scan_long (lo_name o) = match lo_arg o with
                          | no_argument => Complete [(lo_val o, [])]
                          | required_argument => Needs [] (lo_val o)
                          end /\ lo_name o <> [].
Proof. intros H. unfold g_long_options in H. repeat (apply elem_of_cons in H as [->|H]; [by vm_compute|]). by apply elem_of_nil in H. Qed.

(** An option of the table, without an argument where it has none. *)
Definition writable (o : Z * cstr) : Prop :=
  exists e, e ∈ g_long_options /\ lo_val e = fst o /\ (lo_arg e = no_argument -> snd o = []).

Lemma vals_distinct : NoDup (lo_val <$> g_long_options).
Proof. apply (bool_decide_unpack _). by vm_compute. Qed.

Lemma val_unique x y : x ∈ g_long_options -> y ∈ g_long_options -> lo_val x = lo_val y -> x = y.
Proof.
  intros [i Hi]%list_elem_of_lookup [j Hj]%list_elem_of_lookup E.
  assert (i = j) as ->.
  { apply (NoDup_lookup _ i j (lo_val x) vals_distinct); rewrite list_lookup_fmap; [by rewrite Hi|by rewrite Hj, E]. }
  congruence.
Qed.

Lemma getopt_option o rest : writable o ->
  getopt_long (option_words o ++ rest) = (o :: fst (getopt_long rest), snd (getopt_long rest)).
Proof.
  destruct o as [c v]. intros (e & He & Ev & Hn). simpl in Ev, Hn. unfold option_words. simpl.
  destruct (filter (fun e => lo_val e = c) g_long_options) as [|e' l] eqn:Ef.
  { assert (H : e ∈ filter (fun e => lo_val e = c) g_long_options) by by apply list_elem_of_filter. rewrite Ef in H.
    by apply not_elem_of_nil in H. }
  assert (e' = e) as ->.
  { assert (H : e' ∈ filter (fun e => lo_val e = c) g_long_options) by (rewrite Ef; left).
    apply list_elem_of_filter in H as [E H]. apply val_unique; congruence. }
  destruct (table_scan e He) as [Hs Hne]. cbn [app getopt_long tail]. rewrite !decide_True by done.
  rewrite bool_decide_true by done. destruct (lo_name e) as [|c0 nm]; [done|].
  rewrite Hs, Ev. destruct (lo_arg e) eqn:Ea; cbn [app].
  - rewrite Hn by done. by destruct (getopt_long rest).
  - by destruct (getopt_long rest).
Qed.

Lemma getopt_options opts : Forall writable opts -> getopt_long (concat (option_words <$> opts)) = (opts, false).
Proof. induction 1 as [|o opts H _ IH]; [done|]. cbn. by rewrite getopt_option, IH. Qed.

(** ** The options of a parameter set *)

Lemma apply_options_app l1 l2 a : apply_options (l1 ++ l2) a = apply_options l1 a ≫= apply_options l2.
Proof.
  revert a. induction l1 as [|[c v] l1 IH]; intros a; [done|]. simpl. destruct (apply_option c v a); [apply IH|done].
Qed.

Lemma strto_zero rest : stops rest -> strto 10 (dec 0 rest) = Some (false, 0, rest).
Proof. intros. by apply strto_dec; [|done|left]. Qed.

(** A dash in front of a digit. *)
Lemma strto_dash base c s v rest : 48 <= code c -> strto base (c :: s) = Some (false, v, rest) ->
  strto base (dash :: c :: s) = Some (true, v, rest).
Proof.
  intros Hc. unfold strto. cbn [skip_spaces]. change (is_space dash) with false. cbv iota.
  change (code dash =? 45) with true. cbv iota. unfold is_space.
  destruct (Z.eqb_spec (code c) 32); [lia|]. destruct (Z.leb_spec (code c) 13); [lia|]. rewrite andb_false_r. cbn [orb]. cbv iota.
  destruct (Z.eqb_spec (code c) 45); [lia|]. destruct (Z.eqb_spec (code c) 43); [lia|].
  repeat case_match; intros; by simplify_eq/=.
Qed.

(** Decimal numbers in base 0 (0 itself is read in base 8). *)
Lemma strto_sdec n : strto 0 (sdec n) = Some (n <? 0, Z.abs n, []).
Proof.
  unfold sdec. destruct (Z.ltb_spec n 0) as [H|H].
  - rewrite Z.abs_neq by lia. pose proof (strto_dec 0 (- n) [] ltac:(lia) I ltac:(right; lia)) as HD.
    destruct (dec_head (- n) [] ltac:(lia)) as (d & l & E & Hd & _). rewrite E in *. apply strto_dash; [|done].
    rewrite code_ascii; lia.
  - rewrite Z.abs_eq by done. destruct (Z.eq_dec n 0) as [->|]; [by vm_compute|]. apply strto_dec; [done|done|right; lia].
Qed.

Lemma strtoull_sdec n : is_u64 n -> strtoull 0 (sdec n) = n.
Proof.
  intros [H1 H2]. unfold strtoull. rewrite strto_sdec, Z.abs_eq by done. unfold UINT64_MAX.
  destruct (Z.ltb_spec n 0), (Z.ltb_spec (2 ^ 64 - 1) n); lia.
Qed.

Lemma read_u32 n : is_u32 n -> u32 (strtoull 0 (sdec n)) = n.
Proof. intros H. unfold is_u32 in H. rewrite strtoull_sdec, u32_small; [done|lia|unfold is_u64; lia]. Qed.

Lemma read_i32 n : - 2 ^ 31 <= n < 2 ^ 31 -> i32 (strtol 0 (sdec n)) = n.
Proof.
  intros H. unfold strtol. rewrite strto_sdec. destruct (Z.ltb_spec n 0); rewrite i32_small; lia.
Qed.

Lemma read_size n : is_u64 n -> parse_size (sdec n) = n.
Proof. intros H. unfold parse_size. rewrite strto_sdec. by apply strtoull_sdec. Qed.

Lemma read_weights w1 w2 : is_u32 w1 -> is_u32 w2 ->
  scan_weights (dec w1 (":"%char :: dec w2 [])) = Some (w1, w2).
Proof.
  intros H1 H2. unfold is_u32 in *. unfold scan_weights, scan_u.
  rewrite strto_dec, strtoull_dec by (first [lia | done | by left]). change (code ":" =? 58) with true. cbv iota.
  rewrite strto_dec, strtoull_dec by (first [lia | done | by left]). by rewrite !u32_small.
Qed.

Lemma opts_text c o a f : (forall s, apply_option c s a = Some (f (Some s))) -> f None = a ->
  apply_options (text_option c o) a = Some (f o).
Proof. intros H E. destruct o as [s|]; simpl; [by rewrite H|by rewrite E]. Qed.

Lemma opts_flag c b a f : apply_option c [] a = Some (f true) -> f false = a -> apply_options (flag_option c b) a = Some (f b).
Proof. intros H E. destruct b; simpl; [by rewrite H|by rewrite E]. Qed.

Lemma opts_switch c c' (b : bool) a f : apply_option c [] a = Some (f true) -> apply_option c' [] a = Some (f false) ->
  apply_options (flag_option (if b then c else c') true) a = Some (f b).
Proof. intros H H'. destruct b; simpl; by rewrite ?H, ?H'. Qed.

Lemma opts_one c v a a' : apply_option c v a = Some a' -> apply_options [(c, v)] a = Some a'.
Proof. intros H. simpl. by rewrite H. Qed.

(** The members in the range of their C types that [typed] leaves out. *)
Record typed_rest (a : argument) : Prop := {
  ty_port : is_u32 a.(server_port);
  ty_report : is_u32 a.(report_interval);
  ty_poll : - 2 ^ 31 <= a.(poll_cpu) < 2 ^ 31;
  ty_timeout : - 2 ^ 31 <= a.(timeout_ms) < 2 ^ 31;
}.

Lemma read_group g gs a a' : apply_options g a = Some a' ->
  apply_options (concat (g :: gs)) a = apply_options (concat gs) a'.
Proof. intros E. cbn [concat]. by rewrite apply_options_app, E. Qed.

(** One group of options has been read; [lem] says what it does to the member
    that [set] assigns. *)
Ltac step_group lem :=
  rewrite (read_group _ _ _ _ lem);
  match goal with |- apply_options ?l ?a = ?r => let a' := eval cbn in a in change (apply_options l a' = r) end.
Ltac read_text set :=
  match goal with |- apply_options (concat (text_option ?c ?o :: _)) ?a = _ =>
    step_group (opts_text c o a (fun x => set x a) (fun s => eq_refl) eq_refl) end.
Ltac read_flag set :=
  match goal with |- apply_options (concat (flag_option ?c ?o :: _)) ?a = _ =>
    step_group (opts_flag c o a (fun x => set x a) eq_refl eq_refl) end.
Ltac read_switch set :=
  match goal with |- apply_options (concat (flag_option (if ?o then ?c else ?c') true :: _)) ?a = _ =>
    step_group (opts_switch c c' o a (fun x => set x a) eq_refl eq_refl) end.
Ltac read_value set v tac :=
  match goal with |- apply_options (concat ([(?c, ?s)] :: _)) ?a = _ =>
    let H := fresh in assert (H : apply_option c s a = Some (set v a)) by (cbv [apply_option Z.eqb Pos.eqb]; tac; done);
    step_group (opts_one c s a (set v a) H); clear H end.

Lemma options_roundtrip a : valid a -> typed_rest a ->
  apply_options (concat (print_options a)) default_args = Some a.
Proof.
  intros [T _ _ _ _ _ _ _ _ Hc Hs _ _ Ho _ _] [R1 R2 R3 R4]. destruct T. unfold KV_MAX_CONCURRENCY in *.
  destruct a as [dev dev2 dual ip port tm em vs ss q dur jc am src dst ca th co sc [w1 w2] pc o mr ri mb dx rtp sd fo tms qc].
  cbn in * |-. unfold print_options, default_args.
  cbn [dev_name dev_name2 dual_dev server_ip server_port trans_mode event_mode value_size send_size qps duration_sec
    jetty_count affinity_mode source_cpus destination_cpus cacheable threads concurrency single_chip chip_weight poll_cpu op
    mixed_ratio report_interval Args.mbind drv_ext import_rtp seed fixed_offset timeout_ms query_chips fst snd].
  read_text set_dev_name. read_text set_dev_name2. read_flag set_dual_dev. read_text set_server_ip.
  read_value set_server_port port ltac:(rewrite read_u32). read_value set_trans_mode tm ltac:(rewrite read_u32).
  read_flag set_event_mode. read_value set_value_size vs ltac:(rewrite read_size).
  read_value set_send_size ss ltac:(rewrite read_size).
  read_value set_qps q ltac:(rewrite strtoull_sdec). read_value set_duration_sec dur ltac:(rewrite strtoull_sdec).
  read_value set_jetty_count jc ltac:(rewrite read_u32).
  read_value set_affinity_mode am ltac:(assert (am = 0 \/ am = 1 \/ am = 2) as [-> | [-> | ->]] by lia).
  read_text set_source_cpus. read_text set_destination_cpus. read_flag set_cacheable.
  read_value set_threads th ltac:(rewrite read_u32).
  read_value set_concurrency co ltac:(rewrite read_i32 by lia). read_value set_single_chip sc ltac:(rewrite read_i32 by lia).
  read_value set_chip_weight (w1, w2) ltac:(rewrite read_weights).
  read_value set_poll_cpu pc ltac:(rewrite read_i32).
  read_value set_op o ltac:(destruct Ho as [-> | [-> | ->]]).
  read_value set_mixed_ratio mr ltac:(rewrite read_u32). read_value set_report_interval ri ltac:(rewrite read_u32).
  read_switch set_mbind. read_switch set_drv_ext. read_flag set_import_rtp.
  read_value set_seed sd ltac:(rewrite read_u32). read_flag set_fixed_offset.
  read_value set_timeout_ms tms ltac:(rewrite read_i32). read_flag set_query_chips. done.
Qed.

Definition codes (p : long_option -> Prop) `{forall o, Decision (p o)} : list Z := lo_val <$> filter p g_long_options.

Lemma writable_value c v : c ∈ codes (fun o => lo_arg o = required_argument) -> writable (c, v).
Proof.
  intros (e & -> & [Ea He]%list_elem_of_filter)%list_elem_of_fmap. exists e. split; [done|]. split; [done|]. congruence.
Qed.

Lemma writable_flag c b : c ∈ lo_val <$> g_long_options -> Forall writable (flag_option c b).
Proof. intros (e & -> & He)%list_elem_of_fmap. destruct b; repeat constructor. by exists e. Qed.

Lemma writable_text c s : c ∈ codes (fun o => lo_arg o = required_argument) -> Forall writable (text_option c s).
Proof. intros H. destruct s; repeat constructor. by apply writable_value. Qed.

(** A number is in a concrete list. *)
Ltac in_table := apply (bool_decide_unpack _); by vm_compute.

Lemma print_writable a : Forall writable (concat (print_options a)).
Proof.
  apply Forall_concat. unfold print_options.
  repeat (apply Forall_cons_2;
    [first [apply writable_text; in_table | apply Forall_singleton, writable_value; in_table
           | apply writable_flag; case_match; in_table | apply writable_flag; in_table]|]).
  done.
Qed.

(** C12: command lines.  Every parameter set that the program accepts can be
    given on the command line: the words that name each parameter with its long
    option, as [usage] lists them, are read by [getopt_long], the option switch and the checks as
    exactly this set, whatever the texts of the device names, the address and
    the CPU lists are. *)
Theorem command_line_roundtrip a :
  typed a -> typed_rest a -> validate_input_params a = true ->
  parse_command_line (print_command_line a) = Some a.
Proof.
  intros T R V. pose proof (validate_valid a T V) as Hv. unfold parse_command_line. rewrite print_by_codes.
  rewrite (getopt_options _ (print_writable a)). unfold parse_arguments.
  assert (Hl : (1 + Z.of_nat (length (concat (option_words <$> concat (print_options a)))) =? 1) = false).
  { apply Z.eqb_neq. destruct (v_dev _ Hv) as (dev & Ed & _). unfold print_options. rewrite Ed.
    set (l := concat _). assert (l <> []) by done. destruct l; [done|]. cbn [length]. lia. }
  rewrite Hl, options_roundtrip by done. cbn [mbind option_bind]. destruct (v_dev _ Hv) as (dev & -> & _). by rewrite V.
Qed.

Lemma command_line_roundtrip_witness : parse_command_line (print_command_line demo_args) = Some demo_args.
Proof.
  apply command_line_roundtrip.
  - constructor; vm_compute; intuition discriminate.
  - constructor; vm_compute; intuition discriminate.
  - by vm_compute.
Defined.

(** The table and the switch agree: an option of the table, with an argument
    that its conversion accepts, is not the [default] case, and a code that is
    neither in the table nor a short option is. *)
Theorem option_table_complete :
  Forall (fun o => exists optarg a, apply_option (lo_val o) optarg default_args = Some a) g_long_options /\
  forall c optarg a a', apply_option c optarg a = Some a' -> c ∈ lo_val <$> g_long_options.
Proof.
  split.
  - assert (Hall : Forall (fun o => Exists (fun s => is_Some (apply_option (lo_val o) s default_args))
      [lit "1"; lit "7:3"; lit "none"; lit "get"]) g_long_options).
    { apply (bool_decide_unpack _). by vm_compute. }
    eapply Forall_impl; [exact Hall|]. intros o (s & _ & [a Ha])%Exists_exists. eauto.
  - intros c optarg a a' E. unfold apply_option in E.
    repeat match type of E with
    | (if ?c =? ?k then _ else _) = _ => destruct (Z.eqb_spec c k) as [->|]; [in_table|]
    end. done.
Qed.

(** A word that [getopt_long] does not accept ends the parsing. *)
Theorem bad_option_rejected argv optarg :
  (BAD_OPTION, optarg) ∈ fst (getopt_long argv) -> parse_command_line argv = None.
Proof.
  intros H. unfold parse_command_line. destruct (getopt_long argv) as [opts operands]. simpl in H. unfold parse_arguments.
  destruct (_ =? 1); [done|]. replace (apply_options opts default_args) with (@None argument); [done|]. symmetry.
  generalize default_args. revert H. induction opts as [|[c s] opts IH]; intros H a; [by apply not_elem_of_nil in H|].
  apply elem_of_cons in H as [[= <- _]|H]; [done|]. simpl. destruct (apply_option c s a); [by apply IH|done].
Qed.
