(* ===== verification/Pinning.v ===== *)
(** * Pinning: CPU sets of [src/kv_bench.cpp]

    [pin_thread_to_cpu] and [apply_cpu_list], which hand a CPU set to
    [sched_setaffinity], and the choice of the CPU of a worker in
    [client_worker_main].  A set is the set of its members; the system call is
    an argument.  The list that [apply_cpu_list] accepts is compared with what
    [parse_cpu_list] reads from the same text. *)

From Stdlib Require Import Ascii.
From Stdlib Require String.
Import String.StringSyntax.
From S2P Require Import Prelude Args Affinity.
From stdpp Require Import list gmap.
#[local] Open Scope Z_scope.

Definition CPU_SETSIZE : Z := 1024.

(** [CPU_SET], which ignores a CPU that does not fit. *)
Definition cpu_set (cpu : Z) (set : gset Z) : gset Z :=
  if (0 <=? cpu) && (cpu <? CPU_SETSIZE) then {[cpu]} ∪ set else set.

Section calls.
Context (sched_setaffinity : gset Z -> Z).

(** Result and the set that was handed over. *)
Definition pin_thread_to_cpu (cpu : Z) : Z * gset Z :=
  let set := cpu_set cpu ∅ in (sched_setaffinity set, set).

(** The CPUs of the parts, [None] at the first that is not one number in
    range. *)
Fixpoint number_parts (parts : list cstr) (set : gset Z) : option (gset Z) :=
  match parts with
  | [] => Some set
  | part :: parts =>
      match strto 10 part with
      | Some (_, _, []) =>
          let cpu := strtol 10 part in
          if (cpu <? 0) || (CPU_SETSIZE <=? cpu) then None else number_parts parts (cpu_set cpu set)
      | _ => None
      end
  end.

(** Result and the set handed over, if any; [copied] is whether [strdup] found
    memory. *)
Definition apply_cpu_list (copied : bool) (l : option cstr) : Z * option (gset Z) :=
  match l with
  | None | Some [] => (0, None)
  | Some s =>
      if negb copied then (-1, None)
      else match number_parts (strtok comma [] s) ∅ with
           | None => (-1, None)
           | Some set => (sched_setaffinity set, Some set)
           end
  end.

(** The binding at the start of [client_worker_main]: nothing without affinity
    or without a CPU; a failure is only reported. *)
Definition pin_worker (a : argument) (m : machine) (wid : Z) : option (Z * gset Z) :=
  if a.(affinity_mode) =? AFF_AFFINITY then
    let mine := my_cpu_list a m true MAX_CPUS in
    pin_thread_to_cpu <$> mine !! Z.to_nat (wid mod Z.of_nat (length mine))
  else None.

End calls.

(** ** One number *)

Definition digit10 (c : ascii) : Prop := is_digit 10 c = true.

Lemma digits_all s : forall acc v, digits 10 acc s = (v, []) -> Forall digit10 s.
Proof.
  induction s as [|c s IH]; intros acc v E; [done|]. simpl in E. destruct (is_digit 10 c) eqn:Ec; [|done].
  constructor; [done|]. by eapply IH.
Qed.

(** Text without a dash. *)
Lemma split_no_dash s : Forall (fun c => c <> dash) s -> split_at dash s = None.
Proof. induction 1 as [|c s Hc _ IH]; [done|]. simpl. by rewrite decide_False, IH. Qed.

Lemma split_first_dash s rest : Forall (fun c => c <> dash) s -> split_at dash (s ++ dash :: rest) = Some (s, rest).
Proof. induction 1 as [|c s Hc _ IH]; [done|]. simpl. by rewrite decide_False, IH. Qed.

Lemma digit_not_dash c : digit10 c -> c <> dash.
Proof. by intros H ->. Qed.

Lemma space_not_dash c : is_space c = true -> c <> dash.
Proof. by intros H ->. Qed.

Lemma skip_spaces_split s : exists sp, s = sp ++ skip_spaces s /\ Forall (fun c => is_space c = true) sp.
Proof.
  induction s as [|c s [sp [E H]]]; [by exists []|]. simpl. destruct (is_space c) eqn:Ec; [|by exists []].
  exists (c :: sp). split; [by rewrite E at 1|by constructor].
Qed.

Lemma skip_only_spaces sp : Forall (fun c => is_space c = true) sp -> skip_spaces sp = [].
Proof. induction 1 as [|c sp Hc _ IH]; [done|]. simpl. by rewrite Hc. Qed.

(** The digits after spaces and sign, in base 10. *)
Definition conv10 (neg : bool) (s : cstr) : option (bool * Z * cstr) :=
  match s with
  | c :: _ => if is_digit 10 c then let '(v, rest) := digits 10 0 s in Some (neg, v, rest) else None
  | [] => None
  end.

Lemma conv10_all neg neg' s v : conv10 neg s = Some (neg', v, []) ->
  neg' = neg /\ s <> [] /\ Forall digit10 s /\ digits 10 0 s = (v, []).
Proof.
  intros E. unfold conv10 in E. destruct s as [|c s]; [done|]. destruct (is_digit 10 c); [|done].
  destruct (digits 10 0 (c :: s)) as [v' r] eqn:Ed. simplify_eq. split; [done|]. split; [done|]. split; [|done]. by eapply digits_all.
Qed.

(** In base 10 no prefix is recognised. *)
Lemma strto10 s : strto 10 s =
  match skip_spaces s with
  | c :: s' => if code c =? 45 then conv10 true s' else if code c =? 43 then conv10 false s' else conv10 false (c :: s')
  | [] => None
  end.
Proof.
  unfold strto. cbv zeta. destruct (skip_spaces s) as [|c s1]; [done|].
  assert (H : forall neg s2, (let '(base, s) :=
      match s2 with
      | z :: x :: d :: s' => if (code z =? 48) && ((code x =? 120) || (code x =? 88)) && is_digit 16 d && ((10 =? 0) || (10 =? 16))
          then (16, d :: s') else (if 10 =? 0 then if code z =? 48 then 8 else 10 else 10, s2)
      | z :: _ => (if 10 =? 0 then if code z =? 48 then 8 else 10 else 10, s2)
      | [] => (10, s2)
      end in
      match s with c :: _ => if is_digit base c then let '(v, rest) := digits base 0 s in Some (neg, v, rest) else None | [] => None end)
      = conv10 neg s2).
  { intros neg s2. destruct s2 as [|z [|x [|d s2]]]; try done. by rewrite andb_false_r. }
  destruct (code c =? 45); [apply (H true s1)|]. destruct (code c =? 43); [apply (H false s1)|apply (H false (c :: s1))].
Qed.

Lemma digit_code c : digit10 c -> 48 <= code c <= 57.
Proof.
  unfold digit10, is_digit, digit_value. destruct (Z.leb_spec 48 (code c)), (Z.leb_spec (code c) 57); simpl; try lia;
    repeat case_match; lia.
Qed.

Lemma strto10_plain s : s <> [] -> Forall digit10 s -> strto 10 s = conv10 false s.
Proof.
  intros Hn Hd. rewrite strto10. destruct s as [|c s]; [done|]. apply Forall_cons in Hd as [Hc%digit_code _]. simpl. unfold is_space.
  destruct (Z.eqb_spec (code c) 32); [lia|]. destruct (Z.leb_spec (code c) 13); [lia|]. rewrite andb_false_r. simpl.
  destruct (Z.eqb_spec (code c) 45); [lia|]. destruct (Z.eqb_spec (code c) 43); [lia|done].
Qed.

Lemma code_dash c : code c = 45 -> c = dash.
Proof. intros H. unfold code in H. rewrite <- (ascii_N_embedding c). by replace (N_of_ascii c) with 45%N by lia. Qed.

(** A part that is one number, all of it, and is not negative. *)
Lemma number_part part neg v : strto 10 part = Some (neg, v, []) -> 0 <= strtol 10 part < CPU_SETSIZE ->
  part_range part = (strtol 10 part, strtol 10 part).
Proof.
  intros E Hr. pose proof (strto_nonneg 10 _ _ _ _ ltac:(lia) E) as Hv. unfold CPU_SETSIZE in Hr.
  assert (Ha : i32 (strtol 10 part) = strtol 10 part) by (apply i32_small; lia).
  destruct (skip_spaces_split part) as (sp & Ep & Hsp).
  assert (Hsp' : Forall (fun c => c <> dash) sp) by (eapply Forall_impl; [exact Hsp|]; apply space_not_dash).
  assert (Hpos : Forall (fun c => c <> dash) (skip_spaces part) -> part_range part = (strtol 10 part, strtol 10 part)).
  { intros Hno. unfold part_range. rewrite split_no_dash by (rewrite Ep; by apply Forall_app). unfold atoi. by rewrite Ha. }
  pose proof E as E0. rewrite strto10 in E. destruct (skip_spaces part) as [|c s]; [done|].
  assert (Hd' : forall s, Forall digit10 s -> Forall (fun c => c <> dash) s)
    by (intros; eapply Forall_impl; [done|]; apply digit_not_dash).
  destruct (Z.eqb_spec (code c) 45) as [->%code_dash|H45].
  - apply conv10_all in E as (-> & Hne & Hd & E). unfold strtol in Hr |- *. rewrite E0 in Hr |- *. assert (v = 0) as -> by lia.
    unfold part_range. rewrite Ep, split_first_dash by done. unfold atoi, strtol.
    rewrite (strto10 sp), skip_only_spaces, (strto10_plain s) by done. unfold conv10. destruct s as [|d s]; [done|].
    apply Forall_cons in Hd as [Hd0 _]. rewrite Hd0, E. done.
  - apply Hpos. destruct (Z.eqb_spec (code c) 43) as [H43|H43]; apply conv10_all in E as (-> & _ & Hd & _); [|by apply Hd'].
    constructor; [|by apply Hd']. intros ->. by vm_compute in H43.
Qed.

(** ** The two readings of a list *)

Lemma cpu_set_in cpu set : 0 <= cpu < CPU_SETSIZE -> cpu_set cpu set = {[cpu]} ∪ set.
Proof. intros H. unfold cpu_set. destruct (Z.leb_spec 0 cpu), (Z.ltb_spec cpu CPU_SETSIZE); simpl; done || lia. Qed.

Lemma number_parts_parse max_out parts : forall out set,
  number_parts parts (list_to_set out) = Some set -> (length out + length parts <= max_out)%nat ->
  list_to_set (parse_parts parts out max_out) = set.
Proof.
  induction parts as [|part parts IH]; intros out set E Hl; simpl in *; [congruence|].
  destruct (Nat.leb_spec max_out (length out)); [lia|]. destruct (strto 10 part) as [[[neg v] [|]]|] eqn:Es; try done.
  destruct (Z.ltb_spec (strtol 10 part) 0), (Z.leb_spec CPU_SETSIZE (strtol 10 part)); try done. simpl in E.
  rewrite (number_part _ _ _ Es) by lia. destruct (Z.ltb_spec (strtol 10 part) 0); [lia|]. rewrite Z.ltb_irrefl. simpl.
  assert (Hp : push_range (strtol 10 part) (strtol 10 part) (max_out - length out) = [strtol 10 part]).
  { unfold push_range. rewrite Z.sub_diag. replace (Nat.min _ _) with 1%nat by lia. simpl. f_equal. lia. }
  rewrite Hp. apply IH; [|rewrite length_app; simpl; lia]. rewrite cpu_set_in in E by lia. rewrite <- E. f_equal.
  rewrite list_to_set_app_L. simpl. set_solver.
Qed.

(** A range is not a number. *)
Lemma range_not_number lo hi : 0 <= lo -> strto 10 (dec lo (dash :: dec hi [])) = Some (false, lo, dash :: dec hi []).
Proof. intros H. by apply strto_dec; [|done|left]. Qed.

Lemma number_parts_range rs set : Forall range_ok rs -> Exists (fun r => fst r < snd r) rs ->
  number_parts (print_range <$> rs) set = None.
Proof.
  intros H Hex. revert set. induction Hex as [[lo hi] rs Hlt|[lo hi] rs Hex IH]; intros set;
    apply Forall_cons in H as [Hr H]; destruct Hr as [Hr1 Hr2]; simpl in *.
  - unfold print_range. simpl. destruct (Z.eqb_spec lo hi); [lia|]. by rewrite range_not_number by lia.
  - destruct (strto 10 (print_range (lo, hi))) as [[[neg v] [|]]|]; try done. destruct (_ || _); [done|]. by apply IH.
Qed.

(** C20: the CPU list of the server.  When [apply_cpu_list] hands a set to the
    kernel, it is the set of the CPUs that [parse_cpu_list] reads from the same
    text, which the chips are chosen from (lists of up to 1024 parts).  But a
    list with a range such as [4,6-8], which [parse_cpu_list] expands, makes it
    fail before any call, so that the server does not start. *)
Theorem apply_cpu_list_reading sched s :
  (forall set, (length (strtok comma [] s) <= MAX_CPUS)%nat -> snd (apply_cpu_list sched true (Some s)) = Some set ->
    list_to_set (parse_cpu_list (Some s) MAX_CPUS) = set /\ fst (apply_cpu_list sched true (Some s)) = sched set) /\
  (forall rs, Forall range_ok rs -> Exists (fun r => fst r < snd r) rs -> s = print_ranges rs ->
    apply_cpu_list sched true (Some s) = (-1, None) /\
    parse_cpu_list (Some s) MAX_CPUS = take MAX_CPUS (concat (expand <$> rs))).
Proof.
  split.
  - intros set Hl E. unfold apply_cpu_list in *. destruct s as [|c s]; [done|]. simpl negb in *. cbv iota in *.
    destruct (number_parts (strtok comma [] (c :: s)) ∅) as [set'|] eqn:En; [|done]. simpl in *. simplify_eq. split; [|done].
    by apply (number_parts_parse MAX_CPUS (strtok comma [] (c :: s)) [] set).
  - intros rs Hr Hex ->. split; [|by apply parse_cpu_list_roundtrip]. unfold apply_cpu_list.
    destruct (print_ranges rs) as [|c s] eqn:Ep; [|rewrite <- Ep; simpl negb; cbv iota; by rewrite strtok_print, number_parts_range].
    exfalso. pose proof (strtok_print rs Hr) as Hs. rewrite Ep in Hs. destruct rs; [by inversion Hex|done].
Qed.

Lemma apply_cpu_list_reading_witness :
  list_to_set (parse_cpu_list (Some (lit "8,9,8")) MAX_CPUS) = ({[8; 9]} : gset Z) /\
  apply_cpu_list (fun _ => 0) true (Some (lit "4,6-8")) = (-1, None).
Proof.
  split.
  - refine (proj1 (proj1 (apply_cpu_list_reading (fun _ => 0) (lit "8,9,8")) _ _ _)); [vm_compute; lia|by vm_compute].
  - refine (proj1 (proj2 (apply_cpu_list_reading (fun _ => 0) (lit "4,6-8")) [(4, 4); (6, 8)] _ _ _)).
    + repeat constructor; simpl; lia.
    + right. left. simpl. lia.
    + by vm_compute.
Defined.
