(* ===== verification/ChipQuery.v ===== *)
(** * ChipQuery: [run_chip_query] of [src/kv_bench.cpp]

    The query prints, without any device, which CPUs and chips a run with the
    same options would use.  Its output is modelled as the values in its lines,
    and compared with the choices of the workers of a run ([choose_chips] of
    Pipeline and [round_chips] of Mixed). *)

From S2P Require Import Prelude Hist Args Affinity Requests Pipeline Mixed.
From stdpp Require Import list.
#[local] Open Scope Z_scope.

(** ** The output *)

Record cpu_line := mk_cpu_line { q_cpu : Z; q_numa : Z; q_chip : Z }.

Record mode_table := mk_mode {
  q_mode : Z;
  q_rounds : list (Z * Z * Z);        (* src_a, src_b, dst of each worker *)
  q_sends : list (list Z);            (* the source chips of its ten sends *)
}.

Record chip_query := mk_query {
  q_source : list cpu_line;
  q_destination : list cpu_line;
  q_first_dst : Z;
  q_modes : list mode_table;
}.

Section query.
Context (a : argument) (m : machine).

Definition cpu_lines (is_client : bool) : list cpu_line :=
  (fun cpu => mk_cpu_line cpu (read_cpu_numa m cpu) (cpu_to_chip m cpu)) <$> my_cpu_list a m is_client MAX_CPUS.

Definition query_workers : Z := if 0 <? a.(threads) then a.(threads) else 1.

(** [w.rng] of the local worker [i]. *)
Definition query_rng (i : Z) : Z := u32 (a.(seed) + u32 (i * 2654435761)).

Definition query_round (tmp : argument) (i : Z) : option (Z * Z * Z) :=
  '(sa, sb, dst, _) ← pick_round_chips tmp m true i (query_rng i);
  Some (if tmp.(drv_ext) then (sa, sb, dst) else (INVALID_CHIP, INVALID_CHIP, INVALID_CHIP)).

(** The loop over the sends from [j] on, [n] of them to go. *)
Fixpoint query_sends (tmp : argument) (i rng : Z) (n : nat) (j : Z) : option (list Z) :=
  match n with
  | O => Some []
  | S n =>
      '(src, _, rng) ← pick_send_chip tmp m i rng j;
      l ← query_sends tmp i rng n (j + 1);
      Some (src :: l)
  end.

Definition query_mode (mode : Z) : option mode_table :=
  let tmp := set_affinity_mode mode a in
  let workers := Z.of_nat <$> seq 0 (Z.to_nat query_workers) in
  rounds ← mapM (query_round tmp) workers;
  sends ← mapM (fun i => query_sends tmp i (query_rng i) (Z.to_nat KV_SENDS_PER_REQ) 0) workers;
  Some (mk_mode mode rounds sends).

(** [None] when a choice divides by zero (a machine without CPUs). *)
Definition run_chip_query : option chip_query :=
  modes ← mapM query_mode [AFF_AFFINITY; AFF_ANTI; AFF_NONE];
  Some (mk_query (cpu_lines true) (cpu_lines false) (first_dst_chip a m) modes).

End query.

(** ** The choices of a run *)

Section run.
Context {W : Type} `{Manager W} (a : argument) (m : machine).

(** The chips of the work requests [wrs] of a request, in the order in which
    [post_one_req] chooses them. *)
Fixpoint request_chips (wrs : list nat) (s : @pst W) : list (Z * Z) :=
  match wrs with
  | [] => []
  | wr :: wrs => let '(c, s) := choose_chips a m (wr / 2) s in c :: request_chips wrs s
  end.

(** In affinity mode a choice does not depend on the generator. *)
Lemma affinity_send wid rng j : a.(affinity_mode) = AFF_AFFINITY ->
  exists c, forall wid' rng', pick_send_chip a m wid' rng' j = Some (c, c, rng') /\
  pick_send_chip a m wid rng j = Some (c, c, rng).
Proof.
  intros E. unfold pick_send_chip. rewrite E. simpl. destruct (negb (drv_ext a) && negb _); by eexists.
Qed.

Lemma query_sends_affinity i rng n : a.(affinity_mode) = AFF_AFFINITY -> forall j, exists l,
  query_sends m a i rng n (Z.of_nat j) = Some l /\
  forall s, request_chips (seq (2 * j) (2 * n)) s = concat ((fun c => [(c, c); (c, c)]) <$> l).
Proof.
  intros E. induction n as [|n IH]; intros j; [by exists []|].
  destruct (affinity_send i rng (Z.of_nat j) E) as [c Hc]. destruct (IH (S j)) as (l & El & Hl).
  exists (c :: l). cbn [query_sends]. rewrite (proj1 (Hc i rng)). cbn [mbind option_bind].
  replace (Z.of_nat j + 1) with (Z.of_nat (S j)) by lia. rewrite El. split; [done|]. intros s.
  replace (2 * S n)%nat with (S (S (2 * n))) by lia. cbn [seq request_chips].
  assert (E1 : (2 * j / 2 = j)%nat) by (rewrite Nat.mul_comm; by apply Nat.div_mul).
  assert (E2 : (S (2 * j) / 2 = j)%nat).
  { replace (S (2 * j)) with (1 + j * 2)%nat by lia. rewrite Nat.div_add by lia. done. }
  unfold choose_chips. rewrite E1, E2. rewrite !(proj1 (Hc _ _)). cbn [wk set_wk w_rng set_w_rng w_id].
  rewrite fmap_cons. cbn [concat app]. do 2 f_equal.
  replace (S (S (2 * j))) with (2 * S j)%nat by lia. apply Hl.
Qed.

End run.

(** ** What a query tells about a run *)

Lemma mapM_workers {B} (f : Z -> option B) n l : mapM f (Z.of_nat <$> seq 0 n) = Some l ->
  forall i, (i < n)%nat -> l !! i = f (Z.of_nat i).
Proof.
  intros E%mapM_Some i Hi. destruct (Forall2_lookup_l _ _ _ i (Z.of_nat i) E) as (y & Hy & Hf); [|by rewrite Hf].
  by rewrite list_lookup_fmap, lookup_seq_lt by done.
Qed.

Lemma send_total a m wid rng j : 1 <= m.(nproc) -> is_Some (pick_send_chip a m wid rng j).
Proof.
  intros Hn. pose proof (send_chip_choice a m wid rng j Hn) as Hs. destruct (decide _); [by eexists|].
  destruct Hs as (src & dst & rng' & -> & _). by eexists.
Qed.

Lemma query_sends_total a m i : 1 <= m.(nproc) -> forall n rng j, is_Some (query_sends m a i rng n j).
Proof.
  intros Hn. induction n as [|n IH]; intros rng j; [by eexists|]. cbn [query_sends].
  destruct (send_total a m i rng j Hn) as [[[src dst] rng'] ->]. cbn [mbind option_bind].
  destruct (IH rng' (j + 1)) as [l ->]. by eexists.
Qed.

Lemma query_round_total a m tmp i : 1 <= m.(nproc) -> is_Some (query_round a m tmp i).
Proof.
  intros Hn. unfold query_round.
  destruct (round_chip_choice tmp m true i (query_rng a i) Hn) as (sa & sb & d & rng & -> & _). by eexists.
Qed.

Lemma query_mode_total a m mode : 1 <= m.(nproc) -> is_Some (query_mode a m mode).
Proof.
  intros Hn. unfold query_mode. cbv zeta. set (ws := Z.of_nat <$> seq 0 _).
  destruct (mapM_is_Some_2 (query_round a m (set_affinity_mode mode a)) ws) as [r ->].
  { apply Forall_forall. intros. by apply query_round_total. }
  cbn [mbind option_bind]. set (f := fun i => query_sends _ _ _ _ _ _). destruct (mapM_is_Some_2 f ws) as [l ->].
  { apply Forall_forall. intros. by apply query_sends_total. }
  by eexists.
Qed.

Lemma set_own_mode a : set_affinity_mode a.(affinity_mode) a = a.
Proof. by destruct a. Qed.

(** The generator of a worker that [create_worker] makes. *)
Lemma created_rng a i ok w : create_worker a i i ok = Some w -> w.(w_id) = i /\ w.(w_rng) = query_rng a i.
Proof. unfold create_worker. intros E. destruct (kv_hist_init _ _ _ ok) as [[r h]|]; [|done]. simpl in E. by destruct (negb _); simplify_eq. Qed.

(** The destination of a round, where the query printed [dst]: with
    [--drv-ext] the chip that the server announced, when it announced one. *)
Definition announced_dst (a : argument) (peer_chip : option Z) (dst : Z) : Z :=
  match peer_chip with
  | Some p => if a.(drv_ext) && negb (p =? INVALID_CHIP) then i32 p else dst
  | None => dst
  end.

(** C17: the chip query tells what a run does.  On a machine with CPUs it has an
    answer; its table of the mode in force gives, for every worker, the source
    chips of the worker's first synchronous round, and its destination unless
    the server announced a chip of its own and [--drv-ext] is given (then it is
    that one); and in affinity mode the chip of both work requests of every send
    of every request. *)
Theorem chip_query_predicts a m (W : Type) :
  1 <= m.(nproc) -> 1 <= a.(threads) -> 0 <= a.(affinity_mode) <= 2 ->
  exists q t, run_chip_query a m = Some q /\ t ∈ q.(q_modes) /\ t.(q_mode) = a.(affinity_mode) /\
  forall i, Z.of_nat i < a.(threads) ->
    (exists src_a src_b dst, t.(q_rounds) !! i = Some (src_a, src_b, dst) /\
      forall (peer_chip : option Z) (s : @mst W), s.(mw).(m_id) = Z.of_nat i -> s.(mw).(m_rng) = query_rng a (Z.of_nat i) ->
        fst (round_chips a m peer_chip s) = (src_a, src_b, announced_dst a peer_chip dst)) /\
    (a.(affinity_mode) = AFF_AFFINITY -> exists l, t.(q_sends) !! i = Some l /\
      forall s : @pst W, request_chips a m (seq 0 20) s = concat ((fun c => [(c, c); (c, c)]) <$> l)).
Proof.
  intros Hn Ht Hm. set (modes := [AFF_AFFINITY; AFF_ANTI; AFF_NONE]).
  destruct (mapM_is_Some_2 (query_mode a m) modes) as [ts Ets].
  { apply Forall_forall. intros. by apply query_mode_total. }
  unfold run_chip_query. fold modes. rewrite Ets. cbn [mbind option_bind].
  assert (Hin : a.(affinity_mode) ∈ modes).
  { unfold modes, AFF_AFFINITY, AFF_ANTI, AFF_NONE. assert (H : affinity_mode a = 0 \/ affinity_mode a = 1 \/ affinity_mode a = 2) by lia.
    destruct H as [-> | [-> | ->]]; set_solver. }
  apply list_elem_of_lookup in Hin as [k Hk]. apply mapM_Some in Ets.
  destruct (Forall2_lookup_l _ _ _ k _ Ets Hk) as (t & Hkt & Et). do 2 eexists. split; [done|]. simpl.
  split; [by eapply list_elem_of_lookup_2|]. unfold query_mode in Et. cbv zeta in Et. rewrite set_own_mode in Et.
  destruct (mapM (query_round a m a) _) as [rounds|] eqn:Er; [|done]. cbn [mbind option_bind] in Et.
  destruct (mapM _ _) as [sends|] eqn:Es in Et; [|done]. injection Et as <-. simpl. split; [done|]. intros i Hi.
  assert (Hi' : (i < Z.to_nat (query_workers a))%nat) by (unfold query_workers; destruct (Z.ltb_spec 0 (threads a)); lia).
  split.
  - rewrite (mapM_workers _ _ _ Er i Hi'). unfold query_round, round_chips, announced_dst.
    destruct (round_chip_choice a m true (Z.of_nat i) (query_rng a (Z.of_nat i)) Hn) as (sa & sb & d & rng & E & _).
    rewrite E. simpl. destruct (drv_ext a); (do 3 eexists; split; [done|]); intros peer_chip s -> ->; rewrite E; simpl; by destruct peer_chip.
  - intros Ea. destruct (query_sends_affinity (W := W) a m (Z.of_nat i) (query_rng a (Z.of_nat i)) 10 Ea 0) as (l & El & Hl).
    exists l. split; [|exact Hl]. by rewrite (mapM_workers _ _ _ Es i Hi').
Qed.

(** With [--drv-ext] and a server that announced chip 9. *)
Lemma chip_query_predicts_witness :
  let a := set_drv_ext true demo_args in
  exists q t sa sb d, run_chip_query a demo_machine = Some q /\ t ∈ q.(q_modes) /\ t.(q_mode) = AFF_AFFINITY /\
    t.(q_rounds) !! 0%nat = Some (sa, sb, d) /\
    forall s : @mst unit, s.(mw).(m_id) = 0 -> s.(mw).(m_rng) = query_rng a 0 ->
      fst (round_chips a demo_machine None s) = (sa, sb, d) /\ fst (round_chips a demo_machine (Some 9) s) = (sa, sb, 9).
Proof.
  cbv zeta.
  destruct (chip_query_predicts (set_drv_ext true demo_args) demo_machine unit ltac:(vm_compute; discriminate) ltac:(vm_compute; discriminate)
    ltac:(vm_compute; split; discriminate)) as (q & t & H1 & H2 & H3 & H4).
  destruct (H4 0%nat ltac:(vm_compute; reflexivity)) as [(sa & sb & d & H5 & H6) _].
  exists q, t, sa, sb, d. split; [exact H1|]. split; [exact H2|]. split; [exact H3|]. split; [exact H5|].
  intros s Hid Hrng. exact (conj (H6 None s Hid Hrng) (H6 (Some 9) s Hid Hrng)).
Defined.

(** In anti mode every work request draws a chip of its own: the two halves of
    one send, which share a lane, can be given different source chips, and the
    ten chips of the query are not those of the sends. *)
Theorem anti_halves_differ :
  let a := set_affinity_mode AFF_ANTI demo_args in
  let w := mk_worker 0 (query_rng a 0) zeroed_hist zeroed_hist zeroed_hist 0 0 0 [] [] [] in
  (fst <$> request_chips a demo_machine (seq 0 20) (mk_pst w tt 0 0 0)) <>
    concat ((fun c => [c; c]) <$> default [] (query_sends demo_machine a 0 (query_rng a 0) 10 0)) /\
  exists j, let chips := fst <$> request_chips a demo_machine (seq 0 20) (mk_pst w tt 0 0 0) in
    chips !! (2 * j)%nat <> chips !! S (2 * j).
Proof.
  cbv zeta. set (l := fst <$> _). assert (E : l = [1; 2; 1; 1; 2; 2; 1; 2; 1; 2; 1; 1; 2; 1; 1; 1; 1; 2; 1; 1]) by by vm_compute. rewrite E. split; [by vm_compute|]. by exists 0%nat.
Qed.
