(* ===== verification/Server.v ===== *)
(** * Server: the server process of [src/kv_bench.cpp]

    [run_server] with the threads it starts.  The set-up ([server_setup]) ends
    in a failure exit or with a manager, a registered buffer and a listening
    socket.  From there three kinds of threads run: the main thread, which waits
    for the user and then joins the others; the accepting thread
    ([server_sock_thread_main]); and one thread per connection
    ([server_conn_main]), whose variables are in its entry of the table.  Every
    thread is its program counter, and every access to a shared member is a step
    of its own; [srv_step] interleaves the threads.  The calls on the library
    within one handshake are taken together. *)

From S2P Require Import Prelude Args Affinity Pinning SendLane UrmaEvents Liburma UrmaResource Wire UrmaManager Session.
From Stdlib Require Import String.
From stdpp Require Import list gmap strings.
#[local] Open Scope Z_scope.
#[local] Open Scope list_scope.

(** ** Listening *)

(** The results of the two [fcntl] calls. *)
Definition set_socket_nonblock (getfl setfl : Z) : Z :=
  if getfl =? -1 then -1 else if setfl =? -1 then -1 else 0.

(** What the system answers to [server_listen]. *)
Record listen_env := mk_listen {
  le_socket : Z;
  le_setsockopt : Z;
  le_getfl : Z;
  le_setfl : Z;
  le_bind : Z;
  le_listen : Z;
  le_spawned : bool;       (* the accepting thread could be created *)
}.

(** The return code, and the sockets that are closed. *)
Definition server_listen (e : listen_env) : Z * list Z :=
  let fd := e.(le_socket) in
  if fd <? 0 then (-1, [])
  else if e.(le_setsockopt) <? 0 then (-1, [fd])
  else if negb (set_socket_nonblock e.(le_getfl) e.(le_setfl) =? 0) then (-1, [fd])
  else if negb (e.(le_bind) =? 0) then (-1, [fd])
  else if negb (e.(le_listen) =? 0) then (-1, [fd])
  else if negb e.(le_spawned) then (-1, [fd])
  else (0, []).

(** ** State *)

(** The program counter of [server_conn_main]: before the handshake, at the
    test of the loop, in [read], and at the three statements after [out]. *)
Inductive conn_pc := CExchange | CTest | CRead | CReset | CClose | CClear | CDone.

(** [conn_t], with the program counter of its thread. *)
Record conn_t := mk_conn_t {
  cn_fd : Z;
  cn_used : bool;
  cn_conn : option UrmaConnection;
  cn_tid : bool;           (* [tid != 0] *)
  cn_pc : conn_pc;
}.

Definition zeroed_conn : conn_t := mk_conn_t 0 false None false CDone.

Definition set_pc (pc : conn_pc) (c : conn_t) : conn_t := mk_conn_t c.(cn_fd) c.(cn_used) c.(cn_conn) c.(cn_tid) pc.
Definition set_conn (x : option UrmaConnection) (c : conn_t) : conn_t :=
  mk_conn_t c.(cn_fd) c.(cn_used) x c.(cn_tid) c.(cn_pc).
Definition set_used (b : bool) (c : conn_t) : conn_t := mk_conn_t c.(cn_fd) b c.(cn_conn) c.(cn_tid) c.(cn_pc).

(** The accepting thread: the test of its loop, [accept], and the search for an
    entry for a socket. *)
Inductive acc_pc := ATest | AAccept | AScan (sockfd : Z) (i : nat) | ADone.

(** The main thread: [getchar], the join of the accepting thread, the loop over
    the entries (the test of an entry, the join of its thread), and the end. *)
Inductive main_pc := MWait | MJoinAcc | MScan (i : nat) | MJoining (i : nat) | MCloseListen | MDestroy | MDone.

Record srv := mk_srv {
  sv_sys : sys;
  sv_table : list conn_t;
  sv_acc : acc_pc;
  sv_main : main_pc;
  sv_stop : bool;          (* [ctx->server_stop] *)
  sv_fds : gset Z;         (* the sockets of connections that are open *)
  sv_listening : bool;     (* [listen_fd] is open *)
}.

Definition with_sys (s : sys) (v : srv) : srv :=
  mk_srv s v.(sv_table) v.(sv_acc) v.(sv_main) v.(sv_stop) v.(sv_fds) v.(sv_listening).
Definition with_table (t : list conn_t) (v : srv) : srv :=
  mk_srv v.(sv_sys) t v.(sv_acc) v.(sv_main) v.(sv_stop) v.(sv_fds) v.(sv_listening).
Definition with_acc (p : acc_pc) (v : srv) : srv :=
  mk_srv v.(sv_sys) v.(sv_table) p v.(sv_main) v.(sv_stop) v.(sv_fds) v.(sv_listening).
Definition with_main (p : main_pc) (v : srv) : srv :=
  mk_srv v.(sv_sys) v.(sv_table) v.(sv_acc) p v.(sv_stop) v.(sv_fds) v.(sv_listening).
Definition with_fds (f : gset Z) (v : srv) : srv :=
  mk_srv v.(sv_sys) v.(sv_table) v.(sv_acc) v.(sv_main) v.(sv_stop) f v.(sv_listening).

(** ** The threads *)

Section server.
Context `{Liburma} (bondp_ctl : bool) (a : argument) (mch : machine).

Section threads.
Context (m : manager).     (* [*ctx->mgr], which the threads do not change *)
Context (silent : srv -> Z -> bool).   (* the peer of this socket sends nothing and stays connected *)

(** The entry's thread from its program counter on.  [k] is the connected
    socket, [n] the result of [read], [stop] the value of [server_stop]. *)
Definition server_conn_main (k : sock) (n : Z) (stop : bool) (c : conn_t) : ST sys conn_t :=
  match c.(cn_pc) with
  | CExchange =>
      '(r, _) ← ExchangeAsServer (handshake_params a mch) a.(import_rtp) m k;
      mret (match r with
            | None => set_pc CReset c
            | Some conn => set_pc CTest (set_conn (Some conn) c)
            end)
  | CTest => mret (set_pc (if stop then CReset else CRead) c)
  | CRead => mret (set_pc (if n <=? 0 then CReset else CTest) c)
  | CReset =>
      (match c.(cn_conn) with Some conn => destroy_conn conn | None => mret tt end) ;;
      mret (set_pc CClose (set_conn None c))
  | CClose => mret (set_pc CClear c)
  | CClear => mret (set_pc CDone (set_used false c))
  | CDone => mret c
  end.

(** The socket is blocking: the reads of the handshake and of the loop do not
    return while the peer is silent, and nobody shuts the socket down. *)
Definition blocked (v : srv) (c : conn_t) : bool :=
  match c.(cn_pc) with CExchange | CRead => silent v c.(cn_fd) | _ => false end.

(** A step of the thread of entry [i], unless it is blocked in a read; [close]
    is the step from [CClose]. *)
Definition conn_step (i : nat) (k : sock) (n : Z) (v : srv) : option srv :=
  match v.(sv_table) !! i with
  | None => None
  | Some c =>
      if blocked v c then None
      else
        match c.(cn_pc) with
        | CDone => None
        | pc =>
            let '(c', s') := server_conn_main k n v.(sv_stop) c v.(sv_sys) in
            Some (with_sys s' (with_table (<[i := c']> v.(sv_table))
              (match pc with CClose => with_fds (v.(sv_fds) ∖ {[c.(cn_fd)]}) v | _ => v end)))
        end
  end.

Inductive accept_result := Accepted (sockfd : Z) | Again | Failed.

(** A step of [server_sock_thread_main]; [spawned] is whether the thread of a
    connection can be created. *)
Definition server_sock_thread_main (r : accept_result) (spawned : bool) (v : srv) : option srv :=
  match v.(sv_acc) with
  | ATest => Some (with_acc (if v.(sv_stop) then ADone else AAccept) v)
  | AAccept =>
      Some (match r with
            | Accepted sockfd => with_acc (AScan sockfd 0) (with_fds ({[sockfd]} ∪ v.(sv_fds)) v)
            | Again => with_acc ATest v
            | Failed => with_acc ADone v
            end)
  | AScan sockfd i =>
      match v.(sv_table) !! i with
      | None => Some (with_acc ATest (with_fds (v.(sv_fds) ∖ {[sockfd]}) v))
      | Some c =>
          if c.(cn_used) then Some (with_acc (AScan sockfd (S i)) v)
          else if spawned then
            Some (with_acc ATest (with_table (<[i := mk_conn_t sockfd true None true CExchange]> v.(sv_table)) v))
          else
            Some (with_acc ATest (with_fds (v.(sv_fds) ∖ {[sockfd]})
              (with_table (<[i := mk_conn_t sockfd false None false CDone]> v.(sv_table)) v)))
      end
  | ADone => None
  end.

(** A step of the main thread after [server_listen]. *)
Definition server_main (v : srv) : option srv :=
  match v.(sv_main) with
  | MWait => Some (mk_srv v.(sv_sys) v.(sv_table) v.(sv_acc) MJoinAcc true v.(sv_fds) v.(sv_listening))
  | MJoinAcc => match v.(sv_acc) with ADone => Some (with_main (MScan 0) v) | _ => None end
  | MScan i =>
      match v.(sv_table) !! i with
      | None => Some (with_main MCloseListen v)
      | Some c => Some (with_main (if c.(cn_used) && c.(cn_tid) then MJoining i else MScan (S i)) v)
      end
  | MJoining i =>
      match v.(sv_table) !! i with
      | Some c => match c.(cn_pc) with CDone => Some (with_main (MScan (S i)) v) | _ => None end
      | None => None
      end
  | MCloseListen => Some (mk_srv v.(sv_sys) v.(sv_table) v.(sv_acc) MDestroy v.(sv_stop) v.(sv_fds) false)
  | MDestroy => let '(_, s') := destroy_context None m [] v.(sv_sys) in Some (with_main MDone (with_sys s' v))
  | MDone => None
  end.

(** Any thread may go next; the socket that [accept] returns is not one that is
    open. *)
Inductive srv_step : srv -> srv -> Prop :=
| st_conn i k n v v' : conn_step i k n v = Some v' -> srv_step v v'
| st_accept r spawned v v' :
    (forall f, r = Accepted f -> f ∉ v.(sv_fds)) ->
    server_sock_thread_main r spawned v = Some v' -> srv_step v v'
| st_main v v' : server_main v = Some v' -> srv_step v v'.

(** A schedule: who goes next, with what the system answers.  [run_schedule]
    is the run of the threads in this order. *)
Inductive turn := GoConn (i : nat) (k : sock) (n : Z) | GoAccept (r : accept_result) (spawned : bool) | GoMain.

Definition take_turn (c : turn) (v : srv) : option srv :=
  match c with
  | GoConn i k n => conn_step i k n v
  | GoAccept r spawned =>
      if match r with Accepted f => bool_decide (f ∈ v.(sv_fds)) | _ => false end then None
      else server_sock_thread_main r spawned v
  | GoMain => server_main v
  end.

Fixpoint run_schedule (l : list turn) (v : srv) : option srv :=
  match l with
  | [] => Some v
  | c :: l => v' ← take_turn c v; run_schedule l v'
  end.

Lemma run_schedule_rtc l : forall v v', run_schedule l v = Some v' -> rtc srv_step v v'.
Proof.
  induction l as [|c l IH]; intros v v' E; simpl in E; [by simplify_eq|].
  destruct (take_turn c v) as [w|] eqn:Ec; [|done]. simpl in E. eapply rtc_l; [|by apply IH].
  destruct c as [i k n|r spawned|]; simpl in Ec.
  - by eapply st_conn.
  - destruct (match r with Accepted f => _ | _ => _ end) eqn:Er; [done|]. apply (st_accept r spawned); [|done].
    intros f ->. by apply bool_decide_eq_false in Er.
  - by apply st_main.
Qed.

(** After [server_listen]. *)
Definition srv_start (s : sys) : srv := mk_srv s (replicate MAX_CLIENT_CNT zeroed_conn) ATest MWait false ∅ true.

End threads.

(** ** The set-up of [run_server] *)

(** The manager with which the threads run, or [None] after a failure exit (the
    return value is then -1).  [pinned] is the result of [apply_cpu_list]. *)
Definition server_setup (spawned : bool) (va : option Z) (pinned : Z) (e : listen_env) : ST sys (option manager) :=
  '(ok, m) ← ManagerInit bondp_ctl (dev_string a.(dev_name)) a.(cacheable) a.(jetty_count) 1 a.(event_mode)
               a.(trans_mode) (-1) spawned new_manager;
  if negb ok then destroy_context None m [] ;; mret None
  else
    '(rc, _, m) ← setup_buffer a true va m;
    if negb (rc =? 0) then destroy_context None m [] ;; mret None
    else if negb (a.(affinity_mode) =? AFF_NONE) && negb (pinned =? 0) then destroy_context None m [] ;; mret None
    else if negb (fst (server_listen e) =? 0) then destroy_context None m [] ;; mret None
    else mret (Some m).

(** [run_server] up to its end: the set-up, and a run of the threads that
    reaches the end of the main thread; [silent] tells which peers do not
    answer. *)
Definition run_server (silent : srv -> Z -> bool) (sched : gset Z -> Z) (copied spawned : bool) (va : option Z)
    (e : listen_env) (s s' : sys) (rc : Z) : Prop :=
  let pinned := fst (apply_cpu_list sched copied a.(destination_cpus)) in
  match server_setup spawned va pinned e s with
  | (None, s1) => rc = -1 /\ s' = s1
  | (Some m, s1) => exists v, rtc (srv_step m silent) (srv_start s1) v /\ v.(sv_main) = MDone /\ rc = 0 /\ s' = v.(sv_sys)
  end.

End server.
