(* ===== verification/ServerProps.v ===== *)
(** * ServerProps: what holds of the server's threads

    However the main thread, the accepting thread and the connection threads
    are interleaved: the table, the sockets and the handles stay consistent, the
    context is destroyed only when no thread uses it; and once the user has asked
    for the end every run of the threads is finite, and reaches the end unless a
    thread is blocked in a read from a peer that is silent. *)

From S2P Require Import Prelude Args Affinity Pinning Requests SendLane UrmaEvents Liburma UrmaResource UrmaResourceInv.
From S2P Require Import UrmaResourceProps Wire.
From S2P Require Import UrmaManager UrmaManagerProps Session SessionProps Server.
From Stdlib Require Import String.
From stdpp Require Import list gmap strings.
#[local] Open Scope Z_scope.
#[local] Open Scope list_scope.

(** ** The connections of a table *)

Definition conn_owned (c : conn_t) (x : refs_of) : refs_of :=
  match c.(cn_conn) with Some u => conn_refs u x | None => x end.

Definition table_refs (t : list conn_t) : refs_of := foldr conn_owned no_refs t.

#[export] Instance same_owners_equivalence : Equivalence same_owners.
Proof.
  split.
  - intros x. by split.
  - intros x y []. split; by symmetry.
  - intros x y z [] []. split; by etrans.
Qed.

Lemma conn_owned_mono c x y : same_owners x y -> same_owners (conn_owned c x) (conn_owned c y).
Proof.
  intros [E1 E2 E3 E4 E5]. unfold conn_owned, conn_refs. destruct (cn_conn c) as [u|]; [|by split].
  destruct (targetJetty u); [|by split]. split; simpl; try done; [by rewrite E4|by rewrite E5].
Qed.

Lemma conn_owned_swap c d x : same_owners (conn_owned c (conn_owned d x)) (conn_owned d (conn_owned c x)).
Proof.
  unfold conn_owned, conn_refs. destruct (cn_conn c) as [u|], (cn_conn d) as [u'|]; try done.
  destruct (targetJetty u), (targetJetty u'); try done. split; simpl; try done; [apply same_refs_perm|]; apply perm_swap.
Qed.

(** An entry that gets a connection. *)
Lemma table_refs_insert t i c c' : t !! i = Some c -> cn_conn c = None ->
  same_owners (conn_owned c' (table_refs t)) (table_refs (<[i := c']> t)).
Proof.
  intros Hi Hc. revert i Hi. induction t as [|d t IH]; intros [|i] Hi; simpl in *; [done|done| |].
  - injection Hi as ->. unfold conn_owned at 2. by rewrite Hc.
  - etrans; [apply conn_owned_swap|]. by apply conn_owned_mono, IH.
Qed.

Lemma table_refs_same t i c c' : t !! i = Some c -> cn_conn c' = cn_conn c -> table_refs (<[i := c']> t) = table_refs t.
Proof.
  intros Hi Hc. revert i Hi. induction t as [|d t IH]; intros [|i] Hi; simpl in *; [done|done| |].
  - injection Hi as ->. unfold conn_owned. by rewrite Hc.
  - by rewrite IH.
Qed.

Lemma table_refs_none t : Forall (fun c => cn_conn c = None) t -> table_refs t = no_refs.
Proof. induction 1 as [|c t Hc _ IH]; [done|]. simpl. unfold conn_owned. by rewrite Hc. Qed.

(** ** The invariant *)

(** The thread has not closed its socket yet. *)
Definition holds_fd (pc : conn_pc) : bool :=
  match pc with CExchange | CTest | CRead | CReset | CClose => true | CClear | CDone => false end.

(** An entry that is in use has a thread, and a connection between the
    handshake and the reset; an entry that is free has neither. *)
Definition entry_ok (c : conn_t) : Prop :=
  match c.(cn_pc) with
  | CDone => c.(cn_used) = false /\ c.(cn_conn) = None
  | CTest | CRead => c.(cn_used) = true /\ c.(cn_tid) = true /\ exists u, c.(cn_conn) = Some u /\ is_Some u.(targetJetty)
  | CReset => c.(cn_used) = true /\ c.(cn_tid) = true /\ forall u, c.(cn_conn) = Some u -> is_Some u.(targetJetty)
  | CExchange | CClose | CClear => c.(cn_used) = true /\ c.(cn_tid) = true /\ c.(cn_conn) = None
  end.

Definition free_below (k : nat) (t : list conn_t) : Prop := forall j c, (j < k)%nat -> t !! j = Some c -> c.(cn_used) = false.

(** What the main thread knows where it is. *)
Definition phase_ok (v : srv) : Prop :=
  match v.(sv_main) with
  | MWait => v.(sv_stop) = false /\ v.(sv_listening) = true
  | MJoinAcc => v.(sv_stop) = true
  | MScan k => v.(sv_stop) = true /\ v.(sv_acc) = ADone /\ (k <= MAX_CLIENT_CNT)%nat /\ free_below k v.(sv_table)
  | MJoining k => v.(sv_stop) = true /\ v.(sv_acc) = ADone /\ (k < MAX_CLIENT_CNT)%nat /\ free_below k v.(sv_table)
  | MCloseListen => v.(sv_stop) = true /\ v.(sv_acc) = ADone /\ free_below MAX_CLIENT_CNT v.(sv_table)
  | MDestroy | MDone => v.(sv_stop) = true /\ v.(sv_acc) = ADone /\ free_below MAX_CLIENT_CNT v.(sv_table) /\
      v.(sv_listening) = false
  end.

(** The sockets: every open one belongs to one thread. *)
Record fds_ok (t : list conn_t) (acc : acc_pc) (fds : gset Z) : Prop := {
  fo_held : forall i c, t !! i = Some c -> holds_fd c.(cn_pc) = true -> c.(cn_fd) ∈ fds;
  fo_inj : forall i j c d, t !! i = Some c -> t !! j = Some d ->
    holds_fd c.(cn_pc) = true -> holds_fd d.(cn_pc) = true -> c.(cn_fd) = d.(cn_fd) -> i = j;
  fo_scan : forall f k, acc = AScan f k -> (k <= MAX_CLIENT_CNT)%nat /\ f ∈ fds /\
    forall i c, t !! i = Some c -> holds_fd c.(cn_pc) = true -> c.(cn_fd) <> f;
  fo_open : forall f, f ∈ fds -> (exists k, acc = AScan f k) \/
    exists i c, t !! i = Some c /\ holds_fd c.(cn_pc) = true /\ c.(cn_fd) = f;
}.

(** A thread that keeps its socket (or has none), and one that closes it. *)
Lemma fds_keep t acc fds i c c' : fds_ok t acc fds -> t !! i = Some c ->
  holds_fd (cn_pc c') = holds_fd (cn_pc c) -> (holds_fd (cn_pc c) = true -> cn_fd c' = cn_fd c) ->
  fds_ok (<[i := c']> t) acc fds.
Proof.
  intros [H1 H2 H3 H4] Hi Eh Ef.
  assert (Hl : forall j d, <[i := c']> t !! j = Some d -> holds_fd (cn_pc d) = true ->
    exists d', t !! j = Some d' /\ holds_fd (cn_pc d') = true /\ cn_fd d = cn_fd d').
  { intros j d Hj Hd. destruct (decide (j = i)) as [->|Hne].
    - rewrite list_lookup_insert_eq in Hj by (by eapply lookup_lt_Some). injection Hj as <-. exists c. rewrite Eh in Hd. auto.
    - rewrite list_lookup_insert_ne in Hj by done. eauto. }
  split.
  - intros j d Hj Hd. destruct (Hl _ _ Hj Hd) as (d' & ? & ? & ->). eauto.
  - intros j k d e Hj Hk Hd He. destruct (Hl _ _ Hj Hd) as (d' & ? & ? & ->), (Hl _ _ Hk He) as (e' & ? & ? & ->). eauto.
  - intros f k Hk. destruct (H3 f k Hk) as (? & ? & Hn). split; [done|]. split; [done|].
    intros j d Hj Hd. destruct (Hl _ _ Hj Hd) as (d' & ? & ? & ->). eauto.
  - intros f [Hk|(j & d & Hj & Hh & <-)]%H4; [by left|right]. destruct (decide (j = i)) as [->|Hne].
    + exists i, c'. rewrite list_lookup_insert_eq by (by eapply lookup_lt_Some). split; [done|].
      assert (d = c) as -> by congruence. rewrite Eh. auto.
    + exists j, d. by rewrite list_lookup_insert_ne.
Qed.

Lemma fds_close t acc fds i c c' : fds_ok t acc fds -> t !! i = Some c -> holds_fd (cn_pc c) = true ->
  holds_fd (cn_pc c') = false -> fds_ok (<[i := c']> t) acc (fds ∖ {[cn_fd c]}).
Proof.
  intros [H1 H2 H3 H4] Hi Hh Hn.
  assert (Hl : forall j d, <[i := c']> t !! j = Some d -> holds_fd (cn_pc d) = true -> j <> i /\ t !! j = Some d).
  { intros j d Hj Hd. destruct (decide (j = i)) as [->|Hne].
    - rewrite list_lookup_insert_eq in Hj by (by eapply lookup_lt_Some). simplify_eq. congruence.
    - by rewrite list_lookup_insert_ne in Hj. }
  split.
  - intros j d Hj Hd. destruct (Hl _ _ Hj Hd) as [Hne Hj']. apply elem_of_difference. split; [eauto|].
    rewrite elem_of_singleton. intros E. apply Hne. eauto.
  - intros j k d e Hj Hk Hd He. destruct (Hl _ _ Hj Hd) as [_ ?], (Hl _ _ Hk He) as [_ ?]. eauto.
  - intros f k Hk. destruct (H3 f k Hk) as (? & Hf & Hsep). split; [done|]. split.
    + apply elem_of_difference. split; [done|]. rewrite elem_of_singleton. intros ->. by eapply Hsep.
    + intros j d Hj Hd. destruct (Hl _ _ Hj Hd) as [_ ?]. eauto.
  - intros f [Hf Hne]%elem_of_difference. rewrite elem_of_singleton in Hne.
    destruct (H4 f Hf) as [Hk|(j & d & Hj & Hd & <-)]; [by left|right]. exists j, d. rewrite list_lookup_insert_ne; [done|].
    intros ->. apply Hne. congruence.
Qed.

(** The accepting thread: a socket that it holds goes to an entry, is closed,
    or is new. *)
Lemma fds_give t acc' fds i c k f : fds_ok t (AScan f k) fds -> t !! i = Some c -> holds_fd (cn_pc c) = false ->
  (forall g j, acc' <> AScan g j) -> fds_ok (<[i := mk_conn_t f true None true CExchange]> t) acc' fds.
Proof.
  intros [H1 H2 H3 H4] Hi Hh Ha. destruct (H3 f k eq_refl) as (_ & Hf & Hsep). pose proof (lookup_lt_Some _ _ _ Hi) as Hlt.
  set (c' := mk_conn_t f true None true CExchange).
  assert (Hl : forall j d, <[i := c']> t !! j = Some d -> (j = i /\ d = c') \/ (j <> i /\ t !! j = Some d)).
  { intros j d Hj. destruct (decide (j = i)) as [->|Hne].
    - rewrite list_lookup_insert_eq in Hj by done. simplify_eq. by left.
    - rewrite list_lookup_insert_ne in Hj by done. by right. }
  split.
  - intros j d [[-> ->]|[_ Hj]]%Hl; [done|eauto].
  - intros j j' d e [[-> ->]|[Hne Hj]]%Hl [[-> ->]|[Hne' Hj']]%Hl; [done| | |eauto].
    + intros _ He E. by destruct (Hsep _ _ Hj' He).
    + intros He _ E. by destruct (Hsep _ _ Hj He).
  - intros g j E. by destruct (Ha g j).
  - intros g [[k' E]|(j & d & Hj & Hd & <-)]%H4; right.
    + exists i, c'. rewrite list_lookup_insert_eq by done. by injection E as -> _.
    + exists j, d. rewrite list_lookup_insert_ne; [done|]. intros ->. congruence.
Qed.

Lemma fds_drop t acc' fds k f : fds_ok t (AScan f k) fds -> (forall g j, acc' <> AScan g j) -> fds_ok t acc' (fds ∖ {[f]}).
Proof.
  intros [H1 H2 H3 H4] Ha. destruct (H3 f k eq_refl) as (_ & Hf & Hsep). split; [|done| |].
  - intros j d Hj Hd. apply elem_of_difference. rewrite elem_of_singleton. eauto.
  - intros g j E. by destruct (Ha g j).
  - intros g [Hg Hne]%elem_of_difference. rewrite elem_of_singleton in Hne. destruct (H4 g Hg) as [[k' E]|?]; [|by right].
    by injection E as ->.
Qed.

Lemma fds_quiet t acc acc' fds : fds_ok t acc fds -> (forall g j, acc <> AScan g j) -> (forall g j, acc' <> AScan g j) ->
  fds_ok t acc' fds.
Proof.
  intros [H1 H2 H3 H4] Ha Ha'. split; [done|done| |].
  - intros g j E. by destruct (Ha' g j).
  - intros g [[k E]|?]%H4; [by destruct (Ha g k)|by right].
Qed.

Lemma fds_new t acc fds f : fds_ok t acc fds -> (forall g j, acc <> AScan g j) -> f ∉ fds ->
  fds_ok t (AScan f 0) ({[f]} ∪ fds).
Proof.
  intros [H1 H2 H3 H4] Ha Hn. split; [|done| |].
  - intros i c Hi Hc. apply elem_of_union. eauto.
  - intros g k [= <- <-]. split; [lia|]. split; [set_solver|]. intros i c Hi Hc E. apply Hn. rewrite <- E. eauto.
  - intros g [Hg%elem_of_singleton|Hg]%elem_of_union; [left; exists 0%nat; by rewrite Hg|].
    destruct (H4 g Hg) as [[k E]|?]; [by destruct (Ha g k)|by right].
Qed.

Lemma fds_next t fds f k : fds_ok t (AScan f k) fds -> (S k <= MAX_CLIENT_CNT)%nat -> fds_ok t (AScan f (S k)) fds.
Proof.
  intros [H1 H2 H3 H4] Hk. split; [done|done| |].
  - intros g j [= <- <-]. split; [done|]. apply (H3 f k eq_refl).
  - intros g [[j E]|?]%H4; [|by right]. injection E as -> _. eauto.
Qed.

Section server.
Context `{Liburma} (ctl : bool) (a : argument) (mch : machine) (m : manager) (silent : srv -> Z -> bool).

(** The manager's history: until the end the connections of the table are the
    references there are. *)
Definition history_ok (v : srv) : Prop :=
  match v.(sv_main) with
  | MDone => exists s, rtc (mgr_step ctl) mstart (m, no_refs, s) /\ v.(sv_sys) = snd (destroy_context None m [] s)
  | _ => rtc (mgr_step ctl) mstart (m, table_refs v.(sv_table), v.(sv_sys))
  end.

Record srv_ok (v : srv) : Prop := {
  sk_len : length v.(sv_table) = MAX_CLIENT_CNT;
  sk_entry : forall i c, v.(sv_table) !! i = Some c -> entry_ok c;
  sk_fds : fds_ok v.(sv_table) v.(sv_acc) v.(sv_fds);
  sk_phase : phase_ok v;
  sk_history : history_ok v;
}.

Lemma srv_start_ok s : rtc (mgr_step ctl) mstart (m, no_refs, s) -> srv_ok (srv_start s).
Proof.
  intros Hr. assert (Hc : forall i c, replicate MAX_CLIENT_CNT zeroed_conn !! i = Some c -> c = zeroed_conn)
    by (intros i c [-> _]%lookup_replicate; done).
  split; simpl; [done| | | |done].
  - intros i c ->%Hc. done.
  - split; simpl.
    + by intros i c ->%Hc.
    + by intros i j c d ->%Hc.
    + done.
    + intros f Hf. set_solver.
  - done.
Qed.

(** *** Connection threads *)

Lemma entry_used c : entry_ok c -> c.(cn_pc) <> CDone -> c.(cn_used) = true.
Proof. unfold entry_ok. destruct (cn_pc c); naive_solver. Qed.

Lemma entry_free c : entry_ok c -> c.(cn_used) = false -> c.(cn_pc) = CDone /\ c.(cn_conn) = None.
Proof. unfold entry_ok. intros Ok Hu. destruct (cn_pc c); destruct Ok as [Hc ?]; first [done | congruence]. Qed.

Lemma free_below_insert k t i c c' : free_below k t -> t !! i = Some c -> (c'.(cn_used) = true -> c.(cn_used) = true) ->
  free_below k (<[i := c']> t).
Proof.
  intros Hf Hi Hu j d Hj Hd. destruct (decide (j = i)) as [->|Hne].
  - rewrite list_lookup_insert_eq in Hd by (by eapply lookup_lt_Some). injection Hd as <-.
    destruct (cn_used c') eqn:E; [|done]. rewrite (Hf _ _ Hj Hi) in Hu. by specialize (Hu eq_refl).
  - rewrite list_lookup_insert_ne in Hd by done. eauto.
Qed.

(** While a connection thread runs, the main thread is not past the joins. *)
Lemma running_phase v i c : srv_ok v -> v.(sv_table) !! i = Some c -> c.(cn_used) = true ->
  v.(sv_main) <> MCloseListen /\ v.(sv_main) <> MDestroy /\ v.(sv_main) <> MDone.
Proof.
  intros Ok Hi Hu. pose proof (lookup_lt_Some _ _ _ Hi) as Hlt. rewrite (sk_len _ Ok) in Hlt.
  pose proof (sk_phase _ Ok) as Hp. unfold phase_ok in Hp.
  repeat split; intros E; rewrite E in Hp; destruct Hp as (_ & _ & Hf);
    first [destruct Hf as [Hf _]|idtac]; rewrite (Hf _ _ Hlt Hi) in Hu; done.
Qed.

(** The step of a thread on its entry: its shape and the manager's history. *)
Lemma conn_main_ok k n stop c s t i (Hf : fresh_handles) :
  t !! i = Some c -> entry_ok c -> c.(cn_pc) <> CDone -> rtc (mgr_step ctl) mstart (m, table_refs t, s) ->
  let '(c', s') := server_conn_main a mch m k n stop c s in
  entry_ok c' /\ cn_fd c' = cn_fd c /\ (cn_used c' = true -> cn_used c = true) /\
  holds_fd (cn_pc c') = (match cn_pc c with CClose => false | pc => holds_fd pc end) /\
  rtc (mgr_step ctl) mstart (m, table_refs (<[i := c']> t), s').
Proof.
  intros Hi Hok Hpc Hr. unfold server_conn_main, entry_ok in *.
  assert (Hsame : forall c', cn_conn c' = cn_conn c -> rtc (mgr_step ctl) mstart (m, table_refs (<[i := c']> t), s))
    by (intros c' E; by rewrite (table_refs_same t i c c')).
  destruct (cn_pc c) eqn:Ep; cbn [mret ST_ret].
  - destruct Hok as (Hu & Ht & Hc). rewrite ST_bind_eq. destruct (ExchangeAsServer _ _ _ _ _) as [[r k'] s'] eqn:Ee. cbn [fst snd mret ST_ret].
    destruct (manager_reachable_wf _ _ Hf Hr) as [bd W].
    pose proof (triple_run _ _ _ _ _ _ (Exchange_wf Hf bd _ _ m k (table_refs t)) W Ee) as Hx. cbn [fst] in Hx.
    pose proof (ms_exchange ctl _ _ _ m (table_refs t) s _ s' Ee) as Hstep. cbn [fst] in Hstep.
    destruct r as [u|]; cbn; (split; [|split; [done|split; [done|split; [done|]]]]).
    + split; [done|]. split; [done|]. exists u. by destruct Hx.
    + eapply rtc_r; [eapply rtc_r; [exact Hr|exact Hstep]|]. apply ms_order.
      apply (table_refs_insert t i c (set_pc CTest (set_conn (Some u) c)) Hi Hc).
    + split; [done|]. split; [done|]. by rewrite Hc.
    + rewrite (table_refs_same t i c) by done. eapply rtc_r; [exact Hr|exact Hstep].
  - destruct Hok as (Hu & Ht & u & Hc & Htj). destruct stop; cbn; (split; [|split; [done|split; [done|split; [done|by apply Hsame]]]]).
    + split; [done|]. split; [done|]. intros u' Hu'. congruence.
    + eauto.
  - destruct Hok as (Hu & Ht & u & Hc & Htj). destruct (n <=? 0); cbn; (split; [|split; [done|split; [done|split; [done|by apply Hsame]]]]).
    + split; [done|]. split; [done|]. intros u' Hu'. congruence.
    + eauto.
  - destruct Hok as (Hu & Ht & Hc). rewrite ST_bind_eq. cbn [mret ST_ret]. cbn.
    split; [done|]. split; [done|]. split; [done|]. split; [done|]. set (c' := set_pc CClose (set_conn None c)).
    destruct (cn_conn c) as [u|] eqn:Eu; [|by apply Hsame]. destruct (destroy_conn u s) as [x s'] eqn:Ed. cbn [snd].
    eapply rtc_r; [eapply rtc_r; [exact Hr|]|eapply (ms_disconnect ctl u m _ _ x s'); [by apply Hc|exact Ed]].
    apply ms_order. symmetry.
    assert (Hi' : <[i := c']> t !! i = Some c') by (apply list_lookup_insert_eq; by eapply lookup_lt_Some).
    pose proof (table_refs_insert (<[i := c']> t) i c' c Hi' eq_refl) as Hins.
    rewrite list_insert_insert_eq, (list_insert_id t i c Hi) in Hins. unfold conn_owned in Hins. by rewrite Eu in Hins.
  - destruct Hok as (Hu & Ht & Hc). cbn. split; [done|]. split; [done|]. split; [done|]. split; [done|by apply Hsame].
  - destruct Hok as (Hu & Ht & Hc). cbn. split; [done|]. split; [done|]. split; [done|]. split; [done|by apply Hsame].
  - done.
Qed.

Lemma phase_table v t : phase_ok v -> (forall k, free_below k v.(sv_table) -> free_below k t) -> phase_ok (with_table t v).
Proof. intros Hp Hf. unfold phase_ok in *. simpl. destruct (sv_main v); naive_solver. Qed.

Lemma history_running v s t : v.(sv_main) <> MDone -> rtc (mgr_step ctl) mstart (m, table_refs t, s) ->
  history_ok (with_sys s (with_table t v)).
Proof. intros Hm Hr. unfold history_ok. simpl. by destruct (sv_main v). Qed.

Lemma running_history v : v.(sv_main) <> MDone -> history_ok v -> rtc (mgr_step ctl) mstart (m, table_refs v.(sv_table), v.(sv_sys)).
Proof. unfold history_ok. by destruct (sv_main v). Qed.

Lemma conn_step_ok (Hf : fresh_handles) i k n v v' : conn_step a mch m silent i k n v = Some v' -> srv_ok v -> srv_ok v'.
Proof.
  intros E Ok. unfold conn_step in E. destruct (sv_table v !! i) as [c|] eqn:Hi; [|done].
  destruct (blocked silent v c); [done|].
  pose proof (sk_entry _ Ok _ _ Hi) as Hc. assert (Hpc : cn_pc c <> CDone) by (intros Hd; by rewrite Hd in E).
  destruct (running_phase v i c Ok Hi (entry_used _ Hc Hpc)) as (_ & _ & Hmain).
  pose proof (conn_main_ok k n (sv_stop v) c (sv_sys v) (sv_table v) i Hf Hi Hc Hpc (running_history _ Hmain (sk_history _ Ok))) as Hstep.
  destruct (server_conn_main _ _ _ _ _ _ _ _) as [c' s']. destruct Hstep as (Hc' & Hfd & Hu & Hh & Hr).
  assert (E' : v' = with_sys s' (with_table (<[i := c']> (sv_table v))
    (match cn_pc c with CClose => with_fds (sv_fds v ∖ {[cn_fd c]}) v | _ => v end))) by (destruct (cn_pc c); congruence).
  clear E. subst v'. set (w := match cn_pc c with CClose => _ | _ => v end).
  assert (Hw : sv_main w = sv_main v /\ sv_acc w = sv_acc v /\ sv_stop w = sv_stop v /\ sv_listening w = sv_listening v /\
    sv_table w = sv_table v) by (unfold w; by destruct (cn_pc c)). destruct Hw as (E1 & E2 & E3 & E4 & E5).
  split.
  - simpl. rewrite length_insert. apply (sk_len _ Ok).
  - simpl. intros j d Hj. destruct (decide (j = i)) as [->|Hne].
    + rewrite list_lookup_insert_eq in Hj by (by eapply lookup_lt_Some). by simplify_eq.
    + rewrite list_lookup_insert_ne in Hj by done. by eapply sk_entry.
  - simpl. rewrite E2. unfold w. destruct (cn_pc c) eqn:Ep; simpl;
      try (apply (fds_keep _ _ _ i c); [apply Ok|done|by rewrite Ep|done]).
    apply fds_close; [apply Ok|done|by rewrite Ep|done].
  - assert (Hp : phase_ok (with_table (<[i := c']> (sv_table v)) w)); [|exact Hp].
    apply phase_table.
    + pose proof (sk_phase _ Ok) as Hp. unfold phase_ok in *. by rewrite E1, E2, E3, E4, E5.
    + rewrite E5. intros j Hj. by apply (free_below_insert j _ i c).
  - apply history_running; [by rewrite E1|done].
Qed.

(** *** The accepting thread *)

Lemma accept_step_ok r spawned v v' :
  (forall f, r = Accepted f -> f ∉ v.(sv_fds)) -> server_sock_thread_main r spawned v = Some v' -> srv_ok v -> srv_ok v'.
Proof.
  intros Hr E Ok. destruct Ok as [L En F P Hist]. unfold server_sock_thread_main in E.
  destruct (sv_acc v) as [| |f i|] eqn:Ea; [| | |done].
  - injection E as <-. split; simpl; [done|done| | |done].
    + eapply fds_quiet; [exact F|done|]. by destruct (sv_stop v).
    + unfold phase_ok in *. simpl. rewrite Ea in P. destruct (sv_main v); naive_solver.
  - injection E as <-. destruct r as [f| |]; (split; simpl; [done|done| | |done]).
    + eapply fds_new; [exact F|done|by apply Hr].
    + unfold phase_ok in *. simpl. rewrite Ea in P. destruct (sv_main v); naive_solver.
    + by eapply fds_quiet.
    + unfold phase_ok in *. simpl. rewrite Ea in P. destruct (sv_main v); naive_solver.
    + by eapply fds_quiet.
    + unfold phase_ok in *. simpl. rewrite Ea in P. destruct (sv_main v); naive_solver.
  - assert (Hm : sv_main v = MWait \/ sv_main v = MJoinAcc).
    { unfold phase_ok in P. rewrite Ea in P. destruct (sv_main v); naive_solver. }
    assert (Hp : forall t fds, phase_ok (with_acc ATest (with_fds fds (with_table t v)))).
    { intros t fds. unfold phase_ok in *. simpl. destruct Hm as [Em|Em]; by rewrite Em in *. }
    assert (Hh : rtc (mgr_step ctl) mstart (m, table_refs (sv_table v), sv_sys v)).
    { apply running_history; [|done]. by destruct Hm as [-> | ->]. }
    assert (Hh' : forall t, table_refs t = table_refs (sv_table v) -> forall fds, history_ok (with_acc ATest (with_fds fds (with_table t v)))).
    { intros t Et fds. unfold history_ok. simpl. rewrite Et. by destruct Hm as [-> | ->]. }
    destruct (sv_table v !! i) as [c|] eqn:Hi.
    + destruct (cn_used c) eqn:Eu; [|destruct spawned]; injection E as <-.
      * split; simpl; [done|done| | |done].
        -- apply fds_next; [done|]. rewrite <- L. by apply lookup_lt_Some in Hi.
        -- unfold phase_ok in *. simpl. destruct Hm as [Em|Em]; by rewrite Em in *.
      * destruct (entry_free c (En _ _ Hi) Eu) as [Ep Ec]. split; simpl.
        -- by rewrite length_insert.
        -- intros j d Hj. destruct (decide (j = i)) as [->|Hne]; [|rewrite list_lookup_insert_ne in Hj by done; eauto].
           rewrite list_lookup_insert_eq in Hj by (by eapply lookup_lt_Some). by simplify_eq.
        -- by apply (fds_give _ _ _ i c i f); [|done|rewrite Ep|].
        -- apply (Hp _ (sv_fds v)).
        -- apply (Hh' _ (table_refs_same _ i c (mk_conn_t f true None true CExchange) Hi (eq_sym Ec)) (sv_fds v)).
      * destruct (entry_free c (En _ _ Hi) Eu) as [Ep Ec]. split; simpl.
        -- by rewrite length_insert.
        -- intros j d Hj. destruct (decide (j = i)) as [->|Hne]; [|rewrite list_lookup_insert_ne in Hj by done; eauto].
           rewrite list_lookup_insert_eq in Hj by (by eapply lookup_lt_Some). by simplify_eq.
        -- apply (fds_keep _ _ _ i c); [by eapply fds_drop|done|by rewrite Ep|by rewrite Ep].
        -- apply (Hp _ _).
        -- apply (Hh' _ (table_refs_same _ i c (mk_conn_t f false None false CDone) Hi (eq_sym Ec))).
    + injection E as <-. split; simpl; [done|done| | |].
      * by eapply fds_drop.
      * apply (Hp (sv_table v) _).
      * by apply (Hh' (sv_table v)).
Qed.

(** *** The main thread *)

Lemma free_below_S k t c : free_below k t -> t !! k = Some c -> cn_used c = false -> free_below (S k) t.
Proof. intros Hf Hk Hc j d Hj Hd. destruct (decide (j = k)) as [->|]; [congruence|]. apply (Hf j d); [lia|done]. Qed.

Lemma all_free t : length t = MAX_CLIENT_CNT -> (forall i c, t !! i = Some c -> entry_ok c) -> free_below MAX_CLIENT_CNT t ->
  Forall (fun c => cn_pc c = CDone /\ cn_conn c = None) t.
Proof.
  intros L En Hf. apply Forall_lookup. intros i c Hi. apply entry_free; [eauto|]. apply (Hf i c); [|done].
  rewrite <- L. by eapply lookup_lt_Some.
Qed.

Lemma main_step_ok v v' : server_main m v = Some v' -> srv_ok v -> srv_ok v'.
Proof.
  intros E [L En F P Hist]. unfold server_main, phase_ok, history_ok in *. destruct (sv_main v) as [| |k|k| | |] eqn:Em.
  - injection E as <-. by split.
  - destruct (sv_acc v) eqn:Ea; try done. injection E as <-. split; [done|done|simpl; by rewrite Ea| |done].
    unfold phase_ok. simpl. split; [done|]. split; [done|]. split; [lia|]. intros j c Hj. lia.
  - destruct P as (Hs & Ha & Hk & Hfree). destruct (sv_table v !! k) as [c|] eqn:Hi.
    + injection E as <-. pose proof (lookup_lt_Some _ _ _ Hi) as Hlt. rewrite L in Hlt.
      destruct (cn_used c && cn_tid c) eqn:Eu; (split; [done|done|done| |done]); unfold phase_ok; simpl.
      * done.
      * split; [done|]. split; [done|]. split; [lia|]. eapply free_below_S; [done|exact Hi|].
        pose proof (En _ _ Hi) as Hc. unfold entry_ok in Hc. destruct (cn_used c); [|done]. simpl in Eu.
        destruct (cn_pc c); destruct Hc as [? Hc]; try congruence; destruct Hc; congruence.
    + injection E as <-. split; [done|done|done| |done]. unfold phase_ok. simpl. split; [done|]. split; [done|].
      apply lookup_ge_None in Hi. rewrite L in Hi. intros j c Hj. apply Hfree. lia.
  - destruct P as (Hs & Ha & Hk & Hfree). destruct (sv_table v !! k) as [c|] eqn:Hi; [|done].
    destruct (cn_pc c) eqn:Ep; try done. injection E as <-. split; [done|done|done| |done]. unfold phase_ok. simpl.
    pose proof (lookup_lt_Some _ _ _ Hi) as Hlt. rewrite L in Hlt.
    split; [done|]. split; [done|]. split; [lia|]. eapply free_below_S; [done|exact Hi|].
    pose proof (En _ _ Hi) as Hc. unfold entry_ok in Hc. rewrite Ep in Hc. by destruct Hc.
  - injection E as <-. split; [done|done|done| |done]. unfold phase_ok. simpl. naive_solver.
  - destruct (destroy_context None m [] (sv_sys v)) as [u s'] eqn:Ed. injection E as <-.
    split; [done|done|done| |]; [unfold phase_ok; simpl; naive_solver|]. unfold history_ok. simpl.
    exists (sv_sys v). rewrite Ed. split; [|done]. destruct P as (_ & _ & Hfree & _).
    rewrite (table_refs_none (sv_table v)) in Hist; [done|]. eapply Forall_impl; [by apply all_free|]. by intros c [_ ?].
  - done.
Qed.

Lemma srv_step_ok (Hf : fresh_handles) v v' : srv_ok v -> srv_step a mch m silent v v' -> srv_ok v'.
Proof.
  intros Ok Hs. destruct Hs; [by eapply conn_step_ok|by eapply accept_step_ok|by eapply main_step_ok].
Qed.

Lemma srv_reachable_ok (Hf : fresh_handles) s v :
  rtc (mgr_step ctl) mstart (m, no_refs, s) -> rtc (srv_step a mch m silent) (srv_start s) v -> srv_ok v.
Proof. intros Hs Hr. apply (rtc_invariant (srv_step a mch m silent) srv_ok (srv_start s) v); [by apply srv_step_ok|by apply srv_start_ok|done]. Qed.

End server.

(** ** The set-up *)

Section setup.
Context `{Liburma} (Hf : fresh_handles) (ctl : bool) (a : argument) (mch : machine).

Lemma setup_ready spawned va pinned e :
  let '(r, s) := server_setup ctl a spawned va pinned e empty_sys in
  match r with
  | Some m => exists x, ready ctl m x s
  | None => wound_up s
  end.
Proof.
  pose proof (start_outcome Hf ctl a true 1 spawned va) as Ho. unfold server_setup. rewrite ST_bind_eq.
  destruct (ManagerInit _ _ _ _ _ _ _ _ _ _ _) as [[ok m1] s1]. cbn [fst snd] in *.
  destruct (negb ok); [rewrite ST_bind_eq; by left|]. rewrite ST_bind_eq.
  destruct (setup_buffer a true va m1 s1) as [[[rc b] m2] s2]. cbn [fst snd] in *.
  destruct (negb (rc =? 0)); [rewrite ST_bind_eq; by left|]. destruct Ho as [x Rd].
  assert (Hend : wound_up (snd (destroy_context None m2 [] s2))) by (right; exists x; by eapply ready_ended).
  destruct (_ && _); [by rewrite ST_bind_eq|]. destruct (negb (fst (server_listen e) =? 0)); [by rewrite ST_bind_eq|]. cbn. eauto.
Qed.

End setup.

(** What the main thread leaves at its end. *)
Lemma server_done `{Liburma} ctl a mch m silent x s v :
  fresh_handles -> ready ctl m x s -> rtc (srv_step a mch m silent) (srv_start s) v -> v.(sv_main) = MDone -> ended x v.(sv_sys).
Proof.
  intros Hf Rd Hr Em. pose proof (sk_history _ _ _ (srv_reachable_ok ctl a mch m silent Hf s v (rd_history _ _ _ _ Rd) Hr)) as Hi.
  unfold history_ok in Hi. rewrite Em in Hi. destruct Hi as (s0 & Hr0 & ->). destruct Rd as [_ R2 R3 R4]. by apply (ready_ended Hf ctl).
Qed.

(** C7: the threads of a server.  After a set-up that succeeded, in every
    interleaving of the main thread, the accepting thread and the connection
    threads, whichever peers fall silent: the calls on the library are correct until the context is
    destroyed; every open socket is held by exactly one thread; when the main
    thread is past its joins no other thread runs, no connection is left and all
    accepted sockets are closed; and when it has destroyed the context every
    handle has been deleted, in order but for the segment and its context. *)
Theorem server_threads_safe `{Liburma} ctl a mch silent spawned va pinned e m s v :
  fresh_handles -> server_setup ctl a spawned va pinned e empty_sys = (Some m, s) ->
  rtc (srv_step a mch m silent) (srv_start s) v ->
  (v.(sv_main) <> MDone -> is_Some (audit v.(sv_sys).(trace))) /\
  fds_ok v.(sv_table) v.(sv_acc) v.(sv_fds) /\
  (v.(sv_main) = MCloseListen \/ v.(sv_main) = MDestroy \/ v.(sv_main) = MDone ->
    v.(sv_acc) = ADone /\ Forall (fun c => cn_pc c = CDone /\ cn_conn c = None) v.(sv_table) /\ v.(sv_fds) = ∅) /\
  (v.(sv_main) = MDone -> exists x, ended x v.(sv_sys)).
Proof.
  intros Hf Es Hr. pose proof (setup_ready Hf ctl a spawned va pinned e) as Hs. rewrite Es in Hs. destruct Hs as [x Rd].
  pose proof (srv_reachable_ok ctl a mch m silent Hf s v (rd_history _ _ _ _ Rd) Hr) as [L En F P Hi]. split; [|split; [done|split]].
  - intros Hm. apply (running_history ctl) in Hi; [|done]. destruct (manager_reachable_wf _ _ Hf Hi) as [bd [W _]].
    destruct (wf_audit _ _ _ W) as (live & Ha & _). by eexists.
  - intros Hm. assert (Hfree : v.(sv_acc) = ADone /\ free_below MAX_CLIENT_CNT v.(sv_table)).
    { unfold phase_ok in P. destruct Hm as [E|[E|E]]; rewrite E in P; naive_solver. }
    destruct Hfree as [Ha Hfree]. pose proof (all_free _ L En Hfree) as Hall. split; [done|]. split; [done|].
    apply set_eq. intros f. split; [|set_solver]. intros Hin. exfalso.
    destruct (fo_open _ _ _ F f Hin) as [[k E]|(i & c & Hic & Hh & _)]; [congruence|].
    destruct (proj1 (Forall_lookup _ _) Hall i c Hic) as [Ep _]. by rewrite Ep in Hh.
  - intros Em. exists x. by eapply server_done.
Qed.

(** A server that accepts one client, which goes away during the handshake, and
    is then stopped. *)
Definition demo_listen : listen_env := mk_listen 3 0 2 0 0 0 true.

Definition demo_setup : option manager * sys := @server_setup demo_ok true demo_write true (Some 4096) 0 demo_listen empty_sys.

Definition demo_server : manager := default new_manager (fst demo_setup).

Lemma demo_setup_ok : demo_setup = (Some demo_server, snd demo_setup).
Proof. by vm_compute. Qed.

Definition gone : sock := mk_sock [] [ReadUpTo 0] 1000 [].

Definition demo_schedule : list turn :=
  [GoAccept Again true; GoAccept (Accepted 7) true; GoAccept Again true; GoMain; GoConn 0 gone 0; GoAccept Again true;
   GoMain; GoMain; GoConn 0 gone 0; GoConn 0 gone 0; GoConn 0 gone 0; GoMain] ++ replicate 12 GoMain.

(** Every peer goes on; the peer of socket 7 falls silent. *)
Definition all_talk : srv -> Z -> bool := fun _ _ => false.
Definition seven_silent : srv -> Z -> bool := fun _ fd => fd =? 7.

Definition demo_run (silent : srv -> Z -> bool) (l : list turn) : option srv :=
  @run_schedule demo_ok demo_write demo_machine demo_server silent l (srv_start (snd demo_setup)).

Lemma demo_run_ends : is_Some (demo_run all_talk demo_schedule) /\ sv_main <$> demo_run all_talk demo_schedule = Some MDone.
Proof. split; [apply (bool_decide_unpack _)|]; by vm_compute. Qed.

Lemma server_threads_safe_witness : exists v x, demo_run all_talk demo_schedule = Some v /\ ended x v.(sv_sys).
Proof.
  destruct demo_run_ends as [[v Ev] Em]. rewrite Ev in Em. injection Em as Em.
  destruct (proj2 (proj2 (proj2 (@server_threads_safe demo_ok true demo_write demo_machine all_talk true (Some 4096) 0 demo_listen
    demo_server (snd demo_setup) v (demo_fresh _ _) demo_setup_ok (run_schedule_rtc _ _ _ _ _ _ _ Ev)))) Em) as [x Hx].
  exists v, x. exact (conj Ev Hx).
Defined.

(** ** The end *)

(** How far a thread is from its end once [server_stop] is set. *)
Definition conn_weight (c : conn_t) : nat :=
  match c.(cn_pc) with CExchange => 7 | CRead => 6 | CTest => 5 | CReset => 4 | CClose => 3 | CClear => 2 | CDone => 0 end.

Definition acc_weight (p : acc_pc) : nat :=
  match p with AAccept => 20 | AScan _ i => (MAX_CLIENT_CNT - i) + 9 | ATest => 1 | ADone => 0 end.

Definition main_weight (p : main_pc) : nat :=
  match p with
  | MWait => 31 | MJoinAcc => 30
  | MScan k => 2 * (MAX_CLIENT_CNT - k) + 5 | MJoining k => 2 * (MAX_CLIENT_CNT - k) + 4
  | MCloseListen => 3 | MDestroy => 2 | MDone => 0
  end.

Definition work_left (v : srv) : nat :=
  sum_list_with conn_weight v.(sv_table) + acc_weight v.(sv_acc) + main_weight v.(sv_main).

#[local] Instance main_pc_eq_dec : EqDecision main_pc.
Proof. solve_decision. Defined.

Lemma sum_insert t i c c' : t !! i = Some c ->
  (sum_list_with conn_weight (<[i := c']> t) + conn_weight c = sum_list_with conn_weight t + conn_weight c')%nat.
Proof.
  revert i. induction t as [|d t IH]; intros [|i] Hi; simpl in *; [done|done| |].
  - injection Hi as ->. lia.
  - specialize (IH i Hi). lia.
Qed.

Lemma work_bound v : length v.(sv_table) = MAX_CLIENT_CNT -> v.(sv_main) <> MWait -> (work_left v <= 120)%nat.
Proof.
  intros L Hm. unfold work_left.
  assert (Ht : (sum_list_with conn_weight (sv_table v) <= 7 * length (sv_table v))%nat).
  { clear L. induction (sv_table v) as [|c t IH]; simpl; [done|].
    assert (conn_weight c <= 7)%nat by (unfold conn_weight; destruct (cn_pc c); lia). lia. }
  rewrite L in Ht. unfold MAX_CLIENT_CNT in *.
  assert (acc_weight (sv_acc v) <= 20)%nat by (unfold acc_weight, MAX_CLIENT_CNT; destruct (sv_acc v); lia).
  assert (main_weight (sv_main v) <= 30)%nat by (unfold main_weight, MAX_CLIENT_CNT; destruct (sv_main v); done || lia). lia.
Qed.

Section ends.
Context `{Liburma} (ctl : bool) (a : argument) (mch : machine) (m : manager) (silent : srv -> Z -> bool).

Lemma conn_main_weight k n c s : c.(cn_pc) <> CDone ->
  (conn_weight (fst (server_conn_main a mch m k n true c s)) < conn_weight c)%nat.
Proof.
  intros Hc. unfold server_conn_main, conn_weight. destruct (cn_pc c) eqn:Ep; simpl; try lia; try done.
  - rewrite ST_bind_eq. destruct (ExchangeAsServer _ _ _ _ _) as [[[u|] k'] s']; simpl; lia.
  - destruct (n <=? 0); simpl; lia.
  - rewrite ST_bind_eq. simpl. lia.
Qed.

Lemma step_decreases v v' : srv_ok ctl m v -> v.(sv_stop) = true -> srv_step a mch m silent v v' ->
  (work_left v' < work_left v)%nat /\ v'.(sv_stop) = true.
Proof.
  intros Ok Hs Hstep. destruct Hstep as [i k n v v' E|r spawned v v' _ E|v v' E].
  - unfold conn_step in E. destruct (sv_table v !! i) as [c|] eqn:Hi; [|done]. destruct (blocked silent v c); [done|].
    assert (Hpc : cn_pc c <> CDone) by (intros Hd; by rewrite Hd in E). rewrite Hs in E.
    pose proof (conn_main_weight k n c (sv_sys v) Hpc) as Hw. destruct (server_conn_main _ _ _ _ _ _ _ _) as [c' s']. simpl in Hw.
    pose proof (sum_insert _ _ c c' Hi) as Hsum.
    assert (E' : sv_table v' = <[i := c']> (sv_table v) /\ sv_acc v' = sv_acc v /\ sv_main v' = sv_main v /\ sv_stop v' = true)
      by (destruct (cn_pc c); by simplify_eq/=). destruct E' as (E1 & E2 & E3 & ->). split; [|done].
    unfold work_left. rewrite E1, E2, E3. lia.
  - unfold server_sock_thread_main in E. pose proof (fo_scan _ _ _ (sk_fds _ _ _ Ok)) as Hk. unfold work_left.
    destruct (sv_acc v) as [| |f i|] eqn:Ea; [| | |done].
    + simplify_eq/=. rewrite Hs. simpl. split; [lia|done].
    + simplify_eq/=. unfold MAX_CLIENT_CNT. destruct r; simpl; (split; [lia|done]).
    + destruct (Hk f i eq_refl) as [Hi _]. unfold MAX_CLIENT_CNT in *. destruct (sv_table v !! i) as [c|] eqn:Hc.
      * pose proof (lookup_lt_Some _ _ _ Hc) as Hlt. rewrite (sk_len _ _ _ Ok) in Hlt. unfold MAX_CLIENT_CNT in Hlt.
        destruct (cn_used c) eqn:Eu; [|destruct spawned]; simplify_eq/=.
        -- unfold MAX_CLIENT_CNT. split; [lia|done].
        -- pose proof (sum_insert _ _ c (mk_conn_t f true None true CExchange) Hc) as Hsum. unfold MAX_CLIENT_CNT.
           unfold conn_weight in Hsum at 4. simpl in Hsum. split; [lia|done].
        -- pose proof (sum_insert _ _ c (mk_conn_t f false None false CDone) Hc) as Hsum. unfold MAX_CLIENT_CNT.
           unfold conn_weight in Hsum at 4. simpl in Hsum. split; [lia|done].
      * simplify_eq/=. unfold MAX_CLIENT_CNT. split; [lia|done].
  - unfold server_main in E. pose proof (sk_phase _ _ _ Ok) as Hp. unfold phase_ok in Hp. unfold work_left.
    destruct (sv_main v) as [| |k|k| | |] eqn:Em.
    + simplify_eq/=. split; [lia|done].
    + destruct (sv_acc v) eqn:Ea; simplify_eq/=. rewrite Ea. unfold MAX_CLIENT_CNT. split; [simpl; lia|done].
    + destruct Hp as (_ & _ & Hk & _). destruct (sv_table v !! k) as [c|] eqn:Hc; simplify_eq/=; unfold MAX_CLIENT_CNT in *.
      * pose proof (lookup_lt_Some _ _ _ Hc) as Hlt. rewrite (sk_len _ _ _ Ok) in Hlt. unfold MAX_CLIENT_CNT in Hlt.
        destruct (_ && _); simpl; unfold MAX_CLIENT_CNT; (split; [lia|done]).
      * split; [lia|done].
    + destruct (sv_table v !! k) as [c|] eqn:Hc; [|done]. destruct (cn_pc c); simplify_eq/=.
      pose proof (lookup_lt_Some _ _ _ Hc) as Hlt. rewrite (sk_len _ _ _ Ok) in Hlt. unfold MAX_CLIENT_CNT in *. split; [lia|done].
    + simplify_eq/=. split; [lia|done].
    + destruct (destroy_context _ _ _ _). simplify_eq/=. split; [lia|done].
    + done.
Qed.

(** The places where a connection thread reads its socket. *)
Definition reads (pc : conn_pc) : Prop := pc = CExchange \/ pc = CRead.

(** The main thread is joining a thread that is blocked in a read. *)
Definition waits_for_silent (v : srv) : Prop :=
  exists i c, v.(sv_main) = MJoining i /\ v.(sv_table) !! i = Some c /\ reads c.(cn_pc) /\ silent v c.(cn_fd) = true.

Lemma step_exists v : srv_ok ctl m v -> v.(sv_stop) = true -> v.(sv_main) <> MDone ->
  (exists v', srv_step a mch m silent v v') \/ waits_for_silent v.
Proof.
  intros Ok Hs Hm. destruct (server_main m v) as [v'|] eqn:E; [left; exists v'; by apply st_main|].
  unfold server_main in E. destruct (sv_main v) as [| |k|k| | |] eqn:Em; try done.
  - destruct (server_sock_thread_main Again true v) as [v'|] eqn:Ea.
    + left. exists v'. by apply (st_accept _ _ _ _ Again true).
    + exfalso. unfold server_sock_thread_main in Ea. destruct (sv_acc v); try done. repeat case_match; done.
  - by destruct (sv_table v !! k).
  - pose proof (sk_phase _ _ _ Ok) as Hp. unfold phase_ok in Hp. rewrite Em, <- (sk_len _ _ _ Ok) in Hp.
    destruct Hp as (_ & _ & Hk & _). destruct (lookup_lt_is_Some_2 _ _ Hk) as [c Hc]. rewrite Hc in E.
    destruct (blocked silent v c) eqn:Eb.
    + right. exists k, c. unfold blocked in Eb. destruct (cn_pc c) eqn:Ep; try done; (split_and!; [done|done| |done]); unfold reads; auto.
    + left. destruct (conn_step a mch m silent k (mk_sock [] [] 0 []) 0 v) as [v'|] eqn:Ec; [exists v'; by eapply st_conn|].
      exfalso. unfold conn_step in Ec. rewrite Hc, Eb in Ec.
      destruct (cn_pc c); [..|done]; by destruct (server_conn_main _ _ _ _ _ _ _ _).
  - by destruct (destroy_context _ _ _ _).
Qed.

(** A thread that reads from a peer that is never heard of again stays where it
    is. *)
Definition stuck_reader (i : nat) (c : conn_t) (v : srv) : Prop := v.(sv_table) !! i = Some c.

Lemma reader_stays i c v v' :
  reads c.(cn_pc) -> c.(cn_used) = true -> (forall w, silent w c.(cn_fd) = true) ->
  stuck_reader i c v -> srv_step a mch m silent v v' -> stuck_reader i c v'.
Proof.
  unfold stuck_reader. intros Hpc Hu Hsil Hi Hstep. destruct Hstep as [j k n v v' E|r spawned v v' _ E|v v' E].
  - unfold conn_step in E. destruct (sv_table v !! j) as [d|] eqn:Hj; [|done].
    destruct (blocked silent v d) eqn:Eb; [done|]. assert (Hne : j <> i).
    { intros ->. assert (d = c) as -> by congruence. unfold blocked in Eb. destruct Hpc as [E0|E0]; rewrite E0, Hsil in Eb; done. }
    assert (E' : exists d', sv_table v' = <[j := d']> (sv_table v)).
    { destruct (server_conn_main _ _ _ _ _ _ _ _) as [d' s']. exists d'. by destruct (cn_pc d); simplify_eq/=. }
    destruct E' as [d' ->]. by rewrite list_lookup_insert_ne.
  - unfold server_sock_thread_main in E. destruct (sv_acc v) as [| |f j|]; [by simplify_eq/=|by simplify_eq/=; destruct r| |done].
    destruct (sv_table v !! j) as [d|] eqn:Hj; [|by simplify_eq/=]. destruct (cn_used d) eqn:Ed; [by simplify_eq/=|].
    assert (Hne : j <> i) by (intros ->; congruence). destruct spawned; simplify_eq/=; by rewrite list_lookup_insert_ne.
  - unfold server_main in E. destruct (sv_main v) as [| |k|k| | |]; simplify_eq/=; try done.
    + by destruct (sv_acc v); simplify_eq/=.
    + by destruct (sv_table v !! k); simplify_eq/=.
    + destruct (sv_table v !! k) as [d|]; [|done]. by destruct (cn_pc d); simplify_eq/=.
    + by destruct (destroy_context _ _ _ _); simplify_eq/=.
Qed.

Lemma steps_bounded (Hf : fresh_handles) n : forall v v', srv_ok ctl m v -> v.(sv_stop) = true ->
  nsteps (srv_step a mch m silent) n v v' -> (n + work_left v' <= work_left v)%nat /\ srv_ok ctl m v' /\ v'.(sv_stop) = true.
Proof.
  induction n as [|n IH]; intros v v' Ok Hs Hn; inversion Hn as [|? ? w ? Hstep Hrest]; subst; [done|].
  destruct (step_decreases v w Ok Hs Hstep) as [Hw Hs']. destruct (IH w v') as (? & ? & ?); [by eapply srv_step_ok|done|done|].
  split; [lia|done].
Qed.

End ends.

(** C8: the end of a server.  The reads of a connection thread do not return
    while its peer is silent ([silent], any predicate).  Once the user has asked
    for the end, every run of the threads is finite, of at most 120 steps
    whatever the threads are doing at that moment; a run that cannot go on has
    reached the end of [run_server], or the main thread is joining a thread that
    is in a blocking read (of the handshake or of its loop) on a socket whose
    peer is silent: no thread waits for another for any other reason.  And that
    wait can be for ever: while a thread reads from a peer that stays silent,
    the end is not reached. *)
Theorem server_shutdown_ends `{Liburma} ctl a mch silent spawned va pinned e m s v :
  fresh_handles -> server_setup ctl a spawned va pinned e empty_sys = (Some m, s) ->
  rtc (srv_step a mch m silent) (srv_start s) v -> v.(sv_stop) = true ->
  (forall n v', nsteps (srv_step a mch m silent) n v v' -> (n <= 120)%nat) /\
  (forall v', rtc (srv_step a mch m silent) v v' -> (forall w, ~ srv_step a mch m silent v' w) ->
    v'.(sv_main) = MDone \/ waits_for_silent silent v') /\
  (forall i c v', v.(sv_table) !! i = Some c -> reads c.(cn_pc) -> (forall w, silent w c.(cn_fd) = true) ->
    rtc (srv_step a mch m silent) v v' -> v'.(sv_main) <> MDone).
Proof.
  intros Hf Es Hr Hstop. pose proof (setup_ready Hf ctl a spawned va pinned e) as Hs. rewrite Es in Hs. destruct Hs as [x Rd].
  assert (Hok : forall w, rtc (srv_step a mch m silent) v w -> srv_ok ctl m w).
  { intros w Hw. apply (srv_reachable_ok ctl a mch m silent Hf s w (rd_history _ _ _ _ Rd)). by etrans. }
  pose proof (Hok v (rtc_refl _ _)) as Ok. split; [|split].
  - intros n v' Hn. destruct (steps_bounded ctl a mch m silent Hf n v v' Ok Hstop Hn) as [Hle _].
    assert (v.(sv_main) <> MWait).
    { pose proof (sk_phase _ _ _ Ok) as Hp. unfold phase_ok in Hp. intros E. rewrite E in Hp. destruct Hp. congruence. }
    pose proof (work_bound v (sk_len _ _ _ Ok) ltac:(done)). lia.
  - intros v' [n Hn]%rtc_nsteps Hno. destruct (steps_bounded ctl a mch m silent Hf n v v' Ok Hstop Hn) as (_ & Ok' & Hs').
    destruct (decide (sv_main v' = MDone)) as [|Hne]; [by left|].
    destruct (step_exists ctl a mch m silent v' Ok' Hs' Hne) as [[w Hw]|?]; [by destruct (Hno w)|by right].
  - intros i c v' Hi Hpc Hsil Hvv Hend. pose proof (Hok v' Hvv) as Ok'.
    assert (Hu : c.(cn_used) = true).
    { apply (entry_used c); [exact (sk_entry _ _ _ Ok i c Hi)|]. by destruct Hpc as [-> | ->]. }
    assert (Hi' : stuck_reader i c v').
    { apply (rtc_invariant (srv_step a mch m silent) (stuck_reader i c) v v'); [|done|done].
      intros w w'. by apply reader_stays. }
    pose proof (sk_phase _ _ _ Ok') as Hp. unfold phase_ok in Hp. rewrite Hend in Hp. destruct Hp as (_ & _ & Hfree & _).
    pose proof (lookup_lt_Some _ _ _ Hi') as Hlt. rewrite (sk_len _ _ _ Ok') in Hlt.
    rewrite (Hfree i c Hlt Hi') in Hu. done.
Qed.

(** The moment the user presses enter in the run above. *)
Lemma demo_stop_asked silent : silent = all_talk \/ silent = seven_silent ->
  is_Some (demo_run silent (take 4 demo_schedule)) /\
  (sv_stop <$> demo_run silent (take 4 demo_schedule)) = Some true /\
  (demo_run silent (take 4 demo_schedule) ≫= fun v => head v.(sv_table)) = Some (mk_conn_t 7 true None true CExchange).
Proof. intros [-> | ->]; (split; [apply (bool_decide_unpack _)|split]); by vm_compute. Qed.

(** Pressed while the client of socket 7 is in the handshake: if the client goes
    on the run ends, if it falls silent the server never does. *)
Lemma server_shutdown_ends_witness :
  (exists v, demo_run all_talk (take 4 demo_schedule) = Some v /\
    forall n v', nsteps (@srv_step demo_ok demo_write demo_machine demo_server all_talk) n v v' -> (n <= 120)%nat) /\
  (exists v, demo_run seven_silent (take 4 demo_schedule) = Some v /\
    forall v', rtc (@srv_step demo_ok demo_write demo_machine demo_server seven_silent) v v' -> v'.(sv_main) <> MDone).
Proof.
  split.
  - destruct (demo_stop_asked all_talk ltac:(by left)) as ([v Ev] & Es & _). rewrite Ev in Es. injection Es as Es.
    exists v. split; [exact Ev|].
    exact (proj1 (@server_shutdown_ends demo_ok true demo_write demo_machine all_talk true (Some 4096) 0 demo_listen
      demo_server (snd demo_setup) v (demo_fresh _ _) demo_setup_ok (run_schedule_rtc _ _ _ _ _ _ _ Ev) Es)).
  - destruct (demo_stop_asked seven_silent ltac:(by right)) as ([v Ev] & Es & Eh). rewrite Ev in Es, Eh. injection Es as Es.
    exists v. split; [exact Ev|]. intros v' Hv'.
    refine (proj2 (proj2 (@server_shutdown_ends demo_ok true demo_write demo_machine seven_silent true (Some 4096) 0 demo_listen
      demo_server (snd demo_setup) v (demo_fresh _ _) demo_setup_ok (run_schedule_rtc _ _ _ _ _ _ _ Ev) Es))
      0%nat (mk_conn_t 7 true None true CExchange) v' _ _ _ Hv').
    + simpl in Eh. rewrite head_lookup in Eh. exact Eh.
    + by left.
    + intros w. reflexivity.
Defined.
