(* ===== verification/Worker.v ===== *)
(** * Worker: [client_worker_main] of [src/kv_bench.cpp]

    The function of a client's worker thread: the binding to a CPU (Pinning),
    the deadline, and then, by operation, a request pipeline whose failure is
    counted and made fatal, or the synchronous rounds of mixed mode.  The two
    kinds of workers use different members of [worker_t], and so they have
    different states here. *)

From S2P Require Import Prelude Hist Args Affinity Requests Pipeline Mixed PipelineInv PipelineThms PipelineProps Pinning.
From S2P Require Import ManagerWorld.
From stdpp Require Import list gmap.
#[local] Open Scope Z_scope.

(** ** The function *)

Section worker.
Context {W : Type} `{HM : Manager W}.
Context (a : argument) (mch : machine) (client_data rva : Z) (peer_chip : option Z).

(** The branches of write and get: whether this worker has made the run fatal;
    [None] when the pipeline has not ended within [fuel] passes. *)
Definition pipeline_worker_main (kind : pipe_kind) (fuel : nat) : ST (@pst W) (option bool) :=
  n ← lift now_ns;
  let deadline := n +u64 (a.(duration_sec) *u64 1000000000) in
  lift now_ns ;;
  r ← client_pipeline a mch kind client_data rva fuel deadline;
  match r with
  | None => mret None
  | Some rc =>
      if rc =? 0 then mret (Some false)
      else upd (fun w => set_w_errors (w.(w_errors) +u64 1) w) ;; mret (Some true)
  end.

(** The whole function: the CPU binding, and the branch of the operation. *)
Inductive worker_state := PipelineWorker (s : @pst W) | MixedWorker (s : @mst W).

Definition client_worker_main (sched : gset Z -> Z) (fuel : nat) (ws : worker_state)
    : option (Z * gset Z) * option worker_state :=
  match ws with
  | PipelineWorker s =>
      (pin_worker sched a mch s.(wk).(w_id),
       let '(r, s') := pipeline_worker_main (if a.(op) =? OP_WRITE then PWrite else PGet) fuel s in
       match r with Some _ => Some (PipelineWorker s') | None => None end)
  | MixedWorker s =>
      (pin_worker sched a mch s.(mw).(m_id),
       let '(r, s') := mixed_worker_main a mch client_data rva peer_chip fuel s in
       if (r : bool) then Some (MixedWorker s') else None)
  end.

End worker.

(** ** What a pipeline worker guarantees *)

(** The CPU binding: a worker in affinity mode asks for one CPU of the client's
    list, with which its chip is chosen. *)
Lemma pin_worker_cpu sched a m wid r set :
  0 <= wid -> pin_worker sched a m wid = Some (r, set) ->
  exists cpu, cpu ∈ my_cpu_list a m true MAX_CPUS /\ set = cpu_set cpu ∅ /\ r = sched set.
Proof.
  intros Hw. unfold pin_worker. destruct (_ =? _); [|done]. destruct (_ !! _) as [cpu|] eqn:E; [|done].
  intros [= <- <-]. exists cpu. split; [by eapply list_elem_of_lookup_2|done].
Qed.

Section outcome.
Context {W : Type} `{HM : Manager W} {HL : ManagerLaws W}.
Context (a : argument) (mch : machine) (kind : pipe_kind) (client_data rva : Z).

Lemma idle_now s : idle a s ->
  idle a (snd (lift (W := W) now_ns s)) /\ wk (snd (lift (W := W) now_ns s)) = wk s /\
  wd (snd (lift (W := W) now_ns s)) = snd (now_ns (wd s)) /\
  history (wd (snd (lift (W := W) now_ns s))) = history (wd s).
Proof.
  intros (Hr & Hw & Hh & Hl). destruct (now_law (wd s) Hw I) as (Hw' & Eh & El & Ey). unfold lift.
  destruct (now_ns (wd s)) as [t w']. simpl in *. split; [|done]. unfold idle. simpl. by rewrite Eh, El.
Qed.

(** Only the worker and the record of a state matter to an account. *)
Lemma gave_up_from s1 s2 v :
  wk s1 = wk s2 -> history (W := W) (wd s1) = history (wd s2) -> gave_up a kind s1 v -> gave_up a kind s2 v.
Proof.
  intros Ew Ey (D & r & b & HI & [S1 S2 S3] & Hrb). exists D, r, b. rewrite <- Ew. split; [exact HI|].
  split; [|exact Hrb]. unfold pview in *. simpl in *. rewrite Ey in *. by constructor.
Qed.

Definition one_error (v : view) : view := upd_vw (fun w => set_w_errors (w.(w_errors) +u64 1) w) v.

(** C11: a worker thread of write or get.  It returns once the clock has reached
    its deadline ([--duration] after its first reading of the clock): either
    without making the run fatal, and then it has drained its pipeline, with
    nothing in flight, held without reason or uncounted; or it has made the run
    fatal and counted one more error on top of a pipeline whose accounts are
    correct: exactly one fault was seen in the run, and the lanes held beyond
    those in flight are the ones on which a wait failed. *)
Theorem worker_main_outcome {HC : ManagerClock W} fuel s n w1 :
  idle a s -> now_ns s.(wd) = (n, w1) ->
  (budget (n +u64 (a.(duration_sec) *u64 1000000000)) w1 < fuel)%nat ->
  exists fatal s', pipeline_worker_main a mch client_data rva kind fuel s = (Some fatal, s') /\
  if fatal : bool
  then exists v, gave_up a kind s v /\ pview s' = one_error v
  else ended a kind s.(wk) (pview s').
Proof.
  intros Hi En Hb. unfold pipeline_worker_main. rewrite ST_bind_eq. destruct (idle_now s Hi) as (Hi1 & Ew1 & Ed1 & Ey1).
  rewrite En in Ed1. assert (Efst : fst (lift (W := W) now_ns s) = n) by (unfold lift; by rewrite En). rewrite Efst.
  set (s1 := snd (lift now_ns s)) in *. cbn [snd] in Ed1. rewrite ST_bind_eq.
  destruct (idle_now s1 Hi1) as (Hi2 & Ew2 & Ed2 & Ey2). set (s2 := snd (lift now_ns s1)) in *.
  set (deadline := n +u64 _) in *.
  assert (Hb2 : (budget deadline s2.(wd) < fuel)%nat).
  { rewrite Ed2, Ed1. eapply Nat.le_lt_trans; [apply now_time|done]. }
  rewrite ST_bind_eq. pose proof (pipeline_returns a mch kind client_data rva fuel deadline s2 (proj2 (u64_range _)) Hi2 Hb2) as Hret.
  destruct (wp_client_pipeline a mch kind client_data rva fuel deadline s2 Hi2 s2) as [_ HQ]; [split; [apply Hi2|done]|].
  destruct (client_pipeline a mch kind client_data rva fuel deadline s2) as [[rc|] s3]; [|done]. cbn [fst snd] in *.
  rewrite Ew2, Ew1 in HQ. destruct HQ as [[-> He]|[-> HG]].
  - exists false, s3. done.
  - do 2 eexists. split; [done|]. exists (pview s3). split; [|done].
    apply (gave_up_from s2); [by rewrite Ew2, Ew1|by rewrite <- Ey1, <- Ey2|exact HG].
Qed.

End outcome.

Lemma worker_main_outcome_witness :
  exists fatal s', pipeline_worker_main demo_pipe demo_machine 4096 8192 PWrite 200
    (demo_state demo_lanes [] (replicate 150 (all_done 10))) = (Some fatal, s').
Proof.
  destruct (worker_main_outcome demo_pipe demo_machine PWrite 4096 8192 200
    (demo_state demo_lanes [] (replicate 150 (all_done 10))) _ _ (demo_idle _ _) (surjective_pairing _)) as (f & s' & E & _).
  - vm_compute. lia.
  - exists f, s'. exact E.
Defined.
