(* ===== verification/Main.v ===== *)
(** * Main: [main] of [src/kv_bench.cpp]

    The whole program: the clock is calibrated, the command line read, and one of
    the five modes run.  What the rest of the world does (threads, sockets,
    memory, the scheduler) is in [world_of]; a run of the server is any run of its
    threads, so [main] is a relation between the words of the command line and
    the return value with the final state. *)

From S2P Require Import Prelude Clock Calibrate Args Affinity Requests Pipeline SendLane UrmaEvents Liburma UrmaResource UrmaResourceInv.
From S2P Require Import UrmaResourceProps Wire UrmaManager UrmaManagerProps Dual Session SessionProps DualSession DualSessionProps.
From S2P Require Import Getopt Pinning ChipQuery Server ServerProps.
From Stdlib Require Import String.
From stdpp Require Import list gmap strings.
#[local] Open Scope Z_scope.
#[local] Open Scope list_scope.


Section main.
Context `{Liburma} (bondp_ctl : bool).



End main.

(** ** Theorems *)

(** *** The worker threads of a client *)





Section work.
Context `{Liburma} (Hf : fresh_handles) (c : UrmaConnection) (Ht : is_Some c.(targetJetty)).



End work.

Section ends.
Context `{Liburma} (Hf : fresh_handles) (ctl : bool).





End ends.










